(* ===== verification/_CoqProject ===== *)
-Q . S2P
Prelude.v
Float64.v
FloatBounds.v
Netip.v
Topology.v
CostGraph.v
PceGraph.v
Demo.v
Cspf.v
CspfCorrect.v
Bandwidth.v
Tenants.v
Demand.v
Pce.v
PceCorrect.v
PathStore.v
Sid.v
Registry.v
Inventory.v
Controller.v
Stamp.v
StampCorrect.v
Resource.v
Reconcile.v
Contract.v
MemDataplane.v
ReconcileCorrect.v
RenderCorrect.v
Netlink.v
NetlinkCorrect.v
Probe.v
ProbeCorrect.v
Telemetry.v
TelemetryCorrect.v
Reports.v
ReportsCorrect.v
Store.v
TenantStore.v
TenantStoreCorrect.v
Swan.v
Tunnel.v
TunnelCorrect.v
Feed.v
Snapshot.v
SnapshotCorrect.v
Lifecycle.v
Startup.v
NetipCorrect.v
NodeCorrect.v
EndToEnd.v
Queries.v
History.v
Devtools.v
Srh.v
Kv.v
Config.v
Runner.v
Process.v
