(* ===== verification/Prelude.v ===== *)
(** * Maeto: a verification of its control plane, agents and dataplane

    Maeto steers the traffic of tenants over an SRv6 network.  A control plane
    (src/services/control-plane) keeps the topology, measures links, computes
    one path per tenant, pair of PoPs and traffic class within the reserved
    bandwidth, and publishes versioned intents for the nodes through a NATS
    bucket.  Agents on the PEs (src/services/maeto-agent) and portals at the
    customers' sites (src/services/maeto-portal) watch their intents, reconcile
    the kernel with them (src/libs/dataplane), bring up IPsec tunnels with
    strongSwan (src/libs/swan), and measure links with STAMP probes
    (src/libs/stamp, src/libs/probe) whose results return to the control plane.

    ** Files, and the code they model

    - [Prelude]: results of fallible code, machine integers, time, string
      order, sorting, ranging over Go maps, decimal printing, tactics and the
      hint database [maeto].
    - [Float64], [FloatBounds]: the float64 operations the code uses, as
      binary64 of the Standard Library's [SpecFloat], with the order, rounding
      and overflow facts the rest needs.
    - [Netip]: net/netip addresses and prefixes, their parsing and printing.
    - [Topology]: topology.go, topology_clab.go; the topology manager, the
      graph, its copy and the learning of End.X segments.
    - [CostGraph]: cost_graph.go; measured costs per link and readiness.
    - [PceGraph]: pce_graph.go; parallel links gathered into logical edges.
    - [Cspf], [CspfCorrect]: cspf.go; the shortest path computation and its
      optimality, completeness and termination.  [Demo] is the topology the
      witnesses use.
    - [Bandwidth]: bandwidth_reservation.go; the hose model registry, its
      capacity check and moves, and constrained optimality.
    - [Tenants], [Demand]: tenant_repository.go, pce_demand.go; validated
      tenants and the demands derived from them.
    - [Pce], [PceCorrect]: pce.go, pce_report.go; a tick of the path
      computation engine and the invariants of every reachable engine.
    - [PathStore]: the path store of pce.go with its pointers, and a tick as
      the writes it makes to shared maps and paths.
    - [Sid], [Registry], [Inventory], [Controller]: hash.go,
      service_registry*.go, node_inventory.go, controller_*.go and
      libs/nodesync; segment identifiers, intents and their transactions,
      recovery, the dispatch of paths to nodes, tunnel updates.
    - [Stamp], [StampCorrect]: libs/stamp; the packet codec, timestamps, error
      estimates, the sender and the reflector.
    - [Resource], [Reconcile], [Contract], [MemDataplane], [ReconcileCorrect],
      [RenderCorrect]: libs/dataplane/resource*.go, reconciler*.go, state.go;
      resources, rendering, and the reconciler over any implementation of the
      class [Dataplane]; [Contract] states what it relies on, and
      [MemDataplane] is a kernel that fulfils it.
    - [Netlink], [NetlinkCorrect]: dataplane_netlink.go; the Linux dataplane as
      the netlink and nftables calls it makes, against the kernel's answers.
    - [Probe], [ProbeCorrect]: libs/probe; probe configurations, senders,
      reflectors, interface counters, dispatch and the supervisor.
    - [Telemetry], [TelemetryCorrect]: telemetry_collector*.go, ewma.go; from
      probe results to link costs.
    - [Reports], [ReportsCorrect]: topology and state reports of the nodes and
      their collectors in the control plane.
    - [Store], [TenantStore], [TenantStoreCorrect]: libs/store,
      tenant_repository_store.go, boot.go; the database's tables and
      transactions, saving and loading of tenants, and cold, reset and warm
      boots.
    - [Swan], [Tunnel], [TunnelCorrect]: libs/swan, agent_tunnel*.go,
      node_info.go, portal*.go, controller_tunnels.go, libs/controlapi; security
      associations, tunnel events and resyncs, and the endpoints that answer.
    - [Feed]: nodesync/watch.go, agent_intent.go; delivery of intents to the
      reconciler and the supervisor through bounded feeds.
    - [Snapshot], [SnapshotCorrect]: snapshot.go; what is published for the web
      frontend.
    - [Lifecycle]: service_registry_tx.go, service_registry_cpe.go,
      service_registry.go and store/control.sql.go as one machine: versions of
      intents over concurrent transactions and restarts.
    - [Startup]: controller.go, controller_telemetry.go; construction and start
      of the controller.
    - [NetipCorrect], [NodeCorrect], [EndToEnd]: printing of addresses is
      injective; a node over a whole feed of intents; a tunnel from the event of
      strongSwan to the kernel of the PE.
    - [Queries], [History]: the remaining statements of libs/store; deletions
      with their cascades, updates, unique lookups, and the rows of telemetry
      and node reports with the collectors that write them
      (node_report_recorder.go).
    - [Devtools]: debug_devtools.go; the override of the cost graph.
    - [Srh]: libs/probe/srv6; encoding of segment routing headers.
    - [Kv]: nodesync/kv.go, intent.go; the publisher of a bucket and the wire
      form of intents, over the classes [KeyValueServer] and [JsonCodec].
    - [Config]: config.go of the three processes, libs/common/env.go; the
      environment, with [time.ParseDuration] and [strconv.Atoi].
    - [Runner]: the runner and the stopping of probes in probe/supervisor.go.
    - [Process]: cmd/main.go of the three processes, [Run] of the agent and of
      the portal; concurrent connections, and what is started when.

    ** What the theorems show

    Path computation: a returned path is a cheapest loop-free walk in float64
    arithmetic, the search always ends, and under reservations it is cheapest
    among the walks that have room (C1-C3).  Reservations: a move refines an
    update of the table of bookings and never overbooks (C4, C5).  Tenants:
    loading establishes the repository's invariant or changes nothing, and the
    demands are exactly those of the contract, in an order that does not depend
    on map iteration (C6-C8).  Engine: in every reachable state reservations and
    paths agree, paths are routes, a tick on shared paths is the tick on values
    and never changes a path set a reader holds, changes are damped, and the
    state can be published (C9-C13).

    Intents: segment identifiers are stable over restarts, egress segments
    agree, a node never prefers an older intent over the registry's, whatever
    the interleaving of writes and restarts, routes stay within their tenant,
    portals on a PE are backed by tunnels, and a tunnel that comes up is
    installed in the kernel (C14-C20).  STAMP: decoders are safe on every input,
    codecs round-trip, an exchange returns the sender's fields (C21-C23).

    Nodes: reconciliation converges to the rendered intent and never regresses,
    the rendering of a PE is exact and keeps tenants in their own tables, a node
    ends with exactly what the newest intent asks for whatever bounded feeds
    drop on the way (C24-C29).  Measurements: costs stay valid numbers, loss
    follows the delivery record, counters are recorded once, supervised probes
    do not leak (C30-C33).  Kernel: only Maeto's own objects are touched, and
    End.X segments in the topology are those of live reports (C34, C35).
    Database and start: saved tenants are loaded, the constraints of the schema
    hold whatever runs, a boot resumes or resets, a controller that could be
    built satisfies what the other results assume, a failed boot leaves the
    tables alone (C36-C40).

    Beside these: the configuration is usable or the process stops
    ([GetConfig_usable]), probe targets always run and [stop] returns by its
    deadline ([Runner]), results of an agent reach the collector of its node
    ([agent_results_collected]), an intent and a bucket entry round-trip ([Kv]),
    End.X segments come from the kernel ([endx_from_kernel]).

    ** How Go is modelled

    - [float64] is binary64 with each operation rounded on its own; constant
      expressions such as [1 - capacityHeadroom] are folded exactly.
    - The order of [range] over a map is an arbitrary function of the map, the
      class [RangeOrder]; theorems hold for every order.
    - A pointer that may be nil is an [option], an error a value of a sum type,
      a panic a distinguished error.
    - Locks are not represented: an operation, or a tick, is one critical
      section; where the code writes outside its lock ([Lifecycle]), hands over
      through channels ([Feed]) or shares a variable between goroutines
      ([Process]), the steps interleave freely.  Values are copied, except where
      sharing matters: [PathStore] has the maps and paths at addresses.  [time.Now]
      is an argument; a tick reads the clock three times.
    - Slice sorts are a stable merge sort.
    - The database, the NATS bucket and sockets are given by their outcomes
      (booleans or answers per call); decoding of JSON is a law of [Kv] for
      intents, and elsewhere the decoded records are the inputs.
    - Code outside the repository is a parameter: [math.Log1p] (the class
      [Log1pSpec] of [TelemetryCorrect] states what is used of it), SHA-256 for
      probe ids, the kernel behind netlink, vici messages (the class [Vici]),
      and retry-go.

    ** Bounds

    The search of [Cspf] and its reconstruction run with one more step than
    there are nodes, which [CspfCorrect] shows is enough; TLV loops run with
    one more round than the region has octets, each round consuming at least
    four; trimming and the parts of a duration in [Config] run with one round
    per octet, which is shown to be enough; loops that wait for the outside run over the answers they are given;
    all other loops are structural or bounded in the source itself.  [Lifecycle]
    considers histories of fewer than 2^32 - 1 steps, within which versions and
    generations do not wrap.

    ** Not modelled

    Logging, tracing and signals (libs/observability, the log packages, the rest
    of the mains), comparisons of resources nothing calls, the subscription of
    the debugging subject, the placeholder argus.go: they compute nothing the
    rest depends on.  JSON, NATS, PostgreSQL, netlink, nftables, vici and
    retry-go are code outside the repository and appear as parameters, classes
    with laws, or outcomes. *)

From Stdlib Require Export ZArith Lia String Ascii.
From stdpp Require Export base tactics option list gmap strings sorting countable.

(** The development writes Go's [string], [uint*] and [int] values as Rocq
    strings and integers; arithmetic is in [Z]. *)
#[global] Open Scope Z_scope.

(** ** Fallible results: Go's [(T, error)] pairs *)

Inductive result (E A : Type) : Type :=
  | Ok (a : A)
  | Err (e : E).
Arguments Ok {E A} a.
Arguments Err {E A} e.

#[export] Instance result_ret E : MRet (result E) := @Ok E.
#[export] Instance result_bind E : MBind (result E) := λ A B f r,
  match r with Ok a => f a | Err e => Err e end.
#[export] Instance result_fmap E : FMap (result E) := λ A B f r,
  match r with Ok a => Ok (f a) | Err e => Err e end.

Definition is_ok {E A} (r : result E A) : bool :=
  match r with Ok _ => true | Err _ => false end.

Lemma result_bind_Ok {E A B} (r : result E A) (f : A → result E B) b :
  r ≫= f = Ok b ↔ ∃ a, r = Ok a ∧ f a = Ok b.
Proof. destruct r; naive_solver. Qed.

(** [foldM]: a Go loop over a slice whose body may return an error. *)
Fixpoint foldM {E A S} (f : S → A → result E S) (s : S) (l : list A) : result E S :=
  match l with
  | [] => Ok s
  | a :: l => match f s a with Ok s' => foldM f s' l | Err e => Err e end
  end.

Lemma foldM_app {E A S} (f : S → A → result E S) s l1 l2 :
  foldM f s (l1 ++ l2) =
  match foldM f s l1 with Ok s' => foldM f s' l2 | Err e => Err e end.
Proof. revert s. induction l1 as [|a l1 IH]; intros s; simpl; [done|]. by destruct (f s a). Qed.

(** Induction principle for loops: an invariant indexed by the processed
    prefix. *)
Lemma foldM_ind {E A S} (f : S → A → result E S) (P : list A → S → Prop) s l s' :
  P [] s →
  (∀ done a t t', P done t → a ∈ l → f t a = Ok t' → P (done ++ [a]) t') →
  foldM f s l = Ok s' → P l s'.
Proof.
  intros H0 Hstep.
  cut (∀ rest done t, (∃ pre, l = pre ++ rest) → P done t → foldM f t rest = Ok s' →
         P (done ++ rest) s').
  { intros Hc Hf. apply (Hc l [] s); eauto. by exists []. }
  induction rest as [|a rest IH]; intros done t [pre Hpre] HP Hf; simpl in Hf.
  - rewrite app_nil_r. by simplify_eq.
  - destruct (f t a) as [t'|] eqn:Ht; [|done].
    replace (done ++ a :: rest) with ((done ++ [a]) ++ rest) by by rewrite <-app_assoc.
    apply (IH _ t'); [|eapply Hstep|done]; eauto.
    + exists (pre ++ [a]). by rewrite Hpre, <-app_assoc.
    + rewrite Hpre. set_solver.
Qed.

(** The same for a loop that cannot fail. *)
Lemma foldl_ind {A S} (f : S → A → S) (P : list A → S → Prop) s l :
  P [] s →
  (∀ done a t, P done t → a ∈ l → P (done ++ [a]) (f t a)) →
  P l (foldl f s l).
Proof.
  intros H0 Hstep.
  cut (∀ rest done t, (∃ pre, l = pre ++ rest) → P done t → P (done ++ rest) (foldl f t rest)).
  { intros Hc. apply (Hc l [] s); eauto. by exists []. }
  induction rest as [|a rest IH]; intros done t [pre Hpre] HP; simpl.
  - by rewrite app_nil_r.
  - replace (done ++ a :: rest) with ((done ++ [a]) ++ rest) by by rewrite <-app_assoc.
    apply IH; [exists (pre ++ [a]); by rewrite Hpre, <-app_assoc|].
    apply Hstep; [done|]. rewrite Hpre. set_solver.
Qed.

Lemma NoDup_fmap_snoc {A B} (f : A → B) l a : NoDup (f <$> l) → f a ∉ f <$> l → NoDup (f <$> l ++ [a]).
Proof.
  intros Hn Ha. rewrite fmap_app. apply list.NoDup_app. split_and!; [done| |apply NoDup_singleton].
  intros x Hx ->%list_elem_of_singleton. done.
Qed.

Lemma filter_all {A} (P : A → Prop) `{∀ x, Decision (P x)} (l : list A) :
  (∀ x, x ∈ l → P x) → filter P l = l.
Proof.
  induction l as [|x l IH]; intros Hl; [done|].
  rewrite filter_cons_True by (apply Hl; set_solver). f_equal. apply IH. set_solver.
Qed.

(** ** Machine integers *)

Definition u8 (z : Z) : Z := z mod 2 ^ 8.
Definition u16 (z : Z) : Z := z mod 2 ^ 16.
Definition u32 (z : Z) : Z := z mod 2 ^ 32.
Definition u64 (z : Z) : Z := z mod 2 ^ 64.
Definition i64 (z : Z) : Z := (z + 2 ^ 63) mod 2 ^ 64 - 2 ^ 63.
Definition i32 (z : Z) : Z := (z + 2 ^ 31) mod 2 ^ 32 - 2 ^ 31.

Lemma u16_range z : 0 ≤ u16 z < 2 ^ 16.
Proof. apply Z.mod_pos_bound. lia. Qed.
Lemma u32_range z : 0 ≤ u32 z < 2 ^ 32.
Proof. apply Z.mod_pos_bound. lia. Qed.
Lemma u16_id z : 0 ≤ z < 2 ^ 16 → u16 z = z.
Proof. apply Z.mod_small. Qed.
Lemma u32_id z : 0 ≤ z < 2 ^ 32 → u32 z = z.
Proof. apply Z.mod_small. Qed.
Lemma u64_id z : 0 ≤ z < 2 ^ 64 → u64 z = z.
Proof. apply Z.mod_small. Qed.
Lemma i64_id z : - 2 ^ 63 ≤ z < 2 ^ 63 → i64 z = z.
Proof. intros. unfold i64. rewrite Z.mod_small by lia. lia. Qed.

(** ** Time *)

(** A [time.Time] is its instant in nanoseconds; [time.Duration] is an [int64]
    number of nanoseconds, and [Time.Sub] saturates at its bounds. *)
Notation Time := Z (only parsing).
Notation Duration := Z (only parsing).
Definition min_duration : Duration := - 2 ^ 63.
Definition max_duration : Duration := 2 ^ 63 - 1.
Definition time_sub (t u : Time) : Duration :=
  Z.max min_duration (Z.min max_duration (t - u)).
Definition time_add (t : Time) (d : Duration) : Time := t + d.
Definition Microsecond : Duration := 1000.
Definition Millisecond : Duration := 1000 * 1000.
Definition Second : Duration := 1000 * Millisecond.
(** The zero [time.Time]: the first of January of year 1, before the epoch. *)
Definition zero_time : Time := -62135596800 * Second.
Definition Minute : Duration := 60 * Second.
(** [Duration.Microseconds] truncates toward zero. *)
Definition microseconds (d : Duration) : Z := Z.quot d 1000.

(** ** Go strings: byte-wise lexicographic order *)

Definition str_le (a b : string) : Prop := String.leb a b = true.
Definition str_lt (a b : string) : Prop := String.ltb a b = true.
#[export] Instance str_le_dec : RelDecision str_le.
Proof. intros a b. unfold str_le. apply _. Defined.
#[export] Instance str_lt_dec : RelDecision str_lt.
Proof. intros a b. unfold str_lt. apply _. Defined.

Lemma ascii_compare_refl c : Ascii.compare c c = Eq.
Proof. unfold Ascii.compare. apply N.compare_refl. Qed.

Lemma ascii_compare_eq c d : Ascii.compare c d = Eq → c = d.
Proof.
  unfold Ascii.compare. intros H%N.compare_eq.
  rewrite <-(ascii_N_embedding c), <-(ascii_N_embedding d). by rewrite H.
Qed.

Lemma str_compare_cons c a d b :
  String.compare (String c a) (String d b) =
  match Ascii.compare c d with Eq => String.compare a b | o => o end.
Proof. done. Qed.

Lemma str_le_cons c a d b :
  str_le (String c a) (String d b) ↔
  (N_of_ascii c < N_of_ascii d)%N ∨ (c = d ∧ str_le a b).
Proof.
  unfold str_le, String.leb. rewrite str_compare_cons. unfold Ascii.compare.
  destruct (N.compare_spec (N_of_ascii c) (N_of_ascii d)) as [He|Hl|Hg].
  - assert (c = d) as -> by (rewrite <-(ascii_N_embedding c), <-(ascii_N_embedding d); by rewrite He).
    split; [by right|]. intros [?|[_ ?]]; [lia|done].
  - naive_solver.
  - split; [done|]. intros [?|[-> _]]; lia.
Qed.

#[export] Instance str_le_refl : Reflexive str_le.
Proof.
  intros a. induction a as [|c a IH]; [done|]. apply str_le_cons. by right.
Qed.

#[export] Instance str_le_trans : Transitive str_le.
Proof.
  intros a. induction a as [|c a IH]; intros [|d b] [|e f]; try done.
  rewrite !str_le_cons. intros [?|[-> ?]] [?|[-> ?]]; [left; lia|by left|by left|].
  right. split; [done|]. by eapply IH.
Qed.

#[export] Instance str_le_total : Total str_le.
Proof.
  intros a. induction a as [|c a IH]; intros [|d b]; [by left|by left|by right|].
  rewrite !str_le_cons.
  destruct (N.lt_trichotomy (N_of_ascii c) (N_of_ascii d)) as [?|[He|?]]; [by left; left| |by right; left].
  assert (c = d) as -> by (rewrite <-(ascii_N_embedding c), <-(ascii_N_embedding d); by rewrite He).
  destruct (IH b); [left|right]; by right.
Qed.

#[export] Instance str_le_antisymm : AntiSymm (=) str_le.
Proof.
  intros a. induction a as [|c a IH]; intros [|d b]; try done.
  rewrite !str_le_cons. intros [?|[-> ?]] [?|[? ?]]; try (subst; lia).
  f_equal. by apply IH.
Qed.

(** [slices.Sorted] on strings. *)
Definition sort_strings : list string → list string := merge_sort str_le.

Lemma sort_strings_perm l : sort_strings l ≡ₚ l.
Proof. apply merge_sort_Permutation. Qed.

Lemma elem_of_sort_strings x l : x ∈ sort_strings l ↔ x ∈ l.
Proof. by rewrite sort_strings_perm. Qed.

(** [slices.Sorted(maps.Keys(m))]. *)
Definition sorted_keys {A} (m : gmap string A) : list string := sort_strings (map_to_list m).*1.

Lemma elem_of_sorted_keys {A} (m : gmap string A) k :
  k ∈ sorted_keys m ↔ is_Some (m !! k).
Proof.
  unfold sorted_keys. rewrite elem_of_sort_strings, list_elem_of_fmap. split.
  - intros ([k' a] & -> & Hk%elem_of_map_to_list). eauto.
  - intros [a Ha]. exists (k, a). by rewrite elem_of_map_to_list.
Qed.

Lemma NoDup_sorted_keys {A} (m : gmap string A) : NoDup (sorted_keys m).
Proof. unfold sorted_keys. rewrite sort_strings_perm. apply NoDup_fst_map_to_list. Qed.

(** ** Comparison functions *)

(** [cmp.Or] of comparison results. *)
Definition cmp_or (cs : list comparison) : comparison :=
  foldr (λ c rest, match c with Eq => rest | _ => c end) Eq cs.

(** A comparison that orders its arguments totally, up to ties. *)
Class GoodCmp {A} (cmp : A → A → comparison) := {
  cmp_opp : ∀ a b, cmp b a = CompOpp (cmp a b);
  cmp_eq_l : ∀ a b c, cmp a b = Eq → cmp a c = cmp b c;
  cmp_lt_trans : ∀ a b c, cmp a b = Lt → cmp b c = Lt → cmp a c = Lt;
}.

#[export] Instance Z_compare_good : GoodCmp Z.compare.
Proof.
  split.
  - intros. apply Z.compare_antisym.
  - by intros a b c ->%Z.compare_eq.
  - intros a b c. rewrite !Z.compare_lt_iff. lia.
Qed.

Lemma str_compare_le a b : String.compare a b ≠ Gt ↔ str_le a b.
Proof. unfold str_le, String.leb. by destruct (String.compare a b). Qed.

#[export] Instance string_compare_good : GoodCmp String.compare.
Proof.
  split.
  - intros. apply String.compare_antisym.
  - by intros a b c ->%String.compare_eq_iff.
  - intros a b c Hab Hbc.
    assert (str_le a c) as Hac%str_compare_le.
    { trans b; apply str_compare_le; congruence. }
    destruct (String.compare a c) eqn:He; [|done|done].
    apply String.compare_eq_iff in He as ->.
    rewrite String.compare_antisym, Hab in Hbc. done.
Qed.

Lemma cmp_pull_good {A B} (f : A → B) cmp : GoodCmp cmp → GoodCmp (λ a b, cmp (f a) (f b)).
Proof. intros [Ho He Hl]. split; naive_solver. Qed.

Lemma cmp_flip_good {A} (cmp : A → A → comparison) : GoodCmp cmp → GoodCmp (λ a b, cmp b a).
Proof.
  intros [Ho He Hl]. split; [naive_solver| |naive_solver].
  intros a b c Hab. rewrite (Ho a c), (Ho b c). f_equal. apply He.
  rewrite Ho, Hab. done.
Qed.

Lemma cmp_or_good {A} (css : list (A → A → comparison)) :
  Forall GoodCmp css → GoodCmp (λ a b, cmp_or ((λ c, c a b) <$> css)).
Proof.
  induction 1 as [|cmp css [Ho He Hl] HF IH]; [split; naive_solver|]. destruct IH as [Ho' He' Hl'].
  split; simpl in *.
  - intros a b. rewrite Ho. destruct (cmp a b); simpl; [apply Ho'|done..].
  - intros a b c. destruct (cmp a b) eqn:Hab; [|done..]. intros Heq.
    rewrite (He a b c Hab). destruct (cmp b c); [exact (He' a b c Heq)|done..].
  - intros a b c. destruct (cmp a b) eqn:Hab; [|destruct (cmp b c) eqn:Hbc|done].
    + rewrite (He a b c Hab). destruct (cmp b c); eauto.
    + intros _ _. assert (cmp a c = Lt) as ->; [|done].
      rewrite Ho in Hab. destruct (cmp b a) eqn:Hba; [done|done|]. simpl in *.
      rewrite (Ho c a). assert (cmp c b = Eq) as Hcb by (by rewrite Ho, Hbc).
      by rewrite (He c b a Hcb), Hba.
    + intros _ _. by rewrite (Hl a b c Hab Hbc).
    + done.
Qed.

Section cmp_le.
Context {A} (cmp : A → A → comparison) `{!GoodCmp cmp}.
Definition cmp_le (a b : A) : Prop := cmp a b ≠ Gt.

Lemma cmp_le_total a b : cmp_le a b ∨ cmp_le b a.
Proof. unfold cmp_le. rewrite (cmp_opp (cmp := cmp) a b). destruct (cmp a b); naive_solver. Qed.

Lemma cmp_le_antisymm a b : cmp_le a b → cmp_le b a → cmp a b = Eq.
Proof. unfold cmp_le. rewrite (cmp_opp (cmp := cmp) a b). by destruct (cmp a b). Qed.

Lemma cmp_le_trans a b c : cmp_le a b → cmp_le b c → cmp_le a c.
Proof.
  unfold cmp_le. destruct (cmp a b) eqn:Hab; [|destruct (cmp b c) eqn:Hbc|]; try done; intros _ Hc.
  - by rewrite (cmp_eq_l (cmp := cmp) a b c Hab).
  - rewrite (cmp_opp (cmp := cmp) c a). assert (cmp c b = Eq) as Hcb by (by rewrite (cmp_opp (cmp := cmp) b c), Hbc).
    rewrite (cmp_eq_l (cmp := cmp) c b a Hcb), (cmp_opp (cmp := cmp) a b), Hab. done.
  - by rewrite (cmp_lt_trans (cmp := cmp) a b c Hab Hbc).
Qed.
End cmp_le.

(** Sorting a list and a permutation of it gives the same list when ties only
    occur between equal elements. *)
Lemma merge_sort_unique {A} (R : relation A) `{!RelDecision R, !Transitive R, !Total R} l k :
  l ≡ₚ k → (∀ x y, x ∈ l → y ∈ l → R x y → R y x → x = y) →
  merge_sort R l = merge_sort R k.
Proof.
  intros Hlk Hanti. apply (StronglySorted_unique_strong R).
  - intros x y. rewrite !merge_sort_Permutation, <-Hlk. by apply Hanti.
  - apply StronglySorted_merge_sort; apply _.
  - apply StronglySorted_merge_sort; apply _.
  - by rewrite !merge_sort_Permutation.
Qed.

(** ** Ranging over a Go map *)

(** Go leaves the order of [for k, v := range m] unspecified.  Every loop over
    a map whose order the code does not fix takes the enumeration from this
    interface, so that a theorem about it holds for every order. *)
Class RangeOrder := {
  range_map : ∀ {K} `{Countable K} {A}, gmap K A → list (K * A);
  range_map_perm : ∀ {K} `{Countable K} {A} (m : gmap K A), range_map m ≡ₚ map_to_list m;
}.

(** Two executable orders: the one of the map's own enumeration, and its
    reverse. *)
Definition canonical_order : RangeOrder :=
  {| range_map := λ K _ _ A m, map_to_list m;
     range_map_perm := λ K _ _ A m, reflexivity _ |}.

Program Definition reversed_order : RangeOrder :=
  {| range_map := λ K _ _ A m, rev (map_to_list m) |}.
Next Obligation. intros. symmetry. apply Permutation_rev. Qed.

Section range.
Context `{RO : RangeOrder} {K} `{Countable K} {A : Type}.
Implicit Types m : gmap K A.

Lemma elem_of_range_map m k a : (k, a) ∈ range_map m ↔ m !! k = Some a.
Proof. by rewrite range_map_perm, elem_of_map_to_list. Qed.

Lemma NoDup_range_map_fst m : NoDup (range_map m).*1.
Proof. rewrite range_map_perm. apply NoDup_fst_map_to_list. Qed.

Lemma NoDup_range_map m : NoDup (range_map m).
Proof. rewrite range_map_perm. apply NoDup_map_to_list. Qed.

Lemma range_map_empty : range_map (∅ : gmap K A) = [].
Proof.
  apply Permutation_nil_r. by rewrite range_map_perm, map_to_list_empty.
Qed.

Lemma range_map_length m : length (range_map m) = size m.
Proof. by rewrite range_map_perm, length_map_to_list. Qed.

Lemma range_map_singleton k a : range_map ({[k := a]} : gmap K A) = [(k, a)].
Proof. apply Permutation_singleton_r. by rewrite range_map_perm, map_to_list_singleton. Qed.
End range.

(** Reading a Go map: the zero value when the key is absent. *)
Definition map_get {K} `{Countable K} {A} (d : A) (m : gmap K A) (k : K) : A :=
  default d (m !! k).

(** ** Decimal printing ([%d]) *)

Fixpoint pos_digits (fuel : nat) (n : Z) (acc : string) : string :=
  match fuel with
  | O => acc
  | S fuel =>
      let acc' := String (ascii_of_N (Z.to_N (48 + n mod 10))) acc in
      if n <? 10 then acc' else pos_digits fuel (n / 10) acc'
  end.

Definition dec (n : Z) : string :=
  if n <? 0 then String.append "-" (pos_digits 64 (- n) "") else pos_digits 64 n "".

Lemma append_empty s : String.append s "" = s.
Proof. induction s as [|c s IH]; [done|]. exact (f_equal (String c) IH). Qed.

Lemma append_inj_r a b c : String.append a b = String.append a c → b = c.
Proof. induction a as [|x a IH]; simpl; [done|]. intros [= H]. auto. Qed.

Lemma append_length a b : String.length (String.append a b) = (String.length a + String.length b)%nat.
Proof. induction a as [|x a IH]; simpl; [done|by rewrite IH]. Qed.

Lemma append_inj_l a b c : String.append a c = String.append b c → a = b.
Proof.
  intros H. assert (String.length a = String.length b) as Hl.
  { pose proof (f_equal String.length H) as E. rewrite !append_length in E. lia. }
  revert b H Hl. induction a as [|x a IH]; intros [|y b] H Hl; simpl in *; try done.
  injection H as -> H. f_equal. apply IH; [done|lia].
Qed.

(** The number a string of digits stands for, after [v]. *)
Definition digits_value (v : Z) (s : string) : Z :=
  foldl (λ v c, 10 * v + (Z.of_N (N_of_ascii c) - 48)) v (String.list_ascii_of_string s).

Definition digit (c : ascii) : bool := (48 <=? N_of_ascii c)%N && (N_of_ascii c <=? 57)%N.

Lemma N_of_digit n : Z.of_N (N_of_ascii (ascii_of_N (Z.to_N (48 + n mod 10)))) = 48 + n mod 10.
Proof.
  pose proof (Z.mod_pos_bound n 10 ltac:(lia)). rewrite N_ascii_embedding by lia. by rewrite Z2N.id by lia.
Qed.

Lemma pos_digits_value fuel n acc :
  0 ≤ n < 10 ^ Z.of_nat fuel → digits_value 0 (pos_digits fuel n acc) = digits_value n acc.
Proof.
  revert n acc. induction fuel as [|fuel IH]; intros n acc Hn; [replace n with 0 by (simpl in Hn; lia); done|].
  cbn [pos_digits]. destruct (Z.ltb_spec n 10) as [Hlt|Hge].
  - unfold digits_value. cbn [String.list_ascii_of_string foldl]. rewrite N_of_digit, Z.mod_small by lia. f_equal. lia.
  - rewrite IH.
    + unfold digits_value. cbn [String.list_ascii_of_string foldl]. rewrite N_of_digit. f_equal.
      pose proof (Z.div_mod n 10 ltac:(lia)). lia.
    + rewrite Nat2Z.inj_succ, Z.pow_succ_r in Hn by lia. split; [apply Z.div_pos; lia|]. apply Z.div_lt_upper_bound; lia.
Qed.

(** Printing is injective on the numbers of the program. *)
Lemma dec_inj x y : 0 ≤ x < 10 ^ 64 → 0 ≤ y < 10 ^ 64 → dec x = dec y → x = y.
Proof.
  intros Hx Hy. unfold dec. destruct (Z.ltb_spec x 0), (Z.ltb_spec y 0); [lia..|]. intros He.
  assert (∀ n, 0 ≤ n < 10 ^ 64 → digits_value 0 (pos_digits 64 n "") = n) as Hv.
  { intros n Hn. by rewrite pos_digits_value. }
  by rewrite <-(Hv x), <-(Hv y), He.
Qed.

Lemma pos_digits_digits fuel n acc :
  forallb digit (String.list_ascii_of_string acc) = true →
  forallb digit (String.list_ascii_of_string (pos_digits fuel n acc)) = true.
Proof.
  revert n acc. induction fuel as [|fuel IH]; intros n acc Ha; [done|]. cbn [pos_digits].
  assert (forallb digit (String.list_ascii_of_string (String (ascii_of_N (Z.to_N (48 + n mod 10))) acc)) = true) as Hd.
  { cbn [String.list_ascii_of_string forallb]. rewrite Ha, andb_true_r. unfold digit. pose proof (N_of_digit n).
    pose proof (Z.mod_pos_bound n 10 ltac:(lia)). apply andb_true_iff. rewrite !N.leb_le. lia. }
  destruct (n <? 10); [exact Hd|]. by apply IH.
Qed.

Lemma dec_digits n : 0 ≤ n → forallb digit (String.list_ascii_of_string (dec n)) = true.
Proof. intros Hn. unfold dec. destruct (Z.ltb_spec n 0); [lia|]. by apply pos_digits_digits. Qed.

(** The last separator splits a string that ends in digits. *)
Lemma split_at_digits sep a b d e :
  digit sep = false → forallb digit (String.list_ascii_of_string d) = true → forallb digit (String.list_ascii_of_string e) = true →
  String.append a (String sep d) = String.append b (String sep e) → a = b ∧ d = e.
Proof.
  intros Hsep Hd He. revert b. induction a as [|x a IH]; intros [|y b]; simpl.
  - by intros [= ->].
  - intros [= <- ->]. exfalso. clear -Hd Hsep. induction b as [|z b IHb]; simpl in Hd; [by rewrite Hsep in Hd|].
    apply andb_true_iff in Hd as [_ Hd]. auto.
  - intros [= -> <-]. exfalso. clear -He Hsep. induction a as [|z a IHa]; simpl in He; [by rewrite Hsep in He|].
    apply andb_true_iff in He as [_ He]. auto.
  - intros [= -> (-> & ->)%IH]. done.
Qed.

(** ** Automation *)

Create HintDb maeto discriminated.
#[export] Hint Resolve NoDup_sorted_keys NoDup_range_map NoDup_range_map_fst : maeto.

(** Case analysis on every [if] and [match] whose scrutinee is not a variable,
    keeping the equations. *)
Ltac break_match_hyp H :=
  match type of H with
  | context [match ?x with _ => _ end] => destruct x eqn:?
  end.
Ltac break_match_goal :=
  match goal with
  | |- context [match ?x with _ => _ end] => destruct x eqn:?
  end.
Ltac inv_ok H := repeat (break_match_hyp H; simplify_eq/=; try done).
