(* ===== verification/Float64.v ===== *)
(** Go's [float64]: IEEE 754 binary64, executed by the standard library's
    [SpecFloat], with the order and addition laws the path computation and the
    bandwidth accounting rely on, proved for non-negative values. *)

From Stdlib Require Export SpecFloat.
From S2P Require Import Prelude.

Definition prec : Z := 53.
Definition emax : Z := 1024.

Definition f64 := spec_float.

#[export] Instance f64_eq_dec : EqDecision f64.
Proof. solve_decision. Defined.

Definition f_add : f64 → f64 → f64 := SFadd prec emax.
Definition f_sub : f64 → f64 → f64 := SFsub prec emax.
Definition f_mul : f64 → f64 → f64 := SFmul prec emax.
Definition f_div : f64 → f64 → f64 := SFdiv prec emax.
Definition f_sqrt : f64 → f64 := SFsqrt prec emax.
Definition f_opp : f64 → f64 := SFopp.
Definition f_ltb : f64 → f64 → bool := SFltb.
Definition f_leb : f64 → f64 → bool := SFleb.
Definition f_eqb : f64 → f64 → bool := SFeqb.

Definition f_zero : f64 := S754_zero false.
Definition f_inf : f64 := S754_infinity false.
Definition f_one : f64 := S754_finite false 4503599627370496 (-52).

(** [float64(n)] for an integer [n]. *)
Definition f_of_Z (n : Z) : f64 := binary_normalize prec emax n 0 false.

(** The value of the decimal constant [n / d]: Go rounds the exact rational to
    the nearest double, which is the quotient of two exact integers. *)
Definition f_ratio (n d : Z) : f64 := f_div (f_of_Z n) (f_of_Z d).

(** [math.IsInf(x, 1)] and [math.IsNaN]. *)
Definition is_inf (x : f64) : bool :=
  match x with S754_infinity false => true | _ => false end.
Definition is_inf_any (x : f64) : bool :=
  match x with S754_infinity _ => true | _ => false end.
Definition is_nan (x : f64) : bool :=
  match x with S754_nan => true | _ => false end.

(** [math.Min]: negative infinity wins, then NaN, then the negative zero. *)
Definition f_min (x y : f64) : f64 :=
  match x, y with
  | S754_infinity true, _ | _, S754_infinity true => S754_infinity true
  | S754_nan, _ | _, S754_nan => S754_nan
  | S754_zero true, S754_zero _ => x
  | S754_zero false, S754_zero _ => y
  | _, _ => if f_ltb x y then x else y
  end.

Declare Scope f64_scope.
Delimit Scope f64_scope with f64.
Bind Scope f64_scope with f64.
Infix "+" := f_add : f64_scope.
Infix "-" := f_sub : f64_scope.
Infix "*" := f_mul : f64_scope.
Infix "/" := f_div : f64_scope.
Infix "<?" := f_ltb : f64_scope.
Infix "<=?" := f_leb : f64_scope.

Example f_one_of_Z : f_of_Z 1 = f_one.
Proof. reflexivity. Qed.
Example f_tenth_sum : f_add (f_ratio 1 10) (f_ratio 2 10) <> f_ratio 3 10.
Proof. vm_compute. discriminate. Qed.

(** ** Non-negative values as integers *)

(** Every finite double is an integer multiple of the least subnormal
    [2 ^ -1074].  [nn] holds of the well-formed doubles that are zero, positive
    or plus infinity, and [val] is such a value in that unit, with plus
    infinity at the first power of two past the largest double. *)
Definition unit_exp : Z := -1074.
Definition INF : Z := 2 ^ 2098.

Definition nn (x : f64) : Prop :=
  match x with
  | S754_zero _ => True
  | S754_infinity s => s = false
  | S754_nan => False
  | S754_finite s m e => s = false ∧ bounded prec emax m e = true
  end.

#[export] Instance nn_dec x : Decision (nn x).
Proof. destruct x; simpl; apply _. Defined.

Definition val (x : f64) : Z :=
  match x with
  | S754_finite _ m e => Zpos m * 2 ^ (e - unit_exp)
  | S754_infinity _ => INF
  | _ => 0
  end.

(** Round-half-even of [m / 2 ^ k]. *)
Definition rne_div (m k : Z) : Z :=
  let q := m / 2 ^ k in
  let r := m mod 2 ^ k in
  match Z.compare (2 * r) (2 ^ k) with
  | Lt => q
  | Gt => q + 1
  | Eq => if Z.even q then q else q + 1
  end.

(** The number of low bits binary64 drops from an integer number of units. *)
Definition drop (s : Z) : Z := Z.max 0 (Z.log2 s + 1 - prec).

Definition rne (s : Z) : Z := rne_div s (drop s) * 2 ^ drop s.

(** Rounding of a non-negative integer number of units to binary64. *)
Definition RND (s : Z) : Z := Z.min (rne s) INF.

(** ** Properties of the integer rounding *)

Section rounding.
Implicit Types m k s : Z.

Lemma rne_div_bounds m k : 0 ≤ k → m / 2 ^ k ≤ rne_div m k ≤ m / 2 ^ k + 1.
Proof. intros. unfold rne_div. repeat case_match; lia. Qed.

(** Written as a sum: twice the dividend decides the direction. *)
Lemma rne_div_mono m m' k : 0 ≤ k → m ≤ m' → rne_div m k ≤ rne_div m' k.
Proof.
  intros Hk Hm. assert (0 < 2 ^ k) as Hp by (apply Z.pow_pos_nonneg; lia).
  pose proof (Z.div_le_mono m m' _ Hp Hm) as Hq.
  destruct (decide (m / 2 ^ k = m' / 2 ^ k)) as [He|Hne].
  - unfold rne_div. rewrite He.
    assert (m mod 2 ^ k ≤ m' mod 2 ^ k) as Hr
      by (rewrite !Z.mod_eq, He by lia; lia).
    destruct (Z.compare_spec (2 * (m mod 2 ^ k)) (2 ^ k));
      destruct (Z.compare_spec (2 * (m' mod 2 ^ k)) (2 ^ k));
      try destruct (Z.even _); lia.
  - pose proof (rne_div_bounds m k Hk). pose proof (rne_div_bounds m' k Hk). lia.
Qed.

Lemma rne_div_exact q k : 0 ≤ k → rne_div (q * 2 ^ k) k = q.
Proof.
  intros Hk. assert (0 < 2 ^ k) as Hp by (apply Z.pow_pos_nonneg; lia).
  unfold rne_div. rewrite Z.div_mul, Z.mod_mul by lia.
  destruct (Z.compare_spec (2 * 0) (2 ^ k)); lia.
Qed.

Lemma drop_nonneg s : 0 ≤ drop s.
Proof. unfold drop. lia. Qed.

Lemma rne_exact q s k : 0 ≤ drop s ≤ k → s = q * 2 ^ k → rne s = s.
Proof.
  intros [Hd Hk] Hs. unfold rne.
  rewrite Hs at 1. replace k with (k - drop s + drop s) by lia.
  rewrite Z.pow_add_r, Z.mul_assoc, rne_div_exact by lia.
  rewrite <-Z.mul_assoc, <-Z.pow_add_r by lia. rewrite Hs. do 2 f_equal. lia.
Qed.

(** An integer of at most 53 significant bits is a fixed point. *)
Lemma rne_small s : Z.log2 s < prec → rne s = s.
Proof.
  intros. apply (rne_exact s s 0); [|rewrite Z.mul_1_r; lia].
  unfold drop. lia.
Qed.

Lemma rne_pow2_bounds s : 0 < s → 2 ^ Z.log2 s ≤ rne s ≤ 2 ^ (Z.log2 s + 1).
Proof.
  intros Hs. pose proof (Z.log2_spec s Hs) as [Hlo Hhi].
  pose proof (Z.log2_nonneg s). pose proof (drop_nonneg s) as Hd.
  assert (drop s ≤ Z.log2 s) as Hdl by (unfold drop, prec in *; lia).
  assert (∀ l, drop s ≤ l → rne_div (2 ^ l) (drop s) * 2 ^ drop s = 2 ^ l) as Hex.
  { intros l Hl. replace (2 ^ l) with (2 ^ (l - drop s) * 2 ^ drop s) at 1
      by (rewrite <-Z.pow_add_r by lia; f_equal; lia).
    rewrite rne_div_exact, <-Z.pow_add_r by lia. f_equal; lia. }
  unfold rne. split.
  - rewrite <-(Hex (Z.log2 s)) by lia.
    apply Z.mul_le_mono_nonneg_r; [lia|]. by apply rne_div_mono.
  - rewrite <-(Hex (Z.log2 s + 1)) by lia.
    apply Z.mul_le_mono_nonneg_r; [lia|]. apply rne_div_mono; [done|]. lia.
Qed.

Lemma rne_0 : rne 0 = 0.
Proof. reflexivity. Qed.

Lemma rne_nonneg s : 0 ≤ s → 0 ≤ rne s.
Proof.
  intros Hs. destruct (decide (s = 0)) as [->|]; [by rewrite rne_0|].
  pose proof (rne_pow2_bounds s). pose proof (Z.pow_nonneg 2 (Z.log2 s)). lia.
Qed.

Lemma rne_mono s s' : 0 ≤ s → s ≤ s' → rne s ≤ rne s'.
Proof.
  intros Hs Hle. destruct (decide (s = 0)) as [->|].
  { rewrite rne_0. apply rne_nonneg. lia. }
  pose proof (Z.log2_le_mono _ _ Hle) as Hl.
  destruct (decide (Z.log2 s = Z.log2 s')) as [He|].
  - unfold rne, drop. rewrite He. apply Z.mul_le_mono_nonneg_r; [lia|].
    apply rne_div_mono; lia.
  - pose proof (rne_pow2_bounds s). pose proof (rne_pow2_bounds s').
    pose proof (Z.pow_le_mono_r 2 (Z.log2 s + 1) (Z.log2 s')). lia.
Qed.

Lemma RND_mono s s' : 0 ≤ s → s ≤ s' → RND s ≤ RND s'.
Proof. intros. unfold RND. pose proof (rne_mono s s'). lia. Qed.

Lemma RND_ge_INF s : INF ≤ s → RND s = INF.
Proof.
  intros Hs. unfold RND. apply Z.min_r.
  transitivity (rne INF).
  - apply Z.eq_le_incl. symmetry. apply (rne_exact 1 INF 2098); [|reflexivity].
    vm_compute. split; discriminate.
  - apply rne_mono; [|done]. unfold INF. lia.
Qed.
End rounding.

(** ** [SpecFloat] rounding against the integer rounding *)

Lemma digits2_log2 p : Zpos (digits2_pos p) = Z.log2 (Zpos p) + 1.
Proof.
  induction p as [p IH|p IH|]; [..|reflexivity]; cbn [digits2_pos].
  - rewrite Pos2Z.inj_succ, IH. change (Zpos p~1) with (2 * Zpos p + 1).
    rewrite Z.log2_succ_double by lia. lia.
  - rewrite Pos2Z.inj_succ, IH. change (Zpos p~0) with (2 * Zpos p).
    rewrite Z.log2_double by lia. lia.
Qed.

Lemma Zdigits2_log2 z : 0 < z → Zdigits2 z = Z.log2 z + 1.
Proof. destruct z; try lia. intros _. apply digits2_log2. Qed.

Lemma fexp_val e : fexp prec emax e = Z.max (e - prec) unit_exp.
Proof. reflexivity. Qed.

(** The shift register after dropping [n] bits of [m]: quotient, round bit and
    sticky bit. *)
Definition shr_spec (m n : Z) (mrs : shr_record) : Prop :=
  shr_m mrs = m / 2 ^ n ∧
  (if shr_r mrs then 2 ^ n ≤ 2 * (m mod 2 ^ n) else 2 * (m mod 2 ^ n) < 2 ^ n) ∧
  (if shr_s mrs then 2 * (m mod 2 ^ n) ≠ 0 ∧ 2 * (m mod 2 ^ n) ≠ 2 ^ n
   else 2 * (m mod 2 ^ n) = 0 ∨ 2 * (m mod 2 ^ n) = 2 ^ n).

Lemma shr_1_div m r s : 0 ≤ m →
  shr_1 (Build_shr_record m r s) = Build_shr_record (m / 2) (Z.odd m) (r || s).
Proof.
  intros Hm. destruct m as [|[p|p|]|p]; try lia; cbn [shr_1 Z.odd]; f_equal.
  - change (Zpos p~1) with (2 * Zpos p + 1). rewrite Z.mul_comm, Z.div_add_l by lia.
    change (1 / 2) with 0. lia.
  - change (Zpos p~0) with (2 * Zpos p). by rewrite Z.mul_comm, Z.div_mul by lia.
Qed.

Lemma shr_1_spec m n mrs : 0 ≤ m → 0 ≤ n →
  shr_spec m n mrs → shr_spec m (n + 1) (shr_1 mrs).
Proof.
  intros Hm Hn (Hq & Hr & Hs). destruct mrs as [q r s]; simpl in Hq, Hr, Hs.
  assert (0 < 2 ^ n) as Hp by (apply Z.pow_pos_nonneg; lia).
  assert (0 ≤ q) as Hq0 by (subst q; apply Z.div_pos; lia).
  rewrite shr_1_div by done.
  assert (2 ^ (n + 1) = 2 * 2 ^ n) as Hp1 by (rewrite Z.pow_add_r by lia; lia).
  pose proof (Z.div_mod m (2 ^ n)) as Hdm. rewrite <-Hq in Hdm.
  pose proof (Z.mod_pos_bound m (2 ^ n) Hp) as Hmb.
  pose proof (Z.div_mod q 2) as Hd2. rewrite (Zmod_odd q) in Hd2.
  assert (m = 2 ^ (n + 1) * (q / 2) + ((if Z.odd q then 2 ^ n else 0) + m mod 2 ^ n)) as Hm'
    by (destruct (Z.odd q); nia).
  set (rem := (if Z.odd q then 2 ^ n else 0) + m mod 2 ^ n) in *.
  assert (0 ≤ rem < 2 ^ (n + 1)) as Hrem by (unfold rem; destruct (Z.odd q); lia).
  assert (m / 2 ^ (n + 1) = q / 2) as Hdiv
    by (symmetry; apply (Z.div_unique m _ _ rem); [left; lia|lia]).
  assert (m mod 2 ^ (n + 1) = rem) as Hmod
    by (symmetry; apply (Z.mod_unique m _ (q / 2)); [left; lia|lia]).
  unfold shr_spec; simpl. rewrite Hdiv, Hmod. split; [done|].
  unfold rem; destruct (Z.odd q), r, s; simpl in *; lia.
Qed.

Lemma iter_pos_iter {A} (f : A → A) p x : SpecFloat.iter_pos f p x = Pos.iter f x p.
Proof.
  revert x. induction p as [p IH|p IH|]; intros x; simpl; [..|done].
  - rewrite !IH. by rewrite !Pos.iter_swap.
  - by rewrite !IH.
Qed.

Lemma shr_iter_spec m p : 0 ≤ m →
  shr_spec m (Zpos p) (SpecFloat.iter_pos shr_1 p (Build_shr_record m false false)).
Proof.
  intros Hm. rewrite iter_pos_iter.
  assert (shr_spec m 0 (Build_shr_record m false false)) as H0.
  { unfold shr_spec; simpl. rewrite Z.div_1_r, Z.mod_1_r. lia. }
  revert H0. generalize (Build_shr_record m false false).
  induction p using Pos.peano_ind; intros mrs H0.
  - by apply (shr_1_spec m 0).
  - rewrite Pos.iter_succ, Pos2Z.inj_succ. apply shr_1_spec; [done|lia|].
    by apply IHp.
Qed.

Lemma shr_spec_rne m n mrs : 0 ≤ n → shr_spec m n mrs →
  round_nearest_even (shr_m mrs) (loc_of_shr_record mrs) = rne_div m n.
Proof.
  intros Hn (Hq & Hr & Hs). destruct mrs as [q r s]; simpl in *.
  assert (0 < 2 ^ n) by (apply Z.pow_pos_nonneg; lia).
  unfold rne_div. rewrite <-Hq.
  destruct (Z.compare_spec (2 * (m mod 2 ^ n)) (2 ^ n)), r, s; simpl; try lia; done.
Qed.

Lemma shr_fexp_spec m e : 0 < m → e ≤ fexp prec emax (Zdigits2 m + e) →
  ∃ mrs, shr_fexp prec emax m e loc_Exact = (mrs, fexp prec emax (Zdigits2 m + e)) ∧
         shr_spec m (fexp prec emax (Zdigits2 m + e) - e) mrs.
Proof.
  intros Hm He. unfold shr_fexp. set (E := fexp _ _ _) in *. cbn [shr_record_of_loc].
  destruct (E - e) as [|p|p] eqn:HE; [| |lia]; cbn [shr].
  - exists (Build_shr_record m false false). split; [f_equal; lia|].
    unfold shr_spec; simpl. rewrite Z.div_1_r, Z.mod_1_r. lia.
  - eexists. split; [f_equal; lia|]. apply shr_iter_spec. lia.
Qed.

(** What [binary_round_aux] makes of the rounded significand. *)
Definition finish (q E : Z) : f64 :=
  match q with
  | Zpos p =>
      if decide (q = 2 ^ prec)
      then (if Z.leb (E + 1) (emax - prec) then S754_finite false (Z.to_pos (2 ^ (prec - 1))) (E + 1)
            else f_inf)
      else (if Z.leb E (emax - prec) then S754_finite false p E else f_inf)
  | _ => f_zero
  end.

Lemma shr_fexp_noshift q E : fexp prec emax (Zdigits2 q + E) ≤ E →
  shr_fexp prec emax q E loc_Exact = (Build_shr_record q false false, E).
Proof.
  intros H. unfold shr_fexp, shr. cbn [shr_record_of_loc].
  destruct (_ - E) eqn:HE; [done|lia|done].
Qed.

Lemma rne_sig_bounds m e : 0 < m → e ≤ fexp prec emax (Zdigits2 m + e) →
  let E := fexp prec emax (Zdigits2 m + e) in
  0 ≤ rne_div m (E - e) ≤ 2 ^ prec ∧ (unit_exp < E → 2 ^ (prec - 1) ≤ rne_div m (E - e)).
Proof.
  intros Hm He E. subst E. rewrite fexp_val, Zdigits2_log2 in * by done.
  set (E := Z.max _ _) in *. pose proof (Z.log2_spec m Hm) as [Hlo Hhi].
  pose proof (Z.log2_nonneg m).
  assert (0 < 2 ^ (E - e)) by (apply Z.pow_pos_nonneg; lia).
  assert (∀ k, 0 ≤ k → rne_div (2 ^ k * 2 ^ (E - e)) (E - e) = 2 ^ k) as Hex
    by (intros; apply rne_div_exact; lia).
  split; [split|].
  - etransitivity; [|apply rne_div_bounds; lia]. apply Z.div_pos; lia.
  - rewrite <-(Hex prec) by (unfold prec; lia). apply rne_div_mono; [lia|].
    rewrite <-Z.pow_add_r by (unfold prec; lia). transitivity (2 ^ (Z.log2 m + 1)); [lia|].
    apply Z.pow_le_mono_r; [lia|]. unfold prec in *. lia.
  - intros Hu. rewrite <-(Hex (prec - 1)) by (unfold prec; lia). apply rne_div_mono; [lia|].
    rewrite <-Z.pow_add_r by (unfold prec; lia). transitivity (2 ^ Z.log2 m); [|lia].
    apply Z.pow_le_mono_r; [lia|]. unfold prec in *. lia.
Qed.

(** The second half of [binary_round_aux], on a rounded significand. *)
Lemma round_aux_finish q E : unit_exp ≤ E → 0 ≤ q ≤ 2 ^ prec →
  (let '(mrs, e) := shr_fexp prec emax q E loc_Exact in
   match shr_m mrs with
   | Z0 => S754_zero false
   | Zpos m => if Z.leb e (emax - prec) then S754_finite false m e else S754_infinity false
   | _ => S754_nan
   end) = finish q E.
Proof.
  intros HuE Hb.
  destruct (decide (q = 2 ^ prec)) as [->|Hq].
  - assert (shr_fexp prec emax (2 ^ prec) E loc_Exact =
            (Build_shr_record (2 ^ (prec - 1)) false false, E + 1)) as ->; [|reflexivity].
    unfold shr_fexp. rewrite fexp_val. change (Zdigits2 (2 ^ prec)) with 54.
    replace (Z.max (54 + E - prec) unit_exp - E) with 1 by (unfold prec; lia). reflexivity.
  - rewrite shr_fexp_noshift; cbn [shr_m].
    + destruct q; [done| |lia]. unfold finish. by rewrite decide_False.
    + rewrite fexp_val. destruct (decide (q = 0)) as [->|].
      { change (Zdigits2 0) with 0. unfold prec in *. lia. }
      rewrite Zdigits2_log2 by lia.
      assert (Z.log2 q < prec); [|unfold prec in *; lia].
      apply Z.log2_lt_pow2; lia.
Qed.

Lemma binary_round_aux_finish m e : 0 < m → e ≤ fexp prec emax (Zdigits2 m + e) →
  binary_round_aux prec emax false m e loc_Exact =
  finish (rne_div m (fexp prec emax (Zdigits2 m + e) - e)) (fexp prec emax (Zdigits2 m + e)).
Proof.
  intros Hm He. pose proof (rne_sig_bounds m e Hm He) as [Hb _].
  destruct (shr_fexp_spec m e Hm He) as (mrs & Hsh & Hspec).
  assert (0 ≤ fexp prec emax (Zdigits2 m + e) - e) as Hn by lia.
  unfold binary_round_aux. rewrite Hsh, (shr_spec_rne _ _ _ Hn Hspec).
  assert (unit_exp ≤ fexp prec emax (Zdigits2 m + e)) as HuE by (rewrite fexp_val; lia).
  by apply round_aux_finish.
Qed.

Lemma finish_nn q E : unit_exp ≤ E → 0 ≤ q ≤ 2 ^ prec →
  (unit_exp < E → 2 ^ (prec - 1) ≤ q) → nn (finish q E).
Proof.
  intros HE Hq Hlow. destruct q as [|p|p]; [done| |done]. unfold finish.
  destruct (decide _) as [He|Hne].
  - destruct (Z.leb_spec (E + 1) (emax - prec)); [|done]. split; [done|].
    unfold bounded. apply andb_true_intro. split; [|apply Z.leb_le; lia].
    unfold canonical_mantissa. rewrite fexp_val. apply Z.eqb_eq.
    change (Zpos (digits2_pos (Z.to_pos (2 ^ (prec - 1))))) with 53. unfold prec. lia.
  - destruct (Z.leb_spec E (emax - prec)); [|done]. split; [done|].
    unfold bounded. apply andb_true_intro. split; [|apply Z.leb_le; lia].
    unfold canonical_mantissa. rewrite fexp_val, digits2_log2. apply Z.eqb_eq.
    assert (Z.log2 (Zpos p) < prec) by (apply Z.log2_lt_pow2; lia).
    destruct (decide (E = unit_exp)); [unfold prec in *; lia|].
    assert (prec - 1 ≤ Z.log2 (Zpos p)); [|unfold prec in *; lia].
    apply Z.log2_le_pow2; [lia|]. apply Hlow. lia.
Qed.

Lemma finish_val q E : unit_exp ≤ E → 0 ≤ q ≤ 2 ^ prec →
  (unit_exp < E → 2 ^ (prec - 1) ≤ q) →
  val (finish q E) = Z.min (q * 2 ^ (E - unit_exp)) INF.
Proof.
  intros HE Hq Hlow.
  assert (∀ k, 0 ≤ k → 0 < 2 ^ k) as Hpos by (intros; apply Z.pow_pos_nonneg; lia).
  assert (∀ a k, 0 ≤ k → 0 ≤ a → 2098 ≤ a + k → INF ≤ 2 ^ a * 2 ^ k) as Hbig.
  { intros a k ???. rewrite <-Z.pow_add_r by lia. apply Z.pow_le_mono_r; lia. }
  assert (∀ c k, 0 ≤ k → k ≤ 2045 → c ≤ 2 ^ prec → c * 2 ^ k ≤ INF) as Hsmall.
  { intros c k ???. transitivity (2 ^ prec * 2 ^ k).
    - apply Z.mul_le_mono_nonneg_r; [pose proof (Hpos k); lia|done].
    - rewrite <-Z.pow_add_r by (unfold prec; lia). apply Z.pow_le_mono_r; unfold prec; lia. }
  destruct q as [|p|p]; [reflexivity| |lia]. unfold finish.
  destruct (decide _) as [He|Hne].
  - rewrite He. destruct (Z.leb_spec (E + 1) (emax - prec)) as [Hle|Hgt]; unfold val, f_inf.
    + rewrite Z.min_l by (apply Hsmall; unfold emax, prec, unit_exp in *; lia).
      change (Zpos (Z.to_pos (2 ^ (prec - 1)))) with (2 ^ (prec - 1)).
      rewrite <-!Z.pow_add_r by (unfold prec; lia). apply (f_equal (Z.pow 2)). unfold prec. lia.
    + rewrite Z.min_r; [done|]. apply Hbig; unfold emax, prec, unit_exp in *; lia.
  - destruct (Z.leb_spec E (emax - prec)) as [Hle|Hgt]; unfold val, f_inf.
    + rewrite Z.min_l; [done|]. apply Hsmall; unfold emax, prec, unit_exp in *; lia.
    + rewrite Z.min_r; [done|]. transitivity (2 ^ (prec - 1) * 2 ^ (E - unit_exp)).
      * apply Hbig; unfold emax, prec, unit_exp in *; lia.
      * apply Z.mul_le_mono_nonneg_r; [pose proof (Hpos (E - unit_exp)); lia|].
        apply Hlow. unfold emax, prec, unit_exp in *; lia.
Qed.

Lemma rne_div_scale m n j : 0 ≤ n → 0 ≤ j → rne_div (m * 2 ^ j) (n + j) = rne_div m n.
Proof.
  intros Hn Hj. assert (0 < 2 ^ n) by (apply Z.pow_pos_nonneg; lia).
  assert (0 < 2 ^ j) by (apply Z.pow_pos_nonneg; lia).
  unfold rne_div. rewrite Z.pow_add_r by lia.
  rewrite Z.div_mul_cancel_r, Z.mul_mod_distr_r by lia.
  replace (2 * (m mod 2 ^ n * 2 ^ j)) with ((2 * (m mod 2 ^ n)) * 2 ^ j) by lia.
  by rewrite <-Zmult_compare_compat_r by lia.
Qed.

Lemma iter_xO m d : Zpos (Pos.iter xO m d) = Zpos m * 2 ^ Zpos d.
Proof.
  induction d using Pos.peano_ind; [simpl; lia|].
  rewrite Pos.iter_succ, Pos2Z.inj_succ, Z.pow_succ_r by lia. lia.
Qed.

Lemma shl_align_spec m e E : ∃ mz ez,
  shl_align m e E = (mz, ez) ∧ ez = Z.min e E ∧ Zpos mz = Zpos m * 2 ^ (e - ez).
Proof.
  unfold shl_align. destruct (E - e) as [|d|d] eqn:Hd.
  - exists m, e. rewrite Z.sub_diag. split_and!; [done|lia|lia].
  - exists m, e. rewrite Z.sub_diag. split_and!; [done|lia|lia].
  - exists (Pos.iter xO m d), E. rewrite iter_xO. split_and!; [done|lia|].
    do 2 f_equal. lia.
Qed.

Lemma binary_round_spec m e : unit_exp ≤ e →
  nn (binary_round prec emax false m e) ∧
  val (binary_round prec emax false m e) = RND (Zpos m * 2 ^ (e - unit_exp)).
Proof.
  intros He. unfold binary_round. rewrite digits2_log2.
  set (E := fexp prec emax (Z.log2 (Zpos m) + 1 + e)).
  assert (E = Z.max (Z.log2 (Zpos m) + 1 + e - prec) unit_exp) as HE by apply fexp_val.
  destruct (shl_align_spec m e E) as (mz & ez & -> & Hez & Hmz).
  assert (Z.log2 (Zpos mz) = Z.log2 (Zpos m) + (e - ez)) as Hlog
    by (rewrite Hmz, Z.log2_mul_pow2 by lia; lia).
  assert (fexp prec emax (Zdigits2 (Zpos mz) + ez) = E) as HE'.
  { unfold E. f_equal. rewrite Zdigits2_log2 by lia. lia. }
  rewrite binary_round_aux_finish, HE' by (rewrite ?HE'; lia).
  pose proof (rne_sig_bounds (Zpos mz) ez) as Hb. rewrite HE' in Hb.
  destruct Hb as [Hb1 Hb2]; [lia|lia|].
  assert (Zpos m * 2 ^ (e - unit_exp) = Zpos mz * 2 ^ (ez - unit_exp)) as HS.
  { rewrite Hmz, <-Z.mul_assoc, <-Z.pow_add_r by lia. do 2 f_equal. lia. }
  split; [by apply finish_nn; [lia|..]|].
  rewrite finish_val by (try done; lia). unfold RND, rne. rewrite HS.
  assert (drop (Zpos mz * 2 ^ (ez - unit_exp)) = (E - ez) + (ez - unit_exp)) as ->.
  { unfold drop. rewrite Z.log2_mul_pow2 by lia. lia. }
  rewrite rne_div_scale by lia. do 3 f_equal. lia.
Qed.

(** ** Laws of non-negative binary64 arithmetic *)

Lemma val_nonneg x : 0 ≤ val x.
Proof.
  destruct x as [| | |s m e]; simpl; [lia|unfold INF; lia|lia|].
  apply Z.mul_nonneg_nonneg; [lia|]. apply Z.pow_nonneg. lia.
Qed.

Lemma bounded_spec m e : bounded prec emax m e = true →
  unit_exp ≤ e ∧ e ≤ emax - prec ∧ e = Z.max (Z.log2 (Zpos m) + 1 + e - prec) unit_exp.
Proof.
  unfold bounded, canonical_mantissa. rewrite fexp_val, digits2_log2.
  intros [H1%Z.eqb_eq H2%Z.leb_le]%andb_prop. lia.
Qed.

Lemma val_bound x : nn x → val x ≤ INF.
Proof.
  destruct x as [| | |s m e]; simpl; try (unfold INF; lia).
  intros [_ Hb%bounded_spec]. unfold INF.
  transitivity (2 ^ prec * 2 ^ (e - unit_exp)).
  - apply Z.mul_le_mono_nonneg_r; [apply Z.pow_nonneg; lia|].
    apply Z.lt_le_incl, Z.log2_lt_pow2; lia.
  - rewrite <-Z.pow_add_r by (unfold prec; lia).
    apply Z.pow_le_mono_r; unfold prec, emax, unit_exp in *; lia.
Qed.

(** A double is a fixed point of the rounding. *)
Lemma RND_val x : nn x → RND (val x) = val x.
Proof.
  intros Hx. destruct x as [| | |s m e]; [reflexivity|reflexivity|done|].
  pose proof (val_bound _ Hx) as Hv. destruct Hx as [_ Hb%bounded_spec].
  unfold RND. rewrite (rne_exact (Zpos m) _ (e - unit_exp)); [by apply Z.min_l| |done].
  unfold drop, val. rewrite Z.log2_mul_pow2 by lia. lia.
Qed.

(** Addition is the exact sum, rounded. *)
Lemma f_add_finite mx ex my ey :
  nn (S754_finite false mx ex) → nn (S754_finite false my ey) →
  let z := f_add (S754_finite false mx ex) (S754_finite false my ey) in
  nn z ∧ val z = RND (val (S754_finite false mx ex) + val (S754_finite false my ey)).
Proof.
  intros [_ Hbx%bounded_spec] [_ Hby%bounded_spec].
  unfold f_add. cbn [SFadd cond_Zopp].
  destruct (shl_align_spec mx ex (Z.min ex ey)) as (m1 & e1 & -> & He1 & Hm1).
  destruct (shl_align_spec my ey (Z.min ex ey)) as (m2 & e2 & -> & He2 & Hm2).
  cbn [fst]. change (Zpos m1 + Zpos m2) with (Zpos (m1 + m2)). cbn [binary_normalize].
  destruct (binary_round_spec (m1 + m2) (Z.min ex ey)) as [Hn Hv]; [lia|].
  split; [done|]. rewrite Hv. f_equal. rewrite Pos2Z.inj_add, Hm1, Hm2. unfold val.
  replace e1 with (Z.min ex ey) by lia. replace e2 with (Z.min ex ey) by lia.
  rewrite Z.mul_add_distr_r, <-!Z.mul_assoc, <-!Z.pow_add_r by lia.
  f_equal; do 2 f_equal; lia.
Qed.

Lemma f_add_inf_l y : nn y → f_add f_inf y = f_inf.
Proof. destruct y as [|[]| |]; done. Qed.
Lemma f_add_inf_r x : nn x → f_add x f_inf = f_inf.
Proof. destruct x as [|[]| |]; done. Qed.

Lemma f_add_spec x y : nn x → nn y → nn (f_add x y) ∧ val (f_add x y) = RND (val x + val y).
Proof.
  intros Hx Hy. pose proof (val_nonneg x). pose proof (val_nonneg y).
  destruct (decide (x = f_inf)) as [->|Hxi].
  { rewrite f_add_inf_l, RND_ge_INF by (done || (unfold val at 1; simpl; lia)). done. }
  destruct (decide (y = f_inf)) as [->|Hyi].
  { rewrite f_add_inf_r, RND_ge_INF by (done || (unfold val at 2; simpl; lia)). done. }
  destruct x as [sx|sx| |sx mx ex]; [|by simpl in Hx; subst|done|];
    (destruct y as [sy|sy| |sy my ey]; [|by simpl in Hy; subst|done|]).
  - by destruct sx, sy.
  - split; [done|]. by rewrite Z.add_0_l, RND_val.
  - split; [done|]. by rewrite Z.add_0_r, RND_val.
  - destruct (id Hx) as [-> _], (id Hy) as [-> _]. by apply f_add_finite.
Qed.

Lemma val_finite_pos m e : unit_exp ≤ e → 0 < val (S754_finite false m e).
Proof. intros. unfold val. apply Z.mul_pos_pos; [lia|]. apply Z.pow_pos_nonneg; lia. Qed.

Lemma val_finite_INF s m e : bounded prec emax m e = true → val (S754_finite s m e) < INF.
Proof.
  intros Hb%bounded_spec. unfold val.
  apply Z.lt_le_trans with (2 ^ prec * 2 ^ (e - unit_exp)).
  - apply Z.mul_lt_mono_pos_r; [apply Z.pow_pos_nonneg; lia|]. apply Z.log2_lt_pow2; lia.
  - rewrite <-Z.pow_add_r by (unfold prec; lia).
    apply Z.pow_le_mono_r; unfold prec, emax, unit_exp in *; lia.
Qed.

Lemma val_exp_lt m1 e1 m2 e2 :
  bounded prec emax m1 e1 = true → bounded prec emax m2 e2 = true → e1 < e2 →
  val (S754_finite false m1 e1) < val (S754_finite false m2 e2).
Proof.
  intros Hb1%bounded_spec Hb2%bounded_spec Hlt. unfold val.
  apply Z.lt_le_trans with (2 ^ prec * 2 ^ (e1 - unit_exp)).
  - apply Z.mul_lt_mono_pos_r; [apply Z.pow_pos_nonneg; lia|]. apply Z.log2_lt_pow2; lia.
  - transitivity (2 ^ (prec - 1) * 2 ^ (e2 - unit_exp)).
    + rewrite <-!Z.pow_add_r by (unfold prec; lia). apply Z.pow_le_mono_r; lia.
    + apply Z.mul_le_mono_nonneg_r; [apply Z.pow_nonneg; lia|]. apply Z.log2_le_pow2; lia.
Qed.

(** Sign and bounds of a non-negative double of a known shape. *)
Ltac nn_inv H :=
  lazymatch type of H with
  | nn (S754_finite _ _ _) => destruct H as [-> H]
  | nn (S754_infinity _) => cbn [nn] in H; subst
  | _ => clear H
  end.

(** The comparison of two non-negative doubles is that of their values. *)
Lemma SFcompare_val x y : nn x → nn y → SFcompare x y = Some (Z.compare (val x) (val y)).
Proof.
  assert (0 < INF) by (unfold INF; lia).
  assert (∀ a b, a < b → (a ?= b) = Lt) as HLt by (intros; by apply Z.compare_lt_iff).
  assert (∀ a b, b < a → (a ?= b) = Gt) as HGt by (intros; by apply Z.compare_gt_iff).
  destruct x as [sx|sx| |sx mx ex]; [| |done|];
    (destruct y as [sy|sy| |sy my ey]; [| |done|]); intros Hx Hy;
    nn_inv Hx; nn_inv Hy; unfold SFcompare; f_equal; symmetry.
  - apply HLt, val_finite_pos, (bounded_spec my ey Hy).
  - by apply HGt, val_finite_INF.
  - apply HGt, val_finite_pos, (bounded_spec mx ex Hx).
  - by apply HLt, val_finite_INF.
  - destruct (Z.compare_spec ex ey) as [->|Hlt|Hgt].
    + unfold val. change (Pos.compare_cont Eq mx my) with (Zpos mx ?= Zpos my).
      apply bounded_spec in Hx. symmetry. apply Zmult_compare_compat_r.
      apply Z.lt_gt, Z.pow_pos_nonneg; lia.
    + by apply HLt, val_exp_lt.
    + by apply HGt, val_exp_lt.
Qed.

Lemma f_ltb_val x y : nn x → nn y → f_ltb x y = (val x <? val y).
Proof.
  intros. unfold f_ltb, SFltb, Z.ltb. rewrite SFcompare_val by done. by destruct (_ ?= _).
Qed.
Lemma f_leb_val x y : nn x → nn y → f_leb x y = (val x <=? val y).
Proof.
  intros. unfold f_leb, SFleb, Z.leb. rewrite SFcompare_val by done. by destruct (_ ?= _).
Qed.

Lemma f_add_nn x y : nn x → nn y → nn (f_add x y).
Proof. intros. by apply f_add_spec. Qed.

Lemma f_add_mono x y x' y' :
  nn x → nn y → nn x' → nn y' → val x ≤ val x' → val y ≤ val y' →
  val (f_add x y) ≤ val (f_add x' y').
Proof.
  intros Hx Hy Hx' Hy' H1 H2.
  rewrite (proj2 (f_add_spec x y Hx Hy)), (proj2 (f_add_spec x' y' Hx' Hy')).
  pose proof (val_nonneg x). pose proof (val_nonneg y). apply RND_mono; lia.
Qed.

Lemma f_add_inflate_l x y : nn x → nn y → val x ≤ val (f_add x y).
Proof.
  intros Hx Hy. rewrite (proj2 (f_add_spec x y Hx Hy)), <-(RND_val x Hx) at 1.
  pose proof (val_nonneg x). pose proof (val_nonneg y). apply RND_mono; lia.
Qed.

Lemma f_add_inflate_r x y : nn x → nn y → val y ≤ val (f_add x y).
Proof.
  intros Hx Hy. rewrite (proj2 (f_add_spec x y Hx Hy)), <-(RND_val y Hy) at 1.
  pose proof (val_nonneg x). pose proof (val_nonneg y). apply RND_mono; lia.
Qed.

(** On non-negative values addition commutes up to the sign of zero. *)
Lemma f_add_comm_val x y : nn x → nn y → val (f_add x y) = val (f_add y x).
Proof. intros. rewrite !(λ a b Ha Hb, proj2 (f_add_spec a b Ha Hb)) by done. f_equal. lia. Qed.

Lemma nn_val_INF x : nn x → val x = INF ↔ x = f_inf.
Proof.
  intros Hx. split; [|by intros ->].
  destruct x as [| | |s m e]; simpl in Hx; subst; [done|done|done|].
  destruct Hx as [-> Hb]. pose proof (val_finite_INF false m e Hb). lia.
Qed.

Lemma is_inf_val x : nn x → is_inf x = true ↔ val x = INF.
Proof. intros Hx. rewrite nn_val_INF by done. destruct x as [|[]| |]; naive_solver. Qed.

Lemma nn_not_nan x : nn x → is_nan x = false.
Proof. by destruct x. Qed.

(** Multiplication of a positive finite weight and a non-negative value stays
    non-negative (and never produces the [0 * Inf] NaN). *)
Definition pos_finite (x : f64) : Prop :=
  match x with S754_finite s m e => s = false ∧ bounded prec emax m e = true | _ => False end.

Lemma pos_finite_nn x : pos_finite x → nn x.
Proof. by destruct x. Qed.

Lemma log2_mul_lower a b : 0 < a → 0 < b → Z.log2 a + Z.log2 b ≤ Z.log2 (a * b).
Proof. intros. apply Z.log2_mul_below; lia. Qed.

Lemma f_mul_nn w x : pos_finite w → nn x → nn (f_mul w x).
Proof.
  intros Hw Hx. destruct w as [| | |sw mw ew]; try done. destruct Hw as [-> Hbw].
  destruct x as [sx|sx| |sx mx ex]; [done|by simpl in Hx; subst|done|].
  destruct Hx as [-> Hbx]. unfold f_mul. cbn [SFmul xorb].
  apply bounded_spec in Hbw, Hbx.
  pose proof (log2_mul_lower (Zpos mw) (Zpos mx)) as Hlog.
  pose proof (Z.log2_nonneg (Zpos mw)). pose proof (Z.log2_nonneg (Zpos mx)).
  assert (ew + ex ≤ fexp prec emax (Zdigits2 (Zpos (mw * mx)) + (ew + ex))) as He.
  { rewrite fexp_val, Zdigits2_log2 by lia. rewrite Pos2Z.inj_mul.
    unfold prec, emax, unit_exp in *. lia. }
  rewrite binary_round_aux_finish by (done || lia).
  destruct (rne_sig_bounds (Zpos (mw * mx)) (ew + ex)) as [Hb1 Hb2]; [lia|done|].
  apply finish_nn; [|done..]. rewrite fexp_val. lia.
Qed.

#[export] Hint Resolve f_add_nn f_mul_nn pos_finite_nn nn_not_nan val_nonneg : maeto.

(** The least of two non-negative values. *)
Lemma f_min_nn x y : nn x → nn y → nn (f_min x y) ∧ val (f_min x y) = Z.min (val x) (val y).
Proof.
  intros Hx Hy.
  assert (∀ b : bool, b = f_ltb x y →
    nn (if b then x else y) ∧ val (if b then x else y) = Z.min (val x) (val y)) as H.
  { intros b ->. rewrite f_ltb_val by done.
    destruct (Z.ltb_spec (val x) (val y)); split; try done; lia. }
  destruct x as [[]|[]| |sx mx ex]; try (simpl in Hx; done);
    (destruct y as [[]|[]| |sy my ey]; try (simpl in Hy; done)); try (by apply H); try (by split).
Qed.

(** ** Division and subtraction *)

Lemma shr_iter_m p m r s : 0 ≤ m →
  shr_m (SpecFloat.iter_pos shr_1 p (Build_shr_record m r s)) = m / 2 ^ Zpos p.
Proof.
  intros Hm. rewrite iter_pos_iter. induction p using Pos.peano_ind.
  - cbn [Pos.iter]. by rewrite shr_1_div.
  - rewrite Pos.iter_succ, Pos2Z.inj_succ.
    destruct (Pos.iter shr_1 _ p) as [q r' s']. cbn [shr_m] in IHp. rewrite IHp.
    assert (0 < 2 ^ Zpos p) by (apply Z.pow_pos_nonneg; lia).
    rewrite shr_1_div by (apply Z.div_pos; lia). cbn [shr_m].
    rewrite Z.pow_succ_r by lia. rewrite Z.div_div by lia. f_equal. lia.
Qed.

Lemma shr_fexp_m m e l : 0 ≤ m → e ≤ fexp prec emax (Zdigits2 m + e) →
  ∃ mrs, shr_fexp prec emax m e l = (mrs, fexp prec emax (Zdigits2 m + e)) ∧
         shr_m mrs = m / 2 ^ (fexp prec emax (Zdigits2 m + e) - e).
Proof.
  intros Hm He. unfold shr_fexp. set (E := fexp _ _ _) in *.
  assert (∃ r s, shr_record_of_loc m l = Build_shr_record m r s) as (r & s & ->)
    by (destruct l as [|[]]; eauto).
  destruct (E - e) as [|p|p] eqn:HE; [| |lia]; cbn [shr].
  - eexists. split; [f_equal; lia|]. simpl. by rewrite Z.div_1_r.
  - eexists. split; [f_equal; lia|]. by apply shr_iter_m.
Qed.

Lemma round_nearest_even_bounds q l : q ≤ round_nearest_even q l ≤ q + 1.
Proof. destruct l as [|[]]; simpl; try destruct (Z.even q); lia. Qed.

(** The rounded significand, whatever was cut off. *)
Lemma binary_round_aux_sig m e l : 0 ≤ m → e ≤ fexp prec emax (Zdigits2 m + e) →
  let E := fexp prec emax (Zdigits2 m + e) in
  ∃ q, binary_round_aux prec emax false m e l = finish q E ∧ 0 ≤ q ≤ 2 ^ prec ∧
       (unit_exp < E → 2 ^ (prec - 1) ≤ q) ∧ q ≤ m / 2 ^ (E - e) + 1.
Proof.
  intros Hm He. destruct (shr_fexp_m m e l Hm He) as (mrs & Hsh & Hq).
  unfold binary_round_aux. rewrite Hsh. set (E := fexp prec emax (Zdigits2 m + e)) in *.
  pose proof (round_nearest_even_bounds (shr_m mrs) (loc_of_shr_record mrs)) as Hr.
  generalize dependent (round_nearest_even (shr_m mrs) (loc_of_shr_record mrs)). intros q Hr.
  rewrite Hq in Hr.
  assert (E = Z.max (Zdigits2 m + e - prec) unit_exp) as HE by apply fexp_val.
  assert (0 < 2 ^ (E - e)) by (apply Z.pow_pos_nonneg; lia).
  assert (0 ≤ m / 2 ^ (E - e) < 2 ^ prec ∧ (unit_exp < E → 2 ^ (prec - 1) ≤ m / 2 ^ (E - e))) as [Hb1 Hb2].
  { destruct (decide (m = 0)) as [->|Hm0].
    { change (Zdigits2 0) with 0 in *. rewrite Z.div_0_l by lia. unfold prec in *. split; lia. }
    rewrite Zdigits2_log2 in HE by lia. pose proof (Z.log2_spec m) as [Hlo Hhi]; [lia|].
    pose proof (Z.log2_nonneg m). split; [split|].
    - apply Z.div_pos; lia.
    - apply Z.div_lt_upper_bound; [lia|]. rewrite <-Z.pow_add_r by (unfold prec; lia).
      eapply Z.lt_le_trans; [apply Hhi|]. apply Z.pow_le_mono_r; unfold prec in *; lia.
    - intros Hu. apply Z.div_le_lower_bound; [lia|]. rewrite <-Z.pow_add_r by (unfold prec; lia).
      transitivity (2 ^ Z.log2 m); [|lia]. apply Z.pow_le_mono_r; unfold prec in *; lia. }
  rewrite round_aux_finish by lia. exists q. split_and!; [done|lia..].
Qed.

(** Rounding never leaves the valid non-negative values. *)
Lemma binary_round_aux_nn m e l : 0 ≤ m → e ≤ fexp prec emax (Zdigits2 m + e) →
  nn (binary_round_aux prec emax false m e l).
Proof.
  intros Hm He. destruct (binary_round_aux_sig m e l Hm He) as (q & -> & Hq & Hlow & _).
  apply finish_nn; [rewrite fexp_val; lia|done..].
Qed.

(** Division as a rounded quotient of scaled significands. *)
Lemma f_div_core mx ex my ey :
  bounded prec emax mx ex = true → bounded prec emax my ey = true →
  ∃ q r e' l, f_div (S754_finite false mx ex) (S754_finite false my ey) = binary_round_aux prec emax false q e' l ∧
    0 ≤ q ∧ e' ≤ fexp prec emax (Zdigits2 q + e') ∧ Z.min unit_exp (ex - ey) ≤ e' ≤ ex - ey ∧
    Zpos mx * 2 ^ (ex - ey - e') = Zpos my * q + r ∧ 0 ≤ r < Zpos my.
Proof.
  intros Hbx Hby. unfold f_div. cbn [SFdiv xorb]. unfold SFdiv_core_binary.
  rewrite !Zdigits2_log2 by lia. rewrite !fexp_val.
  pose proof (Z.log2_nonneg (Zpos mx)). pose proof (Z.log2_nonneg (Zpos my)).
  set (D := Z.log2 (Zpos mx) + 1 + ex - (Z.log2 (Zpos my) + 1 + ey)).
  set (e' := Z.min _ (ex - ey)). set (s := ex - ey - e').
  assert (0 ≤ s) as Hs by (unfold s, e'; lia).
  assert (match s with Z0 => Zpos mx | Zpos _ => Z.shiftl (Zpos mx) s | Zneg _ => 0 end = Zpos mx * 2 ^ s) as ->.
  { destruct s; [simpl; lia| |lia]. by rewrite Z.shiftl_mul_pow2. }
  assert (0 < 2 ^ s) by (apply Z.pow_pos_nonneg; lia).
  pose proof (Z_div_mod (Zpos mx * 2 ^ s) (Zpos my)) as Hdm.
  destruct (Z.div_eucl (Zpos mx * 2 ^ s) (Zpos my)) as [q r]. destruct Hdm as [Hq Hr]; [lia|].
  assert (0 ≤ q) as Hq0 by nia.
  exists q, r, e'. eexists. split; [reflexivity|]. split; [done|].
  assert (Z.log2 (Zpos mx * 2 ^ s) = Z.log2 (Zpos mx) + s) as Hlog by (rewrite Z.log2_mul_pow2 by lia; lia).
  assert (e' ≤ Z.max (D - prec) unit_exp) as He' by (unfold e'; lia).
  split; [|split; [unfold e'; lia|done]]. rewrite fexp_val.
  destruct (decide (q = 0)) as [->|Hqpos].
  - change (Zdigits2 0) with 0. assert (Z.log2 (Zpos mx) + s ≤ Z.log2 (Zpos my)).
    { rewrite <-Hlog. apply Z.log2_le_mono. lia. }
    unfold D, s, prec in *. lia.
  - rewrite Zdigits2_log2 by lia.
    assert (Z.log2 (Zpos mx) + s ≤ Z.log2 (Zpos my) + Z.log2 q + 1).
    { rewrite <-Hlog. pose proof (Z.log2_spec (Zpos my)) as [_ HL1]; [lia|].
      pose proof (Z.log2_spec q) as [_ HL2]; [lia|].
      pose proof (Z.log2_nonneg q). apply Z.lt_succ_r. apply Z.log2_lt_pow2; [lia|].
      replace (Z.succ (Z.log2 (Zpos my) + Z.log2 q + 1)) with (Z.succ (Z.log2 (Zpos my)) + Z.succ (Z.log2 q)) by lia.
      rewrite Z.pow_add_r by lia. nia. }
    unfold D, s, prec in *. lia.
Qed.

Lemma f_div_nn x y : nn x → pos_finite y → nn (f_div x y).
Proof.
  intros Hx Hy. destruct y as [| | |sy my ey]; try done. destruct Hy as [-> Hby].
  destruct x as [sx|sx| |sx mx ex]; [done|by simpl in Hx; subst|done|]. destruct Hx as [-> Hbx].
  destruct (f_div_core mx ex my ey Hbx Hby) as (q & r & e' & l & -> & Hq & He & _). by apply binary_round_aux_nn.
Qed.

(** The difference of two values, the first larger, is the exact difference
    rounded. *)
Lemma f_sub_spec x y : nn x → nn y → val y < val x → val x < INF →
  nn (f_sub x y) ∧ val (f_sub x y) = RND (val x - val y).
Proof.
  intros Hx Hy Hlt Hfin. pose proof (val_nonneg y).
  destruct x as [sx|sx| |sx mx ex]; [simpl in Hlt; lia|unfold val in Hfin; lia|done|].
  destruct y as [sy|sy| |sy my ey]; [|unfold val in Hlt at 1; lia|done|].
  { split; [done|]. simpl (val (S754_zero sy)). rewrite Z.sub_0_r, RND_val by done. done. }
  destruct (id Hx) as [-> Hbx%bounded_spec], (id Hy) as [-> Hby%bounded_spec].
  unfold f_sub. cbn [SFsub cond_Zopp].
  destruct (shl_align_spec mx ex (Z.min ex ey)) as (m1 & e1 & -> & He1 & Hm1).
  destruct (shl_align_spec my ey (Z.min ex ey)) as (m2 & e2 & -> & He2 & Hm2). cbn [fst].
  replace e1 with (Z.min ex ey) in Hm1 by lia. replace e2 with (Z.min ex ey) in Hm2 by lia.
  assert (val (S754_finite false mx ex) = Zpos m1 * 2 ^ (Z.min ex ey - unit_exp)) as Hv1.
  { unfold val. rewrite Hm1, <-Z.mul_assoc, <-Z.pow_add_r by lia. do 2 f_equal. lia. }
  assert (val (S754_finite false my ey) = Zpos m2 * 2 ^ (Z.min ex ey - unit_exp)) as Hv2.
  { unfold val. rewrite Hm2, <-Z.mul_assoc, <-Z.pow_add_r by lia. do 2 f_equal. lia. }
  assert (0 < 2 ^ (Z.min ex ey - unit_exp)) by (apply Z.pow_pos_nonneg; lia).
  assert (Zpos m2 < Zpos m1) as Hm by (rewrite Hv1, Hv2 in Hlt; nia).
  destruct (Zpos m1 - Zpos m2) as [|d|d] eqn:Hd; [lia| |lia]. cbn [binary_normalize].
  destruct (binary_round_spec d (Z.min ex ey)) as [Hn Hv]; [lia|].
  split; [done|]. rewrite Hv, Hv1, Hv2, <-Hd. f_equal. lia.
Qed.

Lemma nn_pos_finite x : nn x → 0 < val x < INF → pos_finite x.
Proof. destruct x; simpl; try done; unfold val; lia. Qed.

Lemma f_sub_pos x y : nn x → nn y → val y < val x → val x < INF → pos_finite (f_sub x y).
Proof.
  intros Hx Hy Hlt Hfin. destruct (f_sub_spec x y) as [Hn Hv]; try done.
  pose proof (val_nonneg y). apply nn_pos_finite; [done|]. rewrite Hv. split.
  - apply Z.lt_le_trans with (RND 1); [vm_compute; reflexivity|]. apply RND_mono; lia.
  - apply Z.le_lt_trans with (RND (val x)); [apply RND_mono; lia|]. by rewrite RND_val.
Qed.
