(* ===== verification/FloatBounds.v ===== *)
(** Upper bounds for binary64 products and quotients, and the signs of
    differences: what an exponentially weighted average needs. *)

From Stdlib Require Import SpecFloat.
From S2P Require Import Prelude Float64.

(** ** Rounding never passes a double above the exact value *)

Lemma binary_round_aux_le m e my ey b :
  0 < m → e ≤ fexp prec emax (Zdigits2 m + e) → bounded prec emax my ey = true →
  b ≤ e → b ≤ ey → m * 2 ^ (e - b) ≤ Zpos my * 2 ^ (ey - b) →
  val (binary_round_aux prec emax false m e loc_Exact) ≤ val (S754_finite false my ey).
Proof.
  intros Hm He Hy%bounded_spec Hbe Hby Hle. destruct (rne_sig_bounds m e Hm He) as [Hb1 Hb2].
  rewrite binary_round_aux_finish by done. rewrite fexp_val, Zdigits2_log2 in * by lia.
  set (E := Z.max (Z.log2 m + 1 + e - prec) unit_exp) in *.
  rewrite finish_val by (try done; lia).
  assert (Z.log2 m + (e - b) ≤ Z.log2 (Zpos my) + (ey - b)) as Hlog.
  { rewrite !(Z.add_comm (Z.log2 _)), <-!Z.log2_mul_pow2 by lia. by apply Z.log2_le_mono. }
  assert (E ≤ ey) as HE by (unfold E; lia).
  assert (m ≤ Zpos my * 2 ^ (ey - E) * 2 ^ (E - e)) as Hm'.
  { rewrite <-Z.mul_assoc, <-Z.pow_add_r by lia. replace (ey - E + (E - e)) with (ey - e) by lia.
    apply (Z.mul_le_mono_pos_r _ _ (2 ^ (e - b))); [apply Z.pow_pos_nonneg; lia|].
    rewrite <-Z.mul_assoc, <-Z.pow_add_r by lia. by replace (ey - e + (e - b)) with (ey - b) by lia. }
  transitivity (Zpos my * 2 ^ (ey - E) * 2 ^ (E - unit_exp)).
  - etransitivity; [apply Z.le_min_l|]. apply Z.mul_le_mono_nonneg_r; [apply Z.pow_nonneg; lia|].
    rewrite <-(rne_div_exact (Zpos my * 2 ^ (ey - E)) (E - e)) by lia. apply rne_div_mono; lia.
  - rewrite <-Z.mul_assoc, <-Z.pow_add_r by lia. unfold val. apply Z.eq_le_incl. do 2 f_equal. lia.
Qed.

(** The product of two finite values, in units, is at most any double above
    their exact product. *)
Lemma f_mul_le w x y :
  nn w → nn x → nn y → val w < INF → val x < INF → val w * val x ≤ val y * 2 ^ 1074 →
  nn (f_mul w x) ∧ val (f_mul w x) ≤ val y.
Proof.
  intros Hw Hx Hy Hwf Hxf Hle. pose proof (val_nonneg y).
  destruct w as [sw|sw| |sw mw ew]; [|unfold val in Hwf; lia|done|].
  { destruct x as [sx|sx| |sx mx ex]; [done|unfold val in Hxf; lia|done|]. done. }
  destruct Hw as [-> Hw]. destruct x as [sx|sx| |sx mx ex]; [done|unfold val in Hxf; lia|done|].
  split; [apply f_mul_nn; done|]. destruct Hx as [-> Hx].
  pose proof (bounded_spec _ _ Hw) as Hwb. pose proof (bounded_spec _ _ Hx) as Hxb.
  destruct y as [sy|sy| |sy my ey].
  - unfold val in Hle. exfalso. assert (0 < Zpos mw * 2 ^ (ew - unit_exp)) by (apply Z.mul_pos_pos; [lia|apply Z.pow_pos_nonneg; lia]).
    assert (0 < Zpos mx * 2 ^ (ex - unit_exp)) by (apply Z.mul_pos_pos; [lia|apply Z.pow_pos_nonneg; lia]). nia.
  - apply (val_bound (f_mul _ _)). apply f_mul_nn; done.
  - done.
  - destruct Hy as [-> Hy]. pose proof (bounded_spec _ _ Hy) as Hyb.
    unfold f_mul. cbn [SFmul xorb]. rewrite Pos2Z.inj_mul.
    pose proof (log2_mul_lower (Zpos mw) (Zpos mx)) as Hlog.
    pose proof (Z.log2_nonneg (Zpos mw)). pose proof (Z.log2_nonneg (Zpos mx)).
    apply (binary_round_aux_le _ _ _ _ (unit_exp + unit_exp)); [lia| |done|lia|unfold unit_exp in *; lia|].
    + rewrite fexp_val, Zdigits2_log2 by lia. unfold prec, emax, unit_exp in *. lia.
    + unfold val in Hle. change (2 ^ 1074) with (2 ^ (- unit_exp)) in Hle.
      replace (ew + ex - (unit_exp + unit_exp)) with ((ew - unit_exp) + (ex - unit_exp)) by lia.
      replace (ey - (unit_exp + unit_exp)) with ((ey - unit_exp) + - unit_exp) by lia.
      rewrite !Z.pow_add_r by (unfold unit_exp in *; lia). nia.
Qed.

(** ** Quotients *)

(** Whatever was cut off, the rounded value is at most twice the kept one, or
    the least double. *)
Lemma binary_round_aux_double m e l :
  0 ≤ m → e ≤ fexp prec emax (Zdigits2 m + e) → unit_exp ≤ e →
  val (binary_round_aux prec emax false m e l) ≤ 2 * (m * 2 ^ (e - unit_exp)) + 1.
Proof.
  intros Hm He Hu. destruct (binary_round_aux_sig m e l Hm He) as (q & HeqF & Hq1 & Hlow & Hhi).
  rewrite HeqF, finish_val; [|rewrite fexp_val; lia|done|done].
  set (E := fexp prec emax (Zdigits2 m + e)) in *.
  assert (E = Z.max (Zdigits2 m + e - prec) unit_exp) as HE by apply fexp_val.
  etransitivity; [apply Z.le_min_l|].
  assert (0 < 2 ^ (E - e)) by (apply Z.pow_pos_nonneg; lia).
  assert (0 < 2 ^ (e - unit_exp)) by (apply Z.pow_pos_nonneg; lia).
  assert (2 ^ (E - unit_exp) = 2 ^ (E - e) * 2 ^ (e - unit_exp)) as Hp by (rewrite <-Z.pow_add_r by lia; f_equal; lia).
  pose proof (Z.mul_div_le m (2 ^ (E - e)) ltac:(lia)) as Hdiv.
  assert (m / 2 ^ (E - e) * 2 ^ (E - unit_exp) ≤ m * 2 ^ (e - unit_exp)) as H1 by (rewrite Hp; nia).
  assert (2 ^ (E - unit_exp) ≤ m * 2 ^ (e - unit_exp) + 1) as H2.
  { destruct (decide (E = unit_exp)) as [->|]; [rewrite Z.sub_diag; change (2 ^ 0) with 1; nia|].
    assert (m ≠ 0) by (intros ->; change (Zdigits2 0) with 0 in HE; unfold prec in *; lia).
    rewrite Zdigits2_log2 in HE by lia. pose proof (Z.log2_spec m ltac:(lia)) as [Hlo _].
    assert (2 ^ (E - e) ≤ m); [|nia]. etransitivity; [|exact Hlo]. apply Z.pow_le_mono_r; [lia|]. unfold prec in *. lia. }
  nia.
Qed.

(** Dividing by at least one at most doubles the value. *)
Lemma f_div_le_double x my ey :
  nn x → bounded prec emax my ey = true → ey ≤ 0 → 2 ^ (- ey) ≤ Zpos my → val x < INF →
  val (f_div x (S754_finite false my ey)) ≤ 2 * val x + 1.
Proof.
  intros Hx Hy Hey Hone Hf. destruct x as [sx|sx| |sx mx ex]; [simpl; lia|unfold val in Hf; lia|done|].
  destruct Hx as [-> Hx]. pose proof (bounded_spec _ _ Hx) as Hxb.
  destruct (f_div_core mx ex my ey Hx Hy) as (q & r & e' & l & -> & Hq & He & He' & Hqr & Hr).
  etransitivity; [apply binary_round_aux_double; [done|done|lia]|].
  assert (q * 2 ^ (e' - unit_exp) ≤ val (S754_finite false mx ex)); [|lia]. unfold val.
  assert (0 < 2 ^ (e' - unit_exp)) as Hp1 by (apply Z.pow_pos_nonneg; lia).
  assert (0 < 2 ^ (- ey)) as Hp2 by (apply Z.pow_pos_nonneg; lia).
  assert (Zpos mx * 2 ^ (ex - ey - e') * 2 ^ (e' - unit_exp) = Zpos mx * 2 ^ (ex - unit_exp) * 2 ^ (- ey)) as Hs.
  { rewrite <-!Z.mul_assoc, <-!Z.pow_add_r by lia. do 2 f_equal. lia. }
  assert (0 ≤ Zpos mx * 2 ^ (ex - unit_exp)) by (apply Z.mul_nonneg_nonneg; [lia|apply Z.pow_nonneg; lia]).
  apply (Z.mul_le_mono_pos_l _ _ (2 ^ (- ey))); [done|]. rewrite (Z.mul_comm (2 ^ (- ey)) (Zpos mx * _)), <-Hs, Hqr. nia.
Qed.

(** A significand that stands for at most one rounds to at most two. *)
Lemma round_small m e l :
  0 ≤ m → e ≤ fexp prec emax (Zdigits2 m + e) → Zdigits2 m + e ≤ 1 →
  val (binary_round_aux prec emax false m e l) ≤ 2 ^ 1075.
Proof.
  intros Hm He Hd. destruct (binary_round_aux_sig m e l Hm He) as (q & -> & Hq & Hlow & _).
  rewrite finish_val; [|rewrite fexp_val; lia|done|done]. rewrite fexp_val. etransitivity; [apply Z.le_min_l|].
  transitivity (2 ^ prec * 2 ^ 1022); [|reflexivity]. apply Z.mul_le_mono_nonneg; [lia|lia|apply Z.pow_nonneg; lia|].
  apply Z.pow_le_mono_r; unfold prec, unit_exp in *; lia.
Qed.

(** A quotient of at most one, in whole numbers. *)
Lemma quotient_digits mx ex my ey q r e' :
  unit_exp ≤ ex → unit_exp ≤ ey → e' ≤ ex - ey → 0 ≤ q → 0 ≤ r →
  e' ≤ fexp prec emax (Zdigits2 q + e') → Zpos mx * 2 ^ (ex - ey - e') = Zpos my * q + r →
  Zpos mx * 2 ^ (ex - unit_exp) ≤ Zpos my * 2 ^ (ey - unit_exp) → Zdigits2 q + e' ≤ 1.
Proof.
  intros Hex Hey He' Hq Hr He Hqr Hle. rewrite fexp_val in He.
  assert (∀ k, 0 ≤ k → 0 < 2 ^ k) as Hpos by (intros; apply Z.pow_pos_nonneg; lia).
  destruct (decide (q = 0)) as [->|Hq0]; [change (Zdigits2 0) with 0 in *; unfold prec, unit_exp in *; lia|].
  rewrite Zdigits2_log2 by lia.
  assert (Zpos my * q * 2 ^ (ey - unit_exp) ≤ Zpos mx * 2 ^ (ex - unit_exp - e')) as H1.
  { replace (ex - unit_exp - e') with (ex - ey - e' + (ey - unit_exp)) by lia.
    rewrite (Z.pow_add_r 2 (ex - ey - e')), Z.mul_assoc by lia. apply Z.mul_le_mono_nonneg_r; [|lia].
    specialize (Hpos (ey - unit_exp)). lia. }
  destruct (decide (0 < e')) as [Hp|Hn].
  - exfalso. pose proof (Hpos e' ltac:(lia)) as P1. pose proof (Hpos (ey - unit_exp) ltac:(lia)) as P2.
    assert (Zpos my * q * 2 ^ (ey - unit_exp) * 2 ^ e' ≤ Zpos my * 2 ^ (ey - unit_exp)) as H2.
    { etransitivity; [apply Z.mul_le_mono_nonneg_r; [lia|exact H1]|]. rewrite <-Z.mul_assoc, <-Z.pow_add_r by lia.
      by replace (ex - unit_exp - e' + e') with (ex - unit_exp) by lia. }
    assert (2 ≤ 2 ^ e') by (change 2 with (2 ^ 1) at 1; apply Z.pow_le_mono_r; lia). nia.
  - assert (q ≤ 2 ^ (- e')) as Hb.
    { pose proof (Hpos (- e') ltac:(lia)) as P1. pose proof (Hpos (ey - unit_exp) ltac:(lia)) as P2.
      replace (ex - unit_exp - e') with (ex - unit_exp + (- e')) in H1 by lia.
      rewrite Z.pow_add_r, Z.mul_assoc in H1 by lia.
      apply (Z.mul_le_mono_pos_l _ _ (Zpos my * 2 ^ (ey - unit_exp))); [lia|]. nia. }
    apply Z.log2_le_mono in Hb. rewrite Z.log2_pow2 in Hb by lia. lia.
Qed.

Lemma f_div_le_one x y : nn x → pos_finite y → val x ≤ val y → val (f_div x y) ≤ 2 ^ 1075.
Proof.
  intros Hx Hy Hle. destruct y as [| | |sy my ey]; try done. destruct Hy as [-> Hby].
  pose proof (val_finite_INF false my ey Hby) as Hyf. pose proof (bounded_spec _ _ Hby) as Hb2.
  destruct x as [sx|sx| |sx mx ex]; [simpl; lia|unfold val in Hle at 1; lia|done|].
  destruct Hx as [-> Hbx]. pose proof (bounded_spec _ _ Hbx) as Hb1.
  destruct (f_div_core mx ex my ey Hbx Hby) as (q & r & e' & l & -> & Hq & He & He' & Hqr & Hr).
  apply round_small; [done|done|]. eapply (quotient_digits mx ex my ey q r); try done; try lia.
Qed.

(** ** Signs *)

Lemma binary_round_aux_opp m e l :
  binary_round_aux prec emax true m e l = f_opp (binary_round_aux prec emax false m e l).
Proof.
  unfold binary_round_aux. destruct (shr_fexp prec emax m e l) as [mrs e1].
  destruct (shr_fexp prec emax _ e1 loc_Exact) as [mrs2 e2]. destruct (shr_m mrs2); [done| |done].
  by destruct (e2 <=? emax - prec).
Qed.

Lemma binary_round_opp m e : binary_round prec emax true m e = f_opp (binary_round prec emax false m e).
Proof. unfold binary_round. destruct (shl_align _ _ _). apply binary_round_aux_opp. Qed.

Lemma f_mul_opp_r w x : nn w → nn x → is_inf w = false → is_inf x = false → f_mul w (f_opp x) = f_opp (f_mul w x).
Proof.
  intros Hw Hx Hwi Hxi. destruct w as [[]|[]| |sw mw ew], x as [[]|[]| |sx mx ex]; try done;
    destruct Hw as [-> _] || idtac; destruct Hx as [-> _] || idtac; try done. apply binary_round_aux_opp.
Qed.

Lemma f_mul_opp_both w x : nn w → nn x → is_inf w = false → is_inf x = false → f_mul (f_opp w) (f_opp x) = f_mul w x.
Proof.
  intros Hw Hx Hwi Hxi. destruct w as [[]|[]| |sw mw ew], x as [[]|[]| |sx mx ex]; try done;
    destruct Hw as [-> _] || idtac; destruct Hx as [-> _] || idtac; done.
Qed.

Lemma f_add_opp x y : nn x → nn y → is_inf x = false → is_inf y = false → f_add x (f_opp y) = f_sub x y.
Proof.
  intros Hx Hy Hxi Hyi. destruct x as [[]|[]| |sx mx ex], y as [[]|[]| |sy my ey]; try done;
    destruct Hx as [-> _] || idtac; destruct Hy as [-> _] || idtac; done.
Qed.

(** A difference the other way round has the opposite sign. *)
Lemma f_sub_swap x y : nn x → nn y → val x < val y → val y < INF → f_sub x y = f_opp (f_sub y x).
Proof.
  intros Hx Hy Hlt Hf.
  destruct y as [sy|sy| |sy my ey]; [pose proof (val_nonneg x); simpl in Hlt; lia|unfold val in Hf; lia|done|].
  destruct (id Hy) as [-> Hby%bounded_spec].
  destruct x as [sx|sx| |sx mx ex]; [done|unfold val in Hlt; simpl in Hf; unfold val in Hf; lia|done|].
  destruct (id Hx) as [-> Hbx%bounded_spec]. unfold f_sub. cbn [SFsub cond_Zopp]. rewrite (Z.min_comm ey ex).
  destruct (shl_align_spec mx ex (Z.min ex ey)) as (m1 & e1 & -> & He1 & Hm1).
  destruct (shl_align_spec my ey (Z.min ex ey)) as (m2 & e2 & -> & He2 & Hm2). cbn [fst].
  assert (Zpos m1 < Zpos m2) as Hm.
  { replace e1 with (Z.min ex ey) in Hm1 by lia. replace e2 with (Z.min ex ey) in Hm2 by lia. unfold val in Hlt.
    apply (Z.mul_lt_mono_pos_r (2 ^ (Z.min ex ey - unit_exp))); [apply Z.pow_pos_nonneg; lia|].
    rewrite Hm1, Hm2, <-!Z.mul_assoc, <-!Z.pow_add_r by lia.
    replace (ex - Z.min ex ey + (Z.min ex ey - unit_exp)) with (ex - unit_exp) by lia.
    by replace (ey - Z.min ex ey + (Z.min ex ey - unit_exp)) with (ey - unit_exp) by lia. }
  assert (∃ d, Zpos m2 - Zpos m1 = Zpos d ∧ Zpos m1 - Zpos m2 = Zneg d) as (d & Hd1 & Hd2).
  { destruct (Zpos m2 - Zpos m1) as [|d|d] eqn:Hd; [lia| |lia]. exists d. split; [done|lia]. }
  rewrite Hd1, Hd2. cbn [binary_normalize]. apply binary_round_opp.
Qed.

Lemma f_sub_eq x y : nn x → nn y → val x = val y → val x < INF → nn (f_sub x y) ∧ val (f_sub x y) = 0.
Proof.
  intros Hx Hy He Hf.
  destruct x as [sx|sx| |sx mx ex]; [|unfold val in Hf; lia|done|].
  - destruct y as [sy|sy| |sy my ey]; [by destruct sx, sy|simpl in He; unfold INF in He; lia|done|].
    destruct Hy as [_ Hb%bounded_spec]. pose proof (val_finite_pos my ey). simpl in He. unfold val in *. lia.
  - destruct (id Hx) as [-> Hbx%bounded_spec]. pose proof (val_finite_pos mx ex ltac:(lia)) as Hpos.
    destruct y as [sy|sy| |sy my ey]; [unfold val in *; lia|unfold val in *; lia|done|].
    destruct (id Hy) as [-> Hby%bounded_spec]. unfold f_sub. cbn [SFsub cond_Zopp].
    destruct (shl_align_spec mx ex (Z.min ex ey)) as (m1 & e1 & -> & He1 & Hm1).
    destruct (shl_align_spec my ey (Z.min ex ey)) as (m2 & e2 & -> & He2 & Hm2). cbn [fst].
    assert (Zpos m1 - Zpos m2 = 0) as ->; [|done].
    replace e1 with (Z.min ex ey) in Hm1 by lia. replace e2 with (Z.min ex ey) in Hm2 by lia. unfold val in He.
    enough (Zpos m1 * 2 ^ (Z.min ex ey - unit_exp) = Zpos m2 * 2 ^ (Z.min ex ey - unit_exp)) as Hm
      by (apply Z.mul_reg_r in Hm; [lia|]; apply Z.pow_nonzero; lia).
    rewrite Hm1, Hm2, <-!Z.mul_assoc, <-!Z.pow_add_r by lia.
    replace (ex - Z.min ex ey + (Z.min ex ey - unit_exp)) with (ex - unit_exp) by lia.
    by replace (ey - Z.min ex ey + (Z.min ex ey - unit_exp)) with (ey - unit_exp) by lia.
Qed.

Lemma is_inf_finite x : nn x → val x < INF → is_inf x = false.
Proof. intros Hx Hf. apply not_true_iff_false. intros Hi%is_inf_val; [lia|done]. Qed.

(** ** Exact differences *)

(** The distance to a power of two from its upper half is a double. *)
Lemma RND_to_pow2 x K : nn x → 53 ≤ K → 2 ^ K < INF → 2 ^ (K - 1) ≤ val x ≤ 2 ^ K → RND (2 ^ K - val x) = 2 ^ K - val x.
Proof.
  intros Hx HK Hf Hv. assert (0 < 2 ^ (K - 1)) by (apply Z.pow_pos_nonneg; lia).
  destruct x as [sx|sx| |sx mx ex]; [unfold val in Hv; lia|unfold val in Hv; lia|done|].
  destruct Hx as [-> Hb%bounded_spec].
  assert (K - 1 ≤ Z.log2 (Zpos mx) + (ex - unit_exp)) as Hlog.
  { rewrite Z.add_comm, <-Z.log2_mul_pow2 by lia. apply Z.log2_le_pow2; [unfold val in Hv; lia|]. apply Hv. }
  assert (K - 53 ≤ ex - unit_exp) as He by (unfold prec in *; lia).
  assert (2 ^ K - val (S754_finite false mx ex) =
          (2 ^ 53 - Zpos mx * 2 ^ (ex - unit_exp - (K - 53))) * 2 ^ (K - 53)) as Hfact.
  { unfold val. rewrite Z.mul_sub_distr_r, <-Z.mul_assoc, <-!Z.pow_add_r by lia. f_equal; [f_equal; lia|]. do 2 f_equal. lia. }
  set (s := 2 ^ K - val _) in *.
  assert (2 ^ K = 2 * 2 ^ (K - 1)) as H2K by (rewrite <-Z.pow_succ_r by lia; f_equal; lia).
  unfold RND. rewrite (rne_exact (2 ^ 53 - Zpos mx * 2 ^ (ex - unit_exp - (K - 53))) s (K - 53)); [apply Z.min_l; unfold s; lia| |exact Hfact].
  split; [apply drop_nonneg|]. unfold drop. destruct (decide (s = 0)) as [->|Hs]; [change (Z.log2 0) with 0; unfold prec; lia|].
  assert (Z.log2 s ≤ K - 1); [|unfold prec; lia]. rewrite <-(Z.log2_pow2 (K - 1)) by lia. apply Z.log2_le_mono. unfold s. lia.
Qed.

(** ** One step of an average *)

Section step.
Context (K : Z) (a M half : f64).
Context (HK : 53 ≤ K) (HKf : 2 ^ K < INF).
Context (Ha : nn a) (Ha2 : val a ≤ 2 ^ 1073).
Context (HM : nn M) (HMv : val M = 2 ^ K) (Hh : nn half) (Hhv : val half = 2 ^ (K - 1)).

Lemma pow_K : 2 ^ K = 2 * 2 ^ (K - 1).
Proof. rewrite <-Z.pow_succ_r by lia. f_equal. lia. Qed.

Lemma RND_le_M s : 0 ≤ s → s ≤ 2 ^ K → 0 ≤ RND s ≤ 2 ^ K.
Proof.
  intros H0 Hs. split; [unfold RND; pose proof (rne_nonneg s H0); unfold INF; lia|].
  rewrite <-HMv, <-(RND_val M) by done. apply RND_mono; lia.
Qed.

(** A weight of at most one half times a value of at most [2 ^ K]. *)
Lemma scaled d : nn d → val d ≤ 2 ^ K → nn (f_mul a d) ∧ val (f_mul a d) ≤ val d ∧ val (f_mul a d) ≤ 2 ^ (K - 1).
Proof.
  intros Hd Hdv. assert (2 ^ 1074 = 2 * 2 ^ 1073) as H74 by reflexivity. assert (2 ^ 1073 < INF) as H73 by reflexivity.
  pose proof (val_nonneg a). pose proof (val_nonneg d). pose proof pow_K.
  destruct (f_mul_le a d d) as [Hn Hle]; [done|done|done|lia|lia|rewrite H74; nia|].
  destruct (f_mul_le a d half) as [_ Hle2]; [done|done|done|lia|lia|rewrite H74; nia|]. by rewrite Hhv in Hle2.
Qed.

Lemma square_nn p d : nn p → nn d → val p < INF → val d < INF → nn (f_mul p d).
Proof.
  intros Hp Hd Hpf Hdf. assert (nn f_inf) by done. destruct p as [[]|[]| |sp mp ep]; try done.
  1-2: destruct d as [[]|[]| |sd md ed]; try done; unfold val in Hdf; lia.
  by apply f_mul_nn.
Qed.

Lemma step_bounded x v :
  nn x → nn v → val x ≤ 2 ^ K → val v ≤ 2 ^ K →
  let d := f_sub v x in
  nn (f_add x (f_mul a d)) ∧ val (f_add x (f_mul a d)) ≤ 2 ^ K ∧ nn (f_mul (f_mul a d) d).
Proof.
  intros Hx Hv Hxb Hvb d. pose proof (val_nonneg x). pose proof (val_nonneg v). pose proof pow_K.
  destruct (Z.lt_trichotomy (val v) (val x)) as [Hlt|[Heq|Hgt]].
  - (* down: [x] minus at most the distance to [v] *)
    assert (d = f_opp (f_sub x v)) as -> by (apply f_sub_swap; [done|done|lia|lia]).
    destruct (f_sub_spec x v) as [Hn Hdv]; [done|done|lia|lia|]. set (d' := f_sub x v) in *.
    assert (val d' ≤ val x) as Hdx by (rewrite Hdv; transitivity (RND (val x)); [apply RND_mono; lia|by rewrite RND_val]).
    destruct (scaled d') as (Hpn & Hpd & Hph); [done|lia|]. set (p := f_mul a d') in *.
    assert (is_inf a = false) by (apply is_inf_finite; [done|]; eapply Z.le_lt_trans; [exact Ha2|reflexivity]).
    assert (is_inf d' = false) by (apply is_inf_finite; [done|lia]).
    assert (is_inf p = false) by (apply is_inf_finite; [done|lia]).
    assert (is_inf x = false) by (apply is_inf_finite; [done|lia]).
    rewrite f_mul_opp_r, f_add_opp, f_mul_opp_both by done. fold p. split; [|split].
    + destruct (Z.eq_dec (val x) (val p)); [apply f_sub_eq; [done|done|done|lia]|]. apply f_sub_spec; [done|done|lia|lia].
    + destruct (Z.eq_dec (val x) (val p)) as [He|He]; [destruct (f_sub_eq x p) as [_ ->]; [done|done|done|lia|lia]|].
      destruct (f_sub_spec x p) as [_ ->]; [done|done|lia|lia|]. apply RND_le_M; [lia|]. pose proof (val_nonneg p). lia.
    + apply square_nn; [done|done|lia|lia].
  - destruct (f_sub_eq v x) as [Hn Hdv]; [done|done|done|lia|]. fold d in Hn, Hdv.
    destruct (scaled d) as (Hpn & Hpd & Hph); [done|lia|]. pose proof (val_nonneg (f_mul a d)).
    destruct (f_add_spec x (f_mul a d)) as [Hs ->]; [done|done|]. split_and!; [done|apply RND_le_M; lia|apply square_nn; [done|done|lia|lia]].
  - (* up: at most the distance to [v], or at most half of the bound *)
    destruct (f_sub_spec v x) as [Hn Hdv]; [done|done|lia|lia|]. fold d in Hn, Hdv.
    assert (val d ≤ RND (2 ^ K - val x)) as Hd by (rewrite Hdv; apply RND_mono; lia).
    destruct (RND_le_M (2 ^ K - val x)) as [_ HdM]; [lia|lia|].
    destruct (scaled d) as (Hpn & Hpd & Hph); [done|lia|]. pose proof (val_nonneg (f_mul a d)).
    destruct (f_add_spec x (f_mul a d)) as [Hs ->]; [done|done|].
    split_and!; [done| |apply square_nn; [done|done|lia|lia]]. apply RND_le_M; [lia|].
    destruct (Z.le_gt_cases (2 ^ (K - 1)) (val x)) as [Hbig|Hsmall]; [|lia].
    rewrite RND_to_pow2 in Hd by (done || lia). lia.
Qed.
End step.
