(* ===== verification/Netip.v ===== *)
(** The part of Go's [net/netip] the sources use: addresses and prefixes as
    values, their textual forms and [Prefix.Contains].  IPv6 zones are not
    represented: every address of the program comes from a prefix, a zoneless
    literal or a 16-byte array, and [ParsePrefix] refuses a zone. *)

From S2P Require Import Prelude.

(** The zero [Addr] is not a valid address. *)
Inductive Addr : Type :=
  | AddrZero
  | Addr4 (v : Z)
  | Addr6 (v : Z).

#[export] Instance Addr_eq_dec : EqDecision Addr.
Proof. solve_decision. Defined.
#[export] Instance Addr_countable : Countable Addr.
Proof.
  refine (inj_countable'
    (λ a, match a with AddrZero => inl () | Addr4 v => inr (inl v) | Addr6 v => inr (inr v) end)
    (λ s, match s with inl _ => AddrZero | inr (inl v) => Addr4 v | inr (inr v) => Addr6 v end) _).
  by intros [].
Defined.

Definition addr_is_valid (a : Addr) : bool :=
  match a with AddrZero => false | _ => true end.
Definition addr_bit_len (a : Addr) : Z :=
  match a with AddrZero => 0 | Addr4 _ => 32 | Addr6 _ => 128 end.

Record Prefix : Type := MkPrefix { pfx_addr : Addr; pfx_bits : Z }.

#[export] Instance Prefix_eq_dec : EqDecision Prefix.
Proof. solve_decision. Defined.
#[export] Instance Prefix_countable : Countable Prefix.
Proof.
  refine (inj_countable' (λ p, (pfx_addr p, pfx_bits p)) (λ '(a, b), MkPrefix a b) _).
  by intros [].
Defined.

(** An invalid prefix reports [Bits() = -1]. *)
Definition prefix_zero : Prefix := MkPrefix AddrZero (-1).
Definition PrefixFrom (a : Addr) (bits : Z) : Prefix :=
  if (bits <? 0) || (addr_bit_len a <? bits) then MkPrefix a (-1) else MkPrefix a bits.
Definition prefix_is_valid (p : Prefix) : bool := 0 <=? pfx_bits p.

Definition prefix_contains (p : Prefix) (a : Addr) : bool :=
  prefix_is_valid p &&
  match pfx_addr p, a with
  | Addr4 x, Addr4 y => Z.shiftr x (32 - pfx_bits p) =? Z.shiftr y (32 - pfx_bits p)
  | Addr6 x, Addr6 y => Z.shiftr x (128 - pfx_bits p) =? Z.shiftr y (128 - pfx_bits p)
  | _, _ => false
  end.

(** ** Printing *)

Definition hex_digit (d : Z) : ascii :=
  ascii_of_N (Z.to_N (if d <? 10 then 48 + d else 87 + d)).

Definition hex16 (g : Z) : string :=
  let d3 := String (hex_digit (g mod 16)) EmptyString in
  if g <? 16 then d3 else
  let d2 := String (hex_digit (g / 16 mod 16)) d3 in
  if g <? 256 then d2 else
  let d1 := String (hex_digit (g / 256 mod 16)) d2 in
  if g <? 4096 then d1 else String (hex_digit (g / 4096 mod 16)) d1.

Definition groups6 (v : Z) : list Z :=
  (λ i, Z.shiftr v (16 * i) mod 2 ^ 16) <$> [7; 6; 5; 4; 3; 2; 1; 0].

(** Length of the run of zero groups at the head of the list. *)
Fixpoint zero_run (gs : list Z) : nat :=
  match gs with
  | g :: gs => if g =? 0 then S (zero_run gs) else O
  | [] => O
  end.

(** First longest run of at least two zero groups, as (start, end). *)
Fixpoint longest_run (i : nat) (gs : list Z) (best : option (nat * nat)) : option (nat * nat) :=
  match gs with
  | [] => best
  | _ :: rest =>
      let l := zero_run gs in
      let best_len := match best with Some (s, e) => (e - s)%nat | None => O end in
      let best' := if ((2 <=? l) && (S best_len <=? l))%nat then Some (i, (i + l)%nat) else best in
      longest_run (S i) rest best'
  end.

Fixpoint print_groups (gs : list Z) (first : bool) : string :=
  match gs with
  | [] => ""
  | g :: gs => String.append (if first then "" else ":") (String.append (hex16 g) (print_groups gs false))
  end.

Definition print6 (v : Z) : string :=
  let gs := groups6 v in
  match longest_run 0 gs None with
  | None => print_groups gs true
  | Some (s, e) =>
      String.append (print_groups (take s gs) true)
        (String.append "::" (print_groups (drop e gs) true))
  end.

Definition print4 (v : Z) : string :=
  String.append (dec (Z.shiftr v 24 mod 256)) (String.append "."
    (String.append (dec (Z.shiftr v 16 mod 256)) (String.append "."
      (String.append (dec (Z.shiftr v 8 mod 256)) (String.append "."
        (dec (v mod 256))))))).

(** [Addr.String]: an IPv4-mapped IPv6 address is printed with a dotted tail. *)
Definition addr_string (a : Addr) : string :=
  match a with
  | AddrZero => "invalid IP"
  | Addr4 v => print4 v
  | Addr6 v =>
      if Z.shiftr v 32 =? 65535 then String.append "::ffff:" (print4 (v mod 2 ^ 32)) else print6 v
  end.

Definition prefix_string (p : Prefix) : string :=
  if prefix_is_valid p
  then String.append (addr_string (pfx_addr p)) (String.append "/" (dec (pfx_bits p)))
  else "invalid Prefix".

(** ** Parsing *)

Definition digit_val (c : ascii) : option Z :=
  let n := Z.of_N (N_of_ascii c) in
  if (48 <=? n) && (n <=? 57) then Some (n - 48) else None.

Definition hex_val (c : ascii) : option Z :=
  let n := Z.of_N (N_of_ascii c) in
  if (48 <=? n) && (n <=? 57) then Some (n - 48)
  else if (97 <=? n) && (n <=? 102) then Some (n - 87)
  else if (65 <=? n) && (n <=? 70) then Some (n - 55)
  else None.

(** One dotted-quad octet after another: [val], [digits] describe the octet
    being read, [fields] the octets completed, latest first. *)
Fixpoint parse4_fields (s : list ascii) (val : Z) (digits : nat) (fields : list Z) : option (list Z) :=
  match s with
  | [] => if decide (length fields = 3%nat ∧ digits ≠ 0%nat) then Some (rev (val :: fields)) else None
  | c :: s =>
      match digit_val c with
      | Some d =>
          if (digits =? 1)%nat && (val =? 0) then None
          else let v := val * 10 + d in
               if 255 <? v then None else parse4_fields s v (S digits) fields
      | None =>
          if Ascii.eqb c "." && negb (digits =? 0)%nat && negb (length fields =? 3)%nat
          then parse4_fields s 0 0 (val :: fields) else None
      end
  end.

Definition combine_bytes (bs : list Z) : Z := foldl (λ acc b, acc * 256 + b) 0 bs.

(** Leading hexadecimal digits: their value, their number and what follows. *)
Fixpoint take_hex (s : list ascii) (acc : Z) (n : nat) : Z * nat * list ascii :=
  match s with
  | c :: s' => match hex_val c with Some d => take_hex s' (acc * 16 + d) (S n) | None => (acc, n, s) end
  | [] => (acc, n, [])
  end.

(** The loop of [parseIPv6]: [bytes] are the bytes written so far and
    [ellipsis] the position of the "::". *)
Fixpoint parse6_loop (fuel : nat) (s : list ascii) (bytes : list Z) (ellipsis : option nat)
    : option (list Z * option nat) :=
  match fuel with
  | O => match s with [] => Some (bytes, ellipsis) | _ => None end
  | S fuel =>
      let '(acc, n, rest) := take_hex s 0 0 in
      if (n =? 0)%nat || (4 <? n)%nat then None else
      match rest with
      | "."%char :: _ =>
          if (12 <? length bytes)%nat || (negb (bool_decide (is_Some ellipsis)) && negb (length bytes =? 12)%nat)
          then None
          else f ← parse4_fields s 0 0 []; Some (bytes ++ f, ellipsis)
      | [] => Some (bytes ++ [acc / 256; acc mod 256], ellipsis)
      | ":"%char :: [] => None
      | ":"%char :: ":"%char :: rest' =>
          if bool_decide (is_Some ellipsis) then None else
          let bytes' := bytes ++ [acc / 256; acc mod 256] in
          match rest' with
          | [] => Some (bytes', Some (length bytes'))
          | _ => parse6_loop fuel rest' bytes' (Some (length bytes'))
          end
      | ":"%char :: rest' => parse6_loop fuel rest' (bytes ++ [acc / 256; acc mod 256]) ellipsis
      | _ => None
      end
  end.

Definition parse6 (s : list ascii) : option Addr :=
  '(bytes, ellipsis) ←
    match s with
    | [":"%char; ":"%char] => Some ([], Some 0%nat)
    | ":"%char :: ":"%char :: s' => parse6_loop 8 s' [] (Some 0%nat)
    | _ => parse6_loop 8 s [] None
    end;
  match ellipsis with
  | None => if (length bytes =? 16)%nat then Some (Addr6 (combine_bytes bytes)) else None
  | Some k =>
      if (length bytes <? 16)%nat
      then Some (Addr6 (combine_bytes (take k bytes ++ replicate (16 - length bytes)%nat 0 ++ drop k bytes)))
      else None
  end.

Fixpoint parse_addr_kind (s : list ascii) (whole : list ascii) : option Addr :=
  match s with
  | [] => None
  | "."%char :: _ => f ← parse4_fields whole 0 0 []; Some (Addr4 (combine_bytes f))
  | ":"%char :: _ => parse6 whole
  | _ :: s => parse_addr_kind s whole
  end.

Definition ParseAddr (s : string) : option Addr :=
  let cs := String.list_ascii_of_string s in parse_addr_kind cs cs.

(** Split at the last '/'. *)
Fixpoint split_last_slash (s : list ascii) : option (list ascii * list ascii) :=
  match s with
  | [] => None
  | c :: s' =>
      match split_last_slash s' with
      | Some (a, b) => Some (c :: a, b)
      | None => if Ascii.eqb c "/" then Some ([], s') else None
      end
  end.

Definition parse_bits (s : list ascii) : option Z :=
  match s with
  | [] => None
  | c :: s' =>
      if (1 <? length s)%nat && Ascii.eqb c "0" then None
      else foldl (λ acc c, a ← acc; d ← digit_val c; Some (a * 10 + d)) (Some 0) s
  end.

Definition ParsePrefix (s : string) : option Prefix :=
  '(a, b) ← split_last_slash (String.list_ascii_of_string s);
  ip ← parse_addr_kind a a;
  bits ← parse_bits b;
  if addr_bit_len ip <? bits then None else Some (MkPrefix ip bits).

Example parse_prefix_v6 :
  ParsePrefix "fd7a:db8:beef::/48" =
  Some (MkPrefix (Addr6 (0xfd7a0db8beef * 2 ^ 80)) 48).
Proof. vm_compute. reflexivity. Qed.
Example parse_print_v6 :
  (prefix_string <$> ParsePrefix "2001:db8:0:0:1:0:0:1/64") = Some "2001:db8::1:0:0:1/64"%string.
Proof. vm_compute. reflexivity. Qed.
Example parse_print_v4 : (prefix_string <$> ParsePrefix "10.1.2.0/24") = Some "10.1.2.0/24"%string.
Proof. vm_compute. reflexivity. Qed.
Example parse_bad : ParsePrefix "10.01.2.0/24" = None ∧ ParsePrefix "10.1.2.0" = None
  ∧ ParsePrefix "1::2::3/64" = None ∧ ParsePrefix "10.1.2.0/33" = None.
Proof. vm_compute. done. Qed.
