(* ===== verification/Topology.v ===== *)
(** The topology: nodes, directed edges and the graph built from the
    generated topology file (topology.go, topology_clab.go). *)

From S2P Require Import Prelude Float64 Netip.

Notation NodeID := string (only parsing).
Notation EdgeID := string (only parsing).

Record Node := {
  Node_ID : NodeID;
  Node_Name : string;
  Node_ASN : Z;
  Node_ISISNet : string;
  Node_Loopback : Prefix;
  Node_Locator : Prefix;
  Node_Attrs : gmap string string;
}.

Record Edge := {
  Edge_ID : EdgeID;
  Edge_Local : NodeID;
  Edge_Remote : NodeID;
  Edge_Role : string;
  Edge_LocalIface : string;
  Edge_RemoteIface : string;
  Edge_LocalAddr : string;
  Edge_RemoteAddr : string;
  Edge_Subnet : string;
  Edge_Metric : Z;
  Edge_TEMetric : Z;
  Edge_Bandwidth : f64;
  Edge_Delay : Duration;
  Edge_Up : bool;
  Edge_EndX : Addr;
}.

Definition Edge_set_Up (b : bool) (e : Edge) : Edge :=
  {| Edge_ID := Edge_ID e; Edge_Local := Edge_Local e; Edge_Remote := Edge_Remote e;
     Edge_Role := Edge_Role e; Edge_LocalIface := Edge_LocalIface e;
     Edge_RemoteIface := Edge_RemoteIface e; Edge_LocalAddr := Edge_LocalAddr e;
     Edge_RemoteAddr := Edge_RemoteAddr e; Edge_Subnet := Edge_Subnet e;
     Edge_Metric := Edge_Metric e; Edge_TEMetric := Edge_TEMetric e;
     Edge_Bandwidth := Edge_Bandwidth e; Edge_Delay := Edge_Delay e;
     Edge_Up := b; Edge_EndX := Edge_EndX e |}.

Definition Edge_set_EndX (a : Addr) (e : Edge) : Edge :=
  {| Edge_ID := Edge_ID e; Edge_Local := Edge_Local e; Edge_Remote := Edge_Remote e;
     Edge_Role := Edge_Role e; Edge_LocalIface := Edge_LocalIface e;
     Edge_RemoteIface := Edge_RemoteIface e; Edge_LocalAddr := Edge_LocalAddr e;
     Edge_RemoteAddr := Edge_RemoteAddr e; Edge_Subnet := Edge_Subnet e;
     Edge_Metric := Edge_Metric e; Edge_TEMetric := Edge_TEMetric e;
     Edge_Bandwidth := Edge_Bandwidth e; Edge_Delay := Edge_Delay e;
     Edge_Up := Edge_Up e; Edge_EndX := a |}.

(** The topology's own [Prefix] type; [Prefix] here is [netip]'s. *)
Record TopologyPrefix := {
  tp_Origin : NodeID;
  tp_Subnet : string;
  tp_Attrs : gmap string string;
}.

Record SRv6DomainMetadata := {
  dm_LocatorPrefix : Prefix;
  dm_LinkPrefix : Prefix;
  dm_EdgePrefix : Prefix;
}.

(** The lock of [Graph] is not represented: each operation below is one
    critical section. *)
Record Graph := {
  g_nodes : gmap NodeID Node;
  g_edges : gmap EdgeID Edge;
  g_prefixes : gmap string TopologyPrefix;
  g_adj : gmap NodeID (list EdgeID);
}.

(** ** Construction from the topology file *)

Record RawPop := {
  rp_ID : string; rp_Name : string; rp_Locator : string; rp_Loopback : string;
}.
Record RawEndpoint := { re_ID : string; re_Interface : string; re_Address : string }.
Record RawLink := {
  rl_Type : string; rl_Subnet : string; rl_BandwidthMbps : f64;
  rl_A : RawEndpoint; rl_B : RawEndpoint;
}.

Inductive topology_error :=
  | BadLoopback (s : string)
  | BadLocator (s : string).

(** [fmt.Sprintf("%s:%s-%s:%s", ...)]. *)
Definition edge_id (a ifa b ifb : string) : EdgeID :=
  String.append a (String.append ":" (String.append ifa (String.append "-"
    (String.append b (String.append ":" ifb))))).

Definition link_edge (l : RawLink) (a b : RawEndpoint) : Edge :=
  {| Edge_ID := edge_id (re_ID a) (re_Interface a) (re_ID b) (re_Interface b);
     Edge_Local := re_ID a; Edge_Remote := re_ID b; Edge_Role := "link";
     Edge_LocalIface := re_Interface a; Edge_RemoteIface := re_Interface b;
     Edge_LocalAddr := re_Address a; Edge_RemoteAddr := re_Address b;
     Edge_Subnet := rl_Subnet l; Edge_Metric := 0; Edge_TEMetric := 0;
     Edge_Bandwidth := rl_BandwidthMbps l; Edge_Delay := 0; Edge_Up := true;
     Edge_EndX := AddrZero |}.

Definition add_pop (g : Graph) (p : RawPop) : result topology_error Graph :=
  match ParsePrefix (rp_Loopback p) with
  | None => Err (BadLoopback (rp_Loopback p))
  | Some loopback =>
      match ParsePrefix (rp_Locator p) with
      | None => Err (BadLocator (rp_Locator p))
      | Some locator =>
          Ok {| g_nodes := <[rp_ID p :=
                  {| Node_ID := rp_ID p; Node_Name := rp_Name p; Node_ASN := 0;
                     Node_ISISNet := ""; Node_Loopback := loopback;
                     Node_Locator := locator; Node_Attrs := ∅ |}]> (g_nodes g);
                g_edges := g_edges g; g_prefixes := g_prefixes g; g_adj := g_adj g |}
      end
  end.

Definition adj_append {A} (adj : gmap NodeID (list A)) (n : NodeID) (x : A) : gmap NodeID (list A) :=
  <[n := map_get [] adj n ++ [x]]> adj.

Definition add_link (g : Graph) (l : RawLink) : Graph :=
  if decide (rl_Type l = "core"%string) then
    let e := link_edge l (rl_A l) (rl_B l) in
    let r := link_edge l (rl_B l) (rl_A l) in
    {| g_nodes := g_nodes g;
       g_edges := <[Edge_ID r := r]> (<[Edge_ID e := e]> (g_edges g)); g_prefixes := g_prefixes g;
       g_adj := adj_append (adj_append (g_adj g) (re_ID (rl_A l)) (Edge_ID e))
                  (re_ID (rl_B l)) (Edge_ID r) |}
  else g.

Definition generateGraphFromRawTopology (pops : list RawPop) (links : list RawLink)
    : result topology_error Graph :=
  g ← foldM add_pop {| g_nodes := ∅; g_edges := ∅; g_prefixes := ∅; g_adj := ∅ |} pops;
  Ok (foldl add_link g links).

(** [Graph.Clone]: a deep copy.  On values the copy equals the original; what
    it copies is every node, edge, prefix and adjacency list. *)
Definition Node_clone (n : Node) : Node :=
  {| Node_ID := Node_ID n; Node_Name := Node_Name n; Node_ASN := Node_ASN n; Node_ISISNet := Node_ISISNet n;
     Node_Loopback := Node_Loopback n; Node_Locator := Node_Locator n; Node_Attrs := Node_Attrs n |}.

Definition TopologyPrefix_clone (p : TopologyPrefix) : TopologyPrefix :=
  {| tp_Origin := tp_Origin p; tp_Subnet := tp_Subnet p; tp_Attrs := tp_Attrs p |}.

Definition Graph_Clone (g : Graph) : Graph :=
  {| g_nodes := Node_clone <$> g_nodes g; g_edges := g_edges g;
     g_prefixes := TopologyPrefix_clone <$> g_prefixes g; g_adj := g_adj g |}.

(** ** The topology manager *)

Record ClabTopologyManager := {
  tm_ready : bool;
  tm_graph : option Graph;
  tm_domainMetadata : SRv6DomainMetadata;
}.

Definition NewClabTopologyManager : ClabTopologyManager :=
  {| tm_ready := false; tm_graph := None;
     tm_domainMetadata := {| dm_LocatorPrefix := prefix_zero; dm_LinkPrefix := prefix_zero; dm_EdgePrefix := prefix_zero |} |}.

(** The decoded topology file. *)
Record RawTopologyData := {
  rtd_LocatorPrefix : string; rtd_LinkPrefix : string; rtd_EdgePrefix : string;
  rtd_Pops : list RawPop; rtd_Links : list RawLink;
}.

Inductive load_topology_error :=
  | TopologyUnreadable
  | RawTopologyInvalid (e : topology_error)
  | BadLocatorPrefix (s : string)
  | BadLinkPrefix (s : string)
  | BadEdgePrefix (s : string).

(** [LoadTopology] on what the files decode to, if they do; an error leaves the
    manager as it was. *)
Definition LoadTopology (c : ClabTopologyManager) (file : option RawTopologyData)
    : ClabTopologyManager * option load_topology_error :=
  match file with
  | None => (c, Some TopologyUnreadable)
  | Some raw =>
  match generateGraphFromRawTopology (rtd_Pops raw) (rtd_Links raw) with
  | Err e => (c, Some (RawTopologyInvalid e))
  | Ok graph =>
  match ParsePrefix (rtd_LocatorPrefix raw) with
  | None => (c, Some (BadLocatorPrefix (rtd_LocatorPrefix raw)))
  | Some locator =>
  match ParsePrefix (rtd_LinkPrefix raw) with
  | None => (c, Some (BadLinkPrefix (rtd_LinkPrefix raw)))
  | Some link =>
  match ParsePrefix (rtd_EdgePrefix raw) with
  | None => (c, Some (BadEdgePrefix (rtd_EdgePrefix raw)))
  | Some edge =>
      ({| tm_ready := true; tm_graph := Some graph;
          tm_domainMetadata := {| dm_LocatorPrefix := locator; dm_LinkPrefix := link; dm_EdgePrefix := edge |} |}, None)
  end end end end end.

Definition TopologyIsReady (c : ClabTopologyManager) : bool := tm_ready c.
Definition TopologyGraph (c : ClabTopologyManager) : option Graph := tm_graph c.
Definition GetDomainMetadata (c : ClabTopologyManager) : SRv6DomainMetadata := tm_domainMetadata c.

(** [None] of the outer option: the graph is nil and the call panics. *)
Definition GetPCEEdge (c : ClabTopologyManager) (id : EdgeID) : option (option Edge) :=
  (λ g, g_edges g !! id) <$> tm_graph c.
Definition GetNodeByID (c : ClabTopologyManager) (id : NodeID) : option (option Node) :=
  (λ g, g_nodes g !! id) <$> tm_graph c.

(** ** Live changes to the graph *)

(** [ClabTopologyManager.SetEndXSIDs]: the new graph and the edges changed.
    An interface the node did not report gets the zero address. *)
Definition set_endx_edge (node : NodeID) (sids : gmap string Addr) (e : Edge) : Edge :=
  if decide (Edge_Local e = node) then
    let sid := map_get AddrZero sids (Edge_LocalIface e) in
    if decide (sid = Edge_EndX e) then e else Edge_set_EndX sid e
  else e.

Definition endx_changed (node : NodeID) (sids : gmap string Addr) (e : Edge) : bool :=
  bool_decide (Edge_Local e = node ∧ map_get AddrZero sids (Edge_LocalIface e) ≠ Edge_EndX e).

Definition SetEndXSIDs `{RangeOrder} (g : Graph) (node : NodeID) (sids : gmap string Addr)
    : Graph * list EdgeID :=
  ({| g_nodes := g_nodes g; g_edges := set_endx_edge node sids <$> g_edges g; g_prefixes := g_prefixes g;
     g_adj := g_adj g |},
   (λ p, Edge_ID p.2) <$> filter (λ p, endx_changed node sids p.2 = true) (range_map (g_edges g))).

(** ** Well-formed graphs *)

(** Edges are stored under their id, adjacency lists name stored edges that
    leave the node, and every edge is listed at the node it leaves. *)
Record graph_wf (g : Graph) : Prop := {
  gw_id : ∀ id e, g_edges g !! id = Some e → Edge_ID e = id;
  gw_adj : ∀ n id, id ∈ map_get [] (g_adj g) n →
    ∃ e, g_edges g !! id = Some e ∧ Edge_Local e = n;
  gw_adj_complete : ∀ id e, g_edges g !! id = Some e → id ∈ map_get [] (g_adj g) (Edge_Local e);
}.

(** [s] does not contain the character [c]. *)
Fixpoint str_free (c : ascii) (s : string) : bool :=
  match s with
  | EmptyString => true
  | String d s => negb (Ascii.eqb d c) && str_free c s
  end.

Lemma split_unique (c : ascii) (a a' x x' : string) :
  str_free c a = true → str_free c a' = true →
  String.append a (String c x) = String.append a' (String c x') → a = a' ∧ x = x'.
Proof.
  revert a'. induction a as [|d a IH]; intros [|d' a'] Ha Ha' Heq; simpl in *.
  - by simplify_eq.
  - simplify_eq. by rewrite Ascii.eqb_refl in Ha'.
  - simplify_eq. by rewrite Ascii.eqb_refl in Ha.
  - apply andb_prop in Ha as [_ Ha], Ha' as [_ Ha']. simplify_eq.
    destruct (IH a') as [-> ->]; auto.
Qed.

(** The naming discipline of the topology generator: node ids have no ':' and
    interface names no '-'. *)
Definition endpoint_ok (e : RawEndpoint) : bool :=
  str_free ":" (re_ID e) && str_free "-" (re_Interface e).
Definition link_ok (l : RawLink) : bool := endpoint_ok (rl_A l) && endpoint_ok (rl_B l).

Lemma edge_id_inj a ifa b ifb a' ifa' b' ifb' :
  str_free ":" a = true → str_free ":" a' = true →
  str_free "-" ifa = true → str_free "-" ifa' = true →
  str_free ":" b = true → str_free ":" b' = true →
  edge_id a ifa b ifb = edge_id a' ifa' b' ifb' →
  a = a' ∧ ifa = ifa' ∧ b = b' ∧ ifb = ifb'.
Proof.
  unfold edge_id. intros ?????? Heq.
  apply (split_unique ":") in Heq as [-> Heq]; [|done..].
  apply (split_unique "-") in Heq as [-> Heq]; [|done..].
  by apply (split_unique ":") in Heq as [-> ->].
Qed.

Lemma map_get_adj_append {A} (adj : gmap NodeID (list A)) n x m :
  map_get [] (adj_append adj n x) m =
  if decide (n = m) then map_get [] adj m ++ [x] else map_get [] adj m.
Proof.
  unfold adj_append, map_get. rewrite lookup_insert. by case_decide; subst.
Qed.

(** The graph [g] holds edges of the given links only, one per direction. *)
Record links_inv (links : list RawLink) (g : Graph) : Prop := {
  li_edges : ∀ id e, g_edges g !! id = Some e → Edge_ID e = id ∧
    ∃ l a b, l ∈ links ∧ (a, b) ∈ [(rl_A l, rl_B l); (rl_B l, rl_A l)] ∧ e = link_edge l a b;
  li_adj : ∀ n id, id ∈ map_get [] (g_adj g) n →
    ∃ e, g_edges g !! id = Some e ∧ Edge_Local e = n;
  li_complete : ∀ id e, g_edges g !! id = Some e → id ∈ map_get [] (g_adj g) (Edge_Local e);
}.

Lemma link_edge_local_unique l a b l' a' b' :
  link_ok l = true → link_ok l' = true →
  (a, b) ∈ [(rl_A l, rl_B l); (rl_B l, rl_A l)] →
  (a', b') ∈ [(rl_A l', rl_B l'); (rl_B l', rl_A l')] →
  Edge_ID (link_edge l a b) = Edge_ID (link_edge l' a' b') → re_ID a = re_ID a'.
Proof.
  unfold link_ok, endpoint_ok. rewrite !andb_true_iff.
  intros [[??][??]] [[??][??]] Hab Hab' Heq.
  rewrite !elem_of_cons, elem_of_nil in Hab, Hab'.
  destruct_or!; simplify_eq; by apply edge_id_inj in Heq as [? _].
Qed.

Section add_edge.
(** One directed edge inserted and listed at its tail. *)
Context (links : list RawLink) (l : RawLink) (a b : RawEndpoint).
Hypothesis Hlinks : Forall (λ l, link_ok l = true) links.
Hypothesis Hl : l ∈ links.
Hypothesis Hab : (a, b) ∈ [(rl_A l, rl_B l); (rl_B l, rl_A l)].

Lemma add_edge_inv g :
  links_inv links g →
  links_inv links
    {| g_nodes := g_nodes g;
       g_edges := <[Edge_ID (link_edge l a b) := link_edge l a b]> (g_edges g); g_prefixes := g_prefixes g;
       g_adj := adj_append (g_adj g) (re_ID a) (Edge_ID (link_edge l a b)) |}.
Proof.
  intros [He Ha Hc]. rewrite list.Forall_forall in Hlinks.
  assert (∀ id e, g_edges g !! id = Some e → id = Edge_ID (link_edge l a b) →
            Edge_Local e = re_ID a) as Hsame.
  { intros id e Hid ->. destruct (He _ _ Hid) as (Hi & l' & a' & b' & Hl' & Hab' & ->).
    apply (link_edge_local_unique l' a' b' l a b); [by apply Hlinks|by apply Hlinks|done|done|done]. }
  split; simpl.
  - intros id e. rewrite lookup_insert. case_decide; [|by apply He].
    intros [= <-]. subst. split; [done|]. eauto 10.
  - intros n id. rewrite map_get_adj_append. rewrite lookup_insert. case_decide as Hn.
    + subst n. rewrite elem_of_app, list_elem_of_singleton. intros [Hin| ->].
      * destruct (Ha _ _ Hin) as (e & Hid & Hloc). case_decide; eauto.
      * rewrite decide_True by done. eauto.
    + intros Hin. destruct (Ha _ _ Hin) as (e & Hid & Hloc). case_decide; [|by eauto].
      exfalso. apply Hn. rewrite <-Hloc. by symmetry; eapply Hsame.
  - intros id e. rewrite lookup_insert, map_get_adj_append. case_decide as Hid.
    + intros [= <-]. simpl. rewrite decide_True by done. set_solver.
    + intros Hlk. specialize (Hc _ _ Hlk). case_decide; [set_solver|done].
Qed.
End add_edge.

Lemma add_link_inv links g l :
  Forall (λ l, link_ok l = true) links → l ∈ links →
  links_inv links g → links_inv links (add_link g l).
Proof.
  intros Hok Hl Hg. unfold add_link. case_decide; [|done].
  assert ((rl_A l, rl_B l) ∈ [(rl_A l, rl_B l); (rl_B l, rl_A l)]) as HA by set_solver.
  assert ((rl_B l, rl_A l) ∈ [(rl_A l, rl_B l); (rl_B l, rl_A l)]) as HB by set_solver.
  exact (add_edge_inv links l _ _ Hok Hl HB _ (add_edge_inv links l _ _ Hok Hl HA _ Hg)).
Qed.

Lemma foldM_add_pop_edges pops g g' :
  foldM add_pop g pops = Ok g' → g_edges g' = g_edges g ∧ g_adj g' = g_adj g.
Proof.
  intros Hf. eapply (foldM_ind add_pop (λ _ t, g_edges t = g_edges g ∧ g_adj t = g_adj g)
    g pops g'); [done| |exact Hf].
  intros _ p t t' [H1 H2] _ Hp. unfold add_pop in Hp. repeat case_match; simplify_eq/=; done.
Qed.

(** A topology file that follows the naming discipline gives a well-formed
    graph. *)
Lemma generateGraph_wf pops links g :
  Forall (λ l, link_ok l = true) links →
  generateGraphFromRawTopology pops links = Ok g → graph_wf g.
Proof.
  intros Hok (g0 & Hp & [= <-])%result_bind_Ok.
  apply foldM_add_pop_edges in Hp as [He Ha]; simpl in He, Ha.
  cut (links_inv links (foldl add_link g0 links)).
  { intros [H1 H2 H3]. split; [|done..]. intros id e Hid. by apply H1 in Hid as [? _]. }
  apply (foldl_ind add_link (λ _ t, links_inv links t)).
  - split; rewrite ?He, ?Ha.
    + intros id e Hid. by rewrite lookup_empty in Hid.
    + intros n id. unfold map_get. rewrite lookup_empty. by intros ?%not_elem_of_nil.
    + intros id e Hid. by rewrite lookup_empty in Hid.
  - intros _ l t Ht Hl. by apply add_link_inv.
Qed.

(** ** End.X updates *)

Section endx.
Context `{RangeOrder}.

(** After a report every edge of the reporting node carries exactly the SID
    reported for its interface, edges of other nodes are untouched, and
    nothing but the SID changes. *)
Lemma SetEndXSIDs_lookup g node sids id e :
  g_edges g !! id = Some e →
  g_edges (SetEndXSIDs g node sids).1 !! id =
    Some (if decide (Edge_Local e = node)
          then Edge_set_EndX (map_get AddrZero sids (Edge_LocalIface e)) e else e).
Proof.
  intros Hid. simpl. rewrite lookup_fmap, Hid. simpl. f_equal. unfold set_endx_edge.
  case_decide; [|done]. case_decide as Heq; [|done]. rewrite Heq. by destruct e.
Qed.

Lemma SetEndXSIDs_changed g node sids id :
  graph_wf g →
  id ∈ (SetEndXSIDs g node sids).2 ↔
  ∃ e, g_edges g !! id = Some e ∧ g_edges (SetEndXSIDs g node sids).1 !! id ≠ Some e.
Proof.
  intros Hwf. simpl. rewrite list_elem_of_fmap. split.
  - intros ([id' e] & -> & [Hch Hin]%list_elem_of_filter).
    apply elem_of_range_map in Hin. simpl in *. exists e.
    rewrite (gw_id g Hwf _ _ Hin). split; [done|].
    rewrite lookup_fmap, Hin. simpl. unfold endx_changed in Hch.
    apply bool_decide_eq_true in Hch as [H1 H2]. unfold set_endx_edge.
    rewrite decide_True, decide_False by done. intros [= Heq].
    apply H2. by rewrite <-Heq at 2.
  - intros (e & Hid & Hne). exists (id, e). split; [symmetry; by apply (gw_id g Hwf)|].
    rewrite list_elem_of_filter, elem_of_range_map. split; [|done]. simpl.
    rewrite lookup_fmap, Hid in Hne. simpl in Hne. unfold set_endx_edge in Hne.
    unfold endx_changed. apply bool_decide_eq_true.
    case_decide; [|by exfalso]. case_decide; [by exfalso|done].
Qed.
End endx.
