(* ===== verification/CostGraph.v ===== *)
(** The cost graph: per-edge costs in several dimensions, edge liveness and
    readiness (cost_graph.go), with the static utilization cost of pce.go that
    initialises one of the dimensions. *)

From S2P Require Import Prelude Float64 Netip Topology.

(** ** Static utilization cost *)

(** [capacityHeadroom = 0.05] is an untyped constant, so [1 - capacityHeadroom]
    is the exact 0.95 rounded once. *)
Definition one_minus_headroom : f64 := f_ratio 95 100.
Definition staticUtilizationRef : f64 := f_ratio 8 10.

Definition convexUtilization (f : f64) : f64 := (f / (f_one - f))%f64.

Definition staticUtilizationCost (f : f64) : f64 :=
  if f_leb f_one f then f_inf
  else (convexUtilization f / convexUtilization staticUtilizationRef)%f64.

(** ** Cost dimensions and costs *)

Notation CostDimension := string (only parsing).
Definition COSTDIM_LOSS : CostDimension := "LOSS".
Definition COSTDIM_LATENCY : CostDimension := "LATENCY".
Definition COSTDIM_JITTER : CostDimension := "JITTER".
Definition COSTDIM_STATIC_UTILIZATION : CostDimension := "STATIC_UTILIZATION".
Definition COSTDIM_UTILIZATION : CostDimension := "UTILIZATION".

Record Cost := { Costs : gmap CostDimension f64 }.

#[export] Instance Cost_eq_dec : EqDecision Cost.
Proof. solve_decision. Defined.

Record CostGraphEdge := { cge_ID : EdgeID; cge_From : NodeID; cge_To : NodeID }.

#[export] Instance CostGraphEdge_eq_dec : EqDecision CostGraphEdge.
Proof. solve_decision. Defined.
#[export] Instance CostGraphEdge_countable : Countable CostGraphEdge.
Proof.
  refine (inj_countable' (λ k, (cge_ID k, cge_From k, cge_To k))
    (λ '(i, f, t), {| cge_ID := i; cge_From := f; cge_To := t |}) _).
  by intros [].
Defined.

Definition CostKey (e : Edge) : CostGraphEdge :=
  {| cge_ID := Edge_ID e; cge_From := Edge_Local e; cge_To := Edge_Remote e |}.

Record CostGraph := {
  cg_graph : gmap CostGraphEdge Cost;
  cg_byID : gmap EdgeID CostGraphEdge;
  cg_lastSeen : gmap EdgeID Time;
  cg_convergedEdges : gset EdgeID;
  cg_startedAt : Time;
}.

Definition MaxCostGraphWaitTillReady : Duration := 5 * Minute.
Definition costDelayReferenceMs : Z := 10.

Definition initial_cost (e : Edge) : Cost :=
  {| Costs := <[COSTDIM_LOSS := f_one]> (<[COSTDIM_LATENCY :=
       (f_of_Z (microseconds (Edge_Delay e)) / f_of_Z 1000 / f_of_Z costDelayReferenceMs)%f64]>
       (<[COSTDIM_JITTER := f_one]>
       (<[COSTDIM_STATIC_UTILIZATION := staticUtilizationCost f_zero]> ∅))) |}.

Inductive cost_graph_error := EdgeDoesNotExist (id : EdgeID).

Definition add_cost_edge (g : Graph) (cg : CostGraph) (id : EdgeID)
    : result cost_graph_error CostGraph :=
  match g_edges g !! id with
  | None => Err (EdgeDoesNotExist id)
  | Some edge =>
      let key := CostKey edge in
      match cg_graph cg !! key with
      | Some _ => Ok cg
      | None =>
          Ok {| cg_graph := <[key := initial_cost edge]> (cg_graph cg);
                cg_byID := <[id := key]> (cg_byID cg);
                cg_lastSeen := cg_lastSeen cg;
                cg_convergedEdges := cg_convergedEdges cg;
                cg_startedAt := cg_startedAt cg |}
      end
  end.

Definition NewCostGraph `{RangeOrder} (g : Graph) (now : Time) : result cost_graph_error CostGraph :=
  foldM (λ cg '(id, _), foldM (add_cost_edge g) cg (map_get [] (g_adj g) id))
    {| cg_graph := ∅; cg_byID := ∅; cg_lastSeen := ∅; cg_convergedEdges := ∅; cg_startedAt := now |}
    (range_map (g_nodes g)).

(** [c.graph[key].Costs[dim] = cost].  The map entry is a pointer the code
    dereferences without a check: [cost_graph_wf] below is what makes it
    present. *)
Definition UpdateCost (c : CostGraph) (id : EdgeID) (dim : CostDimension) (cost : f64) : CostGraph :=
  match cg_byID c !! id with
  | None => c
  | Some key =>
      {| cg_graph := alter (λ k, {| Costs := <[dim := cost]> (Costs k) |}) key (cg_graph c);
         cg_byID := cg_byID c; cg_lastSeen := cg_lastSeen c;
         cg_convergedEdges := cg_convergedEdges c; cg_startedAt := cg_startedAt c |}
  end.

Definition MarkSeen (c : CostGraph) (id : EdgeID) (at_ : Time) : CostGraph :=
  {| cg_graph := cg_graph c; cg_byID := cg_byID c;
     cg_lastSeen := <[id := at_]> (cg_lastSeen c);
     cg_convergedEdges := cg_convergedEdges c; cg_startedAt := cg_startedAt c |}.

Definition MarkEdgeConverged (c : CostGraph) (id : EdgeID) : CostGraph :=
  {| cg_graph := cg_graph c; cg_byID := cg_byID c; cg_lastSeen := cg_lastSeen c;
     cg_convergedEdges := {[id]} ∪ cg_convergedEdges c; cg_startedAt := cg_startedAt c |}.

(** [LastSeen] and [Costs] return deep copies; on values that is the map. *)
Definition LastSeen (c : CostGraph) : gmap EdgeID Time := cg_lastSeen c.
Definition CostsSnapshot (c : CostGraph) : gmap CostGraphEdge Cost := cg_graph c.

Definition CostsBetween (costs : gmap CostGraphEdge Cost) (from to : NodeID) : gmap CostGraphEdge Cost :=
  filter (λ kc, cge_From kc.1 = from ∧ cge_To kc.1 = to) costs.

Record CostGraphReadiness := {
  cr_Ready : bool; cr_TimedOut : bool; cr_Converged : Z; cr_Edges : Z;
  cr_StartedAt : Time; cr_Deadline : Time;
}.

Definition count_converged (c : CostGraph) : Z :=
  Z.of_nat (length (filter (λ p, p.1 ∈ cg_convergedEdges c) (map_to_list (cg_byID c)))).

Definition Readiness (c : CostGraph) (now : Time) : CostGraphReadiness :=
  let converged := count_converged c in
  let edges := Z.of_nat (size (cg_byID c)) in
  let timedOut := (converged <? edges) &&
                  (MaxCostGraphWaitTillReady <? time_sub now (cg_startedAt c)) in
  {| cr_Ready := (converged =? edges) || timedOut;
     cr_TimedOut := timedOut;
     cr_Converged := converged;
     cr_Edges := edges;
     cr_StartedAt := cg_startedAt c;
     cr_Deadline := time_add (cg_startedAt c) MaxCostGraphWaitTillReady |}.

Definition IsReady (c : CostGraph) (now : Time) : bool := cr_Ready (Readiness c now).

(** ** Well-formedness: the index points into the graph *)

Record cost_graph_wf (c : CostGraph) : Prop := {
  cgw_present : ∀ id key, cg_byID c !! id = Some key → is_Some (cg_graph c !! key);
  cgw_id : ∀ id key, cg_byID c !! id = Some key → cge_ID key = id;
}.

Lemma UpdateCost_wf c id dim x : cost_graph_wf c → cost_graph_wf (UpdateCost c id dim x).
Proof.
  intros [H1 H2]. unfold UpdateCost. destruct (cg_byID c !! id) as [key|] eqn:Hid; [|by split].
  split; simpl; [|done]. intros id' key' H'. destruct (H1 _ _ H') as [co Hco].
  rewrite lookup_alter. case_decide; subst; rewrite Hco; simpl; eauto.
Qed.

Lemma MarkSeen_wf c id t : cost_graph_wf c → cost_graph_wf (MarkSeen c id t).
Proof. intros [H1 H2]. by split. Qed.
Lemma MarkEdgeConverged_wf c id : cost_graph_wf c → cost_graph_wf (MarkEdgeConverged c id).
Proof. intros [H1 H2]. by split. Qed.
#[export] Hint Resolve UpdateCost_wf MarkSeen_wf MarkEdgeConverged_wf : maeto.

(** Every edge of the topology has costs, indexed by its id. *)
Definition covers (g : Graph) (c : CostGraph) (ids : list EdgeID) : Prop :=
  ∀ id e, id ∈ ids → g_edges g !! id = Some e → cg_byID c !! id = Some (CostKey e).

Record build_inv (g : Graph) (c : CostGraph) (ids : list EdgeID) : Prop := {
  bi_wf : cost_graph_wf c;
  bi_covers : covers g c ids;
  bi_keys : ∀ key, is_Some (cg_graph c !! key) →
    cg_byID c !! cge_ID key = Some key ∧ ∃ e, g_edges g !! cge_ID key = Some e ∧ key = CostKey e;
  bi_fresh : cg_convergedEdges c = ∅;
}.

Lemma add_cost_edge_inv g c id ids c' :
  graph_wf g → build_inv g c ids → add_cost_edge g c id = Ok c' → build_inv g c' (ids ++ [id]).
Proof.
  intros Hg [[Hp Hi] Hc Hk Hs] Hadd. unfold add_cost_edge in Hadd.
  destruct (g_edges g !! id) as [e|] eqn:He; [|done].
  pose proof (gw_id g Hg _ _ He) as Hid.
  destruct (cg_graph c !! CostKey e) as [co|] eqn:Hgr; simplify_eq.
  - split; [by split| |done|done].
    intros id' e' [Hin| ->%list_elem_of_singleton]%elem_of_app He'; [by eapply Hc|].
    simplify_eq. destruct (Hk (CostKey e)) as [Hb _]; eauto.
  - split; simpl; [split; simpl| | |done].
    + intros id' key. rewrite !lookup_insert. case_decide.
      * intros [= <-]. rewrite decide_True by done. eauto.
      * intros Hl. case_decide; eauto.
    + intros id' key. rewrite lookup_insert. case_decide; [|by apply Hi].
      intros [= <-]. by subst.
    + intros id' e' [Hin| ->%list_elem_of_singleton]%elem_of_app He'; simpl; rewrite lookup_insert.
      * case_decide; [by simplify_eq|]. by eapply Hc.
      * rewrite decide_True by done. by simplify_eq.
    + intros key. rewrite !lookup_insert. case_decide as Hkey.
      * intros _. subst. simpl. rewrite decide_True by done. eauto.
      * intros Hl. destruct (Hk _ Hl) as [Hb (e' & He' & ->)]. split; [|by eauto].
        rewrite decide_False; [done|]. intros Heq. simpl in *. congruence.
Qed.

Section build.
Context `{RangeOrder}.

Lemma NewCostGraph_inv g now c :
  graph_wf g → NewCostGraph g now = Ok c →
  build_inv g c (mjoin ((λ p, map_get [] (g_adj g) p.1) <$> range_map (g_nodes g))).
Proof.
  intros Hg Hn. unfold NewCostGraph in Hn.
  revert Hn. apply (foldM_ind _ (λ ns t, build_inv g t (mjoin ((λ p, map_get [] (g_adj g) p.1) <$> ns)))).
  - split; simpl; [split; simpl| | |done].
    + intros id key Hl. by rewrite lookup_empty in Hl.
    + intros id key Hl. by rewrite lookup_empty in Hl.
    + by intros ?? ?%not_elem_of_nil.
    + intros key Hl. rewrite lookup_empty in Hl. by destruct Hl.
  - intros ns [n nd] t t' Ht _ Hf. rewrite fmap_app, join_app. simpl.
    rewrite app_nil_r. revert Hf.
    apply (foldM_ind _ (λ ids t, build_inv g t
      (mjoin ((λ p, map_get [] (g_adj g) p.1) <$> ns) ++ ids))).
    + by rewrite app_nil_r.
    + intros ids id u u' Hu _ Hadd. rewrite app_assoc. by eapply add_cost_edge_inv.
Qed.

(** The cost graph of a well-formed topology whose edges start at known
    nodes indexes every edge, and its index is consistent. *)
Lemma NewCostGraph_wf g now c :
  graph_wf g → NewCostGraph g now = Ok c → cost_graph_wf c.
Proof. intros Hg Hn. by apply (NewCostGraph_inv g now c Hg) in Hn as []. Qed.

Lemma NewCostGraph_covers g now c id e :
  graph_wf g → NewCostGraph g now = Ok c →
  g_edges g !! id = Some e → is_Some (g_nodes g !! Edge_Local e) →
  cg_byID c !! id = Some (CostKey e).
Proof.
  intros Hg Hn He [nd Hnd]. apply (NewCostGraph_inv g now c Hg) in Hn as [_ Hc _ _].
  apply Hc; [|done]. apply list_elem_of_join. exists (map_get [] (g_adj g) (Edge_Local e)).
  split; [by apply (gw_adj_complete g Hg)|].
  apply list_elem_of_fmap. exists (Edge_Local e, nd). by rewrite elem_of_range_map.
Qed.

(** Construction cannot fail on a well-formed graph. *)
Lemma NewCostGraph_ok g now : graph_wf g → ∃ c, NewCostGraph g now = Ok c.
Proof.
  intros Hg. unfold NewCostGraph.
  assert (∀ n t, ∃ t', foldM (add_cost_edge g) t (map_get [] (g_adj g) n) = Ok t') as Hin.
  { intros n. pose proof (gw_adj g Hg n) as Hn. revert Hn.
    generalize (map_get [] (g_adj g) n). intros ids.
    induction ids as [|id ids IH]; intros Hn t; simpl; [by eauto|].
    destruct (Hn id) as (e & He & _); [set_solver|].
    unfold add_cost_edge at 1. rewrite He.
    destruct (cg_graph t !! CostKey e); apply IH; intros; apply Hn; set_solver. }
  generalize (range_map (g_nodes g)). intros ns.
  match goal with |- context [foldM _ ?t ns] => generalize t end.
  induction ns as [|[n nd] ns IH]; intros t; simpl; [by eauto|].
  destruct (Hin n t) as [t' ->]. apply IH.
Qed.
End build.

(** ** Reading back an update *)

Lemma UpdateCost_lookup c id key dim x :
  cost_graph_wf c → cg_byID c !! id = Some key →
  (λ co, Costs co !! dim) <$> (cg_graph (UpdateCost c id dim x) !! key) = Some (Some x).
Proof.
  intros Hwf Hid. destruct (cgw_present c Hwf _ _ Hid) as [co Hco].
  unfold UpdateCost. rewrite Hid. simpl. rewrite lookup_alter, decide_True, Hco by done.
  simpl. by rewrite lookup_insert_eq.
Qed.

Lemma UpdateCost_other c id dim x key :
  cg_byID c !! id ≠ Some key → cg_graph (UpdateCost c id dim x) !! key = cg_graph c !! key.
Proof.
  intros Hne. unfold UpdateCost. destruct (cg_byID c !! id) as [key'|]; [|done]. simpl.
  rewrite lookup_alter_ne; [done|]. congruence.
Qed.

Lemma UpdateCost_byID c id dim x : cg_byID (UpdateCost c id dim x) = cg_byID c.
Proof. unfold UpdateCost. by destruct (cg_byID c !! id). Qed.

(** ** Readiness *)

Lemma count_converged_bounds c : 0 ≤ count_converged c ≤ Z.of_nat (size (cg_byID c)).
Proof.
  unfold count_converged. rewrite <-length_map_to_list.
  pose proof (length_filter (λ p, p.1 ∈ cg_convergedEdges c) (map_to_list (cg_byID c))). lia.
Qed.

Lemma count_converged_all c :
  count_converged c = Z.of_nat (size (cg_byID c)) ↔ dom (cg_byID c) ⊆ cg_convergedEdges c.
Proof.
  unfold count_converged. rewrite <-length_map_to_list. split.
  - intros Hlen%Nat2Z.inj id [key Hid]%elem_of_dom. apply elem_of_map_to_list in Hid.
    destruct (decide (id ∈ cg_convergedEdges c)) as [|Hn]; [done|].
    pose proof (length_filter_lt (λ p, p.1 ∈ cg_convergedEdges c) _ _ Hid Hn). lia.
  - intros Hsub. rewrite filter_all; [done|].
    intros [id key] Hin%elem_of_map_to_list. apply Hsub, elem_of_dom. eauto.
Qed.

(** The graph is ready exactly when every indexed edge has converged or the
    grace period has passed. *)
Lemma IsReady_spec c now :
  IsReady c now = true ↔
  dom (cg_byID c) ⊆ cg_convergedEdges c ∨
  MaxCostGraphWaitTillReady < time_sub now (cg_startedAt c).
Proof.
  unfold IsReady, Readiness; simpl. pose proof (count_converged_bounds c).
  rewrite orb_true_iff, andb_true_iff, Z.eqb_eq, !Z.ltb_lt, count_converged_all.
  split; [naive_solver|]. intros [?|Ht]; [by left|].
  destruct (decide (count_converged c = Z.of_nat (size (cg_byID c)))) as [He|].
  - left. by apply count_converged_all.
  - right. split; [lia|done].
Qed.

Lemma time_sub_mono t t' u : t ≤ t' → time_sub t u ≤ time_sub t' u.
Proof. unfold time_sub. lia. Qed.

(** Telemetry operations of the cost graph. *)
Inductive cost_op :=
  | OpUpdate (id : EdgeID) (dim : CostDimension) (x : f64)
  | OpSeen (id : EdgeID) (t : Time)
  | OpConverged (id : EdgeID).

Definition run_op (c : CostGraph) (o : cost_op) : CostGraph :=
  match o with
  | OpUpdate id dim x => UpdateCost c id dim x
  | OpSeen id t => MarkSeen c id t
  | OpConverged id => MarkEdgeConverged c id
  end.

Lemma run_op_index c o :
  cg_byID (run_op c o) = cg_byID c ∧ cg_startedAt (run_op c o) = cg_startedAt c ∧
  cg_convergedEdges c ⊆ cg_convergedEdges (run_op c o).
Proof.
  destruct o as [id dim x|id t|id]; simpl; [|done|set_solver].
  unfold UpdateCost. by destruct (cg_byID c !! id).
Qed.

Lemma run_ops_wf c ops : cost_graph_wf c → cost_graph_wf (foldl run_op c ops).
Proof.
  intros Hc. apply (foldl_ind run_op (λ _ t, cost_graph_wf t)); [done|].
  intros _ o t Ht _. destruct o; simpl; auto with maeto.
Qed.

(** Once ready, ready for ever: no later telemetry, at any later time, makes
    the graph unready again. *)
Lemma IsReady_stable c ops now now' :
  now ≤ now' → IsReady c now = true → IsReady (foldl run_op c ops) now' = true.
Proof.
  rewrite !IsReady_spec. intros Hle.
  cut (cg_byID (foldl run_op c ops) = cg_byID c ∧
       cg_startedAt (foldl run_op c ops) = cg_startedAt c ∧
       cg_convergedEdges c ⊆ cg_convergedEdges (foldl run_op c ops)).
  { intros (-> & -> & Hsub) [?|Ht]; [left; set_solver|right].
    pose proof (time_sub_mono now now' (cg_startedAt c) Hle). lia. }
  apply (foldl_ind run_op (λ _ t, cg_byID t = cg_byID c ∧ cg_startedAt t = cg_startedAt c ∧
    cg_convergedEdges c ⊆ cg_convergedEdges t)); [done|].
  intros _ o t (H1 & H2 & H3) _. destruct (run_op_index t o) as (-> & -> & ?).
  split_and!; [done..|set_solver].
Qed.
