(* ===== verification/PceGraph.v ===== *)
(** The graph path computation runs on: logical edges over the links that are
    up (pce_graph.go). *)

From S2P Require Import Prelude Float64 Netip Topology CostGraph.

Inductive PCEEdgeKind := PCEEdgeBundle | PCEEdgeLink.

#[export] Instance PCEEdgeKind_eq_dec : EqDecision PCEEdgeKind.
Proof. solve_decision. Defined.

Record PCEEdgeID := {
  id_Kind : PCEEdgeKind;
  id_From : NodeID;
  id_To : NodeID;
  id_Group : string;
  id_Link : EdgeID;
}.

#[export] Instance PCEEdgeID_eq_dec : EqDecision PCEEdgeID.
Proof. solve_decision. Defined.
#[export] Instance PCEEdgeID_countable : Countable PCEEdgeID.
Proof.
  refine (inj_countable'
    (λ i, (match id_Kind i with PCEEdgeBundle => false | PCEEdgeLink => true end,
           id_From i, id_To i, id_Group i, id_Link i))
    (λ '(k, f, t, g, l), {| id_Kind := if (k : bool) then PCEEdgeLink else PCEEdgeBundle;
        id_From := f; id_To := t; id_Group := g; id_Link := l |}) _).
  by intros [[] ????].
Defined.

Definition NewBundleID (from to : NodeID) (group : string) : PCEEdgeID :=
  {| id_Kind := PCEEdgeBundle; id_From := from; id_To := to; id_Group := group; id_Link := "" |}.

Definition NewLinkID (e : Edge) : PCEEdgeID :=
  {| id_Kind := PCEEdgeLink; id_From := Edge_Local e; id_To := Edge_Remote e;
     id_Group := ""; id_Link := Edge_ID e |}.

Definition PCEEdgeID_String (i : PCEEdgeID) : string :=
  match id_Kind i with
  | PCEEdgeLink => String.append "link:" (id_Link i)
  | PCEEdgeBundle =>
      let base := String.append "bundle:" (String.append (id_From i) (String.append "->" (id_To i))) in
      if decide (id_Group i = ""%string) then base
      else String.append base (String.append "#" (id_Group i))
  end.

(** [slices.SortedFunc(..., PCEEdgeID.Compare)]. *)
Definition PCEEdgeID_le (a b : PCEEdgeID) : Prop := str_le (PCEEdgeID_String a) (PCEEdgeID_String b).
#[export] Instance PCEEdgeID_le_dec : RelDecision PCEEdgeID_le.
Proof. intros a b. unfold PCEEdgeID_le. apply _. Defined.
Definition sort_edge_ids : list PCEEdgeID → list PCEEdgeID := merge_sort PCEEdgeID_le.

Record PCEEdge := {
  pe_ID : PCEEdgeID;
  pe_NodeFrom : NodeID;
  pe_NodeTo : NodeID;
  pe_RealEdges : list Edge;
}.

Definition IsBundle (e : PCEEdge) : bool :=
  match id_Kind (pe_ID e) with PCEEdgeBundle => true | PCEEdgeLink => false end.

Definition Capacity (e : PCEEdge) : f64 :=
  match pe_RealEdges e with
  | [] => f_zero
  | es => (f_of_Z (Z.of_nat (length es)) *
           foldl (λ smallest r, f_min smallest (Edge_Bandwidth r)) f_inf es)%f64
  end.

Definition Links (e : PCEEdge) : list EdgeID := Edge_ID <$> pe_RealEdges e.

(** Dimension by dimension the larger of the two costs. *)
Definition worse (worst cost : gmap CostDimension f64) : gmap CostDimension f64 :=
  union_with (λ current value, Some (if f_ltb current value then value else current)) worst cost.

(** [PCEEdge.Cost]: the worst of the member links, [None] for Go's nil. *)
Definition EdgeCost (e : PCEEdge) (costs : gmap CostGraphEdge Cost) : option Cost :=
  foldl (λ worst r,
    match costs !! CostKey r with
    | None => worst
    | Some cost =>
        match worst with
        | None => Some {| Costs := Costs cost |}
        | Some w => Some {| Costs := worse (Costs w) (Costs cost) |}
        end
    end) None (pe_RealEdges e).

Record PCEGraph := {
  pg_nodes : gmap NodeID Node;
  pg_edges : gmap PCEEdgeID PCEEdge;
  pg_adj : gmap NodeID (list PCEEdgeID);
}.

Definition add_pce_edge (g : Graph) (pg : PCEGraph) (id : EdgeID) : PCEGraph :=
  match g_edges g !! id with
  | None => pg
  | Some edge =>
      if Edge_Up edge then
        let pceID := NewLinkID edge in
        let '(pceEdge, adj) :=
          match pg_edges pg !! pceID with
          | Some e => (e, pg_adj pg)
          | None => ({| pe_ID := pceID; pe_NodeFrom := Edge_Local edge;
                        pe_NodeTo := Edge_Remote edge; pe_RealEdges := [] |},
                     adj_append (pg_adj pg) (Edge_Local edge) pceID)
          end in
        {| pg_nodes := pg_nodes pg;
           pg_edges := <[pceID := {| pe_ID := pe_ID pceEdge; pe_NodeFrom := pe_NodeFrom pceEdge;
                                     pe_NodeTo := pe_NodeTo pceEdge;
                                     pe_RealEdges := pe_RealEdges pceEdge ++ [edge] |}]> (pg_edges pg);
           pg_adj := adj |}
      else pg
  end.

Definition NewPCEGraph (g : Graph) : PCEGraph :=
  foldl (add_pce_edge g) {| pg_nodes := g_nodes g; pg_edges := ∅; pg_adj := ∅ |}
    (sorted_keys (g_edges g)).

(** ** Well-formedness *)

Record pce_wf (g : PCEGraph) : Prop := {
  pw_edge : ∀ id e, pg_edges g !! id = Some e →
    pe_ID e = id ∧ pe_NodeFrom e = id_From id ∧ pe_NodeTo e = id_To id;
  pw_adj : ∀ n id, id ∈ map_get [] (pg_adj g) n → is_Some (pg_edges g !! id) ∧ id_From id = n;
  pw_complete : ∀ id, is_Some (pg_edges g !! id) → id ∈ map_get [] (pg_adj g) (id_From id);
}.

Lemma map_get_empty {K} `{Countable K} {A} (d : A) (k : K) : map_get d ∅ k = d.
Proof. unfold map_get. by rewrite lookup_empty. Qed.

Lemma add_pce_edge_wf g pg id : pce_wf pg → pce_wf (add_pce_edge g pg id).
Proof.
  intros [He Ha Hc]. unfold add_pce_edge. destruct (g_edges g !! id) as [edge|]; [|by split].
  destruct (Edge_Up edge); [|by split].
  destruct (pg_edges pg !! NewLinkID edge) as [e0|] eqn:Hold.
  - pose proof (He _ _ Hold) as (H1 & H2 & H3). split; simpl.
    + intros i e. rewrite lookup_insert. case_decide as Hd; [|by apply He].
      intros [= <-]. by rewrite <-Hd.
    + intros n i Hin. rewrite lookup_insert. destruct (Ha _ _ Hin). case_decide; eauto.
    + intros i. rewrite lookup_insert. case_decide as Hd; [|by apply Hc].
      intros _. rewrite <-Hd. apply Hc. eauto.
  - split; simpl.
    + intros i e. rewrite lookup_insert. case_decide as Hd; [|by apply He].
      intros [= <-]. by rewrite <-Hd.
    + intros n i. rewrite map_get_adj_append, lookup_insert.
      case_decide as Hn; [rewrite elem_of_app, list_elem_of_singleton; intros [Hin| ->]|intros Hin].
      * destruct (Ha _ _ Hin). case_decide; eauto.
      * rewrite decide_True by done. eauto.
      * destruct (Ha _ _ Hin). case_decide; eauto.
    + intros i. rewrite map_get_adj_append, lookup_insert. case_decide as Hd.
      * intros _. rewrite <-Hd. simpl. rewrite decide_True by done. set_solver.
      * intros Hi%Hc. case_decide; set_solver.
Qed.

Lemma NewPCEGraph_wf g : pce_wf (NewPCEGraph g).
Proof.
  apply (foldl_ind (add_pce_edge g) (λ _ t, pce_wf t)).
  - split; simpl; intros *; rewrite ?lookup_empty, ?map_get_empty; [done| |by intros []].
    by intros ?%not_elem_of_nil.
  - intros _ id t Ht _. by apply add_pce_edge_wf.
Qed.

Lemma add_pce_edge_nodes g pg id : pg_nodes (add_pce_edge g pg id) = pg_nodes pg.
Proof.
  unfold add_pce_edge. destruct (g_edges g !! id) as [e|]; [|done].
  destruct (Edge_Up e); [|done]. by destruct (pg_edges pg !! NewLinkID e).
Qed.

Lemma NewPCEGraph_nodes g : pg_nodes (NewPCEGraph g) = g_nodes g.
Proof.
  apply (foldl_ind (add_pce_edge g) (λ _ t, pg_nodes t = g_nodes g)); [done|].
  intros _ id t <- _. apply add_pce_edge_nodes.
Qed.

(** On a well-formed topology the logical edges are exactly the links that are
    up, one each. *)
Definition link_of (e : Edge) : PCEEdge :=
  {| pe_ID := NewLinkID e; pe_NodeFrom := Edge_Local e; pe_NodeTo := Edge_Remote e;
     pe_RealEdges := [e] |}.

Lemma NewPCEGraph_edges g i pe :
  graph_wf g →
  pg_edges (NewPCEGraph g) !! i = Some pe ↔
  ∃ id e, g_edges g !! id = Some e ∧ Edge_Up e = true ∧ i = NewLinkID e ∧ pe = link_of e.
Proof.
  intros Hg.
  cut (∀ i pe, pg_edges (NewPCEGraph g) !! i = Some pe ↔
    ∃ id e, id ∈ sorted_keys (g_edges g) ∧ g_edges g !! id = Some e ∧ Edge_Up e = true ∧
            i = NewLinkID e ∧ pe = link_of e).
  { intros Hcut. rewrite Hcut. split; [naive_solver|]. intros (id & e & He & ?).
    exists id, e. rewrite elem_of_sorted_keys. eauto. }
  clear i pe.
  assert (NoDup (sorted_keys (g_edges g))) as Hnd by apply NoDup_sorted_keys. revert Hnd.
  apply (foldl_ind (add_pce_edge g) (λ ids t, NoDup ids → ∀ i pe, pg_edges t !! i = Some pe ↔
    ∃ id e, id ∈ ids ∧ g_edges g !! id = Some e ∧ Edge_Up e = true ∧
            i = NewLinkID e ∧ pe = link_of e)).
  { intros _ i pe. simpl. rewrite lookup_empty. split; [done|]. set_solver. }
  intros ids id t IH Hid Hnd i pe. apply list.NoDup_app in Hnd as (Hnd & Hnew & _).
  specialize (IH Hnd). apply elem_of_sorted_keys in Hid as [e He].
  unfold add_pce_edge. rewrite He. destruct (Edge_Up e) eqn:Hup.
  - assert (pg_edges t !! NewLinkID e = None) as Hnone.
    { destruct (pg_edges t !! NewLinkID e) as [pe0|] eqn:H0; [|done].
      apply IH in H0 as (id' & e' & Hin & He' & _ & Hl & _). unfold NewLinkID in Hl.
      injection Hl as _ _ Hl. rewrite (gw_id g Hg _ _ He), (gw_id g Hg _ _ He') in Hl.
      subst id'. exfalso. by apply (Hnew id); [|apply list_elem_of_singleton]. }
    rewrite Hnone. simpl. rewrite lookup_insert. case_decide as Hi.
    + subst i. split.
      * intros [= <-]. exists id, e. split_and!; try done. set_solver.
      * intros (id' & e' & Hin & He' & Hup' & Hl & ->). unfold NewLinkID in Hl.
        injection Hl as Ha Hb Hl. rewrite (gw_id g Hg _ _ He), (gw_id g Hg _ _ He') in Hl.
        subst id'. by simplify_eq.
    + rewrite IH. split; intros (id' & e' & Hin & He' & Hup' & -> & ->).
      * exists id', e'. split_and!; try done. set_solver.
      * exists id', e'. split_and!; try done.
        apply elem_of_app in Hin as [?| ->%list_elem_of_singleton]; [done|]. simplify_eq; congruence.
  - rewrite IH. split; intros (id' & e' & Hin & He' & Hup' & -> & ->).
    + exists id', e'. split_and!; try done. set_solver.
    + exists id', e'. split_and!; try done.
      apply elem_of_app in Hin as [?| ->%list_elem_of_singleton]; [done|]. simplify_eq; congruence.
Qed.

(** ** The cost of a bundle *)

Lemma worse_lookup w c d :
  worse w c !! d = match w !! d, c !! d with
                   | Some x, Some y => Some (if f_ltb x y then y else x)
                   | Some x, None => Some x
                   | None, o => o
                   end.
Proof. unfold worse. rewrite lookup_union_with. by destruct (w !! d), (c !! d). Qed.

(** All costs of a snapshot are well-formed and non-negative. *)
Definition costs_nn (costs : gmap CostGraphEdge Cost) : Prop :=
  ∀ k c d x, costs !! k = Some c → Costs c !! d = Some x → nn x.

Lemma EdgeCost_nn e costs c d x :
  costs_nn costs → EdgeCost e costs = Some c → Costs c !! d = Some x → nn x.
Proof.
  intros Hnn. unfold EdgeCost.
  cut (∀ w, (∀ c d x, w = Some c → Costs c !! d = Some x → nn x) →
    foldl (λ worst r, match costs !! CostKey r with
      | None => worst
      | Some cost => match worst with
        | None => Some {| Costs := Costs cost |}
        | Some w => Some {| Costs := worse (Costs w) (Costs cost) |} end end) w (pe_RealEdges e) = Some c →
    Costs c !! d = Some x → nn x).
  { intros Hc. apply Hc. by intros. }
  generalize (pe_RealEdges e). intros es.
  induction es as [|r es IH]; intros w Hw; simpl; [intros; by eapply Hw|].
  apply IH. intros c' d' x'. destruct (costs !! CostKey r) as [co|] eqn:Hco; [|by apply Hw].
  destruct w as [w|]; intros [= <-]; simpl.
  - rewrite worse_lookup. destruct (Costs w !! d') eqn:Hw', (Costs co !! d') eqn:Hc';
      try case_match; naive_solver.
  - by apply (Hnn (CostKey r) co).
Qed.

(** A measured cost keeps them so. *)
Lemma UpdateCost_nn cg id dim x :
  nn x → costs_nn (CostsSnapshot cg) → costs_nn (CostsSnapshot (UpdateCost cg id dim x)).
Proof.
  intros Hx Hcg. unfold UpdateCost, CostsSnapshot. destruct (cg_byID cg !! id) as [key|]; [|done]. simpl.
  intros k c d y. rewrite lookup_alter. case_decide as Hk; [|apply Hcg]. subst k.
  destruct (cg_graph cg !! key) as [c0|] eqn:Hc; [|done]. intros [= <-]. simpl.
  rewrite lookup_insert_Some. intros [[<- <-]|[_ ?]]; [done|]. by eapply (Hcg key c0).
Qed.
