(* ===== verification/Demo.v ===== *)
(** A four-PoP network with one slow direct link and a detour, built through
    the definitions of the development.  The witnesses of the properties
    evaluate on it. *)

From S2P Require Import Prelude Float64 Netip Topology CostGraph PceGraph.

Definition demo_pop (id locator : string) : RawPop :=
  {| rp_ID := id; rp_Name := id; rp_Locator := locator; rp_Loopback := "fd00::1/128" |}.

Definition demo_link (a ifa b ifb : string) (mbps : Z) : RawLink :=
  {| rl_Type := "core"; rl_Subnet := ""; rl_BandwidthMbps := f_of_Z mbps;
     rl_A := {| re_ID := a; re_Interface := ifa; re_Address := "" |};
     rl_B := {| re_ID := b; re_Interface := ifb; re_Address := "" |} |}.

Definition demo_pops : list RawPop :=
  [demo_pop "ams" "fc00:1::/48"; demo_pop "fra" "fc00:2::/48";
   demo_pop "lon" "fc00:3::/48"; demo_pop "osl" "fc00:4::/48"].

Definition demo_links : list RawLink :=
  [demo_link "ams" "eth1" "fra" "eth1" 100; demo_link "fra" "eth2" "lon" "eth1" 100;
   demo_link "ams" "eth2" "lon" "eth2" 10].

Definition demo_topology : Graph :=
  match generateGraphFromRawTopology demo_pops demo_links with
  | Ok g => g
  | Err _ => {| g_nodes := ∅; g_edges := ∅; g_prefixes := ∅; g_adj := ∅ |}
  end.

Lemma demo_topology_wf : graph_wf demo_topology.
Proof.
  apply (generateGraph_wf demo_pops demo_links); [|by vm_compute].
  repeat constructor.
Qed.

Definition demo_graph : PCEGraph := NewPCEGraph demo_topology.

Definition demo_id (a ifa b ifb : string) : PCEEdgeID :=
  {| id_Kind := PCEEdgeLink; id_From := a; id_To := b; id_Group := "";
     id_Link := edge_id a ifa b ifb |}.

(** The cost graph as built, with a latency of ten times the reference
    measured on the direct link. *)
Definition demo_cost_graph : CostGraph :=
  match NewCostGraph (H := canonical_order) demo_topology 0 with
  | Ok c => UpdateCost c (edge_id "ams" "eth2" "lon" "eth2") COSTDIM_LATENCY (f_of_Z 10)
  | Err _ => {| cg_graph := ∅; cg_byID := ∅; cg_lastSeen := ∅; cg_convergedEdges := ∅; cg_startedAt := 0 |}
  end.

Definition demo_costs : gmap CostGraphEdge Cost := CostsSnapshot demo_cost_graph.

Definition demo_weights : gmap CostDimension f64 := {[ COSTDIM_LATENCY := f_one ]}.

Lemma demo_costs_nn : costs_nn demo_costs.
Proof.
  intros k c d x Hk Hd.
  assert (map_Forall (λ _ c, map_Forall (λ _ x, nn x) (Costs c)) demo_costs) as HF
    by (apply (bool_decide_unpack _); by vm_compute).
  by apply (HF k c Hk d x).
Qed.

Lemma demo_weights_pos d w : demo_weights !! d = Some w → pos_finite w.
Proof. unfold demo_weights. rewrite lookup_singleton_Some. by intros [_ <-]. Qed.
