(* ===== verification/Cspf.v ===== *)
(** Constrained shortest path first (cspf.go): paths, objectives and the
    path computation itself. *)

From S2P Require Import Prelude Float64 Netip Topology CostGraph PceGraph.

(** ** Paths *)

Record Path := {
  p_Nodes : list NodeID;
  p_Edges : list PCEEdgeID;
  p_Links : list EdgeID;
  p_Cost : f64;
  p_Label : Z;
}.

#[export] Instance Path_eq_dec : EqDecision Path.
Proof. solve_decision. Defined.

Definition Path_set_Cost (c : f64) (p : Path) : Path :=
  {| p_Nodes := p_Nodes p; p_Edges := p_Edges p; p_Links := p_Links p;
     p_Cost := c; p_Label := p_Label p |}.
Definition Path_set_Label (l : Z) (p : Path) : Path :=
  {| p_Nodes := p_Nodes p; p_Edges := p_Edges p; p_Links := p_Links p;
     p_Cost := p_Cost p; p_Label := l |}.

(** The index loops of [Path.Equal]. *)
Fixpoint all_equal {A} `{EqDecision A} (l k : list A) : bool :=
  match l, k with
  | a :: l, b :: k => bool_decide (a = b) && all_equal l k
  | _, _ => true
  end.

Definition Path_Equal (p other : Path) : bool :=
  if decide (p_Label p = p_Label other) then
    if (length (p_Edges p) =? length (p_Edges other))%nat &&
       (length (p_Nodes p) =? length (p_Nodes other))%nat
    then all_equal (p_Nodes p) (p_Nodes other) && all_equal (p_Edges p) (p_Edges other)
    else false
  else false.

Record PathKey := { pk_Tenant : Z; pk_From : NodeID; pk_To : NodeID; pk_Label : Z }.

#[export] Instance PathKey_eq_dec : EqDecision PathKey.
Proof. solve_decision. Defined.
#[export] Instance PathKey_countable : Countable PathKey.
Proof.
  refine (inj_countable' (λ k, (pk_Tenant k, pk_From k, pk_To k, pk_Label k))
    (λ '(t, f, d, l), {| pk_Tenant := t; pk_From := f; pk_To := d; pk_Label := l |}) _).
  by intros [].
Defined.

Definition PathKey_Compare (k other : PathKey) : comparison :=
  cmp_or [ Z.compare (pk_Tenant k) (pk_Tenant other);
           String.compare (pk_From k) (pk_From other);
           String.compare (pk_To k) (pk_To other);
           Z.compare (pk_Label k) (pk_Label other) ].

Notation PathSet := (gmap PathKey Path).

(** ** Objectives *)

Definition Objective := PCEEdge → option Cost → f64.

Definition costEdgeEpsilon : f64 := f_one.

Definition WeightedCost (weights : gmap CostDimension f64) : Objective := λ _ c,
  match c with
  | None => f_inf
  | Some c =>
      let total := foldl (λ total dim,
        (total + map_get f_zero weights dim * map_get f_zero (Costs c) dim)%f64)
        f_zero (sorted_keys weights) in
      (costEdgeEpsilon + total)%f64
  end.

Definition StaticBandwidthUtilization (reserved : gmap PCEEdgeID f64) : Objective := λ e _,
  let capacity := (Capacity e * one_minus_headroom)%f64 in
  if f_leb capacity f_zero then f_inf else
  let frac := (map_get f_zero reserved (pe_ID e) / capacity)%f64 in
  if f_leb f_one frac then f_inf else (frac / (f_one - frac))%f64.

(** ** Path computation *)

(** [ErrFuel] is not an error of the code: it stands for a loop that exceeds
    the bound given to it below. *)
Inductive cspf_error :=
  | ErrNilGraph
  | ErrNilObjective
  | ErrUnknownNode (n : NodeID)
  | ErrNoPath (src dst : NodeID)
  | ErrBrokenChain (n : NodeID)
  | ErrMissingEdge (id : PCEEdgeID)
  | ErrFuel.

Record dstate := {
  dist : gmap NodeID f64;
  prev : gmap NodeID PCEEdgeID;
  visited : gset NodeID;
}.

(** [dist[n]]: zero when absent, as in a Go map. *)
Definition dget (st : dstate) (n : NodeID) : f64 := map_get f_zero (dist st) n.

(** The scan for the closest unvisited node: (current, best, found). *)
Definition select_step (st : dstate) (acc : NodeID * f64 * bool) (n : NodeID) : NodeID * f64 * bool :=
  let '(current, best, found) := acc in
  if bool_decide (n ∈ visited st) || f_leb best (dget st n) then (current, best, found)
  else (n, dget st n, true).

Definition select_node (nodes : list NodeID) (st : dstate) : NodeID * f64 * bool :=
  foldl (select_step st) (""%string, f_inf, false) nodes.

Section compute.
Context (g : PCEGraph) (costs : gmap CostGraphEdge Cost) (obj : Objective).

Definition edge_weight (e : PCEEdge) : f64 := obj e (EdgeCost e costs).

Definition relax (current : NodeID) (st : dstate) (edgeID : PCEEdgeID) : dstate :=
  match pg_edges g !! edgeID with
  | None => st
  | Some edge =>
      if bool_decide (pe_NodeTo edge ∈ visited st) then st
      else
        let candidate := (dget st current + edge_weight edge)%f64 in
        if f_ltb candidate (dget st (pe_NodeTo edge))
        then {| dist := <[pe_NodeTo edge := candidate]> (dist st);
                prev := <[pe_NodeTo edge := edgeID]> (prev st);
                visited := visited st |}
        else st
  end.

Definition visit (current : NodeID) (st : dstate) : dstate :=
  foldl (relax current)
    {| dist := dist st; prev := prev st; visited := {[current]} ∪ visited st |}
    (sort_edge_ids (map_get [] (pg_adj g) current)).

(** The main loop; [None] when the fuel runs out. *)
Fixpoint search (dst : NodeID) (nodes : list NodeID) (fuel : nat) (st : dstate) : option dstate :=
  match fuel with
  | O => None
  | S fuel =>
      let '(current, _, found) := select_node nodes st in
      if negb found || bool_decide (current = dst) then Some st
      else search dst nodes fuel (visit current st)
  end.

(** The loop of [reconstruct], collecting in traversal order (from the
    destination back). *)
Fixpoint reconstruct_loop (src : NodeID) (prevs : gmap NodeID PCEEdgeID) (fuel : nat)
    (current : NodeID) (p : Path) : result cspf_error Path :=
  if decide (current = src) then Ok p else
  match fuel with
  | O => Err ErrFuel
  | S fuel =>
      match prevs !! current with
      | None => Err (ErrBrokenChain current)
      | Some edgeID =>
          match pg_edges g !! edgeID with
          | None => Err (ErrMissingEdge edgeID)
          | Some edge =>
              reconstruct_loop src prevs fuel (pe_NodeFrom edge)
                {| p_Nodes := p_Nodes p ++ [pe_NodeFrom edge];
                   p_Edges := p_Edges p ++ [edgeID];
                   p_Links := p_Links p ++ Links edge;
                   p_Cost := p_Cost p; p_Label := p_Label p |}
          end
      end
  end.

Definition reconstruct (src dst : NodeID) (prevs : gmap NodeID PCEEdgeID) (fuel : nat)
    : result cspf_error Path :=
  match reconstruct_loop src prevs fuel dst
          {| p_Nodes := [dst]; p_Edges := []; p_Links := []; p_Cost := f_zero; p_Label := 0 |} with
  | Err e => Err e
  | Ok p => Ok {| p_Nodes := reverse (p_Nodes p); p_Edges := reverse (p_Edges p);
                  p_Links := reverse (p_Links p); p_Cost := p_Cost p; p_Label := p_Label p |}
  end.

Definition initial_state (src : NodeID) (nodes : list NodeID) : dstate :=
  {| dist := <[src := f_zero]> (list_to_map ((λ n, (n, f_inf)) <$> nodes));
     prev := ∅; visited := ∅ |}.

Definition compute_in (src dst : NodeID) : result cspf_error Path :=
  if decide (is_Some (pg_nodes g !! src)) then
    if decide (is_Some (pg_nodes g !! dst)) then
      if decide (src = dst) then
        Ok {| p_Nodes := [src]; p_Edges := []; p_Links := []; p_Cost := f_zero; p_Label := 0 |}
      else
        let nodes := sorted_keys (pg_nodes g) in
        match search dst nodes (S (length nodes)) (initial_state src nodes) with
        | None => Err ErrFuel
        | Some st =>
            if is_inf (dget st dst) then Err (ErrNoPath src dst)
            else
              match reconstruct src dst (prev st) (S (length nodes)) with
              | Err e => Err e
              | Ok p => Ok (Path_set_Cost (dget st dst) p)
              end
        end
    else Err (ErrUnknownNode dst)
  else Err (ErrUnknownNode src).
End compute.

(** [computePath] with its nil checks. *)
Definition computePath (g : option PCEGraph) (costs : gmap CostGraphEdge Cost) (src dst : NodeID)
    (obj : option Objective) : result cspf_error Path :=
  match g with
  | None => Err ErrNilGraph
  | Some g =>
      match obj with
      | None => Err ErrNilObjective
      | Some obj => compute_in g costs obj src dst
      end
  end.

(** ** Path equality *)

Lemma all_equal_spec {A} `{EqDecision A} (l k : list A) :
  length l = length k → all_equal l k = true ↔ l = k.
Proof.
  revert k. induction l as [|a l IH]; intros [|b k] Hlen; try done. simpl in *.
  rewrite andb_true_iff, bool_decide_eq_true, IH by lia. naive_solver.
Qed.

Lemma Path_Equal_spec p q :
  Path_Equal p q = true ↔
  p_Label p = p_Label q ∧ p_Nodes p = p_Nodes q ∧ p_Edges p = p_Edges q.
Proof.
  unfold Path_Equal. destruct (decide (p_Label p = p_Label q)); [|naive_solver].
  destruct (Nat.eqb_spec (length (p_Edges p)) (length (p_Edges q))) as [HE|HE];
    [|by split; [|intros (_ & _ & He); rewrite He in HE]].
  destruct (Nat.eqb_spec (length (p_Nodes p)) (length (p_Nodes q))) as [HN|HN];
    [|by split; [|intros (_ & He & _); rewrite He in HN]].
  simpl. rewrite andb_true_iff, !all_equal_spec by done. naive_solver.
Qed.

(** ** Objectives are non-negative *)

Lemma WeightedCost_nn weights e c :
  (∀ d w, weights !! d = Some w → pos_finite w) →
  (∀ co d x, c = Some co → Costs co !! d = Some x → nn x) →
  nn (WeightedCost weights e c).
Proof.
  intros Hw Hc. destruct c as [co|]; [|done]. unfold WeightedCost.
  apply f_add_nn; [done|].
  apply (foldl_ind _ (λ _ t, nn t)); [done|].
  intros _ d t Ht [w Hd]%elem_of_sorted_keys. apply f_add_nn; [done|].
  unfold map_get. rewrite Hd. simpl. apply f_mul_nn; [by eapply Hw|].
  destruct (Costs co !! d) eqn:Hx; [by eapply Hc|done].
Qed.
