(* ===== verification/CspfCorrect.v ===== *)
(** Correctness of the path computation: it terminates, the path it returns is
    a loop-free walk whose stated cost is the sum of its edge costs, no walk is
    cheaper, and it reports no path only when every walk costs infinity. *)

From S2P Require Import Prelude Float64 Netip Topology CostGraph PceGraph Demo Cspf.

Section correct.
Context (g : PCEGraph) (costs : gmap CostGraphEdge Cost) (obj : Objective).
Context (src dst : NodeID).
Notation nodes := (sorted_keys (pg_nodes g)).
Notation w := (edge_weight costs obj).
Notation adj n := (map_get [] (pg_adj g) n).

(** ** Walks and their cost *)

Inductive walk : list PCEEdgeID → NodeID → Prop :=
  | walk_nil : src ∈ nodes → walk [] src
  | walk_snoc es u id e :
      walk es u → id ∈ adj u → pg_edges g !! id = Some e → pe_NodeTo e ∈ nodes →
      walk (es ++ [id]) (pe_NodeTo e).

Definition id_weight (id : PCEEdgeID) : f64 :=
  match pg_edges g !! id with Some e => w e | None => f_inf end.

Definition walk_cost (es : list PCEEdgeID) : f64 :=
  foldl (λ acc id, (acc + id_weight id)%f64) f_zero es.

Definition walk_nodes (es : list PCEEdgeID) : list NodeID := src :: (id_To <$> es).

Lemma walk_cost_snoc es id : walk_cost (es ++ [id]) = (walk_cost es + id_weight id)%f64.
Proof. unfold walk_cost. by rewrite foldl_app. Qed.

(** The laws below assume what the code relies on: edges are listed at the
    node they leave, and the objective is non-negative and not NaN. *)
Hypothesis Hwf : pce_wf g.
Hypothesis Hnn : ∀ id e, pg_edges g !! id = Some e → nn (w e).

Notation D st n := (val (dget st n)).
Definition dist_nn (st : dstate) : Prop := ∀ n, nn (dget st n).

(** ** The scan *)

Definition select_spec (st : dstate) (seen : list NodeID) (acc : NodeID * f64 * bool) : Prop :=
  let '(c, b, f) := acc in
  nn b ∧ (∀ n, n ∈ seen → n ∉ visited st → val b ≤ D st n) ∧
  (if f then c ∈ nodes ∧ c ∉ visited st ∧ b = dget st c ∧ val b < INF else b = f_inf).

Lemma select_node_spec st : dist_nn st → select_spec st nodes (select_node nodes st).
Proof.
  intros Hd. apply (foldl_ind (select_step st) (select_spec st)).
  { split_and!; [done| |done]. by intros ? ?%not_elem_of_nil. }
  intros seen n [[c b] f] (Hb & Hmin & Hf) Hn. unfold select_step.
  rewrite f_leb_val by done. pose proof (val_bound b Hb) as HbI.
  destruct (bool_decide_reflect (n ∈ visited st)) as [Hv|Hv]; simpl.
  { split_and!; [done| |done]. intros m [?| ->%list_elem_of_singleton]%elem_of_app ?; auto. done. }
  destruct (Z.leb_spec (val b) (D st n)) as [Hle|Hlt]; simpl.
  { split_and!; [done| |done]. intros m [?| ->%list_elem_of_singleton]%elem_of_app ?; auto. }
  split_and!; [done| |done|done|done|lia].
  intros m [Hm| ->%list_elem_of_singleton]%elem_of_app Hvm; [|lia].
  specialize (Hmin m Hm Hvm). lia.
Qed.

(** ** Relaxation of one edge *)

(** How the entry of [v] may differ from [st0] while the edges in [ids] of the
    visited node [u] are relaxed. *)
Definition changed (st0 : dstate) (u : NodeID) (ids : list PCEEdgeID) (st : dstate) (v : NodeID) : Prop :=
  (dget st v = dget st0 v ∧ prev st !! v = prev st0 !! v) ∨
  (v ∉ visited st0 ∧ v ∈ nodes ∧ ∃ id e, id ∈ ids ∧ pg_edges g !! id = Some e ∧
    pe_NodeTo e = v ∧ prev st !! v = Some id ∧ dget st v = (dget st0 u + w e)%f64).

Record relax_inv (st0 : dstate) (u : NodeID) (ids : list PCEEdgeID) (st : dstate) : Prop := {
  ri_visited : visited st = visited st0;
  ri_nn : dist_nn st;
  ri_change : ∀ v, changed st0 u ids st v;
  ri_le : ∀ v, D st v ≤ D st0 v;
  ri_done : ∀ id e, id ∈ ids → pg_edges g !! id = Some e → pe_NodeTo e ∉ visited st0 →
    D st (pe_NodeTo e) ≤ val (dget st0 u + w e)%f64;
  ri_outside : ∀ v, v ∉ nodes → dget st v = f_zero;
}.

Lemma changed_app st0 u ids id st v : changed st0 u ids st v → changed st0 u (ids ++ [id]) st v.
Proof.
  intros [?|(Hv & Hn & i & e & Hi & Hrest)]; [by left|right].
  split_and!; [done|done|]. exists i, e. split; [|done]. apply elem_of_app. by left.
Qed.

Lemma relax_keep st0 u ids id st :
  relax_inv st0 u ids st →
  (∀ e, pg_edges g !! id = Some e → pe_NodeTo e ∉ visited st0 →
     D st (pe_NodeTo e) ≤ val (dget st0 u + w e)%f64) →
  relax_inv st0 u (ids ++ [id]) st.
Proof.
  intros [Hvis Hdn Hch Hle Hdone Hout] Hid. split; try done.
  - intros v. by apply changed_app.
  - intros i e [?| ->%list_elem_of_singleton]%elem_of_app; eauto.
Qed.

Definition dset (st : dstate) (v : NodeID) (x : f64) (id : PCEEdgeID) : dstate :=
  {| dist := <[v := x]> (dist st); prev := <[v := id]> (prev st); visited := visited st |}.

Lemma dget_dset st v x id n : dget (dset st v x id) n = if decide (v = n) then x else dget st n.
Proof. unfold dget, map_get, dset. simpl. rewrite lookup_insert. by case_decide. Qed.

(** The distance of [v] improved through edge [id]. *)
Lemma relax_improve st0 u ids id e st :
  u ∈ visited st0 → relax_inv st0 u ids st → pg_edges g !! id = Some e →
  pe_NodeTo e ∉ visited st0 → val (dget st0 u + w e)%f64 < D st (pe_NodeTo e) →
  nn (dget st0 u + w e)%f64 →
  relax_inv st0 u (ids ++ [id]) (dset st (pe_NodeTo e) (dget st0 u + w e)%f64 id).
Proof.
  intros Hu [Hvis Hdn Hch Hle Hdone Hout] He Hv Hlt Hcand.
  assert (pe_NodeTo e ∈ nodes) as Hin.
  { destruct (decide (pe_NodeTo e ∈ nodes)) as [|Hni]; [done|].
    rewrite (Hout _ Hni) in Hlt. pose proof (val_nonneg (dget st0 u + w e)%f64).
    change (val f_zero) with 0 in Hlt. lia. }
  split; try done.
  - intros v. rewrite dget_dset. case_decide; [done|apply Hdn].
  - intros v. unfold changed. rewrite dget_dset. simpl. rewrite lookup_insert. case_decide as Hd.
    + right. subst v. split_and!; [done|done|]. exists id, e.
      split_and!; try done. apply elem_of_app. right. by apply list_elem_of_singleton.
    + by apply changed_app.
  - intros v. rewrite dget_dset. case_decide as Hd; [|apply Hle].
    subst v. specialize (Hle (pe_NodeTo e)). lia.
  - intros i e' Hin' He' Hnv. rewrite dget_dset.
    apply elem_of_app in Hin' as [Hi| ->%list_elem_of_singleton].
    + specialize (Hdone _ _ Hi He' Hnv). case_decide as Hd; [|done].
      rewrite <-Hd in Hdone. lia.
    + simplify_eq. by rewrite decide_True.
  - intros v Hnv. rewrite dget_dset. case_decide; [by subst|]. by apply Hout.
Qed.

Lemma relax_inv_step st0 u ids st id :
  u ∈ visited st0 → relax_inv st0 u ids st → relax_inv st0 u (ids ++ [id]) (relax g costs obj u st id).
Proof.
  intros Hu Hinv. pose proof Hinv as [Hvis Hdn Hch _ _ _]. unfold relax.
  assert (dget st u = dget st0 u) as Hdu by (destruct (Hch u) as [[-> _]|[? _]]; done).
  destruct (pg_edges g !! id) as [e|] eqn:He; [|apply relax_keep; [done|congruence]].
  destruct (bool_decide_reflect (pe_NodeTo e ∈ visited st)) as [Hv|Hv]; rewrite Hvis in Hv.
  { apply relax_keep; [done|]. intros e' ?. by simplify_eq. }
  pose proof (Hnn _ _ He) as Hwe. pose proof (Hdn u) as Hnu. rewrite Hdu in *.
  pose proof (f_add_nn _ _ Hnu Hwe) as Hcand. rewrite f_ltb_val by done.
  destruct (Z.ltb_spec (val (dget st0 u + w e)%f64) (D st (pe_NodeTo e))) as [Hlt|Hge].
  - by apply relax_improve.
  - apply relax_keep; [done|]. intros e' ??. by simplify_eq.
Qed.

(** ** One visit *)

Lemma visit_inv st u :
  dist_nn st → (∀ v, v ∉ nodes → dget st v = f_zero) →
  relax_inv {| dist := dist st; prev := prev st; visited := {[u]} ∪ visited st |} u
    (sort_edge_ids (adj u)) (visit g costs obj u st).
Proof.
  intros Hd Hout. unfold visit.
  apply (foldl_ind (relax g costs obj u) (relax_inv _ u)).
  - split; try done; [by left|]. by intros ?? ?%not_elem_of_nil.
  - intros ids id t Ht _. apply relax_inv_step; [simpl; set_solver|done].
Qed.
(** ** The loop invariant *)

(** [vs] lists the visited nodes, latest first. *)
Record inv (st : dstate) (vs : list NodeID) : Prop := {
  i_vs : ∀ n, n ∈ visited st ↔ n ∈ vs;
  i_nodup : NoDup vs;
  i_sub : ∀ n, n ∈ vs → n ∈ nodes;
  i_nn : dist_nn st;
  i_out : ∀ v, v ∉ nodes → dget st v = f_zero;
  i_src : dget st src = f_zero ∧ prev st !! src = None;
  i_first : src ∈ vs ∨ (vs = [] ∧ ∀ n, n ∈ nodes → n ≠ src → dget st n = f_inf);
  i_prev : ∀ n id, prev st !! n = Some id →
    ∃ e, pg_edges g !! id = Some e ∧ pe_NodeTo e = n ∧ id ∈ adj (pe_NodeFrom e) ∧
         dget st n = (dget st (pe_NodeFrom e) + w e)%f64 ∧ pe_NodeFrom e ∈ vs ∧ n ∈ nodes ∧
         (∀ l1 l2, vs = l1 ++ n :: l2 → pe_NodeFrom e ∈ l2);
  i_none : ∀ n, n ∈ nodes → n ≠ src → prev st !! n = None → dget st n = f_inf;
  i_seen : ∀ n, n ∈ vs → n = src ∨ is_Some (prev st !! n);
  i_order : ∀ u v, u ∈ vs → v ∈ nodes → v ∉ vs → D st u ≤ D st v;
  i_relaxed : ∀ u id e, u ∈ vs → id ∈ adj u → pg_edges g !! id = Some e → pe_NodeTo e ∈ nodes →
    D st (pe_NodeTo e) ≤ val (dget st u + w e)%f64;
}.

Lemma dget_initial n : src ∈ nodes →
  dget (initial_state src nodes) n =
  if decide (src = n) then f_zero else if decide (n ∈ nodes) then f_inf else f_zero.
Proof.
  intros Hsrc. unfold dget, map_get, initial_state. simpl. rewrite lookup_insert.
  case_decide as Hs; [done|]. case_decide as Hn.
  - erewrite elem_of_list_to_map_1; [done| |].
    + rewrite <-list_fmap_compose. change (NoDup (id <$> nodes)). rewrite list_fmap_id.
      apply NoDup_sorted_keys.
    + apply list_elem_of_fmap. eauto.
  - rewrite (proj1 (not_elem_of_list_to_map _ _)); [done|].
    rewrite <-list_fmap_compose. change (n ∉ id <$> nodes). by rewrite list_fmap_id.
Qed.

Lemma inv_initial : src ∈ nodes → inv (initial_state src nodes) [].
Proof.
  intros Hsrc. split.
  - intros n. simpl. by rewrite elem_of_nil, elem_of_empty.
  - constructor.
  - by intros ? ?%not_elem_of_nil.
  - intros n. rewrite dget_initial by done. repeat case_decide; done.
  - intros v Hv. rewrite dget_initial by done. case_decide; [done|]. by rewrite decide_False.
  - rewrite dget_initial by done. by rewrite decide_True.
  - right. split; [done|]. intros m Hm Hne. rewrite dget_initial by done.
    rewrite decide_False by done. by rewrite decide_True.
  - intros n id. simpl. by rewrite lookup_empty.
  - intros n Hn Hne _. rewrite dget_initial by done. rewrite decide_False by done.
    by rewrite decide_True.
  - by intros ? ?%not_elem_of_nil.
  - by intros ?? ?%not_elem_of_nil.
  - by intros ??? ?%not_elem_of_nil.
Qed.

Section step.
Context (st : dstate) (vs : list NodeID) (c : NodeID).
Hypothesis Hinv : inv st vs.
Hypothesis Hc : c ∈ nodes.
Hypothesis Hcv : c ∉ vs.
Hypothesis Hfin : D st c < INF.
Hypothesis Hmin : ∀ n, n ∈ nodes → n ∉ vs → D st c ≤ D st n.
Notation st' := (visit g costs obj c st).

Lemma step_relax : relax_inv {| dist := dist st; prev := prev st; visited := {[c]} ∪ visited st |} c
  (sort_edge_ids (adj c)) st'.
Proof. apply visit_inv; apply Hinv. Qed.

Lemma step_visited n : n ∈ visited st' ↔ n ∈ c :: vs.
Proof.
  rewrite (ri_visited _ _ _ _ step_relax). simpl.
  rewrite elem_of_union, elem_of_singleton, (i_vs _ _ Hinv), elem_of_cons. done.
Qed.

Lemma not_visited0 n : n ∉ {[c]} ∪ visited st ↔ n ∉ c :: vs.
Proof. by rewrite elem_of_union, elem_of_singleton, (i_vs _ _ Hinv), elem_of_cons. Qed.

(** Distances and predecessors of visited nodes are frozen; the others are
    unchanged or improved through an edge that leaves [c]. *)
Lemma step_change v :
  (dget st' v = dget st v ∧ prev st' !! v = prev st !! v) ∨
  (v ∉ c :: vs ∧ v ∈ nodes ∧ ∃ id e, id ∈ adj c ∧ pg_edges g !! id = Some e ∧
    pe_NodeFrom e = c ∧ pe_NodeTo e = v ∧ prev st' !! v = Some id ∧
    dget st' v = (dget st c + w e)%f64).
Proof.
  destruct (ri_change _ _ _ _ step_relax v) as [?|(Hv & Hn & id & e & Hid & He & Ht & Hp & Hd)];
    [by left|right].
  apply not_visited0 in Hv. split_and!; [done|done|].
  assert (id ∈ adj c) as Hid' by (unfold sort_edge_ids in Hid; by rewrite merge_sort_Permutation in Hid).
  exists id, e. split_and!; try done.
  destruct (pw_edge g Hwf _ _ He) as (_ & -> & _). by apply (pw_adj g Hwf c id).
Qed.

Lemma step_frozen v : v ∈ c :: vs → dget st' v = dget st v ∧ prev st' !! v = prev st !! v.
Proof. intros Hv. by destruct (step_change v) as [?|[? _]]. Qed.

Lemma src_first : src ∈ c :: vs.
Proof.
  destruct (i_first _ _ Hinv) as [?|[-> Hinf]]; [by right|].
  destruct (decide (c = src)) as [->|Hne]; [by left|].
  rewrite (Hinf c Hc Hne) in Hfin. change (val f_inf) with INF in Hfin. lia.
Qed.

Lemma step_prev n id : prev st' !! n = Some id →
  ∃ e, pg_edges g !! id = Some e ∧ pe_NodeTo e = n ∧ id ∈ adj (pe_NodeFrom e) ∧
       dget st' n = (dget st' (pe_NodeFrom e) + w e)%f64 ∧ pe_NodeFrom e ∈ c :: vs ∧ n ∈ nodes ∧
       (∀ l1 l2, c :: vs = l1 ++ n :: l2 → pe_NodeFrom e ∈ l2).
Proof.
  intros Hp. destruct (step_change n) as [[Hd Hp']|(Hv & Hn & i & e & Hi & He & Hf & Ht & Hp' & Hd)].
  - rewrite Hp' in Hp. destruct (i_prev _ _ Hinv _ _ Hp) as (e & He & Ht & Ha & Hdn & Hin & Hnn' & Hpos).
    exists e. rewrite Hd, (proj1 (step_frozen (pe_NodeFrom e) ltac:(by right))).
    split_and!; try done; [by right|].
    intros [|x l1] l2 [= Hx Hl]; [by subst|]. by eapply Hpos.
  - assert (i = id) as -> by congruence. exists e.
    rewrite Hf, Hd, (proj1 (step_frozen c ltac:(by left))).
    split_and!; try done; [by left|].
    intros l1 l2 Heq. exfalso. apply Hv. rewrite Heq. set_solver.
Qed.

Lemma step_order u v : u ∈ c :: vs → v ∈ nodes → v ∉ c :: vs → D st' u ≤ D st' v.
Proof.
  intros Hu Hv Hnv. rewrite (proj1 (step_frozen u Hu)).
  assert (v ∉ vs) as Hnv' by (intros ?; apply Hnv; by right).
  assert (D st u ≤ D st c) as Huc.
  { apply elem_of_cons in Hu as [->|Hu]; [done|]. by apply (i_order _ _ Hinv). }
  destruct (step_change v) as [[-> _]|(_ & _ & id & e & _ & He & _ & _ & _ & ->)].
  - specialize (Hmin v Hv Hnv'). lia.
  - pose proof (f_add_inflate_l (dget st c) (w e) (i_nn _ _ Hinv c) (Hnn _ _ He)). lia.
Qed.

Lemma step_relaxed u id e : u ∈ c :: vs → id ∈ adj u → pg_edges g !! id = Some e →
  pe_NodeTo e ∈ nodes → D st' (pe_NodeTo e) ≤ val (dget st' u + w e)%f64.
Proof.
  intros Hu Hid He Ht. rewrite (proj1 (step_frozen u Hu)).
  pose proof (ri_le _ _ _ _ step_relax (pe_NodeTo e)) as Hle. simpl in Hle.
  apply elem_of_cons in Hu as [->|Hu].
  - destruct (decide (pe_NodeTo e ∈ c :: vs)) as [Hin|Hni].
    + rewrite (proj1 (step_frozen _ Hin)).
      assert (D st (pe_NodeTo e) ≤ D st c).
      { apply elem_of_cons in Hin as [->|Hin]; [done|]. by apply (i_order _ _ Hinv). }
      pose proof (f_add_inflate_l (dget st c) (w e) (i_nn _ _ Hinv c) (Hnn _ _ He)). lia.
    + eapply (ri_done _ _ _ _ step_relax id e); [|done|by apply not_visited0].
      unfold sort_edge_ids. by rewrite merge_sort_Permutation.
  - pose proof (i_relaxed _ _ Hinv u id e Hu Hid He Ht).
    change (D st' (pe_NodeTo e) ≤ D st (pe_NodeTo e)) in Hle. lia.
Qed.

Lemma inv_step : inv st' (c :: vs).
Proof.
  pose proof (i_nodup _ _ Hinv) as Hnd.
  split.
  - apply step_visited.
  - by constructor.
  - intros n [->|Hn]%elem_of_cons; [done|]. by apply (i_sub _ _ Hinv).
  - apply (ri_nn _ _ _ _ step_relax).
  - apply (ri_outside _ _ _ _ step_relax).
  - destruct (step_frozen src src_first) as [-> ->]. apply Hinv.
  - left. apply src_first.
  - apply step_prev.
  - intros n Hn Hne Hp. destruct (step_change n) as [[-> Hp']|(_ & _ & id & e & ? & ? & ? & ? & Hp' & _)].
    + apply (i_none _ _ Hinv); congruence.
    + congruence.
  - intros n Hn. rewrite (proj2 (step_frozen n Hn)).
    apply elem_of_cons in Hn as [->|Hn]; [|by apply (i_seen _ _ Hinv)].
    destruct (decide (c = src)); [by left|right]. destruct (prev st !! c) eqn:Hp; [by eauto|].
    exfalso. rewrite (i_none _ _ Hinv c Hc) in Hfin by done. change (val f_inf) with INF in Hfin. lia.
  - apply step_order.
  - apply step_relaxed.
Qed.
End step.

Lemma vs_length st vs : inv st vs → (length vs <= length nodes)%nat.
Proof.
  intros Hi. apply submseteq_length, NoDup_submseteq; [apply Hi|]. apply Hi.
Qed.

(** The loop ends within the fuel it is given, in a state where the
    destination is as close as any unvisited node. *)
Lemma search_spec fuel st vs :
  dst ∈ nodes → inv st vs → dst ∉ vs → (length nodes < fuel + length vs)%nat →
  ∃ st' vs', search g costs obj dst nodes fuel st = Some st' ∧ inv st' vs' ∧ dst ∉ vs' ∧
    ∀ n, n ∈ nodes → n ∉ vs' → D st' dst ≤ D st' n.
Proof.
  intros Hdst. revert st vs. induction fuel as [|fuel IH]; intros st vs Hi Hd Hf.
  { pose proof (vs_length st vs Hi). lia. }
  simpl. pose proof (select_node_spec st (i_nn _ _ Hi)) as Hsel.
  destruct (select_node nodes st) as [[c b] f]. destruct Hsel as (Hb & Hmin & Hsel).
  assert (∀ n, n ∈ nodes → n ∉ vs → val b ≤ D st n) as Hmin'.
  { intros n Hn Hv. apply Hmin; [done|]. by rewrite (i_vs _ _ Hi). }
  destruct f; simpl.
  - destruct Hsel as (Hc & Hcv & -> & Hlt). rewrite (i_vs _ _ Hi) in Hcv.
    case_bool_decide as Hcd.
    + subst c. exists st, vs. split_and!; try done.
    + apply (IH _ (c :: vs)).
      * by apply inv_step.
      * by intros [->|?]%elem_of_cons.
      * simpl. lia.
  - subst b. exists st, vs. split_and!; try done. intros n Hn Hv.
    specialize (Hmin' n Hn Hv). pose proof (val_bound _ (i_nn _ _ Hi dst)).
    change (val f_inf) with INF in Hmin'. lia.
Qed.
(** ** Reading the path back *)

Lemma walk_nodes_snoc es id : walk_nodes (es ++ [id]) = walk_nodes es ++ [id_To id].
Proof. unfold walk_nodes. by rewrite fmap_app. Qed.

Lemma walk_to es n : walk es n → n ∈ nodes.
Proof. by inversion 1. Qed.

Lemma walk_nodes_rev es n : walk es n → reverse (walk_nodes es) = n :: tail (reverse (walk_nodes es)).
Proof.
  inversion 1 as [|es' u id e Hw Ha He Ht]; subst; [done|].
  rewrite walk_nodes_snoc, reverse_app. simpl.
  by destruct (pw_edge g Hwf _ _ He) as (_ & _ & <-).
Qed.

Definition id_links (id : PCEEdgeID) : list EdgeID :=
  match pg_edges g !! id with Some e => Links e | None => [] end.

(** What the loop of [reconstruct] adds to [p] when it walks [es] backwards. *)
Definition unwound (p : Path) (es : list PCEEdgeID) : Path :=
  {| p_Nodes := p_Nodes p ++ tail (reverse (walk_nodes es));
     p_Edges := p_Edges p ++ reverse es;
     p_Links := p_Links p ++ mjoin (id_links <$> reverse es);
     p_Cost := p_Cost p; p_Label := p_Label p |}.

Lemma unwound_snoc p es id e :
  pg_edges g !! id = Some e → walk es (pe_NodeFrom e) →
  unwound {| p_Nodes := p_Nodes p ++ [pe_NodeFrom e]; p_Edges := p_Edges p ++ [id];
             p_Links := p_Links p ++ Links e; p_Cost := p_Cost p; p_Label := p_Label p |} es =
  unwound p (es ++ [id]).
Proof.
  intros He Hw. unfold unwound. simpl. rewrite walk_nodes_snoc, !reverse_app. simpl.
  rewrite (walk_nodes_rev _ _ Hw). unfold id_links at 2. rewrite He.
  by rewrite <-!app_assoc.
Qed.

Section chain.
Context (st : dstate) (vs : list NodeID).
Hypothesis Hinv : inv st vs.

Record chain_to (n : NodeID) (l2 : list NodeID) (es : list PCEEdgeID) : Prop := {
  ch_walk : walk es n;
  ch_cost : walk_cost es = dget st n;
  ch_nodup : NoDup (walk_nodes es);
  ch_in : ∀ m, m ∈ walk_nodes es → m ∈ n :: l2;
  ch_loop : ∀ fuel p, (length l2 <= fuel)%nat →
    reconstruct_loop g src (prev st) fuel n p = Ok (unwound p es);
}.

Lemma chain_snoc n id e u k1 k2 es :
  prev st !! n = Some id → pg_edges g !! id = Some e → pe_NodeTo e = n →
  pe_NodeFrom e = u → id ∈ adj u → dget st n = (dget st u + w e)%f64 → n ∈ nodes → n ≠ src →
  n ∉ u :: k2 → chain_to u k2 es → chain_to n (k1 ++ u :: k2) (es ++ [id]).
Proof.
  intros Hp He Ht Hf Ha Hd Hn Hne Hfresh [Hw Hc Hnd Hin Hl].
  destruct (pw_edge g Hwf _ _ He) as (_ & _ & HTo).
  split.
  - rewrite <-Ht. apply (walk_snoc es u); congruence.
  - rewrite walk_cost_snoc, Hc, Hd. unfold id_weight. by rewrite He.
  - rewrite walk_nodes_snoc, <-HTo, Ht. apply list.NoDup_app. split_and!; [done| |apply NoDup_singleton].
    intros m Hm ->%list_elem_of_singleton. apply Hfresh. by apply Hin.
  - intros m. rewrite walk_nodes_snoc, elem_of_app, list_elem_of_singleton, <-HTo, Ht.
    intros [Hm%Hin| ->]; [|by left]. right. apply elem_of_app. by right.
  - intros [|fuel] p Hfuel; [rewrite length_app in Hfuel; simpl in Hfuel; lia|].
    simpl. rewrite decide_False, Hp, He by done.
    rewrite Hf, Hl by (rewrite length_app in Hfuel; simpl in Hfuel; lia).
    f_equal. rewrite <-Hf. apply unwound_snoc; [done|by rewrite Hf].
Qed.

Lemma chain_exists m l1 n l2 :
  (length l2 < m)%nat → vs = l1 ++ n :: l2 → ∃ es, chain_to n l2 es.
Proof.
  revert l1 n l2. induction m as [|m IH]; intros l1 n l2 Hm Hvs; [lia|].
  assert (n ∈ vs) as Hn by (rewrite Hvs; set_solver).
  destruct (decide (n = src)) as [->|Hne].
  { exists []. split.
    - constructor. by apply (i_sub _ _ Hinv).
    - by rewrite (proj1 (i_src _ _ Hinv)).
    - apply NoDup_singleton.
    - intros x ->%list_elem_of_singleton. by left.
    - intros [|fuel] p _; simpl; rewrite decide_True by done; unfold unwound; simpl;
        rewrite !app_nil_r; by destruct p. }
  destruct (i_seen _ _ Hinv n Hn) as [?|[id Hp]]; [done|].
  destruct (i_prev _ _ Hinv _ _ Hp) as (e & He & Ht & Ha & Hd & Hin & Hnn' & Hpos).
  pose proof (Hpos _ _ Hvs) as Hu. apply list_elem_of_split in Hu as (k1 & k2 & Hl2).
  destruct (IH (l1 ++ n :: k1) (pe_NodeFrom e) k2) as [es Hes].
  { rewrite Hl2, length_app in Hm. simpl in Hm. lia. }
  { rewrite Hvs, Hl2, <-app_assoc. done. }
  exists (es ++ [id]). rewrite Hl2. eapply chain_snoc; eauto.
  pose proof (i_nodup _ _ Hinv) as Hnd. rewrite Hvs, Hl2 in Hnd.
  apply list.NoDup_app in Hnd as (_ & _ & [Hnd _]%list.NoDup_cons). set_solver.
Qed.

(** The path to an unvisited node that has a predecessor. *)
Lemma chain_frontier n id :
  n ∉ vs → n ≠ src → prev st !! n = Some id → ∃ es, chain_to n vs es.
Proof.
  intros Hv Hne Hp.
  destruct (i_prev _ _ Hinv _ _ Hp) as (e & He & Ht & Ha & Hd & Hin & Hnn' & _).
  apply list_elem_of_split in Hin as (k1 & k2 & Hvs).
  destruct (chain_exists (S (length k2)) k1 (pe_NodeFrom e) k2) as [es Hes]; [lia|done|].
  exists (es ++ [id]). rewrite Hvs. eapply chain_snoc; eauto.
  intros Hin. apply Hv. rewrite Hvs. apply elem_of_app. by right.
Qed.

(** ** Lower bound on the cost of every walk *)

Lemma walk_bound es n :
  (∀ n, n ∈ nodes → n ∉ vs → D st dst ≤ D st n) → dst ∈ nodes → dst ∉ vs →
  walk es n →
  nn (walk_cost es) ∧ (n ∈ vs → D st n ≤ val (walk_cost es)) ∧
  (n ∉ vs → D st dst ≤ val (walk_cost es)).
Proof.
  intros Hterm Hdst Hdv. induction 1 as [Hs|es u id e Hw IH Ha He Ht].
  - destruct (i_src _ _ Hinv) as [Hd _]. split_and!; [done| |].
    + intros _. by rewrite Hd.
    + intros Hv. specialize (Hterm src Hs Hv). by rewrite Hd in Hterm.
  - destruct IH as (Hcn & Hin & Hout). pose proof (Hnn _ _ He) as Hwe.
    assert (id_weight id = w e) as HidW by (unfold id_weight; by rewrite He).
    rewrite walk_cost_snoc, HidW. split; [by apply f_add_nn|].
    pose proof (f_add_inflate_l _ _ Hcn Hwe) as Hinf.
    assert (u ∈ vs → D st (pe_NodeTo e) ≤ val (walk_cost es + w e)%f64) as Hvis.
    { intros Hu. etransitivity; [by apply (i_relaxed _ _ Hinv u id e)|].
      apply f_add_mono; [apply Hinv|done..|by apply Hin|done]. }
    destruct (decide (u ∈ vs)) as [Hu|Hu].
    + specialize (Hvis Hu). split; [done|]. intros Hv. specialize (Hterm _ Ht Hv). lia.
    + specialize (Hout Hu). split; [|lia]. intros Hv.
      pose proof (i_order _ _ Hinv _ dst Hv Hdst Hdv). lia.
Qed.
End chain.

(** ** The whole computation *)

Lemma in_nodes n : n ∈ nodes ↔ is_Some (pg_nodes g !! n).
Proof. apply elem_of_sorted_keys. Qed.

Lemma walk_rev_nodes es n : walk es n → n :: tail (reverse (walk_nodes es)) = reverse (walk_nodes es).
Proof. intros. symmetry. by apply walk_nodes_rev. Qed.

Definition path_of (es : list PCEEdgeID) (c : f64) : Path :=
  {| p_Nodes := walk_nodes es; p_Edges := es; p_Links := reverse (mjoin (id_links <$> reverse es));
     p_Cost := c; p_Label := 0 |}.

(** The outcome on known endpoints, in one statement. *)
Lemma compute_in_spec :
  src ∈ nodes → dst ∈ nodes →
  (∃ es, walk es dst ∧ NoDup (walk_nodes es) ∧
     compute_in g costs obj src dst = Ok (path_of es (walk_cost es)) ∧
     val (walk_cost es) < INF ∧
     ∀ es', walk es' dst → nn (walk_cost es') ∧ val (walk_cost es) ≤ val (walk_cost es')) ∨
  (compute_in g costs obj src dst = Err (ErrNoPath src dst) ∧
     ∀ es', walk es' dst → walk_cost es' = f_inf).
Proof.
  intros Hs Hd. unfold compute_in.
  rewrite decide_True by (by apply in_nodes). rewrite decide_True by (by apply in_nodes).
  case_decide as Hsd.
  { left. exists []. split_and!.
    - subst. by constructor.
    - apply NoDup_singleton.
    - done.
    - done.
    - intros es' Hw. split; [|apply val_nonneg].
      clear -Hw Hnn. induction Hw as [|es u id e Hw IH Ha He Ht]; [done|].
      rewrite walk_cost_snoc. apply f_add_nn; [done|]. unfold id_weight. rewrite He. by eapply Hnn. }
  destruct (search_spec (S (length nodes)) (initial_state src nodes) []) as (st & vs & Hsr & Hinv & Hdv & Hterm);
    [done|by apply inv_initial|by intros ?%not_elem_of_nil|simpl; lia|].
  rewrite Hsr. pose proof (i_nn _ _ Hinv dst) as Hdn.
  assert (∀ es', walk es' dst → nn (walk_cost es') ∧ D st dst ≤ val (walk_cost es')) as Hbound.
  { intros es' Hw. destruct (walk_bound st vs Hinv es' dst Hterm Hd Hdv Hw) as (? & _ & ?). auto. }
  destruct (is_inf (dget st dst)) eqn:Hinf.
  - right. split; [done|]. intros es' Hw. destruct (Hbound es' Hw) as [Hn Hle].
    apply is_inf_val in Hinf; [|done]. apply nn_val_INF; [done|].
    pose proof (val_bound _ Hn). lia.
  - left. destruct (prev st !! dst) as [id|] eqn:Hp.
    2:{ rewrite (i_none _ _ Hinv dst Hd) in Hinf by done. done. }
    destruct (chain_frontier st vs Hinv dst id Hdv ltac:(done) Hp) as [es [Hw Hc Hnd Hin Hl]].
    exists es. rewrite Hc. split_and!; [done|done| | |done].
    + unfold reconstruct. rewrite Hl by (pose proof (vs_length _ _ Hinv); lia).
      unfold unwound, path_of, Path_set_Cost. simpl. f_equal.
      rewrite (walk_rev_nodes _ _ Hw), !reverse_involutive. done.
    + destruct (decide (D st dst = INF)) as [He|].
      * apply is_inf_val in He; [|done]. congruence.
      * pose proof (val_bound _ Hdn). lia.
Qed.
End correct.

(** ** Results *)

Section results.
Context (g : PCEGraph) (costs : gmap CostGraphEdge Cost).

(** What every use of [computePath] in the controller relies on: positive
    finite weights and well-formed non-negative costs. *)
Lemma weighted_edge_nn weights id e :
  costs_nn costs → (∀ d w, weights !! d = Some w → pos_finite w) →
  pg_edges g !! id = Some e → nn (edge_weight costs (WeightedCost weights) e).
Proof.
  intros Hc Hw _. apply WeightedCost_nn; [done|]. intros co d x Hco Hx. by eapply EdgeCost_nn.
Qed.

Lemma computePath_known obj src dst p :
  computePath (Some g) costs src dst (Some obj) = Ok p →
  src ∈ sorted_keys (pg_nodes g) ∧ dst ∈ sorted_keys (pg_nodes g).
Proof. simpl. unfold compute_in. rewrite !elem_of_sorted_keys. by repeat case_decide. Qed.

Lemma computePath_walk obj src dst p :
  pce_wf g → (∀ id e, pg_edges g !! id = Some e → nn (edge_weight costs obj e)) →
  computePath (Some g) costs src dst (Some obj) = Ok p →
  walk g src (p_Edges p) dst ∧ NoDup (walk_nodes src (p_Edges p)) ∧
  p = path_of g src (p_Edges p) (walk_cost g costs obj (p_Edges p)).
Proof.
  intros Hwf Hnn Hp. destruct (computePath_known _ _ _ _ Hp) as [Hs Hd].
  destruct (compute_in_spec g costs obj src dst Hwf Hnn Hs Hd)
    as [(es & Hw & Hnd & Hc & _)|[Hc _]]; simpl in Hp; rewrite Hc in Hp; by simplify_eq/=.
Qed.

(** The edges of a computed path are edges of the graph it was computed on. *)
Lemma walk_edges src es n id : walk g src es n → id ∈ es → is_Some (pg_edges g !! id).
Proof.
  induction 1 as [|es u i e Hw IH Ha He Ht]; [by intros ?%not_elem_of_nil|].
  intros [?| ->%list_elem_of_singleton]%elem_of_app; eauto.
Qed.

Lemma walk_NoDup_edges src es : NoDup (walk_nodes src es) → NoDup es.
Proof. intros Hnd%list.NoDup_cons_1_2. by eapply NoDup_fmap_1. Qed.
End results.

(** C1: a path that [computePath] returns under weighted costs starts at the
    source, ends at the destination, follows edges of the graph, visits no
    node twice, has as its cost the sum of its edges' costs, and no walk from
    source to destination is cheaper (in the float64 arithmetic of the code). *)
Theorem computePath_optimal g costs weights src dst p :
  pce_wf g → costs_nn costs → (∀ d w, weights !! d = Some w → pos_finite w) →
  computePath (Some g) costs src dst (Some (WeightedCost weights)) = Ok p →
  walk g src (p_Edges p) dst ∧
  p_Nodes p = src :: (id_To <$> p_Edges p) ∧ NoDup (p_Nodes p) ∧
  p_Cost p = walk_cost g costs (WeightedCost weights) (p_Edges p) ∧
  is_inf (p_Cost p) = false ∧
  ∀ es, walk g src es dst → f_leb (p_Cost p) (walk_cost g costs (WeightedCost weights) es) = true.
Proof.
  intros Hwf Hc Hpos Hp. pose proof (λ id e, weighted_edge_nn g costs weights id e Hc Hpos) as Hnn.
  destruct (computePath_known _ _ _ _ _ _ Hp) as [Hs Hd].
  destruct (compute_in_spec g costs _ src dst Hwf Hnn Hs Hd)
    as [(es & Hw & Hnd & He & Hlt & Hopt)|[He _]]; simpl in Hp; rewrite He in Hp; simplify_eq/=.
  destruct (Hopt es Hw) as [Hn _]. split_and!; try done.
  - apply not_true_is_false. intros Hi%is_inf_val; [lia|done].
  - intros es' Hw'. destruct (Hopt es' Hw') as [Hn' Hle]. rewrite f_leb_val by done. by apply Z.leb_le.
Qed.

(** C2: between two nodes of the graph [computePath] always terminates, with a
    path or with the no-path error; the latter only when every walk costs
    infinity (a link without a cost, or a full one). The loop bounds of the
    model are never reached and the reconstruction never breaks. *)
Theorem computePath_complete g costs weights src dst :
  pce_wf g → costs_nn costs → (∀ d w, weights !! d = Some w → pos_finite w) →
  is_Some (pg_nodes g !! src) → is_Some (pg_nodes g !! dst) →
  let r := computePath (Some g) costs src dst (Some (WeightedCost weights)) in
  (∃ p, r = Ok p) ∨
  (r = Err (ErrNoPath src dst) ∧
   ∀ es, walk g src es dst → walk_cost g costs (WeightedCost weights) es = f_inf).
Proof.
  intros Hwf Hc Hpos Hs%elem_of_sorted_keys Hd%elem_of_sorted_keys.
  pose proof (λ id e, weighted_edge_nn g costs weights id e Hc Hpos) as Hnn.
  destruct (compute_in_spec g costs _ src dst Hwf Hnn Hs Hd) as [(es & _ & _ & He & _)|?]; eauto.
Qed.

(** The detour over [fra] beats the slow direct link. *)
Definition demo_path : list PCEEdgeID :=
  [demo_id "ams" "eth1" "fra" "eth1"; demo_id "fra" "eth2" "lon" "eth1"].

Lemma computePath_optimal_witness :
  ∃ p, computePath (Some demo_graph) demo_costs "ams" "lon" (Some (WeightedCost demo_weights)) = Ok p ∧
    p_Edges p = demo_path ∧ NoDup (p_Nodes p).
Proof.
  eexists. split; [vm_compute; reflexivity|]. split; [vm_compute; reflexivity|].
  eapply (computePath_optimal demo_graph demo_costs demo_weights "ams" "lon");
    [apply NewPCEGraph_wf|apply demo_costs_nn|apply demo_weights_pos|vm_compute; reflexivity].
Defined.

Lemma computePath_complete_witness :
  computePath (Some demo_graph) demo_costs "ams" "osl" (Some (WeightedCost demo_weights)) =
    Err (ErrNoPath "ams" "osl") ∧
  ∀ es, walk demo_graph "ams" es "osl" →
    walk_cost demo_graph demo_costs (WeightedCost demo_weights) es = f_inf.
Proof.
  assert (computePath (Some demo_graph) demo_costs "ams" "osl" (Some (WeightedCost demo_weights)) =
    Err (ErrNoPath "ams" "osl")) as He by (vm_compute; reflexivity).
  destruct (computePath_complete demo_graph demo_costs demo_weights "ams" "osl") as [[p Hp]|Hr];
    [apply NewPCEGraph_wf|apply demo_costs_nn|apply demo_weights_pos| | | |exact Hr].
  - vm_compute. eexists. reflexivity.
  - vm_compute. eexists. reflexivity.
  - rewrite Hp in He. discriminate He.
Defined.
