(* ===== verification/Bandwidth.v ===== *)
(** The bandwidth reservation registry (bandwidth_reservation.go): which tenant
    has booked what on which edge, the hose-model load of an edge, admission
    and the move of a reservation from one path to another. *)

From S2P Require Import Prelude Float64 Netip Topology CostGraph PceGraph Demo Cspf CspfCorrect.

Notation TenantID := Z (only parsing).

Record BandwidthReservationKey := { rk_SourcePop : NodeID; rk_SinkPop : NodeID; rk_Label : Z }.

#[export] Instance BandwidthReservationKey_eq_dec : EqDecision BandwidthReservationKey.
Proof. solve_decision. Defined.
#[export] Instance BandwidthReservationKey_countable : Countable BandwidthReservationKey.
Proof.
  refine (inj_countable' (λ k, (rk_SourcePop k, rk_SinkPop k, rk_Label k))
    (λ '(s, d, l), {| rk_SourcePop := s; rk_SinkPop := d; rk_Label := l |}) _).
  by intros [].
Defined.

Record BandwidthReservation := {
  br_Key : BandwidthReservationKey;
  br_SourceBandwidth : f64;
  br_SinkBandwidth : f64;
}.

Record BandwidthReservationTenantEntry := {
  te_Tenant : TenantID;
  te_Reservations : gmap BandwidthReservationKey BandwidthReservation;
}.

Record BandwidthReservationEdge := {
  be_ForEdge : PCEEdge;
  be_Bookings : gmap TenantID BandwidthReservationTenantEntry;
}.

(** The registry without its lock and logger. *)
Notation BandwidthReservationRegistry := (gmap PCEEdgeID BandwidthReservationEdge).

Definition NewBandwidthReservationRegistry : BandwidthReservationRegistry := ∅.

(** [bandwidthPopLabel]. *)
Notation bandwidthPopLabel := (NodeID * Z)%type (only parsing).

Record bandwidth_sums := {
  bs_sumSources : gmap Z f64;
  bs_sumSinks : gmap Z f64;
  bs_seenSources : gset bandwidthPopLabel;
  bs_seenSinks : gset bandwidthPopLabel;
}.

(** One side of the loop body of [getBandwidthSums]: the first reservation of
    a (PoP, label) adds its bandwidth to the label's sum. *)
Definition sum_side (pop : BandwidthReservationKey → NodeID) (bw : BandwidthReservation → f64)
    (acc : gmap Z f64 * gset bandwidthPopLabel) (r : BandwidthReservation)
    : gmap Z f64 * gset bandwidthPopLabel :=
  let label := rk_Label (br_Key r) in
  let p := (pop (br_Key r), label) in
  if decide (p ∈ acc.2) then acc
  else (<[label := (map_get f_zero acc.1 label + bw r)%f64]> acc.1, {[p]} ∪ acc.2).

Definition sums_step (s : bandwidth_sums) (r : BandwidthReservation) : bandwidth_sums :=
  let src := sum_side rk_SourcePop br_SourceBandwidth (bs_sumSources s, bs_seenSources s) r in
  let snk := sum_side rk_SinkPop br_SinkBandwidth (bs_sumSinks s, bs_seenSinks s) r in
  {| bs_sumSources := src.1; bs_sumSinks := snk.1; bs_seenSources := src.2; bs_seenSinks := snk.2 |}.

Section ops.
Context `{RangeOrder}.

Definition getBandwidthSums (e : BandwidthReservationTenantEntry) : gmap Z f64 * gmap Z f64 :=
  let s := foldl sums_step
    {| bs_sumSources := ∅; bs_sumSinks := ∅; bs_seenSources := ∅; bs_seenSinks := ∅ |}
    (range_map (te_Reservations e)).*2 in
  (bs_sumSources s, bs_sumSinks s).

Definition CalculateReservedBandwidth (e : BandwidthReservationTenantEntry) : f64 :=
  let '(sumSources, sumSinks) := getBandwidthSums e in
  foldl (λ total '(label, _),
    (total + f_min (map_get f_zero sumSources label) (map_get f_zero sumSinks label))%f64)
    f_zero (range_map sumSources).

Definition loadAndCapacity (b : BandwidthReservationEdge) : f64 :=
  foldl (λ load '(_, booking), (load + CalculateReservedBandwidth booking)%f64)
    f_zero (range_map (be_Bookings b)).

(** The loop body of [loadExcluding]: other tenants add their load, the
    tenant's own other reservations are collected. *)
Definition excluding_step (tenantID : TenantID) (key : BandwidthReservationKey)
    (acc : f64 * gmap BandwidthReservationKey BandwidthReservation)
    (p : TenantID * BandwidthReservationTenantEntry)
    : f64 * gmap BandwidthReservationKey BandwidthReservation :=
  if decide (p.1 = tenantID)
  then (acc.1, foldl (λ rest kr, if decide (kr.1 = key) then rest else <[kr.1 := kr.2]> rest)
                 acc.2 (range_map (te_Reservations p.2)))
  else ((acc.1 + CalculateReservedBandwidth p.2)%f64, acc.2).

(** A method on a possibly nil pointer. *)
Definition loadExcluding (b : option BandwidthReservationEdge) (tenantID : TenantID)
    (key : BandwidthReservationKey) (with_ : option BandwidthReservation) : f64 :=
  let rest : gmap BandwidthReservationKey BandwidthReservation :=
    match with_ with Some r => {[key := r]} | None => ∅ end in
  match b with
  | None => CalculateReservedBandwidth {| te_Tenant := tenantID; te_Reservations := rest |}
  | Some b =>
      let '(load, rest) := foldl (excluding_step tenantID key) (f_zero, rest) (range_map (be_Bookings b)) in
      (load + CalculateReservedBandwidth {| te_Tenant := tenantID; te_Reservations := rest |})%f64
  end.

Definition ReservedMapExcluding (reg : BandwidthReservationRegistry) (tenantID : TenantID)
    (key : BandwidthReservationKey) : gmap PCEEdgeID f64 :=
  (λ rEdge, loadExcluding (Some rEdge) tenantID key None) <$> reg.

Definition ReservedMap (reg : BandwidthReservationRegistry) : gmap PCEEdgeID f64 :=
  loadAndCapacity <$> reg.

(** ** Admission and moves *)

Definition bookable (e : PCEEdge) : f64 := (Capacity e * one_minus_headroom)%f64.

Definition checkCapacity (reg : BandwidthReservationRegistry) (edge : PCEEdge) (tenantID : TenantID)
    (candidate : BandwidthReservation) : bool :=
  f_leb (loadExcluding (reg !! pe_ID edge) tenantID (br_Key candidate) (Some candidate)) (bookable edge).

(** One turn of the removal loop of [Move]: the tenant's entry goes with its
    last reservation, the edge's with its last tenant. *)
Definition drop_booking (tenantID : TenantID) (key : BandwidthReservationKey)
    (bookings : gmap TenantID BandwidthReservationTenantEntry) : gmap TenantID BandwidthReservationTenantEntry :=
  match bookings !! tenantID with
  | None => bookings
  | Some entry =>
      let rs := delete key (te_Reservations entry) in
      if decide (rs = ∅) then delete tenantID bookings
      else <[tenantID := {| te_Tenant := te_Tenant entry; te_Reservations := rs |}]> bookings
  end.

Definition unbook (tenantID : TenantID) (key : BandwidthReservationKey)
    (reg : BandwidthReservationRegistry) (edgeID : PCEEdgeID) : BandwidthReservationRegistry :=
  match reg !! edgeID with
  | None => reg
  | Some rEdge =>
      let bookings := drop_booking tenantID key (be_Bookings rEdge) in
      if decide (bookings = ∅) then delete edgeID reg
      else <[edgeID := {| be_ForEdge := be_ForEdge rEdge; be_Bookings := bookings |}]> reg
  end.

(** One turn of the booking loop of [Move]. *)
Definition book (tenantID : TenantID) (candidate : BandwidthReservation)
    (reg : BandwidthReservationRegistry) (edge : PCEEdge) : BandwidthReservationRegistry :=
  let rEdge := default {| be_ForEdge := edge; be_Bookings := ∅ |} (reg !! pe_ID edge) in
  let entry := default {| te_Tenant := tenantID; te_Reservations := ∅ |} (be_Bookings rEdge !! tenantID) in
  let entry' := {| te_Tenant := te_Tenant entry;
                   te_Reservations := <[br_Key candidate := candidate]> (te_Reservations entry) |} in
  <[pe_ID edge := {| be_ForEdge := be_ForEdge rEdge;
                     be_Bookings := <[tenantID := entry']> (be_Bookings rEdge) |}]> reg.

Inductive reservation_error := NoCapacity (edge : PCEEdgeID).

(** The registry after the call and the error returned, if any. *)
Definition Move (reg : BandwidthReservationRegistry) (from : list PCEEdgeID) (to : list PCEEdge)
    (tenantID : TenantID) (candidate : BandwidthReservation)
    : BandwidthReservationRegistry * option reservation_error :=
  match list_find (λ edge, checkCapacity reg edge tenantID candidate = false) to with
  | Some (_, edge) => (reg, Some (NoCapacity (pe_ID edge)))
  | None =>
      let reg := foldl (unbook tenantID (br_Key candidate)) reg from in
      (foldl (book tenantID candidate) reg to, None)
  end.

Definition PruneGraph (reg : BandwidthReservationRegistry) (g : PCEGraph) (tenantID : TenantID)
    (candidate : BandwidthReservation) : PCEGraph :=
  let edges := filter (λ p, checkCapacity reg p.2 tenantID candidate = true) (pg_edges g) in
  {| pg_nodes := pg_nodes g;
     pg_edges := edges;
     pg_adj := omap (λ ids, match filter (λ id, is_Some (edges !! id)) ids with
                            | [] => None
                            | kept => Some kept
                            end) (pg_adj g) |}.

Record BandwidthReservationState := {
  bst_Edge : PCEEdgeID;
  bst_Bookable : f64;
  bst_Booked : f64;
  bst_Free : f64;
  bst_Bookings : Z;
}.

Definition Snapshot (reg : BandwidthReservationRegistry) (g : PCEGraph)
    : gmap PCEEdgeID BandwidthReservationState :=
  map_imap (λ id edge,
    let entries := match reg !! id with
                   | Some rEdge => (range_map (be_Bookings rEdge)).*2
                   | None => [] end in
    let booked := foldl (λ b e, (b + CalculateReservedBandwidth e)%f64) f_zero entries in
    let bookings := foldl (λ n e, n + Z.of_nat (size (te_Reservations e))) 0 entries in
    Some {| bst_Edge := id; bst_Bookable := bookable edge; bst_Booked := booked;
            bst_Free := (bookable edge - booked)%f64; bst_Bookings := bookings |}) (pg_edges g).
End ops.

(** ** The registry as a table of bookings *)

Definition booking (reg : BandwidthReservationRegistry) (id : PCEEdgeID) (t : TenantID)
    (k : BandwidthReservationKey) : option BandwidthReservation :=
  e ← reg !! id; entry ← be_Bookings e !! t; te_Reservations entry !! k.

Lemma drop_booking_lookup tid key bookings t k :
  (entry ← drop_booking tid key bookings !! t; te_Reservations entry !! k) =
  if decide (t = tid ∧ k = key) then None else entry ← bookings !! t; te_Reservations entry !! k.
Proof.
  unfold drop_booking. destruct (bookings !! tid) as [entry|] eqn:He.
  2:{ case_decide as Hd; [|done]. destruct Hd as [-> ->]. by rewrite He. }
  destruct (decide (t = tid)) as [->|Ht].
  - rewrite He. simpl. destruct (decide (_ = ∅)) as [Hemp|Hemp].
    + rewrite lookup_delete_eq. simpl. destruct (decide (k = key)) as [->|Hk].
      { by rewrite decide_True. }
      rewrite decide_False by naive_solver. rewrite <-(lookup_delete_ne _ key) by done.
      by rewrite Hemp, lookup_empty.
    + rewrite lookup_insert_eq. simpl. rewrite lookup_delete. repeat case_decide; naive_solver.
  - rewrite (decide_False (P := t = tid ∧ _)) by naive_solver.
    case_decide; [by rewrite lookup_delete_ne|by rewrite lookup_insert_ne].
Qed.

Lemma booking_unbook tid key reg edgeID id t k :
  booking (unbook tid key reg edgeID) id t k =
  if decide (id = edgeID ∧ t = tid ∧ k = key) then None else booking reg id t k.
Proof.
  unfold unbook, booking. destruct (reg !! edgeID) as [rEdge|] eqn:Hr.
  2:{ case_decide as Hd; [|done]. destruct Hd as (-> & _). by rewrite Hr. }
  pose proof (drop_booking_lookup tid key (be_Bookings rEdge) t k) as Hb. simpl.
  destruct (decide (id = edgeID)) as [->|Hid].
  - rewrite Hr. simpl. destruct (decide (drop_booking _ _ _ = ∅)) as [He|He].
    + rewrite lookup_delete_eq. simpl. rewrite He, lookup_empty in Hb.
      simpl in Hb. rewrite Hb. repeat case_decide; naive_solver.
    + rewrite lookup_insert_eq. simpl. rewrite Hb. repeat case_decide; naive_solver.
  - rewrite (decide_False (P := id = edgeID ∧ _)) by naive_solver.
    destruct (decide (drop_booking _ _ _ = ∅)); [by rewrite lookup_delete_ne|by rewrite lookup_insert_ne].
Qed.

Lemma booking_book tid c reg edge id t k :
  booking (book tid c reg edge) id t k =
  if decide (id = pe_ID edge ∧ t = tid ∧ k = br_Key c) then Some c else booking reg id t k.
Proof.
  unfold book, booking. rewrite lookup_insert.
  destruct (decide (pe_ID edge = id)) as [<-|Hid]; [|by rewrite decide_False by naive_solver].
  simpl. rewrite lookup_insert. destruct (decide (tid = t)) as [<-|Ht]; simpl.
  - rewrite lookup_insert. destruct (decide (br_Key c = k)) as [<-|Hk].
    { by rewrite decide_True. }
    rewrite decide_False by naive_solver.
    destruct (reg !! pe_ID edge) as [r|]; simpl; [|by rewrite !lookup_empty].
    destruct (be_Bookings r !! tid); simpl; [done|by rewrite lookup_empty].
  - rewrite decide_False by naive_solver.
    destruct (reg !! pe_ID edge) as [r|]; simpl; [done|by rewrite lookup_empty].
Qed.

Lemma booking_unbooks tid key reg from id t k :
  booking (foldl (unbook tid key) reg from) id t k =
  if decide (id ∈ from ∧ t = tid ∧ k = key) then None else booking reg id t k.
Proof.
  revert reg. induction from as [|e from IH]; intros reg; cbn [foldl].
  - rewrite decide_False; [done|]. by intros [?%not_elem_of_nil _].
  - rewrite IH, booking_unbook. repeat case_decide; set_solver.
Qed.

Lemma booking_books tid c reg to id t k :
  booking (foldl (book tid c) reg to) id t k =
  if decide (id ∈ pe_ID <$> to ∧ t = tid ∧ k = br_Key c) then Some c else booking reg id t k.
Proof.
  revert reg. induction to as [|e to IH]; intros reg; cbn [foldl].
  - rewrite decide_False; [done|]. by intros [?%not_elem_of_nil _].
  - rewrite IH, booking_book. repeat case_decide; set_solver.
Qed.

Lemma Move_ok_checked `{RangeOrder} reg from to tid c reg' :
  Move reg from to tid c = (reg', None) ↔
  (∀ e, e ∈ to → checkCapacity reg e tid c = true) ∧
  reg' = foldl (book tid c) (foldl (unbook tid (br_Key c)) reg from) to.
Proof.
  unfold Move. destruct (list_find _ to) as [[i e]|] eqn:Hf.
  - split; [done|]. intros [Hc _]. apply list_find_Some in Hf as (He & Hfalse & _).
    rewrite Hc in Hfalse by (by eapply list_elem_of_lookup_2). done.
  - split.
    + intros [= <-]. split; [|done]. intros e He. rewrite list_find_None, list.Forall_forall in Hf.
      specialize (Hf e He). by apply not_false_is_true.
    + by intros [_ ->].
Qed.

Lemma Move_err `{RangeOrder} reg from to tid c reg' err :
  Move reg from to tid c = (reg', Some err) →
  reg' = reg ∧ ∃ e, e ∈ to ∧ checkCapacity reg e tid c = false ∧ err = NoCapacity (pe_ID e).
Proof.
  unfold Move. destruct (list_find _ to) as [[i e]|] eqn:Hf; [|done]. intros [= <- <-].
  apply list_find_Some in Hf as (He & Hfalse & _). split; [done|].
  exists e. split; [by eapply list_elem_of_lookup_2|done].
Qed.

(** What a successful move does to every booking of the registry. *)
Lemma Move_booking `{RangeOrder} reg from to tid c reg' id t k :
  Move reg from to tid c = (reg', None) →
  booking reg' id t k =
  if decide (t = tid ∧ k = br_Key c) then
    if decide (id ∈ pe_ID <$> to) then Some c
    else if decide (id ∈ from) then None
    else booking reg id t k
  else booking reg id t k.
Proof.
  rewrite Move_ok_checked. intros [_ ->]. rewrite booking_books, booking_unbooks.
  repeat case_decide; naive_solver.
Qed.

(** ** The bookings of one edge *)

Definition bookings_of (reg : BandwidthReservationRegistry) (id : PCEEdgeID)
    : gmap TenantID BandwidthReservationTenantEntry := default ∅ (be_Bookings <$> reg !! id).

Lemma booking_bookings_of reg id t k :
  booking reg id t k = entry ← bookings_of reg id !! t; te_Reservations entry !! k.
Proof. unfold booking, bookings_of. destruct (reg !! id); simpl; [done|by rewrite lookup_empty]. Qed.

Lemma drop_booking_other tid key b t : t ≠ tid → drop_booking tid key b !! t = b !! t.
Proof.
  intros Ht. unfold drop_booking. destruct (b !! tid); [|done].
  simpl. case_decide; [by rewrite lookup_delete_ne|by rewrite lookup_insert_ne].
Qed.

Lemma bookings_of_unbook tid key reg eid id :
  bookings_of (unbook tid key reg eid) id =
  if decide (id = eid) then drop_booking tid key (bookings_of reg id) else bookings_of reg id.
Proof.
  unfold bookings_of, unbook. destruct (reg !! eid) as [r|] eqn:Hr; simpl.
  - destruct (decide (drop_booking _ _ _ = ∅)) as [He|He].
    + rewrite lookup_delete. repeat case_decide; subst; try done. rewrite Hr. by simpl.
    + rewrite lookup_insert. repeat case_decide; subst; try done. by rewrite Hr.
  - case_decide; [|done]. subst. rewrite Hr. simpl. unfold drop_booking. by rewrite lookup_empty.
Qed.

Lemma bookings_of_book_other tid c reg edge id t :
  t ≠ tid → bookings_of (book tid c reg edge) id !! t = bookings_of reg id !! t.
Proof.
  intros Ht. unfold bookings_of, book. rewrite lookup_insert. case_decide; [|done]. subst. simpl.
  rewrite lookup_insert_ne by done. by destruct (reg !! pe_ID edge).
Qed.

(** A move leaves the entries of every other tenant as they are. *)
Lemma Move_other_tenant `{RangeOrder} reg from to tid c id t :
  t ≠ tid → bookings_of (Move reg from to tid c).1 id !! t = bookings_of reg id !! t.
Proof.
  intros Ht. unfold Move. destruct (list_find _ to) as [[i e]|]; [done|]. simpl.
  trans (bookings_of (foldl (unbook tid (br_Key c)) reg from) id !! t).
  - apply (foldl_ind (book tid c) (λ _ r, bookings_of r id !! t = _)); [done|].
    intros _ e r <- _. by apply bookings_of_book_other.
  - apply (foldl_ind (unbook tid (br_Key c)) (λ _ r, bookings_of r id !! t = _)); [done|].
    intros _ e r <- _. rewrite bookings_of_unbook. case_decide; [|done]. by apply drop_booking_other.
Qed.

(** ** Load *)

Section load.
Context `{RangeOrder}.

Definition sum_loads (l : list BandwidthReservationTenantEntry) : f64 :=
  foldl (λ load e, (load + CalculateReservedBandwidth e)%f64) f_zero l.

Lemma CalculateReservedBandwidth_ext t t' rs :
  CalculateReservedBandwidth {| te_Tenant := t; te_Reservations := rs |} =
  CalculateReservedBandwidth {| te_Tenant := t'; te_Reservations := rs |}.
Proof. done. Qed.

Lemma collect_lookup key l (rest : gmap BandwidthReservationKey BandwidthReservation) k :
  NoDup l.*1 →
  foldl (λ rest kr, if decide (kr.1 = key) then rest else <[kr.1 := kr.2]> rest) rest l !! k =
  if decide (k = key) then rest !! k
  else match (list_to_map l : gmap BandwidthReservationKey BandwidthReservation) !! k with
       | Some r => Some r | None => rest !! k end.
Proof.
  revert rest. induction l as [|[k' r'] l IH]; intros rest; simpl.
  { rewrite lookup_empty. by case_decide. }
  intros [Hn Hnd]%list.NoDup_cons. rewrite IH by done. clear IH.
  destruct (decide (k = key)) as [->|Hk].
  - case_decide as Hd; [done|]. by rewrite lookup_insert_ne.
  - rewrite (lookup_insert (list_to_map l)). destruct (decide (k' = k)) as [->|Hk'].
    + rewrite decide_False by done. rewrite not_elem_of_list_to_map_1 by done. by rewrite lookup_insert_eq.
    + case_decide; [done|]. by rewrite lookup_insert_ne.
Qed.

(** The reservations the tenant would have on the edge with the candidate. *)
Definition with_candidate (b : gmap TenantID BandwidthReservationTenantEntry) (tid : TenantID)
    (c : BandwidthReservation) : gmap BandwidthReservationKey BandwidthReservation :=
  <[br_Key c := c]> (default ∅ (te_Reservations <$> b !! tid)).

Lemma collect_with_candidate c (rs : gmap BandwidthReservationKey BandwidthReservation) :
  foldl (λ rest kr, if decide (kr.1 = br_Key c) then rest else <[kr.1 := kr.2]> rest)
    {[br_Key c := c]} (range_map rs) = <[br_Key c := c]> rs.
Proof.
  apply map_eq. intros k. rewrite collect_lookup by apply NoDup_range_map_fst.
  rewrite (list_to_map_proper _ (map_to_list rs)); [|apply NoDup_range_map_fst|apply range_map_perm].
  rewrite list_to_map_to_list, lookup_insert. case_decide as Hk.
  - subst. by rewrite lookup_singleton_eq, decide_True.
  - rewrite (decide_False (P := br_Key c = k)) by done. rewrite lookup_singleton_ne by done.
    by destruct (rs !! k).
Qed.

Lemma excluding_fold tid key f rest l :
  NoDup l.*1 →
  foldl (excluding_step tid key) (f, rest) l =
  (foldl (λ load e, (load + CalculateReservedBandwidth e)%f64) f (filter (λ p, p.1 ≠ tid) l).*2,
   match (list_to_map l : gmap TenantID BandwidthReservationTenantEntry) !! tid with
   | Some entry => foldl (λ rest kr, if decide (kr.1 = key) then rest else <[kr.1 := kr.2]> rest)
                     rest (range_map (te_Reservations entry))
   | None => rest end).
Proof.
  revert f rest. induction l as [|[t e] l IH]; intros f rest; [simpl; by rewrite lookup_empty|].
  rewrite fmap_cons. intros [Hn Hnd]%list.NoDup_cons. simpl in Hn. cbn [foldl list_to_map foldr].
  unfold excluding_step at 2. cbn [fst snd]. rewrite filter_cons. simpl.
  destruct (decide (t = tid)) as [->|Ht].
  - rewrite IH, lookup_insert_eq by done. rewrite not_elem_of_list_to_map_1 by done.
    by rewrite decide_False by tauto.
  - rewrite IH, lookup_insert_ne by done. by rewrite decide_True.
Qed.

(** The admission check compares the other tenants' loads, in the order they
    are ranged over, plus the tenant's own load with the candidate. *)
Lemma loadExcluding_spec b tid c :
  loadExcluding (Some b) tid (br_Key c) (Some c) =
  sum_loads ((filter (λ p, p.1 ≠ tid) (range_map (be_Bookings b))).*2 ++
             [{| te_Tenant := tid; te_Reservations := with_candidate (be_Bookings b) tid c |}]).
Proof.
  unfold loadExcluding, sum_loads. rewrite excluding_fold by apply NoDup_range_map_fst.
  rewrite foldl_app. simpl. f_equal. f_equal. f_equal.
  rewrite (list_to_map_proper _ (map_to_list (be_Bookings b))); [|apply NoDup_range_map_fst|apply range_map_perm].
  rewrite list_to_map_to_list. unfold with_candidate.
  destruct (be_Bookings b !! tid); simpl; [by rewrite collect_with_candidate|done].
Qed.
End load.

Section capacity.
Context `{RangeOrder}.

Lemma f_leb_zero_add x y : f_leb x y = true → f_leb (f_zero + x)%f64 y = true.
Proof. by destruct x as [[]| | |]. Qed.

(** The admission check, for a booked and for an unbooked edge alike. *)
Lemma checkCapacity_sum reg e tid c :
  checkCapacity reg e tid c = true →
  ∃ l, l ≡ₚ (map_to_list (delete tid (bookings_of reg (pe_ID e)))).*2 ∧
    f_leb (sum_loads (l ++ [{| te_Tenant := tid;
      te_Reservations := with_candidate (bookings_of reg (pe_ID e)) tid c |}])) (bookable e) = true.
Proof.
  unfold checkCapacity, bookings_of. destruct (reg !! pe_ID e) as [b|]; intros Hc; cbn [fmap option_fmap option_map default].
  - exists (filter (λ p, p.1 ≠ tid) (range_map (be_Bookings b))).*2.
    rewrite loadExcluding_spec in Hc. split; [|done].
    rewrite range_map_perm. apply fmap_Permutation.
    apply NoDup_Permutation; [apply list.NoDup_filter, NoDup_map_to_list|apply NoDup_map_to_list|].
    intros [t te]. rewrite list_elem_of_filter, !elem_of_map_to_list, lookup_delete_Some. simpl. naive_solver.
  - exists []. rewrite delete_empty, map_to_list_empty. split; [done|].
    unfold sum_loads, with_candidate. rewrite lookup_empty. simpl. by apply f_leb_zero_add.
Qed.

Lemma bookings_of_moved reg from to tid c reg' e :
  Move reg from to tid c = (reg', None) → e ∈ to →
  ∃ te, bookings_of reg' (pe_ID e) = <[tid := te]> (delete tid (bookings_of reg (pe_ID e))) ∧
    te_Reservations te = with_candidate (bookings_of reg (pe_ID e)) tid c.
Proof.
  intros HM He. set (id := pe_ID e).
  assert (id ∈ pe_ID <$> to) as Hid by (apply list_elem_of_fmap; eauto).
  pose proof (λ k, Move_booking _ _ _ _ _ _ id tid k HM) as Hb.
  assert (∃ te, bookings_of reg' id !! tid = Some te) as [te Hte].
  { specialize (Hb (br_Key c)). rewrite !decide_True, booking_bookings_of in Hb by done.
    destruct (bookings_of reg' id !! tid); [eauto|done]. }
  exists te. split.
  - apply map_eq. intros t. destruct (decide (t = tid)) as [->|Ht].
    + by rewrite lookup_insert_eq.
    + rewrite lookup_insert_ne, lookup_delete_ne by done.
      pose proof (Move_other_tenant reg from to tid c id t Ht) as Ho. by rewrite HM in Ho.
  - apply map_eq. intros k. specialize (Hb k).
    rewrite booking_bookings_of, Hte in Hb. simpl in Hb. rewrite Hb. unfold with_candidate.
    rewrite lookup_insert. case_decide as Hk.
    + destruct Hk as [_ ->]. by rewrite !decide_True.
    + rewrite (decide_False (P := br_Key c = k)) by naive_solver. rewrite booking_bookings_of.
      destruct (bookings_of reg id !! tid); simpl; [done|by rewrite lookup_empty].
Qed.

Lemma Move_load reg from to tid c reg' e :
  Move reg from to tid c = (reg', None) → e ∈ to →
  ∃ l, l ≡ₚ (map_to_list (bookings_of reg' (pe_ID e))).*2 ∧
       f_leb (sum_loads l) (bookable e) = true.
Proof.
  intros HM He. destruct (bookings_of_moved _ _ _ _ _ _ _ HM He) as (te & -> & Hte).
  apply Move_ok_checked in HM as [Hc _].
  destruct (checkCapacity_sum _ _ _ _ (Hc e He)) as (l & Hl & Hle).
  exists (l ++ [te]). split.
  - rewrite map_to_list_insert by apply lookup_delete_eq. rewrite Hl, fmap_cons. simpl.
    by rewrite Permutation_app_comm.
  - rewrite <-Hte in Hle. unfold sum_loads in *. rewrite foldl_app in *. exact Hle.
Qed.
End capacity.

(** ** Registry invariant *)

Record entry_wf (t : TenantID) (te : BandwidthReservationTenantEntry) : Prop := {
  ew_tenant : te_Tenant te = t;
  ew_nonempty : te_Reservations te ≠ ∅;
  ew_key : ∀ k r, te_Reservations te !! k = Some r → br_Key r = k;
}.

Record edge_wf (id : PCEEdgeID) (e : BandwidthReservationEdge) : Prop := {
  rw_edge : pe_ID (be_ForEdge e) = id;
  rw_nonempty : be_Bookings e ≠ ∅;
  rw_entry : ∀ t te, be_Bookings e !! t = Some te → entry_wf t te;
}.

Definition registry_wf (reg : BandwidthReservationRegistry) : Prop :=
  ∀ id e, reg !! id = Some e → edge_wf id e.

Lemma unbook_wf tid key reg eid : registry_wf reg → registry_wf (unbook tid key reg eid).
Proof.
  intros Hwf. unfold unbook. destruct (reg !! eid) as [r|] eqn:Hr; [|done]. simpl.
  destruct (Hwf _ _ Hr) as [He Hn Hent].
  destruct (decide (drop_booking _ _ _ = ∅)) as [Hemp|Hemp]; intros id e'.
  { rewrite lookup_delete_Some. intros [_ ?]. by apply Hwf. }
  rewrite lookup_insert_Some. intros [[<- <-]|[_ ?]]; [|by apply Hwf].
  split; simpl; [done|done|]. intros t te. unfold drop_booking.
  destruct (be_Bookings r !! tid) as [entry|] eqn:Ht; [|by apply Hent].
  destruct (Hent _ _ Ht) as [H1 H2 H3]. simpl. case_decide as Hd.
  - rewrite lookup_delete_Some. intros [_ ?]. by apply Hent.
  - rewrite lookup_insert_Some. intros [[<- <-]|[_ ?]]; [|by apply Hent].
    split; simpl; [done|done|]. intros k x. rewrite lookup_delete_Some. intros [_ ?]. by apply H3.
Qed.

Lemma book_wf tid c reg edge : registry_wf reg → registry_wf (book tid c reg edge).
Proof.
  intros Hwf. unfold book. intros id e'. rewrite lookup_insert_Some.
  intros [[<- <-]|[_ ?]]; [|by apply Hwf].
  assert (∀ t te, be_Bookings (default {| be_ForEdge := edge; be_Bookings := ∅ |} (reg !! pe_ID edge)) !! t
    = Some te → entry_wf t te) as Hent.
  { destruct (reg !! pe_ID edge) as [r|] eqn:Hr; simpl; [by apply (Hwf _ _ Hr)|].
    intros t te. by rewrite lookup_empty. }
  split; simpl.
  - destruct (reg !! pe_ID edge) as [r|] eqn:Hr; simpl; [by apply (Hwf _ _ Hr)|done].
  - apply insert_non_empty.
  - intros t te. rewrite lookup_insert_Some. intros [[<- <-]|[_ ?]]; [|by apply Hent].
    split; simpl; [|apply insert_non_empty|].
    + destruct (be_Bookings _ !! tid) as [te|] eqn:Hte; simpl; [by apply Hent|done].
    + intros k x. rewrite lookup_insert_Some. intros [[<- <-]|[_ Hx]]; [done|].
      destruct (be_Bookings _ !! tid) as [te|] eqn:Hte; simpl in Hx; [by eapply Hent|].
      by rewrite lookup_empty in Hx.
Qed.

Lemma Move_wf `{RangeOrder} reg from to tid c :
  registry_wf reg → registry_wf (Move reg from to tid c).1.
Proof.
  intros Hwf. unfold Move. destruct (list_find _ to) as [[i e]|]; [done|]. simpl.
  apply (foldl_ind (book tid c) (λ _ r, registry_wf r)).
  - apply (foldl_ind (unbook tid (br_Key c)) (λ _ r, registry_wf r)); [done|].
    intros _ e r Hr _. by apply unbook_wf.
  - intros _ e r Hr _. by apply book_wf.
Qed.

(** ** Pruning *)

Section prune.
Context `{RangeOrder} (reg : BandwidthReservationRegistry) (g : PCEGraph) (tid : TenantID)
  (c : BandwidthReservation).

Lemma PruneGraph_edges id e :
  pg_edges (PruneGraph reg g tid c) !! id = Some e ↔
  pg_edges g !! id = Some e ∧ checkCapacity reg e tid c = true.
Proof. simpl. by rewrite map_lookup_filter_Some. Qed.

Lemma PruneGraph_adj n :
  map_get [] (pg_adj (PruneGraph reg g tid c)) n =
  filter (λ id, is_Some (pg_edges (PruneGraph reg g tid c) !! id)) (map_get [] (pg_adj g) n).
Proof.
  unfold map_get. simpl. rewrite lookup_omap. destruct (pg_adj g !! n); simpl; [|done].
  by case_match.
Qed.

Lemma PruneGraph_wf : pce_wf g → pce_wf (PruneGraph reg g tid c).
Proof.
  intros [He Ha Hc]. split.
  - intros id e [Hid _]%PruneGraph_edges. by apply He.
  - intros n id. rewrite PruneGraph_adj, list_elem_of_filter. intros [? Hin]. split; [done|].
    by apply Ha.
  - intros id Hid. rewrite PruneGraph_adj, list_elem_of_filter. split; [done|].
    destruct Hid as [e [Hid _]%PruneGraph_edges]. apply Hc. eauto.
Qed.

Lemma PruneGraph_walk src es n : walk (PruneGraph reg g tid c) src es n → walk g src es n.
Proof.
  induction 1 as [|es u id e Hw IH Ha He Ht]; [by constructor|].
  apply PruneGraph_edges in He as [He _]. eapply walk_snoc; eauto.
  rewrite PruneGraph_adj in Ha. by apply list_elem_of_filter in Ha as [_ ?].
Qed.
End prune.

(** ** Hose-model sums *)

Section hose.
Context (pop : BandwidthReservationKey → NodeID) (bw : BandwidthReservation → f64).

Definition pop_of (r : BandwidthReservation) : NodeID := pop (br_Key r).
Definition label_of (r : BandwidthReservation) : Z := rk_Label (br_Key r).

(** [rs] picks one reservation per PoP among those of [l] with the label, and
    [sum] is their total. *)
Record hose_sum (l : list BandwidthReservation) (label : Z) (sum : option f64)
    (rs : list BandwidthReservation) : Prop := {
  hs_sub : ∀ r, r ∈ rs → r ∈ l ∧ label_of r = label;
  hs_nodup : NoDup (pop_of <$> rs);
  hs_all : ∀ r, r ∈ l → label_of r = label → pop_of r ∈ pop_of <$> rs;
  hs_sum : sum = if decide (rs = []) then None else Some (foldl f_add f_zero (bw <$> rs));
}.

Lemma sum_side_spec l label :
  let s := foldl (sum_side pop bw) (∅, ∅) l in
  ∃ rs, hose_sum l label (s.1 !! label) rs ∧
        ∀ p, (p, label) ∈ s.2 ↔ p ∈ pop_of <$> rs.
Proof.
  apply (foldl_ind (sum_side pop bw) (λ l s, ∃ rs, hose_sum l label (s.1 !! label) rs ∧
        ∀ p, (p, label) ∈ s.2 ↔ p ∈ pop_of <$> rs)).
  { exists []. simpl. split; [|set_solver]. split; try (intros ? ?%not_elem_of_nil; done).
    - apply NoDup_nil_2.
    - done. }
  intros seen r [sums pops] (rs & [Hsub Hnd Hall Hsum] & Hpops) _. simpl in *.
  unfold sum_side. cbn [fst snd]. fold (label_of r). fold (pop_of r).
  destruct (decide (label_of r = label)) as [Hl|Hl].
  - rewrite Hl. destruct (decide ((pop_of r, label) ∈ pops)) as [Hin|Hin].
    + exists rs. split; [|done]. split; [|done| |done].
      * intros x [? ?]%Hsub. split; [|done]. apply elem_of_app. by left.
      * intros x [?| ->%list_elem_of_singleton]%elem_of_app ?; [auto|]. by apply Hpops.
    + exists (rs ++ [r]). simpl. split.
      * split.
        -- intros x [[? ?]%Hsub| ->%list_elem_of_singleton]%elem_of_app; set_solver.
        -- rewrite fmap_app. apply list.NoDup_app. split_and!; [done| |apply NoDup_singleton].
           intros x Hx ->%list_elem_of_singleton. by apply Hin, Hpops.
        -- intros x [?| ->%list_elem_of_singleton]%elem_of_app ?; rewrite fmap_app; set_solver.
        -- rewrite lookup_insert_eq, decide_False by (by destruct rs).
           rewrite fmap_app, foldl_app. simpl. f_equal. unfold map_get. rewrite Hsum.
           by case_decide; [subst rs|].
      * intros p. rewrite fmap_app, elem_of_app, <-Hpops. set_solver.
  - exists rs. split.
    + split; [| done| |].
      * intros x [? ?]%Hsub. split; [|done]. apply elem_of_app. by left.
      * intros x [?| ->%list_elem_of_singleton]%elem_of_app ?; [auto|done].
      * destruct (decide ((pop_of r, label_of r) ∈ pops)); simpl; [done|]. by rewrite lookup_insert_ne.
    + intros p. rewrite <-Hpops. destruct (decide ((pop_of r, label_of r) ∈ pops)); simpl; [done|]. set_solver.
Qed.
End hose.

Lemma sums_step_sides l s :
  let s' := foldl sums_step s l in
  (bs_sumSources s', bs_seenSources s') =
    foldl (sum_side rk_SourcePop br_SourceBandwidth) (bs_sumSources s, bs_seenSources s) l ∧
  (bs_sumSinks s', bs_seenSinks s') =
    foldl (sum_side rk_SinkPop br_SinkBandwidth) (bs_sumSinks s, bs_seenSinks s) l.
Proof.
  revert s. induction l as [|r l IH]; intros s; [done|]. simpl. specialize (IH (sums_step s r)).
  simpl in IH. by rewrite <-!surjective_pairing in IH.
Qed.

(** ** Results *)

(** A walk of the graph all of whose edges admit the candidate survives pruning. *)
Lemma walk_PruneGraph `{RangeOrder} reg g tid c src es n :
  (∀ id e, id ∈ es → pg_edges g !! id = Some e → checkCapacity reg e tid c = true) →
  walk g src es n → walk (PruneGraph reg g tid c) src es n.
Proof.
  intros Hfit Hw. induction Hw as [|es u id e Hw IH Ha He Ht]; [by constructor|].
  assert (pg_edges (PruneGraph reg g tid c) !! id = Some e) as Hp.
  { apply PruneGraph_edges. split; [done|]. apply (Hfit id); [set_solver|done]. }
  apply (walk_snoc _ _ _ u id e); [|rewrite PruneGraph_adj; apply list_elem_of_filter|done|done].
  - apply IH. intros i e' Hi. apply Hfit. set_solver.
  - eauto.
Qed.

Lemma walk_cost_PruneGraph `{RangeOrder} reg g tid c costs obj es :
  (∀ id, id ∈ es → is_Some (pg_edges (PruneGraph reg g tid c) !! id)) →
  walk_cost (PruneGraph reg g tid c) costs obj es = walk_cost g costs obj es.
Proof.
  induction es as [|id es IH] using rev_ind; intros Hin; [done|].
  rewrite !walk_cost_snoc, IH by (intros; apply Hin; set_solver). f_equal.
  unfold id_weight. destruct (Hin id) as [e He]; [set_solver|]. rewrite He.
  apply PruneGraph_edges in He as [He _]. by rewrite He.
Qed.

(** C3: constrained shortest path first.  A path computed on the graph pruned
    for a candidate reservation uses only edges that admit the candidate, and
    is cheapest among all walks of the whole graph that use only such edges. *)
Theorem cspf_constrained_optimal `{RangeOrder} reg g tid c costs weights src dst p :
  pce_wf g → costs_nn costs → (∀ d w, weights !! d = Some w → pos_finite w) →
  computePath (Some (PruneGraph reg g tid c)) costs src dst (Some (WeightedCost weights)) = Ok p →
  (∀ id, id ∈ p_Edges p → ∃ e, pg_edges g !! id = Some e ∧ checkCapacity reg e tid c = true) ∧
  walk g src (p_Edges p) dst ∧
  ∀ es, walk g src es dst →
    (∀ id e, id ∈ es → pg_edges g !! id = Some e → checkCapacity reg e tid c = true) →
    val (p_Cost p) ≤ val (walk_cost g costs (WeightedCost weights) es).
Proof.
  intros Hwf Hc Hw Hp. set (g' := PruneGraph reg g tid c) in *.
  assert (pce_wf g') as Hwf' by (by apply PruneGraph_wf).
  pose proof (λ id e, weighted_edge_nn g' costs weights id e Hc Hw) as Hnn.
  destruct (computePath_known _ _ _ _ _ _ Hp) as [Hs Hd].
  destruct (compute_in_spec g' costs _ src dst Hwf' Hnn Hs Hd)
    as [(es & Hwalk & Hnd & He & Hlt & Hopt)|[He _]]; simpl in Hp; rewrite He in Hp; simplify_eq/=.
  split_and!.
  - intros id Hid. destruct (walk_edges _ _ _ _ _ Hwalk Hid) as [e Hide].
    exists e. by apply PruneGraph_edges in Hide.
  - by apply PruneGraph_walk in Hwalk.
  - intros es' Hw' Hfit. pose proof (walk_PruneGraph _ _ _ _ _ _ _ Hfit Hw') as Hw''.
    rewrite <-(walk_cost_PruneGraph reg g tid c).
    + by apply Hopt.
    + intros id Hid. by eapply walk_edges.
Qed.

(** C4: a move refines an update of the table of bookings.  When it succeeds,
    the tenant's reservation under the candidate's key is the candidate on
    every target edge, gone from every other source edge and unchanged
    elsewhere, and no other booking changes; when it fails it names a target
    edge that does not admit the candidate and the registry is untouched. *)
Theorem Move_refines_table `{RangeOrder} reg from to tid c :
  match Move reg from to tid c with
  | (reg', None) =>
      ∀ id t k, booking reg' id t k =
        if decide (t = tid ∧ k = br_Key c) then
          if decide (id ∈ pe_ID <$> to) then Some c
          else if decide (id ∈ from) then None else booking reg id t k
        else booking reg id t k
  | (reg', Some (NoCapacity id)) =>
      reg' = reg ∧ ∃ e, e ∈ to ∧ pe_ID e = id ∧ checkCapacity reg e tid c = false
  end.
Proof.
  destruct (Move reg from to tid c) as [reg' [[id]|]] eqn:HM.
  - apply Move_err in HM as (-> & e & ? & ? & [= ->]). eauto.
  - intros. by eapply Move_booking.
Qed.

(** C5: no overbooking.  After a successful move, the loads of the tenants
    booked on a target edge, added in a suitable order, stay within the edge's
    capacity less the headroom. *)
Theorem Move_within_capacity `{RangeOrder} reg from to tid c reg' e :
  Move reg from to tid c = (reg', None) → e ∈ to →
  ∃ l, l ≡ₚ (map_to_list (bookings_of reg' (pe_ID e))).*2 ∧
       f_leb (sum_loads l) (Capacity e * one_minus_headroom)%f64 = true.
Proof. apply Move_load. Qed.

(** Every sequence of moves from the empty registry keeps it well formed:
    entries sit under their own edge, tenant and key, and no edge or tenant
    entry is left without a reservation. *)
Theorem moves_wf `{RangeOrder} ms :
  registry_wf (foldl (λ reg '(from, to, tid, c), (Move reg from to tid c).1)
                 NewBandwidthReservationRegistry ms).
Proof.
  apply (foldl_ind _ (λ _ r, registry_wf r)).
  - intros id e. unfold NewBandwidthReservationRegistry. by rewrite lookup_empty.
  - intros _ [[[from to] tid] c] r Hr _. by apply Move_wf.
Qed.

(** The hose model.  For every label the source sum adds the source
    bandwidth of exactly one reservation per source PoP that has one, and the
    sink sum likewise per sink PoP; a label without reservations is absent. *)
Theorem getBandwidthSums_hose `{RangeOrder} e label :
  let rs := (range_map (te_Reservations e)).*2 in
  ∃ sources sinks,
    hose_sum rk_SourcePop br_SourceBandwidth rs label ((getBandwidthSums e).1 !! label) sources ∧
    hose_sum rk_SinkPop br_SinkBandwidth rs label ((getBandwidthSums e).2 !! label) sinks.
Proof.
  intros rs. unfold getBandwidthSums.
  set (s0 := {| bs_sumSources := ∅; bs_sumSinks := ∅; bs_seenSources := ∅; bs_seenSinks := ∅ |}).
  destruct (sums_step_sides rs s0) as [H1 H2]. simpl in H1, H2.
  destruct (sum_side_spec rk_SourcePop br_SourceBandwidth rs label) as (sources & Hs & _).
  destruct (sum_side_spec rk_SinkPop br_SinkBandwidth rs label) as (sinks & Ht & _).
  exists sources, sinks. simpl. rewrite <-H1 in Hs. rewrite <-H2 in Ht. done.
Qed.

(** ** Witnesses *)

Definition demo_reservation (mbps : Z) : BandwidthReservation :=
  {| br_Key := {| rk_SourcePop := "ams"; rk_SinkPop := "lon"; rk_Label := 1 |};
     br_SourceBandwidth := f_of_Z mbps; br_SinkBandwidth := f_of_Z mbps |}.

Definition demo_edge (id : PCEEdgeID) : PCEEdge :=
  default {| pe_ID := id; pe_NodeFrom := ""; pe_NodeTo := ""; pe_RealEdges := [] |}
    (pg_edges demo_graph !! id).

(** 50 Mbps do not fit on the 10 Mbps direct link. *)
Lemma cspf_constrained_optimal_witness :
  let _ := canonical_order in
  ∃ p, computePath (Some (PruneGraph ∅ demo_graph 7 (demo_reservation 50))) demo_costs "ams" "lon"
         (Some (WeightedCost demo_weights)) = Ok p ∧
    p_Edges p = demo_path ∧ walk demo_graph "ams" (p_Edges p) "lon".
Proof.
  intros ro. eexists. split; [vm_compute; reflexivity|]. split; [vm_compute; reflexivity|].
  eapply (@cspf_constrained_optimal canonical_order ∅ demo_graph 7 (demo_reservation 50)
            demo_costs demo_weights "ams" "lon");
    [apply NewPCEGraph_wf|apply demo_costs_nn|apply demo_weights_pos|vm_compute; reflexivity].
Defined.

Lemma Move_within_capacity_witness :
  let _ := canonical_order in
  let e := demo_edge (demo_id "ams" "eth1" "fra" "eth1") in
  let r := Move ∅ [] (demo_edge <$> demo_path) 7 (demo_reservation 50) in
  r.2 = None ∧
  ∃ l, l ≡ₚ (map_to_list (bookings_of r.1 (pe_ID e))).*2 ∧
       f_leb (sum_loads l) (Capacity e * one_minus_headroom)%f64 = true.
Proof.
  intros ro e r. assert (r.2 = None) as Hr by (vm_compute; reflexivity). split; [exact Hr|].
  apply (@Move_within_capacity canonical_order ∅ [] (demo_edge <$> demo_path) 7 (demo_reservation 50) r.1 e).
  - rewrite <-Hr. apply surjective_pairing.
  - apply list_elem_of_fmap. exists (demo_id "ams" "eth1" "fra" "eth1"). split; [reflexivity|left].
Defined.
