(* ===== verification/Tenants.v ===== *)
(** Tenants, sites and traffic classes (tenant_repository.go): the checks that
    turn the tenant database into an indexed repository, and its queries. *)

From S2P Require Import Prelude Float64 Netip Topology CostGraph PceGraph Cspf Bandwidth.

Definition DefaultClassName : string := "default".
Definition DefaultClassLabel : Z := 0.
Definition DefaultClassIndex : Z := 0.
Definition UnrankedTierIndex : Z := 0.
Definition DSCPUnmarked : Z := 0.
Definition DSCPMax : Z := 63.

Record ClassMatch := { cm_DSCP : list Z }.

Record TrafficClass := {
  tc_Name : string;
  tc_Label : Z;
  tc_Index : Z;
  tc_Match : ClassMatch;
  tc_Objective : gmap CostDimension f64;
}.

Record Site := {
  s_TenantID : TenantID;
  s_CPE : string;
  s_PortalID : string;
  s_Node : string;
  s_Prefix : Prefix;
  s_Attach : string;
  s_AttachNode : string;
  s_IfID : Z;
  s_Identity : string;
  s_ReservationMbps : f64;
  s_ClassMbps : gmap Z f64;
}.

Record Tenant := {
  t_ID : TenantID;
  t_Allocation : Prefix;
  t_Tier : string;
  t_TierIndex : Z;
  t_VRFTable : Z;
  t_Sites : list Site;
}.

(** The decoded tenant database file. *)
Record rawSite := {
  rs_CPE : string; rs_PortalID : string; rs_Node : string; rs_Prefix : string;
  rs_Attach : string; rs_AttachNode : string; rs_IfID : Z; rs_Identity : string;
  rs_ReservationMbps : f64; rs_Classes : gmap string f64;
}.
Record rawTenant := {
  rt_ID : TenantID; rt_Allocation : string; rt_Tier : string; rt_VRFTable : Z;
  rt_Sites : list rawSite;
}.
Record rawTrafficClass := {
  rc_Name : string; rc_Label : Z; rc_Index : Z; rc_DSCP : list Z;
  rc_Objective : gmap string f64;
}.
Record rawTier := { rti_Name : string; rti_Index : Z }.
Record rawTenantDB := {
  db_Classes : list rawTrafficClass; db_Tiers : list rawTier; db_Tenants : list rawTenant;
}.

Inductive tenant_error :=
  | ClassHasNoName (label : Z)
  | ClassNameUsed (name : string) (owner : Z)
  | ClassLabelUsed (name : string) (label : Z) (owner : string)
  | ClassIndexTooSmall (name : string)
  | ClassIndexUsed (name : string) (index : Z) (owner : string)
  | ClassHasNoObjective (name : string)
  | UnknownDimension (class dim : string)
  | WeightNotPositive (class dim : string)
  | MatchesNoDSCP (name : string)
  | DSCPOutside (name : string) (value : Z)
  | DSCPIsUnmarked (name : string) (value : Z)
  | DSCPUsed (name : string) (value : Z) (owner : string)
  | TierHasNoName (index : Z)
  | DuplicateTier (name : string)
  | TierIndexTooSmall (name : string)
  | TierIndexUsed (name : string) (index : Z) (owner : string)
  | DuplicateTenant (id : TenantID)
  | BadAllocation (id : TenantID) (s : string)
  | BadSitePrefix (id : TenantID) (cpe s : string)
  | OutsideAllocation (id : TenantID) (cpe : string)
  | IfIDUsed (ifid : Z) (owner identity : string)
  | DuplicateIdentity (identity : string)
  | PortalIDUsed (portal owner identity : string)
  | UnknownClass (name : string)
  | ClassIsImplicit (name : string)
  | ClassReservesNothing (name : string)
  | ClassesExceedSite (carved reservation : f64).

(** ** Traffic classes *)

(** [strings.ToUpper], as far as it can yield ASCII text: ASCII letters, and
    the two other code points whose upper case is an ASCII letter (dotless i,
    U+0131, and long s, U+017F). *)
Fixpoint to_upper (s : string) : string :=
  match s with
  | EmptyString => EmptyString
  | String c rest =>
      let n := N_of_ascii c in
      match rest with
      | String c' rest' =>
          if ((n =? 196) && (N_of_ascii c' =? 177))%N then String "I" (to_upper rest')
          else if ((n =? 197) && (N_of_ascii c' =? 191))%N then String "S" (to_upper rest')
          else String (if ((97 <=? n) && (n <=? 122))%N then ascii_of_N (n - 32) else c) (to_upper rest)
      | EmptyString =>
          String (if ((97 <=? n) && (n <=? 122))%N then ascii_of_N (n - 32) else c) EmptyString
      end
  end.

Definition parseCostDimension (dim : string) : option CostDimension :=
  let d := to_upper dim in
  if decide (d = COSTDIM_LATENCY ∨ d = COSTDIM_JITTER ∨ d = COSTDIM_LOSS) then Some d else None.

Definition match_step (name : string) (acc : gmap Z string * list Z) (value : Z)
    : result tenant_error (gmap Z string * list Z) :=
  let '(byDSCP, dscp) := acc in
  if (value <? 0) || (DSCPMax <? value) then Err (DSCPOutside name value)
  else if value =? DSCPUnmarked then Err (DSCPIsUnmarked name value)
  else match byDSCP !! value with
       | Some owner => Err (DSCPUsed name value owner)
       | None => Ok (<[value := name]> byDSCP, dscp ++ [value])
       end.

(** [byDSCP] is the caller's map, which the code fills in place. *)
Definition parseClassMatch (name : string) (raw : list Z) (byDSCP : gmap Z string)
    : result tenant_error (gmap Z string * ClassMatch) :=
  match raw with
  | [] => Err (MatchesNoDSCP name)
  | _ => '(byDSCP, dscp) ← foldM (match_step name) (byDSCP, []) raw;
         Ok (byDSCP, {| cm_DSCP := merge_sort Z.le dscp |})
  end.

Record class_maps := {
  cl_byLabel : gmap Z TrafficClass;
  cl_byName : gmap string TrafficClass;
  cl_byIndex : gmap Z string;
  cl_byDSCP : gmap Z string;
}.

Definition default_class : TrafficClass :=
  {| tc_Name := DefaultClassName; tc_Label := DefaultClassLabel; tc_Index := DefaultClassIndex;
     tc_Match := {| cm_DSCP := [] |}; tc_Objective := ∅ |}.

Definition objective_step (name : string) (obj : gmap CostDimension f64) (dw : string * f64)
    : result tenant_error (gmap CostDimension f64) :=
  match parseCostDimension dw.1 with
  | None => Err (UnknownDimension name dw.1)
  | Some costDim =>
      if f_leb dw.2 f_zero then Err (WeightNotPositive name dw.1)
      else Ok (<[costDim := dw.2]> obj)
  end.

Section parse.
Context `{RangeOrder}.

Definition class_step (m : class_maps) (rc : rawTrafficClass) : result tenant_error class_maps :=
  if decide (rc_Name rc = ""%string) then Err (ClassHasNoName (rc_Label rc)) else
  match cl_byName m !! rc_Name rc with
  | Some owner => Err (ClassNameUsed (rc_Name rc) (tc_Label owner))
  | None =>
  match cl_byLabel m !! rc_Label rc with
  | Some owner => Err (ClassLabelUsed (rc_Name rc) (rc_Label rc) (tc_Name owner))
  | None =>
  if rc_Index rc <? 1 then Err (ClassIndexTooSmall (rc_Name rc)) else
  match cl_byIndex m !! rc_Index rc with
  | Some owner => Err (ClassIndexUsed (rc_Name rc) (rc_Index rc) owner)
  | None =>
  if decide (rc_Objective rc = ∅) then Err (ClassHasNoObjective (rc_Name rc)) else
    objective ← foldM (objective_step (rc_Name rc)) ∅ (range_map (rc_Objective rc));
    '(byDSCP, match_) ← parseClassMatch (rc_Name rc) (rc_DSCP rc) (cl_byDSCP m);
    let class := {| tc_Name := rc_Name rc; tc_Label := rc_Label rc; tc_Index := rc_Index rc;
                    tc_Match := match_; tc_Objective := objective |} in
    Ok {| cl_byLabel := <[rc_Label rc := class]> (cl_byLabel m);
          cl_byName := <[rc_Name rc := class]> (cl_byName m);
          cl_byIndex := <[rc_Index rc := rc_Name rc]> (cl_byIndex m);
          cl_byDSCP := byDSCP |}
  end end end.

Definition parseTrafficClasses (raw : list rawTrafficClass)
    : result tenant_error (gmap Z TrafficClass * gmap string TrafficClass) :=
  m ← foldM class_step
    {| cl_byLabel := {[DefaultClassLabel := default_class]};
       cl_byName := {[DefaultClassName := default_class]};
       cl_byIndex := ∅; cl_byDSCP := ∅ |} raw;
  Ok (cl_byLabel m, cl_byName m).

(** ** Tiers *)

Definition tier_step (acc : gmap string Z * gmap Z string) (rt : rawTier)
    : result tenant_error (gmap string Z * gmap Z string) :=
  let '(byName, byIndex) := acc in
  if decide (rti_Name rt = ""%string) then Err (TierHasNoName (rti_Index rt)) else
  match byName !! rti_Name rt with
  | Some _ => Err (DuplicateTier (rti_Name rt))
  | None =>
  if rti_Index rt <? 1 then Err (TierIndexTooSmall (rti_Name rt)) else
  match byIndex !! rti_Index rt with
  | Some owner => Err (TierIndexUsed (rti_Name rt) (rti_Index rt) owner)
  | None => Ok (<[rti_Name rt := rti_Index rt]> byName, <[rti_Index rt := rti_Name rt]> byIndex)
  end end.

Definition parseTiers (raw : list rawTier) : result tenant_error (gmap string Z) :=
  '(byName, _) ← foldM tier_step (∅, ∅) raw; Ok byName.

(** ** Site classes *)

(** 1e-6 as the nearest float64. *)
Definition classMbpsTolerance : f64 := f_ratio 1 1000000.

Definition site_class_step (classByName : gmap string TrafficClass)
    (acc : gmap Z f64 * f64) (nm : string * f64) : result tenant_error (gmap Z f64 * f64) :=
  let '(out, carved) := acc in
  match classByName !! nm.1 with
  | None => Err (UnknownClass nm.1)
  | Some class =>
      if tc_Label class =? DefaultClassLabel then Err (ClassIsImplicit nm.1)
      else if f_leb nm.2 f_zero then Err (ClassReservesNothing nm.1)
      else Ok (<[tc_Label class := nm.2]> out, (carved + nm.2)%f64)
  end.

Definition resolveSiteClasses (raw : gmap string f64) (reservation : f64)
    (classByName : gmap string TrafficClass) : result tenant_error (gmap Z f64) :=
  '(out, carved) ← foldM (site_class_step classByName) (∅, f_zero) (range_map raw);
  let remainder := (reservation - carved)%f64 in
  if f_ltb remainder (f_opp classMbpsTolerance) then Err (ClassesExceedSite carved reservation)
  else if f_ltb classMbpsTolerance remainder then Ok (<[DefaultClassLabel := remainder]> out)
  else Ok out.

Definition prefixWithin (outer inner : Prefix) : bool :=
  (pfx_bits outer <=? pfx_bits inner) && prefix_contains outer (pfx_addr inner).

(** ** The repository *)

Record JSONTenantRepository := {
  tr_classes : gmap Z TrafficClass;
  tr_byID : gmap TenantID Tenant;
  tr_byIdentity : gmap string Site;
  tr_byPortalID : gmap string Site;
  tr_byPop : gmap string (list Site);
}.

Definition NewJSONTenantRepository : JSONTenantRepository :=
  {| tr_classes := ∅; tr_byID := ∅; tr_byIdentity := ∅; tr_byPortalID := ∅; tr_byPop := ∅ |}.

(** The local maps of [Load]. *)
Record load_state := {
  ld_byID : gmap TenantID Tenant;
  ld_byIdentity : gmap string Site;
  ld_byPortalID : gmap string Site;
  ld_byPop : gmap string (list Site);
  ld_seenIfID : gmap Z string;
}.

Definition load_site (classByName : gmap string TrafficClass) (rc : rawTenant) (allocation : Prefix)
    (acc : load_state * list Site) (rs : rawSite) : result tenant_error (load_state * list Site) :=
  let '(st, sites) := acc in
  match ParsePrefix (rs_Prefix rs) with
  | None => Err (BadSitePrefix (rt_ID rc) (rs_CPE rs) (rs_Prefix rs))
  | Some prefix =>
  if negb (prefixWithin allocation prefix) then Err (OutsideAllocation (rt_ID rc) (rs_CPE rs)) else
  match ld_seenIfID st !! rs_IfID rs with
  | Some owner => Err (IfIDUsed (rs_IfID rs) owner (rs_Identity rs))
  | None =>
  match ld_byIdentity st !! rs_Identity rs with
  | Some _ => Err (DuplicateIdentity (rs_Identity rs))
  | None =>
  match ld_byPortalID st !! rs_PortalID rs with
  | Some owner => Err (PortalIDUsed (rs_PortalID rs) (s_Identity owner) (rs_Identity rs))
  | None =>
    classMbps ← resolveSiteClasses (rs_Classes rs) (rs_ReservationMbps rs) classByName;
    let site := {| s_TenantID := rt_ID rc; s_CPE := rs_CPE rs; s_PortalID := rs_PortalID rs;
                   s_Node := rs_Node rs; s_Prefix := prefix; s_Attach := rs_Attach rs;
                   s_AttachNode := rs_AttachNode rs; s_IfID := rs_IfID rs;
                   s_Identity := rs_Identity rs; s_ReservationMbps := rs_ReservationMbps rs;
                   s_ClassMbps := classMbps |} in
    Ok ({| ld_byID := ld_byID st;
           ld_byIdentity := <[rs_Identity rs := site]> (ld_byIdentity st);
           ld_byPortalID := <[rs_PortalID rs := site]> (ld_byPortalID st);
           ld_byPop := <[rs_Attach rs := map_get [] (ld_byPop st) (rs_Attach rs) ++ [site]]> (ld_byPop st);
           ld_seenIfID := <[rs_IfID rs := rs_Identity rs]> (ld_seenIfID st) |}, sites ++ [site])
  end end end end.

Definition load_tenant (classByName : gmap string TrafficClass) (tierIndex : gmap string Z)
    (st : load_state) (rc : rawTenant) : result tenant_error load_state :=
  match ld_byID st !! rt_ID rc with
  | Some _ => Err (DuplicateTenant (rt_ID rc))
  | None =>
  match ParsePrefix (rt_Allocation rc) with
  | None => Err (BadAllocation (rt_ID rc) (rt_Allocation rc))
  | Some allocation =>
    '(st, sites) ← foldM (load_site classByName rc allocation) (st, []) (rt_Sites rc);
    let tenant := {| t_ID := rt_ID rc; t_Allocation := allocation; t_Tier := rt_Tier rc;
                     t_TierIndex := default UnrankedTierIndex (tierIndex !! rt_Tier rc);
                     t_VRFTable := rt_VRFTable rc; t_Sites := sites |} in
    Ok {| ld_byID := <[rt_ID rc := tenant]> (ld_byID st);
          ld_byIdentity := ld_byIdentity st; ld_byPortalID := ld_byPortalID st;
          ld_byPop := ld_byPop st; ld_seenIfID := ld_seenIfID st |}
  end end.

Definition load_db (raw : rawTenantDB) : result tenant_error JSONTenantRepository :=
  '(classes, classByName) ← parseTrafficClasses (db_Classes raw);
  tierIndex ← parseTiers (db_Tiers raw);
  st ← foldM (load_tenant classByName tierIndex)
    {| ld_byID := ∅; ld_byIdentity := ∅; ld_byPortalID := ∅; ld_byPop := ∅; ld_seenIfID := ∅ |}
    (db_Tenants raw);
  Ok {| tr_classes := classes; tr_byID := ld_byID st; tr_byIdentity := ld_byIdentity st;
        tr_byPortalID := ld_byPortalID st; tr_byPop := ld_byPop st |}.

(** [Load] on a file that was read and decoded: on an error the repository
    keeps what it had. *)
Definition Load (r : JSONTenantRepository) (raw : rawTenantDB)
    : JSONTenantRepository * option tenant_error :=
  match load_db raw with
  | Ok r' => (r', None)
  | Err e => (r, Some e)
  end.

(** ** Queries *)

Definition Tenant_ (r : JSONTenantRepository) (id : TenantID) : option Tenant := tr_byID r !! id.

Definition tenant_id_le (a b : Tenant) : Prop := t_ID a ≤ t_ID b.
#[export] Instance tenant_id_le_dec : RelDecision tenant_id_le.
Proof. intros a b. unfold tenant_id_le. apply _. Defined.

(** [sort.Slice] with "less" as the strict order; ids are distinct. *)
Definition Tenants (r : JSONTenantRepository) : list Tenant :=
  merge_sort tenant_id_le (range_map (tr_byID r)).*2.

Definition tenant_priority_le (a b : Tenant) : Prop :=
  t_TierIndex b < t_TierIndex a ∨ (t_TierIndex a = t_TierIndex b ∧ t_ID a ≤ t_ID b).
#[export] Instance tenant_priority_le_dec : RelDecision tenant_priority_le.
Proof. intros a b. unfold tenant_priority_le. apply _. Defined.

Definition TenantsByPriority (r : JSONTenantRepository) : list Tenant :=
  merge_sort tenant_priority_le (Tenants r).

Definition class_label_le (a b : TrafficClass) : Prop := tc_Label a ≤ tc_Label b.
#[export] Instance class_label_le_dec : RelDecision class_label_le.
Proof. intros a b. unfold class_label_le. apply _. Defined.

Definition Classes (r : JSONTenantRepository) : list TrafficClass :=
  merge_sort class_label_le (range_map (tr_classes r)).*2.

Definition Class_ (r : JSONTenantRepository) (label : Z) : option TrafficClass := tr_classes r !! label.
Definition SiteByIdentity (r : JSONTenantRepository) (identity : string) : option Site :=
  tr_byIdentity r !! identity.
Definition SiteByPortalID (r : JSONTenantRepository) (portalID : string) : option Site :=
  tr_byPortalID r !! portalID.
Definition SitesByPop (r : JSONTenantRepository) (pop : string) : list Site := map_get [] (tr_byPop r) pop.
End parse.

(** ** Traffic classes after parsing *)

Definition dscp_claimed (name : string) (byDSCP byDSCP' : gmap Z string) (ds : list Z) : Prop :=
  NoDup ds ∧ (∀ d, d ∈ ds → DSCPUnmarked < d ≤ DSCPMax ∧ byDSCP !! d = None ∧ byDSCP' !! d = Some name) ∧
  (∀ d, d ∉ ds → byDSCP' !! d = byDSCP !! d).

Lemma match_step_inv name byDSCP raw st :
  foldM (match_step name) (byDSCP, []) raw = Ok st →
  st.2 = raw ∧ dscp_claimed name byDSCP st.1 raw.
Proof.
  apply (foldM_ind (match_step name) (λ ds st, st.2 = ds ∧ dscp_claimed name byDSCP st.1 ds)).
  { split; [done|]. split_and!; [apply NoDup_nil_2|by intros ? ?%not_elem_of_nil|done]. }
  intros ds v [m dscp] t' (Hds & Hnd & Hin & Hm) _. simpl in *. unfold match_step.
  destruct (Z.ltb_spec v 0); [done|]. destruct (Z.ltb_spec DSCPMax v); [done|]. simpl.
  destruct (Z.eqb_spec v DSCPUnmarked) as [|Hne]; [done|].
  destruct (m !! v) eqn:Hv; [done|]. intros [= <-]. simpl.
  assert (v ∉ ds) as Hnin by (intros (_ & _ & ?)%Hin; congruence).
  split; [by rewrite Hds|]. split_and!.
  - apply list.NoDup_app. split_and!; [done| |apply NoDup_singleton].
    by intros x Hx ->%list_elem_of_singleton.
  - intros d [Hd| ->%list_elem_of_singleton]%elem_of_app.
    + rewrite lookup_insert_ne by (by intros ->). auto.
    + rewrite lookup_insert_eq, <-Hm by done. unfold DSCPUnmarked, DSCPMax in *. split_and!; [lia..|done|done].
  - intros d Hd. rewrite lookup_insert_ne by set_solver. apply Hm. set_solver.
Qed.

Lemma parseClassMatch_inv name byDSCP raw byDSCP' cm :
  parseClassMatch name raw byDSCP = Ok (byDSCP', cm) →
  raw ≠ [] ∧ cm_DSCP cm ≡ₚ raw ∧ Sorted Z.le (cm_DSCP cm) ∧ dscp_claimed name byDSCP byDSCP' raw.
Proof.
  unfold parseClassMatch. destruct raw as [|v raw]; [done|].
  intros ([m ds] & Hf & [= <- <-])%result_bind_Ok.
  apply match_step_inv in Hf as (Hds & Hrest). simpl in Hds, Hrest. subst ds.
  split; [done|]. simpl. split; [apply merge_sort_Permutation|].
  split; [|done]. apply Sorted_merge_sort. intros x y. lia.
Qed.

(** What the checks guarantee of a named class. *)
Record class_ok (c : TrafficClass) : Prop := {
  co_index : 1 ≤ tc_Index c;
  co_objective : tc_Objective c ≠ ∅;
  co_weight : ∀ d w, tc_Objective c !! d = Some w →
    d ∈ [COSTDIM_LATENCY; COSTDIM_JITTER; COSTDIM_LOSS] ∧ f_leb w f_zero = false;
  co_dscp : cm_DSCP (tc_Match c) ≠ [] ∧ NoDup (cm_DSCP (tc_Match c)) ∧ Sorted Z.le (cm_DSCP (tc_Match c)) ∧
    ∀ d, d ∈ cm_DSCP (tc_Match c) → DSCPUnmarked < d ≤ DSCPMax;
}.

Record classes_inv (m : class_maps) : Prop := {
  ci_label : ∀ l c, cl_byLabel m !! l = Some c → tc_Label c = l ∧ cl_byName m !! tc_Name c = Some c;
  ci_name : ∀ n c, cl_byName m !! n = Some c → tc_Name c = n ∧ cl_byLabel m !! tc_Label c = Some c;
  ci_default : cl_byLabel m !! DefaultClassLabel = Some default_class;
  ci_class : ∀ l c, cl_byLabel m !! l = Some c → l ≠ DefaultClassLabel → class_ok c;
  ci_index : ∀ l c, cl_byLabel m !! l = Some c → l ≠ DefaultClassLabel →
    cl_byIndex m !! tc_Index c = Some (tc_Name c);
  ci_dscp : ∀ l c d, cl_byLabel m !! l = Some c → d ∈ cm_DSCP (tc_Match c) →
    cl_byDSCP m !! d = Some (tc_Name c);
}.

Lemma objective_inv `{RangeOrder} name raw obj :
  raw ≠ ∅ → foldM (objective_step name) ∅ (range_map raw) = Ok obj →
  obj ≠ ∅ ∧ ∀ d w, obj !! d = Some w →
    d ∈ [COSTDIM_LATENCY; COSTDIM_JITTER; COSTDIM_LOSS] ∧ f_leb w f_zero = false ∧
    ∃ dim, raw !! dim = Some w.
Proof.
  intros Hne Hf.
  assert ((range_map raw ≠ [] → obj ≠ ∅) ∧ ∀ d w, obj !! d = Some w →
    d ∈ [COSTDIM_LATENCY; COSTDIM_JITTER; COSTDIM_LOSS] ∧ f_leb w f_zero = false ∧
    ∃ dim, raw !! dim = Some w) as [H1 H2].
  { revert Hf. apply (foldM_ind (objective_step name) (λ l obj, (l ≠ [] → obj ≠ ∅) ∧
      ∀ d w, obj !! d = Some w → d ∈ [COSTDIM_LATENCY; COSTDIM_JITTER; COSTDIM_LOSS] ∧
        f_leb w f_zero = false ∧ ∃ dim, raw !! dim = Some w)).
    { split; [done|]. intros d w. by rewrite lookup_empty. }
    intros l [dim w] o o' [_ Hall] Hin. apply elem_of_range_map in Hin.
    unfold objective_step, parseCostDimension. simpl.
    case_decide as Hdim; [|done]. destruct (f_leb w f_zero) eqn:Hw; [done|]. intros [= <-].
    split; [intros _; apply insert_non_empty|]. intros d w'.
    rewrite lookup_insert_Some. intros [[<- <-]|[_ ?]]; [|by apply Hall].
    split_and!; [|done|eauto]. set_solver. }
  split; [|done]. apply H1. intros Hr. apply Hne. apply map_to_list_empty_iff.
  apply Permutation_nil_r. by rewrite <-range_map_perm, Hr.
Qed.

Lemma class_step_inv `{RangeOrder} m rc m' :
  classes_inv m → class_step m rc = Ok m' → classes_inv m'.
Proof.
  intros [Hl Hn Hd Hc Hi Hs]. unfold class_step. case_decide as Hempty; [done|].
  destruct (cl_byName m !! rc_Name rc) eqn:Hname; [done|].
  destruct (cl_byLabel m !! rc_Label rc) eqn:Hlabel; [done|].
  destruct (Z.ltb_spec (rc_Index rc) 1) as [|Hidx]; [done|].
  destruct (cl_byIndex m !! rc_Index rc) eqn:Hindex; [done|]. case_decide as Hobj; [done|].
  intros (obj & Hobjective & Hm')%result_bind_Ok. apply result_bind_Ok in Hm' as ([byDSCP cm] & Hcm & [= <-]).
  apply objective_inv in Hobjective as [Ho Hw]; [|done].
  apply parseClassMatch_inv in Hcm as (Hraw & Hperm & Hsort & Hnd & Hin & Hout).
  assert (rc_Label rc ≠ DefaultClassLabel) as Hnd0 by congruence.
  assert (∀ l c, cl_byLabel m !! l = Some c → tc_Name c ≠ rc_Name rc) as Hnew.
  { intros l c [_ Hc']%Hl Heq. congruence. }
  split; simpl.
  - intros l c. rewrite lookup_insert_Some. intros [[<- <-]|[Hne Hlc]].
    + simpl. by rewrite lookup_insert_eq.
    + rewrite lookup_insert_ne by (pose proof (Hnew _ _ Hlc); congruence). by apply Hl.
  - intros n c. rewrite lookup_insert_Some. intros [[<- <-]|[Hne Hlc]].
    + simpl. by rewrite lookup_insert_eq.
    + destruct (Hn _ _ Hlc) as [<- Hb]. by rewrite lookup_insert_ne by congruence.
  - by rewrite lookup_insert_ne.
  - intros l c. rewrite lookup_insert_Some. intros [[<- <-]|[Hne Hlc]] Hl0; [|by eapply Hc].
    split; simpl; [done|done|by intros d w (? & ? & _)%Hw|]. split_and!; [|by rewrite Hperm|done|].
    + intros Hnil. rewrite Hnil in Hperm. by apply Permutation_nil_l in Hperm.
    + intros d. rewrite Hperm. intros [? _]%Hin. done.
  - intros l c. rewrite lookup_insert_Some. intros [[<- <-]|[Hne Hlc]] Hl0; simpl.
    + by rewrite lookup_insert_eq.
    + pose proof (Hi _ _ Hlc Hl0). by rewrite lookup_insert_ne by congruence.
  - intros l c d. rewrite lookup_insert_Some. intros [[<- <-]|[Hne Hlc]] Hdc; simpl in *.
    + rewrite Hperm in Hdc. by apply Hin.
    + pose proof (Hs _ _ _ Hlc Hdc) as Hold. rewrite Hout; [done|]. intros (_ & ? & _)%Hin. congruence.
Qed.

Lemma parseTrafficClasses_inv `{RangeOrder} raw byLabel byName :
  parseTrafficClasses raw = Ok (byLabel, byName) →
  ∃ m, classes_inv m ∧ cl_byLabel m = byLabel ∧ cl_byName m = byName.
Proof.
  unfold parseTrafficClasses. intros (m & Hf & [= <- <-])%result_bind_Ok. exists m.
  split; [|done]. revert Hf. apply (foldM_ind class_step (λ _ m, classes_inv m)).
  - split; simpl.
    + intros l c [<- <-]%lookup_singleton_Some. simpl. by rewrite lookup_singleton_eq.
    + intros l c [<- <-]%lookup_singleton_Some. simpl. by rewrite lookup_singleton_eq.
    + by rewrite lookup_singleton_eq.
    + intros l c [<- <-]%lookup_singleton_Some. done.
    + intros l c [<- <-]%lookup_singleton_Some. done.
    + intros l c d [<- <-]%lookup_singleton_Some. by intros ?%not_elem_of_nil.
  - intros _ rc t t' Ht _. by apply class_step_inv.
Qed.

(** The classes of a repository, as the rest of the controller relies on them. *)
Record classes_wf (classes : gmap Z TrafficClass) : Prop := {
  cw_label : ∀ l c, classes !! l = Some c → tc_Label c = l;
  cw_default : classes !! DefaultClassLabel = Some default_class;
  cw_class : ∀ l c, classes !! l = Some c → l ≠ DefaultClassLabel → class_ok c;
  cw_name : ∀ l l' c c', classes !! l = Some c → classes !! l' = Some c' → tc_Name c = tc_Name c' → l = l';
  cw_index : ∀ l l' c c', classes !! l = Some c → classes !! l' = Some c' → tc_Index c = tc_Index c' → l = l';
  cw_dscp : ∀ l l' c c' d, classes !! l = Some c → classes !! l' = Some c' →
    d ∈ cm_DSCP (tc_Match c) → d ∈ cm_DSCP (tc_Match c') → l = l';
}.

Lemma classes_inv_wf m : classes_inv m → classes_wf (cl_byLabel m).
Proof.
  intros [Hl Hn Hd Hc Hi Hs].
  assert (∀ l l' c c', cl_byLabel m !! l = Some c → cl_byLabel m !! l' = Some c' →
    tc_Name c = tc_Name c' → l = l') as Huniq.
  { intros l l' c c' H1 H2 He. destruct (Hl _ _ H1) as [<- Hb1], (Hl _ _ H2) as [<- Hb2].
    rewrite He in Hb1. congruence. }
  split; [by intros l c [? _]%Hl|done|done|done| |].
  - intros l l' c c' H1 H2 He.
    destruct (decide (l = DefaultClassLabel)) as [->|Hl0], (decide (l' = DefaultClassLabel)) as [->|Hl0'].
    + done.
    + pose proof (co_index _ (Hc _ _ H2 Hl0')). rewrite Hd in H1. injection H1 as <-.
      simpl in He. unfold DefaultClassIndex in He. lia.
    + pose proof (co_index _ (Hc _ _ H1 Hl0)). rewrite Hd in H2. injection H2 as <-.
      simpl in He. unfold DefaultClassIndex in He. lia.
    + pose proof (Hi _ _ H1 Hl0) as E1. pose proof (Hi _ _ H2 Hl0') as E2.
      rewrite He in E1. apply (Huniq l l' c c' H1 H2). congruence.
  - intros l l' c c' d H1 H2 D1 D2. apply (Huniq l l' c c' H1 H2).
    pose proof (Hs _ _ _ H1 D1). pose proof (Hs _ _ _ H2 D2). congruence.
Qed.

(** ** Sites after loading *)

(** The indexes against the list of all sites loaded so far. *)
Record sites_inv (st : load_state) (all : list Site) : Prop := {
  si_identity : ∀ i s, ld_byIdentity st !! i = Some s ↔ s ∈ all ∧ s_Identity s = i;
  si_portal : ∀ i s, ld_byPortalID st !! i = Some s ↔ s ∈ all ∧ s_PortalID s = i;
  si_pop : ∀ p, map_get [] (ld_byPop st) p = filter (λ s, s_Attach s = p) all;
  si_seen : ∀ i, is_Some (ld_seenIfID st !! i) ↔ i ∈ s_IfID <$> all;
  si_ifid : NoDup (s_IfID <$> all);
  si_nodup : NoDup (s_Identity <$> all);
}.

Record site_ok (t : TenantID) (allocation : Prefix) (s : Site) : Prop := {
  so_tenant : s_TenantID s = t;
  so_prefix : prefixWithin allocation (s_Prefix s) = true;
}.

Lemma index_snoc {K} `{Countable K} (key : Site → K) (m : gmap K Site) all site :
  (∀ i s, m !! i = Some s ↔ s ∈ all ∧ key s = i) → m !! key site = None →
  ∀ i s, <[key site := site]> m !! i = Some s ↔ s ∈ all ++ [site] ∧ key s = i.
Proof.
  intros Hm Hnone i s. rewrite lookup_insert_Some, Hm, elem_of_app, list_elem_of_singleton. split.
  - intros [[<- <-]|[Hne [? ?]]]; auto.
  - intros [[Hin| ->] <-]; [|by left]. right. split; [|done]. intros Heq.
    assert (m !! key s = Some s) as Hs by (by apply Hm). rewrite <-Heq in Hs. congruence.
Qed.

Lemma load_site_inv `{RangeOrder} classes rc alloc st sites rs st' sites' pre :
  sites_inv st (pre ++ sites) → Forall (site_ok (rt_ID rc) alloc) sites →
  load_site classes rc alloc (st, sites) rs = Ok (st', sites') →
  sites_inv st' (pre ++ sites') ∧ Forall (site_ok (rt_ID rc) alloc) sites' ∧ ld_byID st' = ld_byID st.
Proof.
  intros [Hid Hpo Hpop Hseen Hifid Hnd] Hok. unfold load_site.
  destruct (ParsePrefix (rs_Prefix rs)) as [prefix|]; [|done].
  destruct (prefixWithin alloc prefix) eqn:Hwithin; [|done]. simpl.
  destruct (ld_seenIfID st !! rs_IfID rs) eqn:Hif; [done|].
  destruct (ld_byIdentity st !! rs_Identity rs) eqn:Hident; [done|].
  destruct (ld_byPortalID st !! rs_PortalID rs) eqn:Hportal; [done|].
  intros (mbps & _ & [= <- <-])%result_bind_Ok.
  set (site := {| s_TenantID := rt_ID rc |}). rewrite app_assoc.
  split_and!; [|apply Forall_app; split; [done|]; by repeat constructor|done].
  split; simpl.
  - by apply (index_snoc s_Identity).
  - by apply (index_snoc s_PortalID).
  - intros p. unfold map_get at 1. rewrite lookup_insert, list.filter_app.
    case_decide as Hp; simpl.
    + rewrite <-Hp, Hpop. rewrite filter_cons_True by done. by rewrite filter_nil.
    + rewrite filter_cons_False, filter_nil, app_nil_r by done. apply Hpop.
  - intros i. rewrite lookup_insert_is_Some, fmap_app, elem_of_app, Hseen. simpl.
    rewrite list_elem_of_singleton. simpl. split; [intros [->|[_ ?]]; auto|].
    intros [?| ->]; [|by left]. destruct (decide (rs_IfID rs = i)); auto.
  - apply NoDup_fmap_snoc; [done|]. simpl. intros [x Hx]%Hseen. simpl in *. congruence.
  - apply NoDup_fmap_snoc; [done|]. simpl. intros (s & Hs & Hin)%list_elem_of_fmap.
    assert (ld_byIdentity st !! rs_Identity rs = Some s) by (by apply Hid). congruence.
Qed.

Record load_inv (st : load_state) (all : list Site) : Prop := {
  li_sites : sites_inv st all;
  li_tenant : ∀ t tenant, ld_byID st !! t = Some tenant →
    t_ID tenant = t ∧ Forall (site_ok t (t_Allocation tenant)) (t_Sites tenant);
  li_owner : ∀ s, s ∈ all ↔ ∃ t tenant, ld_byID st !! t = Some tenant ∧ s ∈ t_Sites tenant;
}.

Lemma load_tenant_inv `{RangeOrder} classes tiers st rc st' all :
  load_inv st all → load_tenant classes tiers st rc = Ok st' → ∃ all', load_inv st' all'.
Proof.
  intros [Hsites Htenant Howner]. unfold load_tenant.
  destruct (ld_byID st !! rt_ID rc) eqn:Hnew; [done|].
  destruct (ParsePrefix (rt_Allocation rc)) as [alloc|]; [|done].
  intros ([st1 sites] & Hf & [= <-])%result_bind_Ok.
  assert (sites_inv st1 (all ++ sites) ∧ Forall (site_ok (rt_ID rc) alloc) sites ∧ ld_byID st1 = ld_byID st)
    as (Hs1 & Hok & Hby).
  { apply (foldM_ind (load_site classes rc alloc) (λ _ p, sites_inv p.1 (all ++ p.2) ∧
      Forall (site_ok (rt_ID rc) alloc) p.2 ∧ ld_byID p.1 = ld_byID st)) in Hf; [done| |].
    - simpl. rewrite app_nil_r. split_and!; [done|constructor|done].
    - intros _ rs [t s] [t' s'] (H1 & H2 & H3) _ Hstep. simpl in *.
      destruct (load_site_inv _ _ _ _ _ _ _ _ _ H1 H2 Hstep) as (? & ? & ->). done. }
  exists (all ++ sites). split.
  - destruct Hs1. by split.
  - intros t tenant. simpl. rewrite Hby, lookup_insert_Some.
    intros [[<- <-]|[_ ?]]; [done|by apply Htenant].
  - intros s. simpl. rewrite elem_of_app, Howner, Hby. split.
    + intros [(t & tenant & Ht & Hin)|Hin].
      * exists t, tenant. split; [|done]. rewrite lookup_insert_ne; [done|]. congruence.
      * eexists _, _. split; [apply lookup_insert_eq|done].
    + intros (t & tenant & Ht & Hin). apply lookup_insert_Some in Ht as [[<- <-]|[_ Ht]]; eauto.
Qed.

(** What [Load] establishes of the whole repository. *)
Record repo_wf (r : JSONTenantRepository) : Prop := {
  rp_classes : classes_wf (tr_classes r);
  rp_tenant : ∀ t tenant, tr_byID r !! t = Some tenant → t_ID tenant = t;
  rp_site : ∀ t tenant s, tr_byID r !! t = Some tenant → s ∈ t_Sites tenant →
    s_TenantID s = t ∧ prefixWithin (t_Allocation tenant) (s_Prefix s) = true;
  rp_identity : ∀ i s, tr_byIdentity r !! i = Some s ↔
    s_Identity s = i ∧ ∃ t tenant, tr_byID r !! t = Some tenant ∧ s ∈ t_Sites tenant;
  rp_portal : ∀ i s, tr_byPortalID r !! i = Some s ↔
    s_PortalID s = i ∧ ∃ t tenant, tr_byID r !! t = Some tenant ∧ s ∈ t_Sites tenant;
  rp_pop : ∀ p s, s ∈ map_get [] (tr_byPop r) p ↔
    s_Attach s = p ∧ ∃ t tenant, tr_byID r !! t = Some tenant ∧ s ∈ t_Sites tenant;
  rp_ifid : ∀ i i' s s', tr_byIdentity r !! i = Some s → tr_byIdentity r !! i' = Some s' →
    s_IfID s = s_IfID s' → s = s';
}.

Lemma NoDup_fmap_elem {A B} (f : A → B) l x y :
  NoDup (f <$> l) → x ∈ l → y ∈ l → f x = f y → x = y.
Proof.
  intros Hnd (i & Hi)%list_elem_of_lookup (j & Hj)%list_elem_of_lookup He.
  assert ((f <$> l) !! i = Some (f x)) as H1 by (by rewrite list_lookup_fmap, Hi).
  assert ((f <$> l) !! j = Some (f x)) as H2 by (by rewrite list_lookup_fmap, Hj, He).
  pose proof (NoDup_lookup _ _ _ _ Hnd H1 H2). congruence.
Qed.

Lemma load_db_wf `{RangeOrder} raw r : load_db raw = Ok r → repo_wf r.
Proof.
  unfold load_db. intros ([classes byName] & Hcl & Hr)%result_bind_Ok.
  apply result_bind_Ok in Hr as (tiers & Hti & Hr).
  apply result_bind_Ok in Hr as (st & Hst & [= <-]).
  apply parseTrafficClasses_inv in Hcl as (m & Hm & <- & _).
  assert (∃ all, load_inv st all) as (all & [[Hid Hpo Hpop Hseen Hif Hnd] Hte Hown]).
  { revert Hst. apply (foldM_ind (load_tenant byName tiers) (λ _ st, ∃ all, load_inv st all)).
    - exists []. split; simpl; [|by intros ??; rewrite lookup_empty|].
      + split; simpl; try (intros *; rewrite lookup_empty).
        * split; [done|]. by intros [?%not_elem_of_nil _].
        * split; [done|]. by intros [?%not_elem_of_nil _].
        * intros p. unfold map_get. by rewrite lookup_empty.
        * split; [by intros []|]. by intros ?%not_elem_of_nil.
        * apply NoDup_nil_2.
        * apply NoDup_nil_2.
      + intros s. split; [by intros ?%not_elem_of_nil|]. intros (t & te & Ht & _).
        by rewrite lookup_empty in Ht.
    - intros _ rc t t' [all Hall] _ Hstep. by eapply load_tenant_inv. }
  split; simpl.
  - by apply classes_inv_wf.
  - intros t te Ht. by apply Hte.
  - intros t te s Ht Hs. destruct (Hte _ _ Ht) as [_ HF]. rewrite list.Forall_forall in HF.
    by destruct (HF s Hs).
  - intros i s. rewrite Hid, Hown. naive_solver.
  - intros i s. rewrite Hpo, Hown. naive_solver.
  - intros p s. rewrite Hpop, list_elem_of_filter, Hown. naive_solver.
  - intros i i' s s' [H1 _]%Hid [H2 _]%Hid He. by eapply (NoDup_fmap_elem s_IfID).
Qed.
