(* ===== verification/Demand.v ===== *)
(** Demands (pce_demand.go): what bandwidth each tenant wants between which
    PoPs in which class, in the order the path computation serves them. *)

From S2P Require Import Prelude Float64 Netip Topology CostGraph PceGraph Cspf Bandwidth Tenants.

Record Demand := {
  d_Tenant : Tenant;
  d_Class : TrafficClass;
  d_From : NodeID;
  d_To : NodeID;
  d_FromMbps : f64;
  d_ToMbps : f64;
}.

Definition PathKey_of (d : Demand) : PathKey :=
  {| pk_Tenant := t_ID (d_Tenant d); pk_From := d_From d; pk_To := d_To d;
     pk_Label := tc_Label (d_Class d) |}.

Definition BandwidthReservation_of (d : Demand) : BandwidthReservation :=
  {| br_Key := {| rk_SourcePop := d_From d; rk_SinkPop := d_To d; rk_Label := tc_Label (d_Class d) |};
     br_SourceBandwidth := d_FromMbps d; br_SinkBandwidth := d_ToMbps d |}.

Definition isLabelDefault (l : Z) : Z := if l =? DefaultClassLabel then 1 else 0.

(** The comparison of [slices.SortFunc]. *)
Definition demand_cmp (a b : Demand) : comparison :=
  cmp_or [ Z.compare (isLabelDefault (tc_Label (d_Class a))) (isLabelDefault (tc_Label (d_Class b)));
           Z.compare (t_TierIndex (d_Tenant b)) (t_TierIndex (d_Tenant a));
           Z.compare (tc_Index (d_Class b)) (tc_Index (d_Class a));
           Z.compare (t_ID (d_Tenant a)) (t_ID (d_Tenant b));
           String.compare (d_From a) (d_From b);
           String.compare (d_To a) (d_To b) ].

Definition demand_le (a b : Demand) : Prop := demand_cmp a b ≠ Gt.
#[export] Instance demand_le_dec : RelDecision demand_le.
Proof. intros a b. unfold demand_le. apply _. Defined.

Notation pop_labels := (gmap NodeID (gmap Z f64)).

Section build.
Context `{RangeOrder}.

(** [popsWithLabels[popID][label] += mbps] for every class of the site. *)
Definition add_site (pops : pop_labels) (s : Site) : pop_labels :=
  let popID := s_Attach s in
  <[popID := foldl (λ m lm, <[lm.1 := (map_get f_zero m lm.1 + lm.2)%f64]> m)
               (map_get ∅ pops popID) (range_map (s_ClassMbps s))]> pops.

Definition popsWithLabels (t : Tenant) : pop_labels := foldl add_site ∅ (t_Sites t).

(** The body of the innermost loop: at most one demand. *)
Definition demand_for (repo : JSONTenantRepository) (t : Tenant) (fromNode toNode : NodeID)
    (toClasses : gmap Z f64) (lm : Z * f64) : list Demand :=
  let '(label, fromMbps) := lm in
  let toMbps := map_get f_zero toClasses label in
  if f_leb fromMbps f_zero || f_leb toMbps f_zero then []
  else match Class_ repo label with
       | None => []
       | Some class => [{| d_Tenant := t; d_Class := class; d_From := fromNode; d_To := toNode;
                           d_FromMbps := fromMbps; d_ToMbps := toMbps |}]
       end.

Definition tenant_demands (repo : JSONTenantRepository) (t : Tenant) : list Demand :=
  let pops := popsWithLabels t in
  range_map pops ≫= λ '(fromNode, fromClasses),
  range_map pops ≫= λ '(toNode, toClasses),
  if decide (fromNode = toNode) then []
  else range_map fromClasses ≫= demand_for repo t fromNode toNode toClasses.

Definition BuildDemands (repo : JSONTenantRepository) : list Demand :=
  merge_sort demand_le (TenantsByPriority repo ≫= tenant_demands repo).
End build.

(** ** The order *)

#[export] Instance demand_cmp_good : GoodCmp demand_cmp.
Proof.
  apply (cmp_or_good [ (λ a b, Z.compare (isLabelDefault (tc_Label (d_Class a))) (isLabelDefault (tc_Label (d_Class b))));
     (λ a b, Z.compare (t_TierIndex (d_Tenant b)) (t_TierIndex (d_Tenant a)));
     (λ a b, Z.compare (tc_Index (d_Class b)) (tc_Index (d_Class a)));
     (λ a b, Z.compare (t_ID (d_Tenant a)) (t_ID (d_Tenant b)));
     (λ a b, String.compare (d_From a) (d_From b)); (λ a b, String.compare (d_To a) (d_To b)) ]).
  rewrite !list.Forall_cons. split_and!; [..|constructor].
  - apply (cmp_pull_good (λ d, isLabelDefault (tc_Label (d_Class d)))), _.
  - apply (cmp_flip_good (λ a b, Z.compare (t_TierIndex (d_Tenant a)) (t_TierIndex (d_Tenant b)))).
    apply (cmp_pull_good (λ d, t_TierIndex (d_Tenant d))), _.
  - apply (cmp_flip_good (λ a b, Z.compare (tc_Index (d_Class a)) (tc_Index (d_Class b)))).
    apply (cmp_pull_good (λ d, tc_Index (d_Class d))), _.
  - apply (cmp_pull_good (λ d, t_ID (d_Tenant d))), _.
  - apply (cmp_pull_good d_From), _.
  - apply (cmp_pull_good d_To), _.
Qed.

#[export] Instance demand_le_trans : Transitive demand_le.
Proof. intros a b c. apply (cmp_le_trans demand_cmp). Qed.
#[export] Instance demand_le_total : Total demand_le.
Proof. intros a b. apply (cmp_le_total demand_cmp). Qed.

Lemma demand_cmp_eq a b :
  demand_cmp a b = Eq →
  tc_Index (d_Class a) = tc_Index (d_Class b) ∧ t_ID (d_Tenant a) = t_ID (d_Tenant b) ∧
  d_From a = d_From b ∧ d_To a = d_To b.
Proof.
  unfold demand_cmp, cmp_or. simpl.
  repeat match goal with |- match ?c with _ => _ end = Eq → _ => destruct c eqn:?; [|done..] end.
  intros ?. repeat match goal with
    | H : (_ ?= _) = Eq |- _ => apply Z.compare_eq in H
    | H : String.compare _ _ = Eq |- _ => apply String.compare_eq_iff in H end. done.
Qed.

(** ** Bandwidth per PoP *)

(** What one site adds to the sums of its PoP, independently of the order in
    which its classes are ranged over. *)
Lemma add_classes_lookup l (m : gmap Z f64) k :
  NoDup l.*1 →
  foldl (λ m lm, <[lm.1 := (map_get f_zero m lm.1 + lm.2)%f64]> m) m l !! k =
  match (list_to_map l : gmap Z f64) !! k with
  | Some x => Some (map_get f_zero m k + x)%f64
  | None => m !! k
  end.
Proof.
  revert m. induction l as [|[k' x] l IH]; intros m; simpl; [by rewrite lookup_empty|].
  intros [Hn Hnd]%list.NoDup_cons. rewrite IH by done. rewrite (lookup_insert (list_to_map l)).
  case_decide as Hk.
  - subst k'. rewrite not_elem_of_list_to_map_1 by done. by rewrite lookup_insert_eq.
  - destruct (list_to_map l !! k); [|by rewrite lookup_insert_ne].
    unfold map_get. by rewrite lookup_insert_ne.
Qed.

Section sums.
Context `{RangeOrder}.

Lemma add_site_lookup pops s p k :
  map_get ∅ (add_site pops s) p !! k =
  if decide (p = s_Attach s) then
    match s_ClassMbps s !! k with
    | Some x => Some (map_get f_zero (map_get ∅ pops p) k + x)%f64
    | None => map_get ∅ pops p !! k
    end
  else map_get ∅ pops p !! k.
Proof.
  unfold add_site. unfold map_get at 1. rewrite lookup_insert.
  case_decide as Hp; [|by rewrite decide_False by congruence]. subst p.
  rewrite decide_True by done. simpl. rewrite add_classes_lookup by apply NoDup_range_map_fst.
  rewrite (list_to_map_proper _ (map_to_list (s_ClassMbps s)));
    [|apply NoDup_range_map_fst|apply range_map_perm].
  by rewrite list_to_map_to_list.
Qed.

Lemma add_site_dom pops s p :
  is_Some (add_site pops s !! p) ↔ p = s_Attach s ∨ is_Some (pops !! p).
Proof.
  unfold add_site. rewrite lookup_insert_is_Some. destruct (decide (s_Attach s = p)); naive_solver.
Qed.

(** The sum for a PoP and a class: the shares of the tenant's sites attached
    there, in the order the sites are listed. *)
Definition class_shares (sites : list Site) (p : NodeID) (label : Z) : list f64 :=
  omap (λ s, s_ClassMbps s !! label) (filter (λ s, s_Attach s = p) sites).

Lemma pops_lookup sites p k :
  map_get ∅ (foldl add_site ∅ sites) p !! k =
  match class_shares sites p k with
  | [] => None
  | xs => Some (foldl f_add f_zero xs)
  end.
Proof.
  apply (foldl_ind add_site (λ sites pops, map_get ∅ pops p !! k =
    match class_shares sites p k with [] => None | xs => Some (foldl f_add f_zero xs) end)).
  { unfold map_get. by rewrite !lookup_empty. }
  intros done s pops IH _. rewrite add_site_lookup. unfold class_shares in *.
  rewrite list.filter_app, omap_app. destruct (decide (p = s_Attach s)) as [->|Hp].
  - rewrite filter_cons_True, filter_nil by done. simpl. destruct (s_ClassMbps s !! k) as [x|].
    + unfold map_get at 1. rewrite IH.
      destruct (omap _ (filter _ done)); simpl; [done|by rewrite foldl_app].
    + by rewrite app_nil_r.
  - rewrite filter_cons_False, filter_nil, app_nil_r by congruence. done.
Qed.

Lemma pops_dom sites p :
  is_Some (foldl add_site ∅ sites !! p) ↔ p ∈ s_Attach <$> sites.
Proof.
  apply (foldl_ind add_site (λ sites pops, is_Some (pops !! p) ↔ p ∈ s_Attach <$> sites)).
  { rewrite lookup_empty. split; [by intros []|by intros ?%not_elem_of_nil]. }
  intros done s pops IH _. rewrite add_site_dom, IH, fmap_app, elem_of_app. simpl.
  rewrite list_elem_of_singleton. tauto.
Qed.
End sums.

(** The sums do not depend on any iteration order. *)
Lemma popsWithLabels_order (o1 o2 : RangeOrder) t : @popsWithLabels o1 t = @popsWithLabels o2 t.
Proof.
  apply map_eq. intros p.
  pose proof (@pops_dom o1 (t_Sites t) p) as D1. pose proof (@pops_dom o2 (t_Sites t) p) as D2.
  pose proof (λ k, @pops_lookup o1 (t_Sites t) p k) as L1.
  pose proof (λ k, @pops_lookup o2 (t_Sites t) p k) as L2.
  unfold popsWithLabels, map_get in *.
  destruct (foldl (@add_site o1) ∅ (t_Sites t) !! p) as [m1|] eqn:E1,
    (foldl (@add_site o2) ∅ (t_Sites t) !! p) as [m2|] eqn:E2; simpl in *.
  - f_equal. apply map_eq. intros k. by rewrite L1, L2.
  - destruct (proj2 D2); [apply D1; eauto|done].
  - destruct (proj2 D1); [apply D2; eauto|done].
  - done.
Qed.

(** ** The demands *)

Lemma bind_perm {A B} (f g : A → list B) l k :
  l ≡ₚ k → (∀ x, x ∈ l → f x ≡ₚ g x) → l ≫= f ≡ₚ k ≫= g.
Proof.
  intros Hlk Hfg. rewrite <-Hlk. clear Hlk. induction l as [|x l IH]; [done|]. rewrite !bind_cons.
  rewrite (Hfg x) by left. rewrite IH; [done|]. intros y Hy. apply Hfg. by right.
Qed.

Section demands.
Context `{RangeOrder} (repo : JSONTenantRepository).
Hypothesis Hrepo : repo_wf repo.

#[export] Instance tenant_id_le_total : Total tenant_id_le.
Proof. intros a b. unfold tenant_id_le. lia. Qed.
#[export] Instance tenant_id_le_trans : Transitive tenant_id_le.
Proof. intros a b c. unfold tenant_id_le. lia. Qed.
#[export] Instance tenant_priority_le_total : Total tenant_priority_le.
Proof. intros a b. unfold tenant_priority_le. lia. Qed.
#[export] Instance tenant_priority_le_trans : Transitive tenant_priority_le.
Proof. intros a b c. unfold tenant_priority_le. lia. Qed.

Lemma elem_of_TenantsByPriority t :
  t ∈ TenantsByPriority repo ↔ tr_byID repo !! t_ID t = Some t.
Proof.
  unfold TenantsByPriority, Tenants. rewrite !merge_sort_Permutation, list_elem_of_fmap. split.
  - intros ([id t'] & -> & Hin%elem_of_range_map). simpl. by rewrite (rp_tenant _ Hrepo _ _ Hin).
  - intros Ht. exists (t_ID t, t). split; [done|]. by apply elem_of_range_map.
Qed.

Lemma NoDup_TenantsByPriority : NoDup (TenantsByPriority repo).
Proof.
  unfold TenantsByPriority, Tenants. rewrite !merge_sort_Permutation.
  eapply (NoDup_fmap_1 t_ID). rewrite <-list_fmap_compose.
  erewrite (list_fmap_ext _ fst); [apply NoDup_range_map_fst|].
  intros i [id t] Hi%list_elem_of_lookup_2. apply elem_of_range_map in Hi. simpl.
  by apply (rp_tenant _ Hrepo).
Qed.

(** What makes [d] one of the demands of its tenant. *)
Definition is_demand (d : Demand) : Prop :=
  d_From d ≠ d_To d ∧
  ∃ label fc tc, Class_ repo label = Some (d_Class d) ∧
    popsWithLabels (d_Tenant d) !! d_From d = Some fc ∧
    popsWithLabels (d_Tenant d) !! d_To d = Some tc ∧
    fc !! label = Some (d_FromMbps d) ∧ d_ToMbps d = map_get f_zero tc label ∧
    f_leb (d_FromMbps d) f_zero = false ∧ f_leb (d_ToMbps d) f_zero = false.

Lemma elem_of_demand_for t from to tc lm d :
  d ∈ demand_for repo t from to tc lm ↔
  d_Tenant d = t ∧ d_From d = from ∧ d_To d = to ∧ Class_ repo lm.1 = Some (d_Class d) ∧
  d_FromMbps d = lm.2 ∧ d_ToMbps d = map_get f_zero tc lm.1 ∧
  f_leb (d_FromMbps d) f_zero = false ∧ f_leb (d_ToMbps d) f_zero = false.
Proof.
  destruct lm as [label mbps]. unfold demand_for. simpl.
  destruct (f_leb mbps f_zero) eqn:H1; simpl.
  { split; [by intros ?%not_elem_of_nil|]. intros (_ & _ & _ & _ & E1 & _ & E2 & _). congruence. }
  destruct (f_leb (map_get f_zero tc label) f_zero) eqn:H2.
  { split; [by intros ?%not_elem_of_nil|]. intros (_ & _ & _ & _ & _ & E1 & _ & E2). congruence. }
  destruct (Class_ repo label) as [c|]; [|split; [by intros ?%not_elem_of_nil|naive_solver]].
  rewrite list_elem_of_singleton. split; [by intros ->|].
  destruct d; simpl. intros (-> & -> & -> & [= ->] & -> & -> & _). done.
Qed.

Lemma elem_of_tenant_demands t d :
  d ∈ tenant_demands repo t ↔ d_Tenant d = t ∧ is_demand d.
Proof.
  unfold tenant_demands, is_demand. rewrite list_elem_of_bind. split.
  - intros ([from fc] & Hd & Hf%elem_of_range_map). apply list_elem_of_bind in Hd as ([to tc] & Hd & Ht%elem_of_range_map).
    case_decide as Hne; [by apply not_elem_of_nil in Hd|].
    apply list_elem_of_bind in Hd as ([label mbps] & Hd & Hl%elem_of_range_map).
    apply elem_of_demand_for in Hd as (<- & <- & <- & ? & -> & ? & ? & ?). naive_solver.
  - intros (<- & Hne & label & fc & tc & Hcl & Hf & Ht & Hl & Hto & H1 & H2).
    exists (d_From d, fc). split; [|by apply elem_of_range_map].
    apply list_elem_of_bind. exists (d_To d, tc). split; [|by apply elem_of_range_map].
    rewrite decide_False by done. apply list_elem_of_bind. exists (label, d_FromMbps d).
    split; [|by apply elem_of_range_map]. by apply elem_of_demand_for.
Qed.

Lemma NoDup_tenant_demands t : NoDup (tenant_demands repo t).
Proof.
  unfold tenant_demands. apply NoDup_bind; [| |apply NoDup_range_map].
  - intros [f1 c1] [f2 c2] d Hf1%elem_of_range_map Hf2%elem_of_range_map H1 H2.
    assert (f1 = d_From d ∧ f2 = d_From d) as [-> ->]; [|congruence].
    apply list_elem_of_bind in H1 as ([t1 tc1] & H1 & _), H2 as ([t2 tc2] & H2 & _).
    repeat case_decide; try by apply not_elem_of_nil in H1 || apply not_elem_of_nil in H2.
    apply list_elem_of_bind in H1 as (? & H1 & _), H2 as (? & H2 & _).
    apply elem_of_demand_for in H1, H2. naive_solver.
  - intros [f fc] Hf. apply NoDup_bind; [| |apply NoDup_range_map].
    + intros [f1 c1] [f2 c2] d Hf1%elem_of_range_map Hf2%elem_of_range_map H1 H2.
      assert (f1 = d_To d ∧ f2 = d_To d) as [-> ->]; [|congruence].
      repeat case_decide; try by apply not_elem_of_nil in H1 || apply not_elem_of_nil in H2.
      apply list_elem_of_bind in H1 as (? & H1 & _), H2 as (? & H2 & _).
      apply elem_of_demand_for in H1, H2. naive_solver.
    + intros [to tc] _. case_decide; [apply NoDup_nil_2|].
      apply NoDup_bind; [| |apply NoDup_range_map].
      * intros [l1 m1] [l2 m2] d Hl1 Hl2 H1%elem_of_demand_for H2%elem_of_demand_for.
        destruct H1 as (_ & _ & _ & C1 & F1 & _), H2 as (_ & _ & _ & C2 & F2 & _). simpl in *.
        pose proof (cw_label _ (rp_classes _ Hrepo) _ _ C1).
        pose proof (cw_label _ (rp_classes _ Hrepo) _ _ C2). congruence.
      * intros [label mbps] _. unfold demand_for.
        repeat case_match; first [apply NoDup_nil_2|apply NoDup_singleton].
Qed.

Lemma elem_of_BuildDemands d :
  d ∈ BuildDemands repo ↔ tr_byID repo !! t_ID (d_Tenant d) = Some (d_Tenant d) ∧ is_demand d.
Proof.
  unfold BuildDemands. rewrite merge_sort_Permutation, list_elem_of_bind. split.
  - intros (t & [<- Hd]%elem_of_tenant_demands & Ht%elem_of_TenantsByPriority). done.
  - intros [Ht Hd]. exists (d_Tenant d). rewrite elem_of_tenant_demands, elem_of_TenantsByPriority. done.
Qed.

Lemma NoDup_BuildDemands : NoDup (BuildDemands repo).
Proof.
  unfold BuildDemands. rewrite merge_sort_Permutation.
  apply NoDup_bind; [|intros; apply NoDup_tenant_demands|apply NoDup_TenantsByPriority].
  intros t1 t2 d _ _ [<- _]%elem_of_tenant_demands [<- _]%elem_of_tenant_demands. done.
Qed.

(** Demands with the same tenant id, ends and label are the same. *)
Lemma demand_unique d d' :
  d ∈ BuildDemands repo → d' ∈ BuildDemands repo → PathKey_of d = PathKey_of d' → d = d'.
Proof.
  rewrite !elem_of_BuildDemands. unfold PathKey_of.
  intros [Ht (_ & l & fc & tc & Hc & Hf & Hto & Hl & Hm & _)]
    [Ht' (_ & l' & fc' & tc' & Hc' & Hf' & Hto' & Hl' & Hm' & _)] [= Eid Ef Et El].
  pose proof (cw_label _ (rp_classes _ Hrepo) _ _ Hc). pose proof (cw_label _ (rp_classes _ Hrepo) _ _ Hc').
  destruct d, d'; simpl in *. subst. rewrite Eid in Ht. rewrite Ht' in Ht. injection Ht as <-.
  rewrite El in *. simplify_eq. done.
Qed.

Lemma NoDup_PathKeys : NoDup (PathKey_of <$> BuildDemands repo).
Proof.
  apply NoDup_fmap_2_strong; [|apply NoDup_BuildDemands].
  intros d d' Hd Hd'. by apply demand_unique.
Qed.
End demands.

(** ** Results *)

Definition positive (x : f64) : bool := negb (f_leb x f_zero).

(** The bandwidth a tenant has in a class at a PoP. *)
Definition pop_mbps (t : Tenant) (p : NodeID) (label : Z) : f64 :=
  foldl f_add f_zero (class_shares (t_Sites t) p label).

Lemma pops_mbps `{RangeOrder} t p m label :
  popsWithLabels t !! p = Some m → map_get f_zero m label = pop_mbps t p label.
Proof.
  intros Hp. pose proof (pops_lookup (t_Sites t) p label) as Hl. unfold popsWithLabels in Hp.
  unfold map_get in *. rewrite Hp in Hl. simpl in Hl. rewrite Hl. unfold pop_mbps.
  by destruct (class_shares _ _ _).
Qed.

Lemma pops_positive `{RangeOrder} t p label :
  positive (pop_mbps t p label) = true →
  ∃ m, popsWithLabels t !! p = Some m ∧ m !! label = Some (pop_mbps t p label).
Proof.
  intros Hpos. pose proof (pops_lookup (t_Sites t) p label) as Hl. unfold map_get in Hl.
  unfold pop_mbps in *. destruct (class_shares (t_Sites t) p label) as [|x xs]; [done|].
  unfold popsWithLabels. destruct (foldl add_site ∅ (t_Sites t) !! p) as [m|]; simpl in Hl.
  - eauto.
  - by rewrite lookup_empty in Hl.
Qed.

(** C6: loading either replaces the repository by one in which class names,
    labels, indexes and DSCP code points are unambiguous, every named class has
    a positive objective over known dimensions, every site sits in exactly its
    tenant's allocation and list, and the identity, portal, PoP and interface-id
    indexes agree with those lists; or it fails and keeps the old one. *)
Theorem Load_wf `{RangeOrder} r raw :
  match Load r raw with
  | (r', None) => repo_wf r'
  | (r', Some _) => r' = r
  end.
Proof. unfold Load. destruct (load_db raw) eqn:He; [by eapply load_db_wf|done]. Qed.

(** C7: the demands are exactly one per tenant, ordered pair of distinct PoPs
    and class in which the tenant's sites at both PoPs add up to a positive
    bandwidth, and carry those sums. *)
Theorem BuildDemands_exact `{RangeOrder} repo d :
  repo_wf repo →
  (d ∈ BuildDemands repo ↔
     tr_byID repo !! t_ID (d_Tenant d) = Some (d_Tenant d) ∧
     Class_ repo (tc_Label (d_Class d)) = Some (d_Class d) ∧ d_From d ≠ d_To d ∧
     d_FromMbps d = pop_mbps (d_Tenant d) (d_From d) (tc_Label (d_Class d)) ∧
     d_ToMbps d = pop_mbps (d_Tenant d) (d_To d) (tc_Label (d_Class d)) ∧
     positive (d_FromMbps d) = true ∧ positive (d_ToMbps d) = true) ∧
  NoDup (PathKey_of <$> BuildDemands repo).
Proof.
  intros Hrepo. split; [|by apply NoDup_PathKeys]. rewrite elem_of_BuildDemands by done.
  unfold is_demand. split.
  - intros (Ht & Hne & l & fc & tc & Hc & Hf & Hto & Hl & Hm & H1 & H2).
    rewrite (cw_label _ (rp_classes _ Hrepo) _ _ Hc). unfold positive. rewrite H1, H2.
    split_and!; try done.
    + rewrite <-(pops_mbps _ _ _ _ Hf). unfold map_get. by rewrite Hl.
    + by rewrite Hm, (pops_mbps _ _ _ _ Hto).
  - intros (Ht & Hc & Hne & Hf & Hto & H1 & H2). rewrite Hf in H1. rewrite Hto in H2.
    destruct (pops_positive _ _ _ H1) as (fc & Hfc & Hfl), (pops_positive _ _ _ H2) as (tc & Htc & Htl).
    apply negb_true_iff in H1, H2. split; [done|]. split; [done|].
    exists (tc_Label (d_Class d)), fc, tc. unfold map_get. rewrite Hf, Hto, Htl. done.
Qed.

(** C8: the order in which Go ranges over its maps does not show in the
    demands: any two orders give the same list. *)
Theorem BuildDemands_deterministic (o1 o2 : RangeOrder) repo :
  repo_wf repo → @BuildDemands o1 repo = @BuildDemands o2 repo.
Proof.
  intros Hrepo. unfold BuildDemands.
  assert (@TenantsByPriority o1 repo = @TenantsByPriority o2 repo) as Htenants.
  { unfold TenantsByPriority. f_equal. unfold Tenants. apply merge_sort_unique; [apply _..| |].
    - by rewrite (@range_map_perm o1), (@range_map_perm o2).
    - intros x y ([i x'] & -> & Hx)%list_elem_of_fmap ([j y'] & -> & Hy)%list_elem_of_fmap. simpl.
      apply elem_of_range_map in Hx, Hy.
      pose proof (rp_tenant _ Hrepo _ _ Hx). pose proof (rp_tenant _ Hrepo _ _ Hy).
      unfold tenant_id_le. intros. assert (i = j) by lia. congruence. }
  apply merge_sort_unique; [apply _..| |].
  - rewrite Htenants. apply bind_perm; [done|]. intros t _. unfold tenant_demands.
    rewrite (popsWithLabels_order o1 o2 t).
    apply bind_perm; [by rewrite (@range_map_perm o1), (@range_map_perm o2)|]. intros [f fc] _.
    apply bind_perm; [by rewrite (@range_map_perm o1), (@range_map_perm o2)|]. intros [to tc] _.
    case_decide; [done|].
    apply bind_perm; [by rewrite (@range_map_perm o1), (@range_map_perm o2)|done].
  - intros x y Hx Hy Hxy Hyx.
    assert (∀ d, d ∈ @TenantsByPriority o1 repo ≫= @tenant_demands o1 repo → d ∈ @BuildDemands o1 repo) as Hin.
    { intros d. unfold BuildDemands. by rewrite merge_sort_Permutation. }
    apply Hin in Hx, Hy. apply (@demand_unique o1 repo Hrepo); [done..|].
    destruct (demand_cmp_eq x y) as (Hi & Ht & Hf & Hto); [by apply (cmp_le_antisymm demand_cmp)|].
    unfold PathKey_of. f_equal; try done.
    apply (elem_of_BuildDemands repo Hrepo) in Hx as (_ & _ & lx & _ & _ & Hcx & _).
    apply (elem_of_BuildDemands repo Hrepo) in Hy as (_ & _ & ly & _ & _ & Hcy & _).
    pose proof (cw_index _ (rp_classes _ Hrepo) _ _ _ _ Hcx Hcy Hi) as ->.
    unfold Class_ in *. congruence.
Qed.

(** ** Witnesses: a tenant with one site at each of two PoPs *)

Definition demo_site (cpe pop prefix : string) (ifid mbps : Z) : rawSite :=
  {| rs_CPE := cpe; rs_PortalID := cpe; rs_Node := cpe; rs_Prefix := prefix; rs_Attach := pop;
     rs_AttachNode := pop; rs_IfID := ifid; rs_Identity := cpe; rs_ReservationMbps := f_of_Z mbps;
     rs_Classes := {["voice" := f_of_Z 5]} |}.

Definition demo_db : rawTenantDB :=
  {| db_Classes := [{| rc_Name := "voice"; rc_Label := 1; rc_Index := 1; rc_DSCP := [46];
                       rc_Objective := {["latency" := f_one]} |}];
     db_Tiers := [{| rti_Name := "gold"; rti_Index := 2 |}];
     db_Tenants := [{| rt_ID := 7; rt_Allocation := "10.7.0.0/16"; rt_Tier := "gold"; rt_VRFTable := 107;
                       rt_Sites := [demo_site "cpe1" "ams" "10.7.1.0/24" 1 30;
                                    demo_site "cpe2" "lon" "10.7.2.0/24" 2 20] |}] |}.

Definition demo_repo : JSONTenantRepository :=
  (Load (H := canonical_order) NewJSONTenantRepository demo_db).1.

Lemma demo_repo_wf : repo_wf demo_repo.
Proof.
  apply (@load_db_wf canonical_order demo_db). unfold demo_repo, Load.
  assert (is_ok (load_db (H := canonical_order) demo_db) = true) as Hok by (vm_compute; reflexivity).
  by destruct (load_db demo_db).
Qed.

Lemma BuildDemands_exact_witness :
  let _ := canonical_order in
  length (BuildDemands demo_repo) = 4%nat ∧ NoDup (PathKey_of <$> BuildDemands demo_repo).
Proof.
  intros ro. split; [vm_compute; reflexivity|].
  destruct (BuildDemands demo_repo) as [|d ds] eqn:He; [constructor|]. rewrite <-He.
  apply (@BuildDemands_exact canonical_order demo_repo d demo_repo_wf).
Defined.

Lemma BuildDemands_deterministic_witness :
  @BuildDemands canonical_order demo_repo = @BuildDemands reversed_order demo_repo ∧
  (λ d, (d_From d, d_To d, tc_Name (d_Class d))) <$> @BuildDemands reversed_order demo_repo =
    [("ams", "lon", "voice"); ("lon", "ams", "voice"); ("ams", "lon", "default"); ("lon", "ams", "default")]%string.
Proof.
  split; [apply (BuildDemands_deterministic canonical_order reversed_order demo_repo demo_repo_wf)|].
  vm_compute. reflexivity.
Defined.
