(* ===== verification/Pce.v ===== *)
(** The path computation engine: one tick of its loop (pce.go) with the report
    it leaves (pce_report.go). *)

From S2P Require Import Prelude Float64 Netip Topology CostGraph PceGraph Demo Cspf CspfCorrect Bandwidth Tenants Demand.

Definition linkStaleAfter : Duration := 15 * Second.

(** ** Path changes and their causes *)

Inductive PathChangeKind :=
  | PathChangeRerouted | PathChangeGated | PathChangeHeldDown | PathChangeNew | PathChangeLinkDown.

Record PathChangeCause := {
  pc_Edge : EdgeID;
  pc_Dim : CostDimension;
  pc_Was : f64;
  pc_Now : f64;
  pc_Delta : f64;
  pc_Share : f64;
}.

Record PCETickReportReroute := {
  rr_At : Time;
  rr_Tenant : TenantID;
  rr_Label : Z;
  rr_Src : NodeID;
  rr_Dst : NodeID;
  rr_Kind : PathChangeKind;
  rr_FromPath : Path;
  rr_ToPath : Path;
  rr_Causes : list PathChangeCause;
}.

Definition causeShareFloor : f64 := f_ratio 5 100.

(** The consecutive pairs of a path's nodes. *)
Definition hops (nodes : list NodeID) : list (NodeID * NodeID) := zip nodes (tail nodes).

Section report.
Context `{RangeOrder}.

Definition cause_step (dim : CostDimension) (now : gmap CostGraphEdge Cost)
    (acc : list PathChangeCause * f64) (kp : CostGraphEdge * Cost) : list PathChangeCause * f64 :=
  match now !! kp.1 with
  | None => acc
  | Some curr =>
      let was_ := map_get f_zero (Costs kp.2) dim in
      let now_ := map_get f_zero (Costs curr) dim in
      let delta := (now_ - was_)%f64 in
      if f_leb delta f_zero then acc
      else (acc.1 ++ [{| pc_Edge := cge_ID kp.1; pc_Dim := dim; pc_Was := was_; pc_Now := now_;
                         pc_Delta := delta; pc_Share := f_zero |}], (acc.2 + delta)%f64)
  end.

(** [sort.Slice] by falling delta. *)
Definition cause_le (a b : PathChangeCause) : Prop := f_ltb (pc_Delta a) (pc_Delta b) = false.
#[export] Instance cause_le_dec : RelDecision cause_le.
Proof. intros a b. unfold cause_le. apply _. Defined.

Definition with_share (total : f64) (c : PathChangeCause) : PathChangeCause :=
  {| pc_Edge := pc_Edge c; pc_Dim := pc_Dim c; pc_Was := pc_Was c; pc_Now := pc_Now c;
     pc_Delta := pc_Delta c; pc_Share := (pc_Delta c / total)%f64 |}.

(** [was] is nil before the first tick ends. *)
Definition attributeCauses (from : Path) (dim : CostDimension) (was now : gmap CostGraphEdge Cost)
    : list PathChangeCause :=
  if decide (was = ∅) then [] else
  let '(causes, total) :=
    foldl (λ acc '(a, b), foldl (cause_step dim now) acc (range_map (CostsBetween was a b)))
      ([], f_zero) (hops (p_Nodes from)) in
  if f_leb total f_zero then []
  else merge_sort cause_le (filter (λ c, f_ltb (pc_Share c) causeShareFloor = false)
                              (with_share total <$> causes)).
End report.

Definition recentPathChangeLimit : nat := 64.

(** [PathChangeStore] as its slice, newest first. *)
Definition Record_ (store changes : list PCETickReportReroute) : list PCETickReportReroute :=
  match changes with
  | [] => store
  | _ => take recentPathChangeLimit (changes ++ store)
  end.

Definition Recent (store : list PCETickReportReroute) : list PCETickReportReroute := store.

(** ** The engine *)

Record PCE := {
  pce_costGraph : CostGraph;
  pce_bandwidthReservationReg : BandwidthReservationRegistry;
  pce_PathStore : PathSet;
  pce_Changes : list PCETickReportReroute;
  pce_previousCosts : gmap CostGraphEdge Cost;
  pce_holdDownDuration : Duration;
  pce_lastRerouteMap : gmap PathKey Time;
}.

Definition NewPCE (costGraph : CostGraph) (holdDown : Duration) : PCE :=
  {| pce_costGraph := costGraph;
     pce_bandwidthReservationReg := NewBandwidthReservationRegistry;
     pce_PathStore := ∅; pce_Changes := []; pce_previousCosts := ∅;
     pce_holdDownDuration := holdDown; pce_lastRerouteMap := ∅ |}.

Definition defaultClassObjective : gmap CostDimension f64 := {[ COSTDIM_STATIC_UTILIZATION := f_one ]}.

Definition ClassObjective (class : option TrafficClass) : gmap CostDimension f64 :=
  match class with
  | None => defaultClassObjective
  | Some c => if tc_Label c =? DefaultClassLabel then defaultClassObjective else tc_Objective c
  end.

(** [edge.Up] for one edge, given when it was last seen. *)
Definition link_state (lastSeen : gmap EdgeID Time) (now : Time) (e : Edge) : Edge :=
  match lastSeen !! Edge_ID e with
  | None => e
  | Some seenAt => Edge_set_Up (time_sub now seenAt <? linkStaleAfter) e
  end.

Definition updateLinkStates (cg : CostGraph) (g : Graph) (now : Time) : Graph :=
  {| g_nodes := g_nodes g; g_edges := link_state (LastSeen cg) now <$> g_edges g; g_prefixes := g_prefixes g;
     g_adj := g_adj g |}.

Definition util_cost (r : f64) (e : Edge) : f64 :=
  let capacity := (Edge_Bandwidth e * one_minus_headroom)%f64 in
  if f_ltb f_zero capacity then staticUtilizationCost (r / capacity)%f64 else f_inf.

Definition rescorePath (path : Path) (objective : Objective) (g : PCEGraph)
    (costs : gmap CostGraphEdge Cost) : f64 :=
  (fix go (ids : list PCEEdgeID) (totalCost : f64) : f64 :=
     match ids with
     | [] => totalCost
     | id :: ids =>
         match pg_edges g !! id with
         | None => f_inf
         | Some edge => go ids (totalCost + objective edge (EdgeCost edge costs))%f64
         end
     end) (p_Edges path) f_zero.

(** 1.1, the gain a reroute must reach. *)
Definition rerouteGain : f64 := f_ratio 11 10.

Section tick.
Context `{RangeOrder}.

Definition updateStaticBandwidthUtilizationCost (reg : BandwidthReservationRegistry) (g : PCEGraph)
    (cg : CostGraph) : CostGraph :=
  let reserved := ReservedMap reg in
  foldl (λ cg '(id, edge),
    foldl (λ cg e, UpdateCost cg (Edge_ID e) COSTDIM_STATIC_UTILIZATION
                     (util_cost (map_get f_zero reserved id) e)) cg (pe_RealEdges edge))
    cg (range_map (pg_edges g)).

(** What the demand loop reads and does not change. *)
Record tick_env := {
  te_now : Time;
  te_previous : PathSet;
  te_graph : PCEGraph;
  te_costSnapshot : gmap CostGraphEdge Cost;
  te_previousCosts : gmap CostGraphEdge Cost;
  te_holdDown : Duration;
}.

Record tick_state := {
  ts_reg : BandwidthReservationRegistry;
  ts_costGraph : CostGraph;
  ts_paths : PathSet;
  ts_reroutes : list PCETickReportReroute;
  ts_gated : list PCETickReportReroute;
  ts_lastReroute : gmap PathKey Time;
}.

Definition set_path (pk : PathKey) (p : Path) (st : tick_state) : tick_state :=
  {| ts_reg := ts_reg st; ts_costGraph := ts_costGraph st; ts_paths := <[pk := p]> (ts_paths st);
     ts_reroutes := ts_reroutes st; ts_gated := ts_gated st; ts_lastReroute := ts_lastReroute st |}.

Definition add_gated (r : PCETickReportReroute) (st : tick_state) : tick_state :=
  {| ts_reg := ts_reg st; ts_costGraph := ts_costGraph st; ts_paths := ts_paths st;
     ts_reroutes := ts_reroutes st; ts_gated := ts_gated st ++ [r]; ts_lastReroute := ts_lastReroute st |}.

Definition empty_path : Path :=
  {| p_Nodes := []; p_Edges := []; p_Links := []; p_Cost := f_zero; p_Label := 0 |}.

Definition reroute_entry (env : tick_env) (d : Demand) (kind : PathChangeKind) (from to : Path)
    (causes : list PathChangeCause) : PCETickReportReroute :=
  {| rr_At := te_now env; rr_Tenant := t_ID (d_Tenant d); rr_Label := pk_Label (PathKey_of d);
     rr_Src := d_From d; rr_Dst := d_To d; rr_Kind := kind; rr_FromPath := from; rr_ToPath := to;
     rr_Causes := causes |}.

(** The reservation is moved onto the computed path; when that succeeds the
    utilization costs are refreshed, the change is reported and the path set. *)
Definition install (env : tick_env) (d : Demand) (from : list PCEEdgeID) (edges : list PCEEdge)
    (entry : PCETickReportReroute) (stamp : bool) (computed : Path) (st : tick_state) : tick_state :=
  match Move (ts_reg st) from edges (t_ID (d_Tenant d)) (BandwidthReservation_of d) with
  | (_, Some _) => st
  | (reg, None) =>
      {| ts_reg := reg;
         ts_costGraph := updateStaticBandwidthUtilizationCost reg (te_graph env) (ts_costGraph st);
         ts_paths := <[PathKey_of d := computed]> (ts_paths st);
         ts_reroutes := ts_reroutes st ++ [entry];
         ts_gated := ts_gated st;
         ts_lastReroute := if stamp then <[PathKey_of d := te_now env]> (ts_lastReroute st)
                           else ts_lastReroute st |}
  end.

(** A demand whose path could be computed. *)
Definition place (env : tick_env) (d : Demand) (computed : Path) (edges : list PCEEdge)
    (st : tick_state) : tick_state :=
  let pathKey := PathKey_of d in
  match te_previous env !! pathKey with
  | None => install env d [] edges (reroute_entry env d PathChangeNew empty_path computed []) false computed st
  | Some prev =>
      let previousCost := rescorePath prev (WeightedCost (ClassObjective (Some (d_Class d))))
                            (te_graph env) (te_costSnapshot env) in
      let broken := is_inf previousCost in
      let prev := if broken then prev else Path_set_Cost previousCost prev in
      if Path_Equal prev computed then set_path pathKey computed st else
      let causes := attributeCauses prev COSTDIM_LATENCY (te_previousCosts env) (te_costSnapshot env) in
      if negb broken && f_ltb (p_Cost prev / p_Cost computed)%f64 rerouteGain then
        set_path pathKey prev (add_gated (reroute_entry env d PathChangeGated prev computed causes) st)
      else
        let held := match ts_lastReroute st !! pathKey with
                    | Some since => negb broken && (time_sub (te_now env) since <? te_holdDown env)
                    | None => false end in
        if held then
          set_path pathKey prev (add_gated (reroute_entry env d PathChangeHeldDown prev computed causes) st)
        else
          install env d (p_Edges prev) edges
            (reroute_entry env d (if broken then PathChangeLinkDown else PathChangeRerouted) prev computed causes)
            true computed st
  end.

(** One turn of the demand loop. *)
Definition demand_step (env : tick_env) (st : tick_state) (d : Demand) : tick_state :=
  let pruned := PruneGraph (ts_reg st) (te_graph env) (t_ID (d_Tenant d)) (BandwidthReservation_of d) in
  match computePath (Some pruned) (CostsSnapshot (ts_costGraph st)) (d_From d) (d_To d)
          (Some (WeightedCost (ClassObjective (Some (d_Class d))))) with
  | Err _ => st
  | Ok p =>
      let computed := Path_set_Label (tc_Label (d_Class d)) p in
      match mapM (λ id, pg_edges (te_graph env) !! id) (p_Edges computed) with
      | None => st
      | Some edges => place env d computed edges st
      end
  end.

(** One tick: the engine and the topology after it, and the path set sent to
    the controller, if the tick ran. The clock is read three times. *)
Definition tick (p : PCE) (g : Graph) (repo : JSONTenantRepository) (t_ready now t_links : Time)
    : PCE * Graph * option PathSet :=
  if IsReady (pce_costGraph p) t_ready then
    let previous := pce_PathStore p in
    let g := updateLinkStates (pce_costGraph p) g t_links in
    let pceGraph := NewPCEGraph g in
    let cg := updateStaticBandwidthUtilizationCost (pce_bandwidthReservationReg p) pceGraph (pce_costGraph p) in
    let env := {| te_now := now; te_previous := previous; te_graph := pceGraph;
                  te_costSnapshot := CostsSnapshot cg; te_previousCosts := pce_previousCosts p;
                  te_holdDown := pce_holdDownDuration p |} in
    let st := foldl (demand_step env)
      {| ts_reg := pce_bandwidthReservationReg p; ts_costGraph := cg; ts_paths := previous;
         ts_reroutes := []; ts_gated := []; ts_lastReroute := pce_lastRerouteMap p |}
      (BuildDemands repo) in
    ({| pce_costGraph := ts_costGraph st; pce_bandwidthReservationReg := ts_reg st;
        pce_PathStore := ts_paths st;
        pce_Changes := Record_ (Record_ (pce_Changes p) (ts_reroutes st)) (ts_gated st);
        pce_previousCosts := te_costSnapshot env;
        pce_holdDownDuration := pce_holdDownDuration p;
        pce_lastRerouteMap := ts_lastReroute st |}, g, Some (ts_paths st))
  else (p, g, None).
End tick.
