(* ===== verification/PceCorrect.v ===== *)
(** Correctness of the path computation engine: reservations follow the stored
    paths, stored paths are loop-free routes between the right PoPs, and a path
    only changes for a reason the damping rules allow. *)

From S2P Require Import Prelude Float64 Netip Topology CostGraph PceGraph Demo Cspf CspfCorrect Bandwidth Tenants Demand Pce.

(** ** The outcomes of a demand *)

Definition objective_of (d : Demand) : Objective := WeightedCost (ClassObjective (Some (d_Class d))).

Definition previous_cost (env : tick_env) (d : Demand) (prev : Path) : f64 :=
  rescorePath prev (objective_of d) (te_graph env) (te_costSnapshot env).

Definition rescored (env : tick_env) (d : Demand) (prev : Path) : Path :=
  if is_inf (previous_cost env d prev) then prev else Path_set_Cost (previous_cost env d prev) prev.

Lemma rescored_same env d prev :
  p_Edges (rescored env d prev) = p_Edges prev ∧ p_Nodes (rescored env d prev) = p_Nodes prev ∧
  p_Label (rescored env d prev) = p_Label prev.
Proof. unfold rescored. by destruct (is_inf _). Qed.

(** When the damping rules let a path be left. *)
Definition may_leave (env : tick_env) (lastReroute : gmap PathKey Time) (d : Demand) (prev computed : Path)
    : Prop :=
  is_inf (previous_cost env d prev) = true ∨
  (f_ltb (previous_cost env d prev / p_Cost computed)%f64 rerouteGain = false ∧
   ∀ since, lastReroute !! PathKey_of d = Some since → te_holdDown env ≤ time_sub (te_now env) since).

Section outcomes.
Context `{RangeOrder}.

(** What [place] can do to the loop's state. *)
Inductive outcome (env : tick_env) (d : Demand) (computed : Path) (edges : list PCEEdge) (st : tick_state)
    : tick_state → Prop :=
  | out_refused : outcome env d computed edges st st
  | out_kept prev q st' :
      te_previous env !! PathKey_of d = Some prev →
      p_Edges q = p_Edges prev → p_Nodes q = p_Nodes prev → p_Label q = p_Label prev →
      ts_reg st' = ts_reg st → ts_costGraph st' = ts_costGraph st →
      ts_paths st' = <[PathKey_of d := q]> (ts_paths st) → ts_lastReroute st' = ts_lastReroute st →
      ts_reroutes st' = ts_reroutes st →
      outcome env d computed edges st st'
  | out_new st' reg' :
      te_previous env !! PathKey_of d = None →
      Move (ts_reg st) [] edges (t_ID (d_Tenant d)) (BandwidthReservation_of d) = (reg', None) →
      ts_reg st' = reg' →
      ts_costGraph st' = updateStaticBandwidthUtilizationCost reg' (te_graph env) (ts_costGraph st) →
      ts_paths st' = <[PathKey_of d := computed]> (ts_paths st) → ts_lastReroute st' = ts_lastReroute st →
      outcome env d computed edges st st'
  | out_rerouted prev st' reg' :
      te_previous env !! PathKey_of d = Some prev →
      may_leave env (ts_lastReroute st) d prev computed →
      Move (ts_reg st) (p_Edges prev) edges (t_ID (d_Tenant d)) (BandwidthReservation_of d) = (reg', None) →
      ts_reg st' = reg' →
      ts_costGraph st' = updateStaticBandwidthUtilizationCost reg' (te_graph env) (ts_costGraph st) →
      ts_paths st' = <[PathKey_of d := computed]> (ts_paths st) →
      ts_lastReroute st' = <[PathKey_of d := te_now env]> (ts_lastReroute st) →
      outcome env d computed edges st st'.

Lemma place_outcome env d computed edges st :
  outcome env d computed edges st (place env d computed edges st).
Proof.
  unfold place. destruct (te_previous env !! PathKey_of d) as [prev|] eqn:Hprev.
  2:{ unfold install. destruct (Move _ _ _ _ _) as [reg' [e|]] eqn:HM; [constructor|].
      by eapply out_new. }
  fold (objective_of d). fold (previous_cost env d prev). fold (rescored env d prev).
  destruct (rescored_same env d prev) as (HE & HN & HL).
  destruct (Path_Equal (rescored env d prev) computed) eqn:Heq.
  { apply Path_Equal_spec in Heq as (El & En & Ee). eapply (out_kept _ _ _ _ _ prev computed); simpl; congruence. }
  destruct (negb (is_inf (previous_cost env d prev)) && _) eqn:Hgate.
  { by eapply (out_kept _ _ _ _ _ prev (rescored env d prev)). }
  destruct (match ts_lastReroute st !! PathKey_of d with Some _ => _ | None => _ end) eqn:Hheld.
  { by eapply (out_kept _ _ _ _ _ prev (rescored env d prev)). }
  unfold install. rewrite HE. destruct (Move _ _ _ _ _) as [reg' [e|]] eqn:HM; [constructor|].
  eapply (out_rerouted _ _ _ _ _ prev); try done. unfold may_leave.
  destruct (is_inf (previous_cost env d prev)) eqn:Hinf; [by left|right]. simpl in Hgate. split.
  - unfold rescored in Hgate. rewrite Hinf in Hgate. done.
  - intros since Hs. rewrite Hs in Hheld. simpl in Hheld. by apply Z.ltb_ge in Hheld.
Qed.

(** The path a demand's turn computes, when it computes one. *)
Definition computes (env : tick_env) (st : tick_state) (d : Demand) (p : Path) : Prop :=
  computePath (Some (PruneGraph (ts_reg st) (te_graph env) (t_ID (d_Tenant d)) (BandwidthReservation_of d)))
    (CostsSnapshot (ts_costGraph st)) (d_From d) (d_To d) (Some (objective_of d)) = Ok p.

Lemma mapM_edges g ids edges :
  pce_wf g → mapM (λ id, pg_edges g !! id) ids = Some edges → pe_ID <$> edges = ids.
Proof.
  intros Hwf HM. apply mapM_Some in HM. induction HM as [|id e ids edges He HF IH]; [done|].
  rewrite fmap_cons, IH. f_equal. by apply (pw_edge _ Hwf) in He as [? _].
Qed.

Lemma demand_step_outcome env st d :
  pce_wf (te_graph env) →
  demand_step env st d = st ∨
  ∃ p edges, computes env st d p ∧ pe_ID <$> edges = p_Edges p ∧
    outcome env d (Path_set_Label (tc_Label (d_Class d)) p) edges st (demand_step env st d).
Proof.
  intros Hwf. unfold demand_step, computes. fold (objective_of d).
  destruct (computePath _ _ _ _ _) as [p|]; [|by left].
  destruct (mapM _ _) as [edges|] eqn:HM; [|by left]. right. exists p, edges.
  split; [done|]. split; [by apply (mapM_edges (te_graph env))|]. apply place_outcome.
Qed.
End outcomes.

(** ** Reservations follow the stored paths *)

Definition reservation_key (pk : PathKey) : BandwidthReservationKey :=
  {| rk_SourcePop := pk_From pk; rk_SinkPop := pk_To pk; rk_Label := pk_Label pk |}.

Lemma reservation_key_of d : br_Key (BandwidthReservation_of d) = reservation_key (PathKey_of d).
Proof. done. Qed.

(** The edges on which the demand of a key holds a reservation are exactly the
    edges of its stored path. *)
Definition reserved_on_path (reg : BandwidthReservationRegistry) (paths : PathSet) : Prop :=
  ∀ pk id, is_Some (booking reg id (pk_Tenant pk) (reservation_key pk)) ↔
           ∃ p, paths !! pk = Some p ∧ id ∈ p_Edges p.

Lemma pk_same pk d :
  pk_Tenant pk = t_ID (d_Tenant d) → reservation_key pk = br_Key (BandwidthReservation_of d) → pk = PathKey_of d.
Proof. destruct pk. intros Ht Hk. simpl in *. injection Hk as -> -> ->. by subst. Qed.

Lemma reserved_move `{RangeOrder} reg paths d from edges reg' q :
  reserved_on_path reg paths →
  Move reg from edges (t_ID (d_Tenant d)) (BandwidthReservation_of d) = (reg', None) →
  (∀ p, paths !! PathKey_of d = Some p → p_Edges p = from) →
  (paths !! PathKey_of d = None → from = []) →
  p_Edges q = pe_ID <$> edges →
  reserved_on_path reg' (<[PathKey_of d := q]> paths).
Proof.
  intros Hres HM Hfrom Hnone Hq pk id.
  rewrite (Move_booking _ _ _ _ _ _ id (pk_Tenant pk) (reservation_key pk) HM).
  destruct (decide (pk = PathKey_of d)) as [->|Hne].
  - rewrite (decide_True (P := _ ∧ _)) by done. rewrite lookup_insert_eq.
    destruct (decide (id ∈ pe_ID <$> edges)) as [Hin|Hin].
    { split; [|eauto]. intros _. exists q. by rewrite Hq. }
    destruct (decide (id ∈ from)) as [Hf|Hf].
    { split; [by intros []|]. intros (p & [= <-] & Hp). by rewrite Hq in Hp. }
    split.
    + intros Hb. apply (Hres (PathKey_of d) id) in Hb as (p & Hp & Hid). by rewrite (Hfrom p Hp) in Hid.
    + intros (p & [= <-] & Hp). by rewrite Hq in Hp.
  - rewrite lookup_insert_ne by done. rewrite (decide_False (P := _ ∧ _)); [apply Hres|].
    intros [Ht Hk]. by apply Hne, pk_same.
Qed.

Lemma reserved_keep reg paths pk q :
  reserved_on_path reg paths → p_Edges <$> paths !! pk = Some (p_Edges q) →
  reserved_on_path reg (<[pk := q]> paths).
Proof.
  unfold reserved_on_path. intros Hres Hq pk' id. rewrite Hres. destruct (decide (pk' = pk)) as [->|Hne].
  - rewrite lookup_insert_eq. destruct (paths !! pk) as [p|]; [|done]. injection Hq as Hq.
    split; intros (x & [= <-] & Hid); eexists; (split; [done|congruence]).
  - by rewrite lookup_insert_ne.
Qed.

(** ** Loads and utilization costs are non-negative *)

Definition registry_nn (reg : BandwidthReservationRegistry) : Prop :=
  ∀ id t k r, booking reg id t k = Some r → nn (br_SourceBandwidth r) ∧ nn (br_SinkBandwidth r).

Lemma Move_nn `{RangeOrder} reg from to tid c :
  nn (br_SourceBandwidth c) → nn (br_SinkBandwidth c) → registry_nn reg →
  registry_nn (Move reg from to tid c).1.
Proof.
  intros H1 H2 Hreg id t k r. destruct (Move reg from to tid c) as [reg' [e|]] eqn:HM; simpl.
  - apply Move_err in HM as [-> _]. apply Hreg.
  - rewrite (Move_booking _ _ _ _ _ _ id t k HM). repeat case_decide; [|done|apply Hreg..].
    by intros [= <-].
Qed.

Definition sums_nn (m : gmap Z f64) : Prop := ∀ l x, m !! l = Some x → nn x.

Lemma sums_nn_get m l : sums_nn m → nn (map_get f_zero m l).
Proof. intros Hm. unfold map_get. destruct (m !! l) eqn:Hl; [by eapply Hm|done]. Qed.

Lemma sum_side_nn pop bw l :
  (∀ r, r ∈ l → nn (bw r)) → sums_nn (foldl (sum_side pop bw) (∅, ∅) l).1.
Proof.
  intros Hl. apply (foldl_ind (sum_side pop bw) (λ _ s, sums_nn s.1)).
  - intros l' x. simpl. by rewrite lookup_empty.
  - intros _ r [m seen] Hm Hr. unfold sum_side. simpl in *. case_decide; [done|]. simpl.
    intros l' x. rewrite lookup_insert_Some. intros [[<- <-]|[_ ?]]; [|by eapply Hm].
    apply f_add_nn; [by apply sums_nn_get|auto].
Qed.

Section loads.
Context `{RangeOrder}.

Lemma CalculateReservedBandwidth_nn e :
  (∀ k r, te_Reservations e !! k = Some r → nn (br_SourceBandwidth r) ∧ nn (br_SinkBandwidth r)) →
  nn (CalculateReservedBandwidth e).
Proof.
  intros He. unfold CalculateReservedBandwidth, getBandwidthSums.
  set (rs := (range_map (te_Reservations e)).*2).
  assert (∀ r, r ∈ rs → nn (br_SourceBandwidth r) ∧ nn (br_SinkBandwidth r)) as Hrs.
  { intros r ([k r'] & -> & Hin%elem_of_range_map)%list_elem_of_fmap. by eapply He. }
  set (s0 := {| bs_sumSources := ∅; bs_sumSinks := ∅; bs_seenSources := ∅; bs_seenSinks := ∅ |}).
  destruct (sums_step_sides rs s0) as [H1 H2]. cbn [bs_sumSources bs_seenSources bs_sumSinks bs_seenSinks s0] in H1, H2.
  pose proof (sum_side_nn rk_SourcePop br_SourceBandwidth rs) as N1. rewrite <-H1 in N1.
  pose proof (sum_side_nn rk_SinkPop br_SinkBandwidth rs) as N2. rewrite <-H2 in N2.
  simpl in N1, N2. apply (foldl_ind _ (λ _ t, nn t)); [done|].
  intros _ [label x] t Ht _. apply f_add_nn; [done|].
  apply f_min_nn; apply sums_nn_get; [apply N1|apply N2]; intros; by apply Hrs.
Qed.

Lemma ReservedMap_nn reg id : registry_nn reg → nn (map_get f_zero (ReservedMap reg) id).
Proof.
  intros Hreg. unfold map_get, ReservedMap. rewrite lookup_fmap.
  destruct (reg !! id) as [e|] eqn:He; [|done]. simpl. unfold loadAndCapacity.
  apply (foldl_ind _ (λ _ t, nn t)); [done|]. intros _ [t te] x Hx Hin%elem_of_range_map.
  apply f_add_nn; [done|]. apply CalculateReservedBandwidth_nn. intros k r Hk.
  apply (Hreg id t k). unfold booking. rewrite He. simpl. rewrite Hin. done.
Qed.
End loads.

Lemma staticUtilizationCost_nn f : nn f → nn (staticUtilizationCost f).
Proof.
  intros Hf. unfold staticUtilizationCost. rewrite f_leb_val by done.
  destruct (Z.leb_spec (val f_one) (val f)) as [|Hlt]; [done|].
  assert (pos_finite (convexUtilization staticUtilizationRef)) as Href by (vm_compute; done).
  apply f_div_nn; [|exact Href]. unfold convexUtilization. apply f_div_nn; [done|].
  apply f_sub_pos; [done|done|done|]. vm_compute. done.
Qed.

(** A link whose usable capacity is an ordinary number. *)
Definition usable (e : Edge) : Prop :=
  let capacity := (Edge_Bandwidth e * one_minus_headroom)%f64 in nn capacity ∧ is_inf capacity = false.

Lemma util_cost_nn r e : nn r → usable e → nn (util_cost r e).
Proof.
  intros Hr [Hn Hi]. unfold util_cost. rewrite f_ltb_val by done.
  destruct (Z.ltb_spec (val f_zero) (val (Edge_Bandwidth e * one_minus_headroom)%f64)) as [Hlt|]; [|done].
  apply staticUtilizationCost_nn, f_div_nn; [done|]. apply nn_pos_finite; [done|].
  split; [done|]. pose proof (val_bound _ Hn).
  destruct (decide (val (Edge_Bandwidth e * one_minus_headroom)%f64 = INF)) as [He|]; [|lia].
  apply is_inf_val in He; [congruence|done].
Qed.

Definition graph_usable (g : PCEGraph) : Prop :=
  ∀ id e r, pg_edges g !! id = Some e → r ∈ pe_RealEdges e → usable r.

Lemma updateStatic_nn `{RangeOrder} reg g cg :
  registry_nn reg → graph_usable g → costs_nn (CostsSnapshot cg) →
  costs_nn (CostsSnapshot (updateStaticBandwidthUtilizationCost reg g cg)).
Proof.
  intros Hreg Hg Hcg. unfold updateStaticBandwidthUtilizationCost.
  apply (foldl_ind _ (λ _ c, costs_nn (CostsSnapshot c))); [done|].
  intros _ [id e] c Hc Hin%elem_of_range_map.
  apply (foldl_ind _ (λ _ c, costs_nn (CostsSnapshot c))); [done|].
  intros _ r c' Hc' Hr. apply UpdateCost_nn; [|done].
  apply util_cost_nn; [by apply ReservedMap_nn|]. by eapply Hg.
Qed.

(** ** Routes *)

Fixpoint chained (n : NodeID) (es : list PCEEdgeID) : Prop :=
  match es with
  | [] => True
  | id :: es => id_From id = n ∧ chained (id_To id) es
  end.

(** A loop-free route from one PoP to the other, under the class's label. *)
Record route_ok (pk : PathKey) (p : Path) : Prop := {
  ro_label : p_Label p = pk_Label pk;
  ro_nodes : p_Nodes p = pk_From pk :: (id_To <$> p_Edges p);
  ro_last : list.last (p_Nodes p) = Some (pk_To pk);
  ro_nodup : NoDup (p_Nodes p);
  ro_chained : chained (pk_From pk) (p_Edges p);
}.

Lemma chained_snoc n es id m :
  list.last (n :: (id_To <$> es)) = Some m → chained n es → id_From id = m → chained n (es ++ [id]).
Proof.
  revert n. induction es as [|e es IH]; intros n; simpl.
  - by intros [= ->] _ ->.
  - intros Hl [Hf Hc] Hid. split; [done|]. apply IH; [|done|done]. by destruct es.
Qed.

Lemma walk_route g src es n :
  pce_wf g → walk g src es n → chained src es ∧ list.last (walk_nodes src es) = Some n.
Proof.
  intros Hwf. induction 1 as [|es u id e Hw [IH1 IH2] Ha He Ht]; [done|].
  destruct (pw_adj _ Hwf _ _ Ha) as [_ Hfrom]. split; [by apply (chained_snoc _ _ _ u)|].
  unfold walk_nodes. rewrite fmap_app. change (id_To <$> [id]) with [id_To id]. rewrite app_comm_cons, last_snoc. f_equal.
  by destruct (pw_edge _ Hwf _ _ He) as (_ & _ & ->).
Qed.

Definition demand_ok (d : Demand) : Prop :=
  nn (d_FromMbps d) ∧ nn (d_ToMbps d) ∧
  ∀ dim w, ClassObjective (Some (d_Class d)) !! dim = Some w → pos_finite w.

Lemma computes_route `{RangeOrder} env st d p :
  pce_wf (te_graph env) → costs_nn (CostsSnapshot (ts_costGraph st)) → demand_ok d → computes env st d p →
  route_ok (PathKey_of d) (Path_set_Label (tc_Label (d_Class d)) p).
Proof.
  intros Hwf Hc (_ & _ & Hw) Hp. set (g' := PruneGraph (ts_reg st) (te_graph env) (t_ID (d_Tenant d)) (BandwidthReservation_of d)).
  assert (pce_wf g') as Hwf' by (by apply PruneGraph_wf).
  destruct (computePath_walk g' _ _ _ _ _ Hwf' (λ id e, weighted_edge_nn g' _ _ id e Hc Hw) Hp) as (Hwalk & Hnd & ->).
  destruct (walk_route _ _ _ _ Hwf' Hwalk) as [Hch Hlast]. by split.
Qed.

Lemma route_same pk p q :
  route_ok pk p → p_Edges q = p_Edges p → p_Nodes q = p_Nodes p → p_Label q = p_Label p → route_ok pk q.
Proof. intros [? ? ? ? ?] HE HN HL. split; rewrite ?HE, ?HN, ?HL; done. Qed.

(** ** The demand loop *)

Definition same_route (p q : Path) : Prop :=
  p_Edges q = p_Edges p ∧ p_Nodes q = p_Nodes p ∧ p_Label q = p_Label p.

Section loop.
Context `{RangeOrder} (env : tick_env) (last0 : gmap PathKey Time).
Hypothesis Hwf : pce_wf (te_graph env).

(** What holds after the demands in [ds] had their turn. *)
Record loop_inv (ds : list Demand) (st : tick_state) : Prop := {
  lv_reserved : reserved_on_path (ts_reg st) (ts_paths st);
  lv_todo : ∀ pk, pk ∉ PathKey_of <$> ds →
    ts_paths st !! pk = te_previous env !! pk ∧ ts_lastReroute st !! pk = last0 !! pk;
  lv_previous : ∀ pk p, te_previous env !! pk = Some p →
    ∃ q, ts_paths st !! pk = Some q ∧
      (same_route p q ∨ ∃ d, d ∈ ds ∧ PathKey_of d = pk ∧ may_leave env last0 d p q ∧
                             ts_lastReroute st !! pk = Some (te_now env));
}.

Lemma same_route_refl p : same_route p p.
Proof. done. Qed.

Lemma loop_inv_insert ds st d st' q :
  loop_inv ds st → PathKey_of d ∉ PathKey_of <$> ds →
  ts_paths st' = <[PathKey_of d := q]> (ts_paths st) →
  (∀ pk, pk ≠ PathKey_of d → ts_lastReroute st' !! pk = ts_lastReroute st !! pk) →
  reserved_on_path (ts_reg st') (ts_paths st') →
  (∀ p, te_previous env !! PathKey_of d = Some p → same_route p q ∨
     (may_leave env last0 d p q ∧ ts_lastReroute st' !! PathKey_of d = Some (te_now env))) →
  loop_inv (ds ++ [d]) st'.
Proof.
  intros [Hres Htodo Hprev] Hnew Hpaths Hlast Hres' Hq. split; [done| |].
  - intros pk. rewrite fmap_app, elem_of_app. simpl. rewrite list_elem_of_singleton. intros Hpk.
    rewrite Hpaths, lookup_insert_ne, Hlast by naive_solver. naive_solver.
  - intros pk p Hp. rewrite Hpaths. destruct (decide (pk = PathKey_of d)) as [->|Hne].
    + exists q. rewrite lookup_insert_eq. split; [done|]. destruct (Hq p Hp) as [?|[? ?]]; [by left|right].
      exists d. split_and!; try done. set_solver.
    + rewrite lookup_insert_ne, Hlast by done. destruct (Hprev pk p Hp) as (q' & ? & [?|(d' & ? & ?)]).
      * eauto.
      * exists q'. split; [done|]. right. exists d'. split; [set_solver|done].
Qed.

Lemma loop_inv_keep ds st d : loop_inv ds st → loop_inv (ds ++ [d]) st.
Proof.
  intros [Hres Htodo Hprev]. split; [done| |].
  - intros pk Hpk. apply Htodo. rewrite fmap_app in Hpk. set_solver.
  - intros pk p Hp. destruct (Hprev pk p Hp) as (q & ? & [?|(d' & ? & ?)]); [eauto|].
    exists q. split; [done|]. right. exists d'. split; [set_solver|done].
Qed.

Lemma demand_step_inv ds st d :
  loop_inv ds st → PathKey_of d ∉ PathKey_of <$> ds → loop_inv (ds ++ [d]) (demand_step env st d).
Proof.
  intros Hinv Hnew. destruct (demand_step_outcome env st d Hwf) as [->|(p & edges & Hc & Hedges & Hout)];
    [by apply loop_inv_keep|].
  destruct (lv_todo _ _ Hinv _ Hnew) as [Hcur Hlast]. pose proof (lv_reserved _ _ Hinv) as Hres.
  generalize dependent (demand_step env st d). intros st1 Hout.
  inversion Hout as [Heq|prev q st' Hprev HE HN HL Hreg Hcg Hpaths Hlr Hrr Heq
    |st' reg' Hprev HM Hreg Hcg Hpaths Hlr Heq|prev st' reg' Hprev Hleave HM Hreg Hcg Hpaths Hlr Heq].
  - rewrite <-Heq. by apply loop_inv_keep.
  - eapply loop_inv_insert; [done|done|done|by intros; rewrite Hlr| |].
    + rewrite Hreg, Hpaths. apply reserved_keep; [done|]. rewrite Hcur, Hprev. simpl. by rewrite HE.
    + intros p0 Hp0. simplify_eq. by left.
  - eapply loop_inv_insert; [done|done|done|by intros; rewrite Hlr| |].
    + rewrite Hreg, Hpaths. eapply reserved_move; [done|done| | |done].
      * intros p0. rewrite Hcur, Hprev. done.
      * done.
    + intros p0. by rewrite Hprev.
  - eapply loop_inv_insert; [done|done|done| | |].
    + intros pk Hpk. by rewrite Hlr, lookup_insert_ne.
    + rewrite Hreg, Hpaths. eapply reserved_move; [done|done| | |done].
      * intros p0. rewrite Hcur, Hprev. congruence.
      * by rewrite Hcur, Hprev.
    + intros p0 Hp0. simplify_eq. right. rewrite Hlr, lookup_insert_eq. split; [|done].
      destruct Hleave as [?|[? Hheld]]; [by left|right]. split; [done|]. intros since. rewrite <-Hlast. apply Hheld.
Qed.

Lemma loop_spec ds st :
  NoDup (PathKey_of <$> ds) → loop_inv [] st → loop_inv ds (foldl (demand_step env) st ds).
Proof.
  intros Hnd Hinv. revert Hnd.
  apply (foldl_ind (demand_step env) (λ done st, NoDup (PathKey_of <$> done) → loop_inv done st)); [done|].
  intros ds' d t IH _ Hnd. rewrite fmap_app in Hnd. apply list.NoDup_app in Hnd as (Hnd & Hdis & _).
  apply demand_step_inv; [by apply IH|]. intros Hin. apply (Hdis _ Hin). apply list_elem_of_singleton. done.
Qed.

(** Costs, reservations and routes stay well formed through the loop. *)
Record loop_ok (st : tick_state) : Prop := {
  lo_costs : costs_nn (CostsSnapshot (ts_costGraph st));
  lo_reg : registry_nn (ts_reg st);
  lo_wf : registry_wf (ts_reg st);
  lo_routes : ∀ pk p, ts_paths st !! pk = Some p → route_ok pk p;
}.

Lemma demand_step_ok st d :
  graph_usable (te_graph env) → (∀ pk p, te_previous env !! pk = Some p → route_ok pk p) →
  demand_ok d → loop_ok st → loop_ok (demand_step env st d).
Proof.
  intros Hus Hprevious Hd [Hcosts Hreg Hrwf Hroutes].
  destruct (demand_step_outcome env st d Hwf) as [->|(p & edges & Hc & Hedges & Hout)]; [done|].
  pose proof (computes_route _ _ _ _ Hwf Hcosts Hd Hc) as Hroute. destruct Hd as (Hf & Ht & _).
  assert (∀ from reg', Move (ts_reg st) from edges (t_ID (d_Tenant d)) (BandwidthReservation_of d) = (reg', None) →
    registry_nn reg' ∧ registry_wf reg' ∧
    costs_nn (CostsSnapshot (updateStaticBandwidthUtilizationCost reg' (te_graph env) (ts_costGraph st)))) as Hmove.
  { intros from reg' HM. pose proof (Move_nn (ts_reg st) from edges (t_ID (d_Tenant d)) (BandwidthReservation_of d) Hf Ht Hreg) as Hn.
    pose proof (Move_wf (ts_reg st) from edges (t_ID (d_Tenant d)) (BandwidthReservation_of d) Hrwf) as Hw.
    rewrite HM in Hn, Hw. split_and!; [done|done|]. by apply updateStatic_nn. }
  assert (∀ q, route_ok (PathKey_of d) q → ∀ pk p, <[PathKey_of d := q]> (ts_paths st) !! pk = Some p → route_ok pk p) as Hins.
  { intros q Hq pk p'. rewrite lookup_insert_Some. intros [[<- <-]|[_ ?]]; [done|by apply Hroutes]. }
  generalize dependent (demand_step env st d). intros st1 Hout.
  inversion Hout as [Heq|prev q st' Hprev HE HN HL Hr Hcg Hpaths Hlr Hrr Heq
    |st' reg' Hprev HM Hr Hcg Hpaths Hlr Heq|prev st' reg' Hprev Hleave HM Hr Hcg Hpaths Hlr Heq].
  - by rewrite <-Heq.
  - split; rewrite ?Hcg, ?Hr, ?Hpaths; try done. apply Hins. by eapply route_same; [apply Hprevious|..].
  - destruct (Hmove _ _ HM) as (? & ? & ?). split; rewrite ?Hcg, ?Hr, ?Hpaths; try done. by apply Hins.
  - destruct (Hmove _ _ HM) as (? & ? & ?). split; rewrite ?Hcg, ?Hr, ?Hpaths; try done. by apply Hins.
Qed.
End loop.

(** ** A tick *)

(** The numbers a repository holds are ordinary: bandwidths non-negative,
    objective weights finite (JSON has no other numbers). *)
Record repo_ok (repo : JSONTenantRepository) : Prop := {
  rk_wf : repo_wf repo;
  rk_mbps : ∀ t tenant s l x, tr_byID repo !! t = Some tenant → s ∈ t_Sites tenant →
    s_ClassMbps s !! l = Some x → nn x;
  rk_weight : ∀ l c dim w, tr_classes repo !! l = Some c → tc_Objective c !! dim = Some w →
    nn w ∧ is_inf w = false;
}.

Lemma weight_pos w : nn w → is_inf w = false → f_leb w f_zero = false → pos_finite w.
Proof.
  intros Hn Hi Hl. apply nn_pos_finite; [done|]. rewrite f_leb_val in Hl by done.
  apply Z.leb_gt in Hl. split; [exact Hl|]. pose proof (val_bound _ Hn).
  destruct (decide (val w = INF)) as [He%is_inf_val|]; [congruence|done|lia].
Qed.

Lemma sum_nn l : Forall nn l → nn (foldl f_add f_zero l).
Proof.
  intros HF. apply (foldl_ind f_add (λ _ t, nn t)); [done|]. intros _ x t Ht Hx.
  rewrite list.Forall_forall in HF. by apply f_add_nn; [|apply HF].
Qed.

Lemma repo_demand_ok `{RangeOrder} repo d : repo_ok repo → d ∈ BuildDemands repo → demand_ok d.
Proof.
  intros [Hwf Hmbps Hweight] Hd. pose proof Hd as Hd'. apply elem_of_BuildDemands in Hd as [Ht Hd]; [|done].
  destruct Hd as (_ & l & fc & tc & Hc & Hf & Hto & Hl & Hm & _).
  assert (∀ p, nn (pop_mbps (d_Tenant d) p l)) as Hsum.
  { intros p. apply sum_nn. apply list.Forall_forall. intros x Hx.
    apply list_elem_of_omap in Hx as (s & [_ Hs]%list_elem_of_filter & Hx). by eapply Hmbps. }
  split_and!.
  - pose proof (pops_mbps _ _ _ l Hf) as He. unfold map_get in He. rewrite Hl in He. simpl in He. by rewrite He.
  - by rewrite Hm, (pops_mbps _ _ _ l Hto).
  - intros dim w. unfold ClassObjective. destruct (Z.eqb_spec (tc_Label (d_Class d)) DefaultClassLabel) as [He|He].
    + unfold defaultClassObjective. rewrite lookup_singleton_Some. by intros [_ <-].
    + intros Hw. destruct (Hweight _ _ _ _ Hc Hw). apply weight_pos; [done..|].
      rewrite (cw_label _ (rp_classes _ Hwf) _ _ Hc) in He.
      by eapply (co_weight _ (cw_class _ (rp_classes _ Hwf) _ _ Hc He)).
Qed.

Record topology_ok (g : Graph) : Prop := {
  to_wf : graph_wf g;
  to_usable : ∀ id e, g_edges g !! id = Some e → usable e;
}.

Lemma link_state_same lastSeen now e :
  Edge_ID (link_state lastSeen now e) = Edge_ID e ∧ Edge_Local (link_state lastSeen now e) = Edge_Local e ∧
  Edge_Remote (link_state lastSeen now e) = Edge_Remote e ∧
  Edge_LocalIface (link_state lastSeen now e) = Edge_LocalIface e ∧
  Edge_Bandwidth (link_state lastSeen now e) = Edge_Bandwidth e.
Proof. unfold link_state. by destruct (lastSeen !! Edge_ID e). Qed.

Lemma updateLinkStates_ok cg g now : topology_ok g → topology_ok (updateLinkStates cg g now).
Proof.
  intros [[H1 H2 H3] Hu]. split; [split|]; simpl.
  - intros id e. rewrite lookup_fmap_Some. intros (e0 & <- & He).
    destruct (link_state_same (LastSeen cg) now e0) as (-> & _). by apply H1.
  - intros n id Hin. destruct (H2 _ _ Hin) as (e & He & <-). exists (link_state (LastSeen cg) now e).
    rewrite lookup_fmap, He. split; [done|]. apply link_state_same.
  - intros id e. rewrite lookup_fmap_Some. intros (e0 & <- & He).
    destruct (link_state_same (LastSeen cg) now e0) as (_ & -> & _). by apply H3.
  - intros id e. rewrite lookup_fmap_Some. intros (e0 & <- & He). unfold usable.
    destruct (link_state_same (LastSeen cg) now e0) as (_ & _ & _ & _ & ->). by apply (Hu id).
Qed.

Lemma topology_usable g : topology_ok g → graph_usable (NewPCEGraph g).
Proof.
  intros [Hwf Hu] id pe r He Hr. apply NewPCEGraph_edges in He as (i & e & Hi & _ & -> & ->); [|done].
  simpl in Hr. apply list_elem_of_singleton in Hr as ->. by eapply Hu.
Qed.

(** What holds of the engine between ticks. *)
Record pce_inv (p : PCE) : Prop := {
  pi_reserved : reserved_on_path (pce_bandwidthReservationReg p) (pce_PathStore p);
  pi_routes : ∀ pk path, pce_PathStore p !! pk = Some path → route_ok pk path;
  pi_reg : registry_wf (pce_bandwidthReservationReg p);
  pi_nn : registry_nn (pce_bandwidthReservationReg p);
  pi_costs : costs_nn (CostsSnapshot (pce_costGraph p));
  pi_changes : (length (pce_Changes p) <= recentPathChangeLimit)%nat;
}.

Lemma Record_length store changes :
  (length store <= recentPathChangeLimit)%nat → (length (Record_ store changes) <= recentPathChangeLimit)%nat.
Proof. intros. unfold Record_. destruct changes; [done|]. rewrite length_take. lia. Qed.

Section tick.
Context `{RangeOrder} (p : PCE) (g : Graph) (repo : JSONTenantRepository) (t_ready now t_links : Time).

(** The constants and the final state of the demand loop. *)
Definition tick_graph : PCEGraph := NewPCEGraph (updateLinkStates (pce_costGraph p) g t_links).
Definition tick_costs : CostGraph :=
  updateStaticBandwidthUtilizationCost (pce_bandwidthReservationReg p) tick_graph (pce_costGraph p).
Definition env_of_tick : tick_env :=
  {| te_now := now; te_previous := pce_PathStore p; te_graph := tick_graph;
     te_costSnapshot := CostsSnapshot tick_costs; te_previousCosts := pce_previousCosts p;
     te_holdDown := pce_holdDownDuration p |}.
Definition start_of_tick : tick_state :=
  {| ts_reg := pce_bandwidthReservationReg p; ts_costGraph := tick_costs; ts_paths := pce_PathStore p;
     ts_reroutes := []; ts_gated := []; ts_lastReroute := pce_lastRerouteMap p |}.
Definition end_of_tick : tick_state := foldl (demand_step env_of_tick) start_of_tick (BuildDemands repo).

Lemma tick_ran : IsReady (pce_costGraph p) t_ready = true →
  tick p g repo t_ready now t_links =
  ({| pce_costGraph := ts_costGraph end_of_tick; pce_bandwidthReservationReg := ts_reg end_of_tick;
      pce_PathStore := ts_paths end_of_tick;
      pce_Changes := Record_ (Record_ (pce_Changes p) (ts_reroutes end_of_tick)) (ts_gated end_of_tick);
      pce_previousCosts := CostsSnapshot tick_costs; pce_holdDownDuration := pce_holdDownDuration p;
      pce_lastRerouteMap := ts_lastReroute end_of_tick |},
   updateLinkStates (pce_costGraph p) g t_links, Some (ts_paths end_of_tick)).
Proof. intros Hr. unfold tick. by rewrite Hr. Qed.

Lemma tick_skipped : IsReady (pce_costGraph p) t_ready = false →
  tick p g repo t_ready now t_links = (p, g, None).
Proof. intros Hr. unfold tick. by rewrite Hr. Qed.

Lemma tick_loop :
  reserved_on_path (pce_bandwidthReservationReg p) (pce_PathStore p) → repo_wf repo →
  loop_inv env_of_tick (pce_lastRerouteMap p) (BuildDemands repo) end_of_tick.
Proof.
  intros Hres Hrepo. apply loop_spec; [apply NewPCEGraph_wf|by apply NoDup_PathKeys|].
  split; simpl; [done|done|]. intros pk q Hq. exists q. split; [done|left]. apply same_route_refl.
Qed.

Lemma tick_inv : pce_inv p → topology_ok g → repo_ok repo → pce_inv (tick p g repo t_ready now t_links).1.1.
Proof.
  intros [Hres Hroutes Hreg Hnn Hcosts Hlen] Hg Hrepo.
  destruct (IsReady (pce_costGraph p) t_ready) eqn:Hr; [|by rewrite tick_skipped].
  rewrite tick_ran by done. simpl.
  assert (graph_usable tick_graph) as Hus by (by apply topology_usable, updateLinkStates_ok).
  assert (loop_ok end_of_tick) as [H1 H2 H3 H4].
  { apply (foldl_ind (demand_step env_of_tick) (λ _ st, loop_ok st)).
    - split; simpl; try done. by apply updateStatic_nn.
    - intros _ d st Hst Hd. apply demand_step_ok; try done; [apply NewPCEGraph_wf|].
      by apply (repo_demand_ok repo). }
  split; simpl; try done.
  - apply (tick_loop Hres (rk_wf _ Hrepo)).
  - by apply Record_length, Record_length.
Qed.
End tick.

(** New and changed paths only use links of the tick's graph. *)
Lemma outcome_fresh `{RangeOrder} env d computed edges st st' pk q :
  outcome env d computed edges st st' → ts_paths st' !! pk = Some q →
  ts_paths st !! pk = Some q ∨ (∃ p, te_previous env !! pk = Some p ∧ same_route p q) ∨ q = computed.
Proof.
  intros Hout.
  inversion Hout as [Heq|prev q' st1 Hprev HE HN HL Hreg Hcg Hpaths Hlr Hrr Heq
    |st1 reg' Hprev HM Hreg Hcg Hpaths Hlr Heq|prev st1 reg' Hprev Hleave HM Hreg Hcg Hpaths Hlr Heq];
    [by left|..]; rewrite Hpaths, lookup_insert_Some; (intros [[<- <-]|[_ ?]]; [|by left]); right.
  - left. exists prev. done.
  - by right.
  - by right.
Qed.

Lemma tick_fresh `{RangeOrder} p g repo t_ready now t_links pk q :
  IsReady (pce_costGraph p) t_ready = true →
  pce_PathStore (tick p g repo t_ready now t_links).1.1 !! pk = Some q →
  (∃ path, pce_PathStore p !! pk = Some path ∧ same_route path q) ∨
  (∀ id, id ∈ p_Edges q → is_Some (pg_edges (tick_graph p g t_links) !! id)).
Proof.
  intros Hr. rewrite tick_ran by done. simpl. revert pk q.
  apply (foldl_ind (demand_step (env_of_tick p g now t_links)) (λ _ st, ∀ pk q, ts_paths st !! pk = Some q →
    (∃ path, pce_PathStore p !! pk = Some path ∧ same_route path q) ∨
    (∀ id, id ∈ p_Edges q → is_Some (pg_edges (tick_graph p g t_links) !! id)))).
  { intros pk q Hq. left. exists q. done. }
  intros _ d st IH _ pk q Hq. unfold demand_step in Hq.
  destruct (computePath _ _ _ _ _) as [path|]; [|by apply IH].
  destruct (mapM _ _) as [edges|] eqn:HM; [|by apply IH].
  destruct (outcome_fresh _ _ _ _ _ _ _ _ (place_outcome _ _ _ _ _) Hq) as [?|[?| ->]]; [by apply IH|by left|].
  right. intros id Hid. apply mapM_Some in HM. apply list_elem_of_lookup in Hid as [i Hi].
  destruct (Forall2_lookup_l _ _ _ _ _ HM Hi) as (e & _ & He). eauto.
Qed.

(** ** Results *)

Definition with_costs (p : PCE) (cg : CostGraph) : PCE :=
  {| pce_costGraph := cg; pce_bandwidthReservationReg := pce_bandwidthReservationReg p;
     pce_PathStore := pce_PathStore p; pce_Changes := pce_Changes p;
     pce_previousCosts := pce_previousCosts p; pce_holdDownDuration := pce_holdDownDuration p;
     pce_lastRerouteMap := pce_lastRerouteMap p |}.

(** The engine from its creation on: ticks, each with the topology, tenants,
    clock and map order of its moment, and measurements arriving in between. *)
Inductive reachable (holdDown : Duration) : PCE → Prop :=
  | reach_new cg : costs_nn (CostsSnapshot cg) → reachable holdDown (NewPCE cg holdDown)
  | reach_measured p cg :
      reachable holdDown p → costs_nn (CostsSnapshot cg) → reachable holdDown (with_costs p cg)
  | reach_tick (o : RangeOrder) p g repo t_ready now t_links :
      reachable holdDown p → topology_ok g → repo_ok repo →
      reachable holdDown (tick p g repo t_ready now t_links).1.1.

Lemma reachable_inv holdDown p : reachable holdDown p → pce_inv p.
Proof.
  induction 1 as [cg Hcg|p cg Hp [? ? ? ? ? ?] Hcg|o p g repo t1 t2 t3 Hp IH Hg Hrepo].
  - split; simpl.
    + intros pk id. unfold booking, NewBandwidthReservationRegistry. rewrite lookup_empty.
      split; [by intros []|]. intros (q & Hq & _). by rewrite lookup_empty in Hq.
    + intros pk q Hq. by rewrite lookup_empty in Hq.
    + intros id e He. unfold NewBandwidthReservationRegistry in He. by rewrite lookup_empty in He.
    + intros id t k r Hb. unfold booking, NewBandwidthReservationRegistry in Hb. by rewrite lookup_empty in Hb.
    + done.
    + lia.
  - by split.
  - by apply tick_inv.
Qed.

(** C9: in every reachable state of the engine the bandwidth a demand holds
    is held on exactly the edges of the path stored for it: no reservation
    without a path, no path without its reservation, none left behind by a
    reroute. *)
Theorem reservations_follow_paths holdDown p pk id :
  reachable holdDown p →
  is_Some (booking (pce_bandwidthReservationReg p) id (pk_Tenant pk) (reservation_key pk)) ↔
  ∃ path, pce_PathStore p !! pk = Some path ∧ id ∈ p_Edges path.
Proof. intros Hp. apply (pi_reserved _ (reachable_inv _ _ Hp)). Qed.

(** C10: in every reachable state each stored path is a loop-free chain of
    edges from the key's source PoP to its destination PoP under the key's
    label, the registry is well formed, and at most 64 changes are kept. *)
Theorem stored_paths_are_routes holdDown p :
  reachable holdDown p →
  (∀ pk path, pce_PathStore p !! pk = Some path → route_ok pk path) ∧
  registry_wf (pce_bandwidthReservationReg p) ∧
  (length (Recent (pce_Changes p)) <= recentPathChangeLimit)%nat.
Proof. intros Hp. by destruct (reachable_inv _ _ Hp). Qed.

(** C12: damping.  A tick never drops a stored path, and replaces it by another
    route only if the old one is broken (an edge left the graph or costs
    infinity), or the old one costs at least 1.1 times the new one and the last
    reroute of the key is at least the hold-down time ago; it then stamps the
    key with the time of the tick. *)
Theorem tick_damped (o : RangeOrder) holdDown p g repo t_ready now t_links pk path :
  reachable holdDown p → repo_wf repo → pce_PathStore p !! pk = Some path →
  let p' := (tick p g repo t_ready now t_links).1.1 in
  ∃ path', pce_PathStore p' !! pk = Some path' ∧
    (same_route path path' ∨
     pce_lastRerouteMap p' !! pk = Some now ∧
     ∃ d, d ∈ BuildDemands repo ∧ PathKey_of d = pk ∧
       let cost := rescorePath path (objective_of d) (tick_graph p g t_links) (CostsSnapshot (tick_costs p g t_links)) in
       (is_inf cost = true ∨
        (f_ltb (cost / p_Cost path')%f64 rerouteGain = false ∧
         ∀ since, pce_lastRerouteMap p !! pk = Some since → pce_holdDownDuration p ≤ time_sub now since))).
Proof.
  intros Hp Hrepo Hpath p'. unfold p'.
  destruct (IsReady (pce_costGraph p) t_ready) eqn:Hr.
  2:{ rewrite tick_skipped by done. exists path. split; [done|left]. apply same_route_refl. }
  rewrite tick_ran by done. simpl.
  pose proof (tick_loop p g repo now t_links (pi_reserved _ (reachable_inv _ _ Hp)) Hrepo) as Hloop.
  destruct (lv_previous _ _ _ _ Hloop pk path Hpath) as (q & Hq & [?|(d & Hd & Hpk & Hleave & Hlast)]).
  - eauto.
  - exists q. split; [done|]. right. split; [done|]. exists d. split; [done|]. split; [done|].
    destruct Hleave as [?|[? Hh]]; [by left|right]. split; [done|]. intros since. rewrite <-Hpk. apply Hh.
Qed.

(** A path that a tick installs anew or reroutes to only uses links that
    are up: never probed and up in the topology, or answered within the last
    15 seconds. *)
Theorem tick_uses_live_links (o : RangeOrder) p g repo t_ready now t_links pk path' :
  topology_ok g → IsReady (pce_costGraph p) t_ready = true →
  pce_PathStore (tick p g repo t_ready now t_links).1.1 !! pk = Some path' →
  (∃ path, pce_PathStore p !! pk = Some path ∧ same_route path path') ∨
  ∀ id, id ∈ p_Edges path' → ∃ e, g_edges g !! id_Link id = Some e ∧
    match LastSeen (pce_costGraph p) !! Edge_ID e with
    | None => Edge_Up e = true
    | Some seenAt => time_sub t_links seenAt < linkStaleAfter
    end.
Proof.
  intros Hg Hr Hq. destruct (tick_fresh _ _ _ _ _ _ _ _ Hr Hq) as [?|Hin]; [by left|right].
  intros id Hid. destruct (Hin id Hid) as [pe Hpe]. unfold tick_graph in Hpe.
  apply NewPCEGraph_edges in Hpe as (i & e & Hi & Hup & -> & ->); [|by apply updateLinkStates_ok].
  simpl in *. apply lookup_fmap_Some in Hi as (e0 & <- & He0). exists e0.
  destruct (link_state_same (LastSeen (pce_costGraph p)) t_links e0) as (-> & _).
  rewrite (gw_id _ (to_wf _ Hg) _ _ He0). split; [done|]. unfold link_state in Hup.
  rewrite (gw_id _ (to_wf _ Hg) _ _ He0) in Hup.
  destruct (LastSeen (pce_costGraph p) !! i); simpl in Hup; [by apply Z.ltb_lt|done].
Qed.

(** ** Witnesses: the example network and tenant, one tick after the cost
    graph's waiting time has passed, and a second one with a failed link *)

Lemma demo_topology_ok : topology_ok demo_topology.
Proof.
  split; [apply demo_topology_wf|]. intros id e He.
  assert (map_Forall (λ _ e, nn (Edge_Bandwidth e * one_minus_headroom)%f64 ∧
    is_inf (Edge_Bandwidth e * one_minus_headroom)%f64 = false) (g_edges demo_topology)) as HF
    by (apply (bool_decide_unpack _); vm_compute; exact I).
  exact (HF id e He).
Qed.

Lemma demo_repo_ok : repo_ok demo_repo.
Proof.
  split; [apply demo_repo_wf| |].
  - intros t tenant s l x Ht Hs Hx.
    assert (map_Forall (λ _ t, Forall (λ s, map_Forall (λ _ x, nn x) (s_ClassMbps s)) (t_Sites t)) (tr_byID demo_repo)) as HF
      by (apply (bool_decide_unpack _); vm_compute; exact I).
    specialize (HF t tenant Ht). simpl in HF. rewrite list.Forall_forall in HF. exact (HF s Hs l x Hx).
  - intros l c dim w Hc Hw.
    assert (map_Forall (λ _ c, map_Forall (λ _ w, nn w ∧ is_inf w = false) (tc_Objective c)) (tr_classes demo_repo)) as HF
      by (apply (bool_decide_unpack _); vm_compute; exact I).
    exact (HF l c Hc dim w Hw).
Qed.

Definition demo_now : Time := 10 * Minute.
Definition demo_pce : PCE :=
  (tick (H := canonical_order) (NewPCE demo_cost_graph (30 * Second)) demo_topology demo_repo
     demo_now demo_now demo_now).1.1.

Lemma demo_pce_reachable : reachable (30 * Second) demo_pce.
Proof.
  apply reach_tick; [|apply demo_topology_ok|apply demo_repo_ok].
  apply reach_new. apply demo_costs_nn.
Qed.

Definition demo_key : PathKey := {| pk_Tenant := 7; pk_From := "ams"; pk_To := "lon"; pk_Label := 1 |}.

(** The voice path takes the detour; its first link then falls silent. *)
Definition demo_down : PCE :=
  with_costs demo_pce (MarkSeen (pce_costGraph demo_pce) (edge_id "ams" "eth1" "fra" "eth1") demo_now).

Lemma MarkSeen_nn cg id t : costs_nn (CostsSnapshot cg) → costs_nn (CostsSnapshot (MarkSeen cg id t)).
Proof. done. Qed.

Lemma demo_down_reachable : reachable (30 * Second) demo_down.
Proof.
  apply reach_measured; [apply demo_pce_reachable|].
  apply MarkSeen_nn. apply (pi_costs _ (reachable_inv _ _ demo_pce_reachable)).
Qed.

Definition demo_later : Time := 10 * Minute + 20 * Second.

Lemma reservations_follow_paths_witness :
  p_Edges <$> pce_PathStore demo_pce !! demo_key = Some demo_path ∧
  is_Some (booking (pce_bandwidthReservationReg demo_pce) (demo_id "ams" "eth1" "fra" "eth1") 7 (reservation_key demo_key)).
Proof.
  assert (p_Edges <$> pce_PathStore demo_pce !! demo_key = Some demo_path) as Hp by (vm_compute; reflexivity).
  split; [exact Hp|].
  apply (reservations_follow_paths (30 * Second) demo_pce demo_key (demo_id "ams" "eth1" "fra" "eth1") demo_pce_reachable).
  destruct (pce_PathStore demo_pce !! demo_key) as [path|] eqn:Hq; [|discriminate Hp].
  exists path. split; [reflexivity|]. injection Hp as Hp. rewrite Hp. left.
Defined.

Lemma stored_paths_are_routes_witness :
  ∃ path, pce_PathStore demo_pce !! demo_key = Some path ∧ route_ok demo_key path.
Proof.
  destruct (pce_PathStore demo_pce !! demo_key) as [path|] eqn:Hp; [|exfalso; revert Hp; vm_compute; discriminate].
  exists path. split; [reflexivity|].
  apply (stored_paths_are_routes (30 * Second) demo_pce demo_pce_reachable). exact Hp.
Defined.

(** The broken path is left within the hold-down time. *)
Lemma tick_damped_witness :
  ∃ path', pce_PathStore (tick (H := canonical_order) demo_down demo_topology demo_repo demo_later demo_later demo_later).1.1
             !! demo_key = Some path' ∧
    p_Edges path' = [demo_id "ams" "eth2" "lon" "eth2"].
Proof.
  destruct (pce_PathStore demo_down !! demo_key) as [path|] eqn:Hp; [|exfalso; revert Hp; vm_compute; discriminate].
  destruct (tick_damped canonical_order (30 * Second) demo_down demo_topology demo_repo demo_later demo_later demo_later
    demo_key path demo_down_reachable demo_repo_wf Hp) as (path' & Hp' & _).
  exists path'. split; [exact Hp'|].
  assert (p_Edges <$> pce_PathStore (tick (H := canonical_order) demo_down demo_topology demo_repo demo_later demo_later demo_later).1.1
             !! demo_key = Some [demo_id "ams" "eth2" "lon" "eth2"]) as He by (vm_compute; reflexivity).
  rewrite Hp' in He. injection He as He. exact He.
Defined.

Lemma tick_uses_live_links_witness :
  ∃ e, g_edges demo_topology !! id_Link (demo_id "ams" "eth2" "lon" "eth2") = Some e ∧
    match LastSeen (pce_costGraph demo_down) !! Edge_ID e with
    | None => Edge_Up e = true
    | Some seenAt => time_sub demo_later seenAt < linkStaleAfter
    end.
Proof.
  destruct (pce_PathStore (tick (H := canonical_order) demo_down demo_topology demo_repo demo_later demo_later demo_later).1.1
             !! demo_key) as [path'|] eqn:Hp'; [|exfalso; revert Hp'; vm_compute; discriminate].
  assert (p_Edges <$> pce_PathStore (tick (H := canonical_order) demo_down demo_topology demo_repo demo_later demo_later demo_later).1.1
             !! demo_key = Some [demo_id "ams" "eth2" "lon" "eth2"]) as He by (vm_compute; reflexivity).
  assert (p_Edges <$> pce_PathStore demo_down !! demo_key = Some demo_path) as Hold by (vm_compute; reflexivity).
  rewrite Hp' in He. injection He as He.
  destruct (tick_uses_live_links canonical_order demo_down demo_topology demo_repo demo_later demo_later demo_later
    demo_key path' demo_topology_ok eq_refl Hp') as [(path & Hpath & Hsame & _)|Hlive].
  - rewrite Hpath in Hold. injection Hold as Hold. rewrite He, Hold in Hsame. discriminate Hsame.
  - assert (Hl := Hlive (demo_id "ams" "eth2" "lon" "eth2")). apply Hl. rewrite He. left.
Defined.
