(* ===== verification/PathStore.v ===== *)
(** The path store of the engine (pce.go, [PathStore]) with its pointers: the
    store hands out its map, a tick works on two clones and writes through
    their pointers, and then puts one of them in place. *)
From S2P Require Import Prelude Float64 Topology CostGraph PceGraph Demo Cspf CspfCorrect Bandwidth Tenants Demand Pce PceCorrect.

(** ** Cells and maps *)

(** Path objects and maps live at addresses; an object is known by the
    allocation it comes from and the key it was made for. *)
Notation cell := (nat * PathKey)%type.

Record path_heap := {
  ph_cells : gmap cell Path;
  ph_maps : gmap nat (gmap PathKey cell);
  ph_store : nat;
  ph_next : nat;
}.

Definition NewPathStore : path_heap := {| ph_cells := ∅; ph_maps := {[ 0%nat := ∅ ]}; ph_store := 0; ph_next := 1 |}.

Definition set_maps (h : path_heap) (maps : gmap nat (gmap PathKey cell)) : path_heap :=
  {| ph_cells := ph_cells h; ph_maps := maps; ph_store := ph_store h; ph_next := ph_next h |}.

Definition map_at (h : path_heap) (m : nat) : gmap PathKey cell := default ∅ (ph_maps h !! m).

(** What a map says when it is read now. *)
Definition contents (h : path_heap) (m : nat) : PathSet := omap (λ l, ph_cells h !! l) (map_at h m).

Definition StorePaths (h : path_heap) (m : nat) : path_heap :=
  {| ph_cells := ph_cells h; ph_maps := ph_maps h; ph_store := m; ph_next := ph_next h |}.
Definition LoadPaths (h : path_heap) : nat := ph_store h.
Definition GetPath (h : path_heap) (key : PathKey) : option cell := map_at h (ph_store h) !! key.

(** A new map with a new object per path; the slices of a path, which nothing
    writes, are shared. The engine's store is never the nil pointer the methods
    check for. *)
Definition ClonePaths (h : path_heap) : path_heap * nat :=
  let m := contents h (ph_store h) in
  let n := ph_next h in
  ({| ph_cells := kmap (n,.) m ∪ ph_cells h; ph_maps := <[n := map_imap (λ k _, Some (n, k)) m]> (ph_maps h);
      ph_store := ph_store h; ph_next := S n |}, n).

(** ** What a tick writes *)

(** Per demand: the cost a previous path that still stands is given, and what
    becomes of the entry. *)
Inductive outcome := KeepPrevious | TakeComputed (p : Path) | LeaveEntry.

Record demand_write := { dw_Key : PathKey; dw_Rescored : option f64; dw_Outcome : outcome }.

Definition rescore (h : path_heap) (l : cell) (cost : f64) : path_heap :=
  {| ph_cells := alter (Path_set_Cost cost) l (ph_cells h); ph_maps := ph_maps h; ph_store := ph_store h; ph_next := ph_next h |}.

Definition put (h : path_heap) (paths : nat) (key : PathKey) (l : cell) : path_heap :=
  set_maps h (<[paths := <[key := l]> (map_at h paths)]> (ph_maps h)).

Definition new_cell (h : path_heap) (key : PathKey) (p : Path) : path_heap * cell :=
  ({| ph_cells := <[(ph_next h, key) := p]> (ph_cells h); ph_maps := ph_maps h; ph_store := ph_store h; ph_next := S (ph_next h) |},
   (ph_next h, key)).

Definition write_demand (previous paths : nat) (h : path_heap) (w : demand_write) : path_heap :=
  let previousPath := map_at h previous !! dw_Key w in
  let h := match previousPath, dw_Rescored w with Some l, Some cost => rescore h l cost | _, _ => h end in
  match dw_Outcome w with
  | LeaveEntry => h
  | TakeComputed p => let '(h, l) := new_cell h (dw_Key w) p in put h paths (dw_Key w) l
  | KeepPrevious => match previousPath with Some l => put h paths (dw_Key w) l | None => h end
  end.

(** The engine between and during ticks, with the maps it works on. *)
Record engine := { en_heap : path_heap; en_tick : option (nat * nat) }.

Inductive engine_step : engine → engine → Prop :=
  | TickBegins h :
      engine_step {| en_heap := h; en_tick := None |}
        (let '(h1, previous) := ClonePaths h in
         let '(h2, paths) := ClonePaths h1 in
         {| en_heap := h2; en_tick := Some (previous, paths) |})
  | DemandPlaced h previous paths w :
      engine_step {| en_heap := h; en_tick := Some (previous, paths) |}
        {| en_heap := write_demand previous paths h w; en_tick := Some (previous, paths) |}
  | TickEnds h previous paths :
      engine_step {| en_heap := h; en_tick := Some (previous, paths) |}
        {| en_heap := StorePaths h paths; en_tick := None |}.

(** ** Nothing that was handed out changes *)

(** A map of the heap whose objects no tick under way writes to. *)
Record settled (e : engine) (m : nat) : Prop := {
  st_known : (m < ph_next (en_heap e))%nat;
  st_cells : ∀ k l, map_at (en_heap e) m !! k = Some l → (l.1 < ph_next (en_heap e))%nat;
  st_apart : ∀ previous paths, en_tick e = Some (previous, paths) →
    m ≠ previous ∧ m ≠ paths ∧ ∀ k l, map_at (en_heap e) m !! k = Some l → l.1 ≠ previous;
}.

(** The maps of the tick: [previous] names its own objects only. *)
Record working (e : engine) : Prop := {
  wk_tick : ∀ previous paths, en_tick e = Some (previous, paths) →
    (previous < paths < ph_next (en_heap e))%nat ∧
    (∀ k l, map_at (en_heap e) previous !! k = Some l → l.1 = previous) ∧
    (∀ k l, map_at (en_heap e) paths !! k = Some l → (l.1 < ph_next (en_heap e))%nat);
  wk_fresh : ∀ m, (ph_next (en_heap e) ≤ m)%nat → ph_maps (en_heap e) !! m = None;
}.

Lemma map_at_insert h m x n :
  map_at (set_maps h (<[n := x]> (ph_maps h))) m = if decide (n = m) then x else map_at h m.
Proof. unfold map_at, set_maps. simpl. case_decide; subst; [by rewrite lookup_insert_eq|by rewrite lookup_insert_ne]. Qed.

Lemma contents_lookup h m k : contents h m !! k = map_at h m !! k ≫= λ l, ph_cells h !! l.
Proof. apply lookup_omap. Qed.

Lemma contents_ext h h' m :
  map_at h' m = map_at h m → (∀ k l, map_at h m !! k = Some l → ph_cells h' !! l = ph_cells h !! l) → contents h' m = contents h m.
Proof.
  intros Hm Hc. apply map_eq. intros k. rewrite !contents_lookup, Hm. destruct (map_at h m !! k) as [l|] eqn:Hl; [|done]. by apply (Hc k).
Qed.

Lemma ClonePaths_map_at h m : m ≠ ph_next h → map_at (ClonePaths h).1 m = map_at h m.
Proof. intros Hm. unfold map_at. simpl. by rewrite lookup_insert_ne. Qed.

Lemma ClonePaths_own h k l : map_at (ClonePaths h).1 (ph_next h) !! k = Some l → l = (ph_next h, k).
Proof.
  unfold map_at. simpl. rewrite lookup_insert_eq. simpl. rewrite map_lookup_imap.
  destruct (contents h (ph_store h) !! k); [|done]. by intros [= <-].
Qed.

Lemma ClonePaths_cells h l : l.1 ≠ ph_next h → ph_cells (ClonePaths h).1 !! l = ph_cells h !! l.
Proof.
  intros Hl. simpl. apply lookup_union_r. apply lookup_kmap_None; [intros ?? [= ->]; done|]. intros k ->. by destruct Hl.
Qed.

Lemma write_demand_frame previous paths h w :
  (∀ k l, map_at h previous !! k = Some l → l.1 = previous) →
  (previous < paths < ph_next h)%nat →
  (∀ k l, map_at h paths !! k = Some l → (l.1 < ph_next h)%nat) →
  let h' := write_demand previous paths h w in
  (ph_next h ≤ ph_next h')%nat ∧ ph_store h' = ph_store h ∧
  (∀ m, m ≠ paths → ph_maps h' !! m = ph_maps h !! m) ∧
  (∀ l, l.1 ≠ previous → (l.1 < ph_next h)%nat → ph_cells h' !! l = ph_cells h !! l) ∧
  (∀ k l, map_at h' paths !! k = Some l → (l.1 < ph_next h')%nat).
Proof.
  intros Hprev Hlt Hpaths. unfold write_demand.
  set (h1 := match map_at h previous !! dw_Key w with
             | Some l => match dw_Rescored w with Some cost => rescore h l cost | None => h end | None => h end).
  assert (ph_maps h1 = ph_maps h ∧ ph_store h1 = ph_store h ∧ ph_next h1 = ph_next h ∧
    ∀ l, l.1 ≠ previous → ph_cells h1 !! l = ph_cells h !! l) as (Hm & Hs & Hn & Hc).
  { unfold h1. destruct (map_at h previous !! dw_Key w) as [l|] eqn:Hl; [|done]. destruct (dw_Rescored w) as [c|]; [|done].
    split_and!; [done..|]. intros l' Hl'. simpl. apply lookup_alter_ne. intros ->. by apply Hl', (Hprev (dw_Key w)). }
  assert (∀ m, map_at h1 m = map_at h m) as Hma by (intros m; unfold map_at; by rewrite Hm).
  cbv zeta. destruct (dw_Outcome w) as [|p|].
  - destruct (map_at h previous !! dw_Key w) as [l|] eqn:Hl.
    2:{ split_and!; [lia|done|by intros; rewrite Hm|by intros; apply Hc|]. intros k l. rewrite Hma, Hn. by apply Hpaths. }
    unfold put. split_and!; [simpl; lia|done| |by intros; apply Hc|].
    + intros m Hne. simpl. rewrite lookup_insert_ne by done. by rewrite Hm.
    + intros k l'. rewrite map_at_insert, decide_True by done. simpl. rewrite Hn, Hma.
      intros [[<- <-]|[_ Hk]]%lookup_insert_Some; [rewrite (Hprev _ _ Hl); lia|by eapply Hpaths].
  - unfold new_cell, put. split_and!; [simpl; lia|done| | |].
    + intros m Hne. simpl. rewrite lookup_insert_ne by done. by rewrite Hm.
    + intros l Hl Hln. simpl. rewrite lookup_insert_ne; [by apply Hc|]. intros <-. simpl in Hln. lia.
    + intros k l'. rewrite map_at_insert, decide_True by done. simpl. change (map_at {| ph_cells := _ |} paths) with (map_at h1 paths).
      rewrite Hn, Hma. intros [[<- <-]|[_ Hk]]%lookup_insert_Some; [simpl; lia|]. apply Hpaths in Hk. lia.
  - split_and!; [lia|done|by intros; rewrite Hm|by intros; apply Hc|]. intros k l. rewrite Hma, Hn. by apply Hpaths.
Qed.

(** A map nobody writes to reads the same after a step. *)
Lemma engine_step_settled e e' m :
  engine_step e e' → working e → settled e m →
  working e' ∧ settled e' m ∧ contents (en_heap e') m = contents (en_heap e) m.
Proof.
  intros Hstep [Hw Hf] [Hk Hc Ha]. destruct Hstep as [h|h previous paths w|h previous paths]; cbn [en_heap en_tick] in Hw, Hf, Hk, Hc, Ha.
  - set (h1 := (ClonePaths h).1). set (h2 := (ClonePaths h1).1).
    assert (ph_next h1 = S (ph_next h) ∧ ph_next h2 = S (S (ph_next h))) as [Hn1 Hn2] by done.
    change (let '(h1, previous) := ClonePaths h in let '(h2, paths) := ClonePaths h1 in
      {| en_heap := h2; en_tick := Some (previous, paths) |}) with {| en_heap := h2; en_tick := Some (ph_next h, ph_next h1) |}.
    assert (∀ m, (m < ph_next h)%nat → map_at h2 m = map_at h m) as Hma.
    { intros m' Hm'. unfold h2. rewrite ClonePaths_map_at by lia. apply ClonePaths_map_at. lia. }
    split_and!; [split|split|]; cbn [en_heap en_tick].
    + intros pr pa [= <- <-]. split; [lia|]. split.
      * intros k l. unfold h2. rewrite ClonePaths_map_at by lia. by intros ->%ClonePaths_own.
      * intros k l ->%ClonePaths_own. simpl. lia.
    + intros m' Hm'. unfold h2, h1. simpl. rewrite !lookup_insert_ne by lia. apply Hf. lia.
    + lia.
    + intros k l. rewrite Hma by done. intros Hl%Hc. lia.
    + intros pr pa [= <- <-]. split_and!; [lia|lia|]. intros k l. rewrite Hma by done. intros Hl%Hc. lia.
    + apply contents_ext; [by apply Hma|]. intros k l Hl%Hc.
      unfold h2. rewrite ClonePaths_cells by lia. unfold h1. by rewrite ClonePaths_cells by lia.
  - destruct (Hw previous paths eq_refl) as (Hlt & Hprev & Hpaths). destruct (Ha previous paths eq_refl) as (Hmp & Hmq & Hml).
    destruct (write_demand_frame previous paths h w Hprev Hlt Hpaths) as (Hn & _ & Hm & Hcl & Hp).
    assert (∀ m, m ≠ paths → map_at (write_demand previous paths h w) m = map_at h m) as Hma.
    { intros m' Hm'. unfold map_at. by rewrite Hm. }
    split_and!; [split|split|]; cbn [en_heap en_tick].
    + intros pr pa [= <- <-]. split; [lia|]. split; [|done]. intros k l. rewrite Hma by lia. apply Hprev.
    + intros m' Hm'. rewrite Hm by lia. apply Hf. lia.
    + lia.
    + intros k l. rewrite Hma by done. intros Hl%Hc. lia.
    + intros pr pa [= <- <-]. split_and!; [done..|]. intros k l. rewrite Hma by done. apply Hml.
    + apply contents_ext; [by apply Hma|]. intros k l Hl. apply Hcl; [by eapply Hml|by eapply Hc].
  - split_and!; [split; [done|exact Hf]|split; [done|exact Hc|done]|done].
Qed.

(** The store's own map, in every state a run of the engine reaches. *)
Definition store_settled (e : engine) : Prop := working e ∧ settled e (LoadPaths (en_heap e)).

Lemma engine_step_store e e' : engine_step e e' → store_settled e → store_settled e'.
Proof.
  intros Hstep [Hw Hs]. destruct (engine_step_settled _ _ _ Hstep Hw Hs) as (Hw' & Hs' & _). split; [done|].
  destruct Hstep as [h|h previous paths w|h previous paths]; simpl in *.
  - exact Hs'.
  - destruct Hw as [Hw _]. destruct (Hw previous paths eq_refl) as (Hlt & Hp & Hq).
    destruct (write_demand_frame previous paths h w Hp Hlt Hq) as (_ & Hst & _). unfold LoadPaths in *. by rewrite Hst.
  - destruct Hw as [Hw _]. destruct (Hw previous paths eq_refl) as (Hlt & _ & Hq).
    cbn [en_heap] in Hlt, Hq. split; cbn [LoadPaths StorePaths ph_store ph_next en_heap en_tick]; [lia|exact Hq|done].
Qed.

Definition engine_start : engine := {| en_heap := NewPathStore; en_tick := None |}.

Lemma engine_start_settled : store_settled engine_start.
Proof.
  split; [split|split]; simpl; try done; try lia.
  intros m Hm. rewrite lookup_singleton_ne by lia. done.
Qed.

Lemma run_settled e e' m :
  rtc engine_step e e' → working e → settled e m →
  working e' ∧ settled e' m ∧ contents (en_heap e') m = contents (en_heap e) m.
Proof.
  intros Hrun. induction Hrun as [|e1 e2 e3 Hs Hrun IH]; intros Hw Hst; [done|].
  destruct (engine_step_settled _ _ _ Hs Hw Hst) as (Hw' & Hst' & Heq). destruct (IH Hw' Hst') as (? & ? & ?). by rewrite <-Heq.
Qed.

Lemma reached_settled e : rtc engine_step engine_start e → store_settled e.
Proof. apply (rtc_ind_r store_settled); eauto using engine_start_settled, engine_step_store. Qed.

(** Whatever a reader loads from the store, at any point of any sequence of
    ticks, reads the same for ever. *)
Lemma loaded_paths_fixed e e' :
  rtc engine_step engine_start e → rtc engine_step e e' →
  contents (en_heap e') (LoadPaths (en_heap e)) = contents (en_heap e) (LoadPaths (en_heap e)).
Proof.
  intros [Hw Hs]%reached_settled Hrun.
  by apply (run_settled e e').
Qed.

(** ** The writes of a tick *)

Section writes.
Context `{RangeOrder}.

(** The demand loop of [Run], as far as it touches the paths. *)
Definition place_write (env : tick_env) (d : Demand) (computed : Path) (edges : list PCEEdge) (st : tick_state) : demand_write :=
  let moved from :=
    match Move (ts_reg st) from edges (t_ID (d_Tenant d)) (BandwidthReservation_of d) with
    | (_, Some _) => LeaveEntry
    | (_, None) => TakeComputed computed
    end in
  match te_previous env !! PathKey_of d with
  | None => {| dw_Key := PathKey_of d; dw_Rescored := None; dw_Outcome := moved [] |}
  | Some prev =>
      let previousCost := rescorePath prev (WeightedCost (ClassObjective (Some (d_Class d)))) (te_graph env) (te_costSnapshot env) in
      let broken := is_inf previousCost in
      let prev := if broken then prev else Path_set_Cost previousCost prev in
      {| dw_Key := PathKey_of d; dw_Rescored := if broken then None else Some previousCost;
         dw_Outcome :=
           if Path_Equal prev computed then TakeComputed computed
           else if negb broken && f_ltb (p_Cost prev / p_Cost computed)%f64 rerouteGain then KeepPrevious
           else if match ts_lastReroute st !! PathKey_of d with
                   | Some since => negb broken && (time_sub (te_now env) since <? te_holdDown env)
                   | None => false end then KeepPrevious
           else moved (p_Edges prev) |}
  end.

Definition demand_write_of (env : tick_env) (st : tick_state) (d : Demand) : demand_write :=
  let pruned := PruneGraph (ts_reg st) (te_graph env) (t_ID (d_Tenant d)) (BandwidthReservation_of d) in
  let nothing := {| dw_Key := PathKey_of d; dw_Rescored := None; dw_Outcome := LeaveEntry |} in
  match computePath (Some pruned) (CostsSnapshot (ts_costGraph st)) (d_From d) (d_To d)
          (Some (WeightedCost (ClassObjective (Some (d_Class d))))) with
  | Err _ => nothing
  | Ok p =>
      let computed := Path_set_Label (tc_Label (d_Class d)) p in
      match mapM (λ id, pg_edges (te_graph env) !! id) (p_Edges computed) with
      | None => nothing
      | Some edges => place_write env d computed edges st
      end
  end.

Fixpoint tick_writes (env : tick_env) (st : tick_state) (demands : list Demand) : list demand_write :=
  match demands with
  | [] => []
  | d :: demands => demand_write_of env st d :: tick_writes env (demand_step env st d) demands
  end.

(** What a write does to the path set as a value. *)
Definition rescored (w : demand_write) (p : Path) : Path := match dw_Rescored w with Some c => Path_set_Cost c p | None => p end.

Definition pure_write (previous : PathSet) (paths : PathSet) (w : demand_write) : PathSet :=
  match dw_Outcome w with
  | LeaveEntry => paths
  | TakeComputed p => <[dw_Key w := p]> paths
  | KeepPrevious => match previous !! dw_Key w with Some p => <[dw_Key w := rescored w p]> paths | None => paths end
  end.

Lemma demand_write_key env st d : dw_Key (demand_write_of env st d) = PathKey_of d.
Proof. unfold demand_write_of, place_write. by repeat case_match. Qed.

Lemma place_write_paths env d computed edges st :
  ts_paths (place env d computed edges st) = pure_write (te_previous env) (ts_paths st) (place_write env d computed edges st).
Proof.
  unfold place, place_write, pure_write, install, rescored. destruct (te_previous env !! PathKey_of d) as [prev|] eqn:Hp; simpl.
  - destruct (Path_Equal _ computed); [done|]. destruct (negb _ && _); simpl; [rewrite Hp; by destruct (is_inf _)|].
    destruct (match ts_lastReroute st !! PathKey_of d with Some _ => _ | None => _ end); simpl; [rewrite Hp; by destruct (is_inf _)|].
    by destruct (Move _ _ _ _ _) as [reg [e|]].
  - by destruct (Move _ _ _ _ _) as [reg [e|]].
Qed.

Lemma demand_write_paths env st d :
  ts_paths (demand_step env st d) = pure_write (te_previous env) (ts_paths st) (demand_write_of env st d).
Proof.
  unfold demand_step, demand_write_of. destruct (computePath _ _ _ _ _) as [p|]; [|done]. cbv zeta.
  destruct (mapM _ _) as [edges|]; [|done]. apply place_write_paths.
Qed.

Lemma tick_writes_paths env ds st :
  ts_paths (foldl (demand_step env) st ds) = foldl (pure_write (te_previous env)) (ts_paths st) (tick_writes env st ds).
Proof. revert st. induction ds as [|d ds IH]; intros st; [done|]. simpl. by rewrite IH, demand_write_paths. Qed.

Lemma tick_writes_keys env ds st : dw_Key <$> tick_writes env st ds = PathKey_of <$> ds.
Proof. revert st. induction ds as [|d ds IH]; intros st; [done|]. simpl. by rewrite IH, demand_write_key. Qed.
End writes.

(** A tick on the store, with its writes. *)
Definition run_tick (h : path_heap) (writes : list demand_write) : path_heap :=
  let '(h1, previous) := ClonePaths h in
  let '(h2, paths) := ClonePaths h1 in
  StorePaths (foldl (write_demand previous paths) h2 writes) paths.

Lemma run_tick_steps h writes :
  rtc engine_step {| en_heap := h; en_tick := None |} {| en_heap := run_tick h writes; en_tick := None |}.
Proof.
  eapply rtc_l; [apply TickBegins|]. unfold run_tick. destruct (ClonePaths h) as [h1 previous]. destruct (ClonePaths h1) as [h2 paths].
  eapply rtc_r; [|apply TickEnds]. generalize h2. induction writes as [|w ws IH]; intros h3; [apply rtc_refl|].
  eapply rtc_l; [apply DemandPlaced|]. apply IH.
Qed.

(** During the demand loop: [previous] has the paths of before the tick, but
    for those of demands already done, and [paths] the written set. *)
Record tick_rel (before : PathSet) (previous paths : nat) (done : list PathKey) (now : PathSet) (h : path_heap) : Prop := {
  tr_bounds : (previous < paths < ph_next h)%nat;
  tr_previous : ∀ k, map_at h previous !! k = (λ _, (previous, k)) <$> before !! k;
  tr_cells : ∀ k p, k ∉ done → before !! k = Some p → ph_cells h !! (previous, k) = Some p;
  tr_paths : contents h paths = now;
  tr_shared : ∀ k l, map_at h paths !! k = Some l → (l.1 < ph_next h)%nat ∧ (l.1 = previous → l = (previous, k) ∧ k ∈ done);
}.

Lemma put_contents h paths key l p :
  ph_cells h !! l = Some p → contents (put h paths key l) paths = <[key := p]> (contents h paths).
Proof.
  intros Hl. apply map_eq. intros k. rewrite contents_lookup. unfold put. rewrite map_at_insert, decide_True by done.
  destruct (decide (key = k)) as [<-|Hne]; [by rewrite !lookup_insert_eq|]. rewrite !lookup_insert_ne by done. by rewrite contents_lookup.
Qed.

(** Writing the cost of a path that is not in [paths] yet. *)
Lemma rescore_rel before previous paths done now h w :
  tick_rel before previous paths done now h → dw_Key w ∉ done →
  ∃ h1, match map_at h previous !! dw_Key w, dw_Rescored w with Some l, Some cost => rescore h l cost | _, _ => h end = h1 ∧
    ph_maps h1 = ph_maps h ∧ ph_next h1 = ph_next h ∧
    (∀ l, l ≠ (previous, dw_Key w) → ph_cells h1 !! l = ph_cells h !! l) ∧
    (∀ p, before !! dw_Key w = Some p → ph_cells h1 !! (previous, dw_Key w) = Some (rescored w p)) ∧
    contents h1 paths = now.
Proof.
  intros [Hb Hp Hc Ht Hs] Hk. eexists. split; [done|]. rewrite Hp. unfold rescored.
  destruct (before !! dw_Key w) as [p|] eqn:Hbk; cbn [fmap option_fmap option_map]; [|done].
  destruct (dw_Rescored w) as [c|]; [|split_and!; [done..| |done]; by intros p' [= <-]; apply Hc].
  split_and!; [done|done| | |].
  - intros l Hl. simpl. by apply lookup_alter_ne.
  - intros p' [= <-]. simpl. by rewrite lookup_alter_eq, (Hc _ p).
  - rewrite <-Ht. apply contents_ext; [done|]. intros k l Hl. simpl. apply lookup_alter_ne. intros <-.
    destruct (Hs k _ Hl) as [_ Hd]. destruct (Hd eq_refl) as [[= <-] ?]. done.
Qed.

Lemma write_demand_rel before previous paths done now h w :
  tick_rel before previous paths done now h → dw_Key w ∉ done →
  tick_rel before previous paths (dw_Key w :: done) (pure_write before now w) (write_demand previous paths h w).
Proof.
  intros Hrel Hk. destruct (rescore_rel _ _ _ _ _ _ w Hrel Hk) as (h1 & Heq & Hm1 & Hn1 & Hc1 & Hk1 & Ht1).
  destruct Hrel as [Hb Hp Hc Ht Hs]. unfold write_demand. cbv zeta. rewrite Heq. clear Heq.
  assert (∀ m, map_at h1 m = map_at h m) as Hma by (intros m; unfold map_at; by rewrite Hm1).
  assert (∀ k p, k ∉ dw_Key w :: done → before !! k = Some p → ph_cells h1 !! (previous, k) = Some p) as Hc1'.
  { intros k p [Hne Hd]%not_elem_of_cons Hbp. rewrite Hc1 by congruence. by apply Hc. }
  assert (∀ k l, map_at h paths !! k = Some l →
    (l.1 < ph_next h)%nat ∧ (l.1 = previous → l = (previous, k) ∧ k ∈ dw_Key w :: done)) as Hs'.
  { intros k l Hl. destruct (Hs k l Hl) as [? Hd]. split; [done|]. intros Hlp. destruct (Hd Hlp). split; [done|by right]. }
  unfold pure_write. destruct (dw_Outcome w) as [|p|].
  - rewrite Hp. destruct (before !! dw_Key w) as [p|] eqn:Hbk; cbn [fmap option_fmap option_map].
    + split; [cbn; lia| |done| |].
      * intros k. unfold put. rewrite map_at_insert, decide_False, Hma by lia. apply Hp.
      * rewrite (put_contents _ _ _ _ (rescored w p)); [by rewrite Ht1|by apply Hk1].
      * intros k l. unfold put. rewrite map_at_insert, decide_True by done. cbn [ph_next set_maps]. rewrite Hn1, Hma.
        intros [[<- <-]|[_ Hl]]%lookup_insert_Some; [simpl; split; [lia|]; intros _; split; [done|by left]|].
        by apply Hs'.
    + split; [lia|intros k; by rewrite Hma|done|done|]. intros k l. rewrite Hma, Hn1. apply Hs'.
  - unfold new_cell. set (h2 := {| ph_cells := _ |}).
    assert (∀ m, map_at h2 m = map_at h m) as Hma2 by (intros m; apply Hma).
    assert (contents h2 paths = now) as Ht2.
    { rewrite <-Ht1. apply contents_ext; [done|]. intros k l Hl. simpl. rewrite lookup_insert_ne; [done|]. intros <-.
      rewrite Hma in Hl. destruct (Hs k _ Hl) as [Hlt _]. simpl in Hlt. lia. }
    split; [cbn; lia| | | |].
    + intros k. unfold put. rewrite map_at_insert, decide_False, Hma2 by lia. apply Hp.
    + intros k p' Hd Hbp. cbn. rewrite lookup_insert_ne by (intros [= ? ?]; lia). by apply Hc1'.
    + rewrite (put_contents h2 _ _ _ p); [by rewrite Ht2|]. cbn. by rewrite lookup_insert_eq.
    + intros k l. unfold put. rewrite map_at_insert, decide_True by done. rewrite Hma2. cbn.
      intros [[<- <-]|[_ Hl]]%lookup_insert_Some; [simpl; lia|]. destruct (Hs' k l Hl) as [? Hd]. split; [lia|done].
  - split; [lia|intros k; by rewrite Hma|done|done|]. intros k l. rewrite Hma, Hn1. apply Hs'.
Qed.

Lemma write_demands_rel before previous paths ws done now h :
  tick_rel before previous paths done now h → NoDup (dw_Key <$> ws) → (∀ k, k ∈ dw_Key <$> ws → k ∉ done) →
  contents (foldl (write_demand previous paths) h ws) paths = foldl (pure_write before) now ws.
Proof.
  revert done now h. induction ws as [|w ws IH]; intros done now h Hrel Hnd Hdone; [apply Hrel|].
  rewrite fmap_cons in Hnd, Hdone. apply list.NoDup_cons in Hnd as [Hw Hnd]. simpl.
  apply (IH (dw_Key w :: done)); [|done|].
  - apply write_demand_rel; [done|]. apply Hdone. by left.
  - intros k Hk [->|Hd]%elem_of_cons; [done|]. apply (Hdone k); [by right|done].
Qed.

Lemma clone_own h k : map_at (ClonePaths h).1 (ph_next h) !! k = (λ _, (ph_next h, k)) <$> contents h (ph_store h) !! k.
Proof.
  unfold map_at. simpl. rewrite lookup_insert_eq. simpl. rewrite map_lookup_imap. by destruct (contents h (ph_store h) !! k).
Qed.

Lemma clone_cell h k p : contents h (ph_store h) !! k = Some p → ph_cells (ClonePaths h).1 !! (ph_next h, k) = Some p.
Proof. intros Hp. simpl. apply lookup_union_Some_l. by rewrite (lookup_kmap (pair (ph_next h)) (contents h (ph_store h)) k). Qed.

Lemma clone_contents h : contents (ClonePaths h).1 (ph_next h) = contents h (ph_store h).
Proof.
  apply map_eq. intros k. rewrite contents_lookup, clone_own. destruct (contents h (ph_store h) !! k) as [p|] eqn:Hp; [|done].
  by apply clone_cell.
Qed.

(** The two clones a tick begins with. *)
Lemma clones_rel h :
  store_settled {| en_heap := h; en_tick := None |} →
  let h1 := (ClonePaths h).1 in
  tick_rel (contents h (ph_store h)) (ph_next h) (ph_next h1) [] (contents h (ph_store h)) (ClonePaths h1).1.
Proof.
  intros [_ [Hk Hc _]] h1. cbn [en_heap LoadPaths] in Hk, Hc. assert (ph_next h1 = S (ph_next h)) as Hn1 by done.
  assert (contents h1 (ph_store h1) = contents h (ph_store h)) as Hsame.
  { apply contents_ext; [apply ClonePaths_map_at; unfold LoadPaths in Hk; lia|]. intros k l Hl%Hc. apply ClonePaths_cells. lia. }
  split.
  - cbn. lia.
  - intros k. rewrite ClonePaths_map_at by lia. apply clone_own.
  - intros k p _ Hp. rewrite ClonePaths_cells by (simpl; lia). by apply clone_cell.
  - by rewrite clone_contents.
  - intros k l ->%ClonePaths_own. cbn. lia.
Qed.

Lemma run_tick_contents h ws :
  store_settled {| en_heap := h; en_tick := None |} → NoDup (dw_Key <$> ws) →
  contents (run_tick h ws) (LoadPaths (run_tick h ws)) = foldl (pure_write (contents h (LoadPaths h))) (contents h (LoadPaths h)) ws.
Proof.
  intros Hs Hnd. unfold LoadPaths, run_tick.
  change (let '(h1, previous) := ClonePaths h in let '(h2, paths) := ClonePaths h1 in
    StorePaths (foldl (write_demand previous paths) h2 ws) paths) with
    (StorePaths (foldl (write_demand (ph_next h) (ph_next (ClonePaths h).1)) (ClonePaths (ClonePaths h).1).1 ws) (ph_next (ClonePaths h).1)).
  change (contents (StorePaths ?h' ?m) (ph_store (StorePaths ?h' ?m))) with (contents h' m).
  apply (write_demands_rel _ _ _ _ []); [by apply clones_rel|done|]. intros k _. apply not_elem_of_nil.
Qed.

(** ** Result *)

(** The environment and the state the demand loop of a tick starts with. *)
Definition tick_start `{RangeOrder} (p : PCE) (g : Graph) (now : Time) : tick_env * tick_state :=
  let pceGraph := NewPCEGraph g in
  let cg := updateStaticBandwidthUtilizationCost (pce_bandwidthReservationReg p) pceGraph (pce_costGraph p) in
  ({| te_now := now; te_previous := pce_PathStore p; te_graph := pceGraph; te_costSnapshot := CostsSnapshot cg;
      te_previousCosts := pce_previousCosts p; te_holdDown := pce_holdDownDuration p |},
   {| ts_reg := pce_bandwidthReservationReg p; ts_costGraph := cg; ts_paths := pce_PathStore p;
      ts_reroutes := []; ts_gated := []; ts_lastReroute := pce_lastRerouteMap p |}).

Lemma tick_Some `{RangeOrder} p g repo t_ready now t_links p' g' paths :
  tick p g repo t_ready now t_links = (p', g', Some paths) →
  let '(env, st) := tick_start p (updateLinkStates (pce_costGraph p) g t_links) now in
  te_previous env = pce_PathStore p ∧ ts_paths st = pce_PathStore p ∧
  ts_paths (foldl (demand_step env) st (BuildDemands repo)) = paths ∧ pce_PathStore p' = paths.
Proof. unfold tick, tick_start. destruct (IsReady _ _); [|done]. cbv zeta. by intros [= <- <- <-]. Qed.

(** C11: ticks work on shared paths as on values.  The store hands out its map
    and its path objects, and a tick writes costs and entries through pointers
    into clones: from any state the engine can be in between ticks, the run of
    these writes leaves in the store exactly the path set of the tick as a
    function of values; and whatever a reader (the snapshot publisher, the
    dispatcher) loaded before it or after it reads the same for ever, during
    every later tick too. *)
Theorem tick_on_shared_paths `{RangeOrder} e p g repo t_ready now t_links p' g' paths :
  repo_wf repo → rtc engine_step engine_start e → en_tick e = None →
  contents (en_heap e) (LoadPaths (en_heap e)) = pce_PathStore p →
  tick p g repo t_ready now t_links = (p', g', Some paths) →
  let '(env, st) := tick_start p (updateLinkStates (pce_costGraph p) g t_links) now in
  let e' := {| en_heap := run_tick (en_heap e) (tick_writes env st (BuildDemands repo)); en_tick := None |} in
  rtc engine_step e e' ∧
  contents (en_heap e') (LoadPaths (en_heap e')) = paths ∧ pce_PathStore p' = paths ∧
  ∀ e'', rtc engine_step e' e'' →
    contents (en_heap e'') (LoadPaths (en_heap e)) = pce_PathStore p ∧
    contents (en_heap e'') (LoadPaths (en_heap e')) = paths.
Proof.
  intros Hrepo Hreach Hidle Hc Ht%tick_Some. destruct (tick_start _ _ _) as [env st]. destruct Ht as (Hprev & Hst & Hpaths & Hp').
  destruct e as [h t]. simpl in Hidle. subst t. cbn [en_heap] in Hc. intros e'.
  assert (rtc engine_step {| en_heap := h; en_tick := None |} e') as Hrun by apply run_tick_steps.
  assert (contents (en_heap e') (LoadPaths (en_heap e')) = paths) as Hnew.
  { unfold e'. cbn [en_heap]. rewrite run_tick_contents.
    - rewrite Hc, <-Hpaths, tick_writes_paths, Hprev, Hst. done.
    - by apply reached_settled.
    - rewrite tick_writes_keys. by apply NoDup_PathKeys. }
  split_and!; [done|done|done|]. intros e'' Hlater. split.
  - rewrite <-Hc. apply (loaded_paths_fixed {| en_heap := h; en_tick := None |} e''); [done|by etrans].
  - rewrite <-Hnew. apply (loaded_paths_fixed e' e''); [by etrans|done].
Qed.

(** C11, instantiated: the first tick of the demonstration engine, on the empty
    store. *)
Lemma tick_on_shared_paths_witness :
  let '(env, st) := tick_start (H := canonical_order) (NewPCE demo_cost_graph (30 * Second))
    (updateLinkStates demo_cost_graph demo_topology demo_now) demo_now in
  let h' := run_tick NewPathStore (tick_writes (H := canonical_order) env st (BuildDemands (H := canonical_order) demo_repo)) in
  contents h' (LoadPaths h') = pce_PathStore demo_pce ∧ p_Edges <$> contents h' (LoadPaths h') !! demo_key = Some demo_path.
Proof.
  assert (bool_decide (is_Some (tick (H := canonical_order) (NewPCE demo_cost_graph (30 * Second)) demo_topology demo_repo
    demo_now demo_now demo_now).2) = true) as Hs by (vm_compute; reflexivity).
  destruct (tick (H := canonical_order) (NewPCE demo_cost_graph (30 * Second)) demo_topology demo_repo demo_now demo_now demo_now)
    as [[p' g'] o] eqn:Ht. destruct o as [paths|]; [|discriminate Hs]. clear Hs.
  pose proof (@tick_on_shared_paths canonical_order engine_start (NewPCE demo_cost_graph (30 * Second)) demo_topology demo_repo
    demo_now demo_now demo_now p' g' paths demo_repo_wf (rtc_refl _ _) eq_refl eq_refl Ht) as Hw.
  destruct (tick_start _ _ _) as [env st]. destruct Hw as (_ & Hc & Hp & _). cbn [en_heap engine_start] in Hc.
  assert (pce_PathStore demo_pce = paths) as Hd by (unfold demo_pce; rewrite Ht; exact Hp). cbv zeta. rewrite Hc, <-Hd.
  split; [reflexivity|]. vm_compute. reflexivity.
Defined.
