(* ===== verification/Sid.v ===== *)
(** Segment identifiers: the function numbers drawn from a cursor (hash.go),
    their place in an IPv6 locator, and the allocator that hands out at most
    one SID per locator, tenant and behaviour (service_registry_sid.go), with
    its recovery from the database (service_registry.go). *)

From S2P Require Import Prelude Netip.

(** ** Function numbers *)

Module Hash.
Definition low : Z := 0xf001.
Definition high : Z := 0xffff.
Definition n : Z := high - low + 1.
Definition a : Z := 1366.
Definition c : Z := 1247.

(** [uint16] arithmetic: [a*x + c] wraps at 65536 before the remainder. *)
Definition permute (cursor : Z) : Z :=
  let x := cursor mod n in
  let x := u16 (u16 (a * x) + c) mod n in
  u16 (low + x).

(** Every number lies between the two bounds. *)
Lemma permute_range x : low ≤ permute x ≤ high.
Proof.
  unfold permute. set (y := u16 _ mod n).
  assert (0 ≤ y < n) as Hy by (apply Z.mod_pos_bound; reflexivity).
  unfold n, low, high in *. rewrite u16_id by lia. lia.
Qed.
End Hash.

(** ** Placing the number in the locator *)

(** [Addr.As16], as the 128-bit value: an IPv4 address in its mapped form. *)
Definition As16 (ad : Addr) : Z :=
  match ad with
  | AddrZero => 0
  | Addr4 v => Z.lor (Z.shiftl 0xffff 32) v
  | Addr6 v => v
  end.

Definition withHextets (base : Prefix) (offsetBits funcID : Z) : Addr :=
  let b := As16 (pfx_addr base) in
  let offset := offsetBits / 8 in
  let shift := 128 - 8 * offset - 16 in
  Addr6 (Z.lor (Z.ldiff b (Z.shiftl 0xffff shift)) (Z.shiftl funcID shift)).

(** ** The allocator *)

(** The [EncapType] strings. *)
Definition EncapTypeDT46 : string := "dt46".

Record SIDAllocation := {
  sa_Sid : Addr;
  sa_Locator : Prefix;
  sa_TenantID : string;
  sa_SidType : string;
}.

(** The SID part of [ServiceRegistry], and the rows its database holds. *)
Record sid_state := {
  sidAllocationMap : gset Addr;
  sidTenantMap : gmap string Addr;
  sidCursor : Z;
  db_allocations : list SIDAllocation;
  db_cursor : Z;
}.

Definition MaxSIDCollisionChecks : nat := 5.

Definition tenantMapKey (locator : Prefix) (tenantID sidType : string) : string :=
  String.append (addr_string (pfx_addr locator))
    (String.append "." (String.append tenantID (String.append "." sidType))).

Inductive sid_error := ErrDB | ErrTooManyCollisions.

(** [db_fails] is whether the database transaction of this call fails. *)
Section alloc.
Context (db_fails : bool) (locator : Prefix) (tenantID sidType : string).

Fixpoint draw (fuel : nat) (st : sid_state) : sid_state * result sid_error Addr :=
  match fuel with
  | O => (st, Err ErrTooManyCollisions)
  | S fuel =>
      let sid := withHextets locator 48 (Hash.permute (sidCursor st)) in
      if decide (sid ∈ sidAllocationMap st) then
        draw fuel {| sidAllocationMap := sidAllocationMap st; sidTenantMap := sidTenantMap st;
                     sidCursor := u16 (sidCursor st + 1);
                     db_allocations := db_allocations st; db_cursor := db_cursor st |}
      else if db_fails then (st, Err ErrDB)
      else ({| sidAllocationMap := {[sid]} ∪ sidAllocationMap st;
               sidTenantMap := <[tenantMapKey locator tenantID sidType := sid]> (sidTenantMap st);
               sidCursor := u16 (sidCursor st + 1);
               db_allocations := db_allocations st ++
                 [{| sa_Sid := sid; sa_Locator := locator; sa_TenantID := tenantID; sa_SidType := sidType |}];
               db_cursor := u16 (sidCursor st + 1) |}, Ok sid)
  end.

Definition getOrGenerateSID (st : sid_state) : sid_state * result sid_error Addr :=
  match sidTenantMap st !! tenantMapKey locator tenantID sidType with
  | Some sid =>
      ({| sidAllocationMap := {[sid]} ∪ sidAllocationMap st; sidTenantMap := sidTenantMap st;
          sidCursor := sidCursor st; db_allocations := db_allocations st; db_cursor := db_cursor st |}, Ok sid)
  | None => draw MaxSIDCollisionChecks st
  end.
End alloc.

(** [NewServiceRegistry] followed by the allocation part of
    [LoadPreviousStateFromDB], with the cursor read from the database. *)
Definition load_allocation (m : gset Addr * gmap string Addr) (al : SIDAllocation) : gset Addr * gmap string Addr :=
  ({[sa_Sid al]} ∪ m.1, <[tenantMapKey (sa_Locator al) (sa_TenantID al) (sa_SidType al) := sa_Sid al]> m.2).

Definition restart (allocations : list SIDAllocation) (cursor : Z) : sid_state :=
  let m := foldl load_allocation (∅, ∅) allocations in
  {| sidAllocationMap := m.1; sidTenantMap := m.2; sidCursor := cursor;
     db_allocations := allocations; db_cursor := cursor |}.

(** ** The SID of a locator *)

Lemma hextet_testbit b f i :
  0 ≤ f < 2 ^ 16 → 0 ≤ i →
  Z.testbit (Z.lor (Z.ldiff b (Z.shiftl 0xffff 64)) (Z.shiftl f 64)) i =
  if (64 <=? i) && (i <? 80) then Z.testbit f (i - 64) else Z.testbit b i.
Proof.
  intros Hf Hi. rewrite Z.lor_spec, Z.ldiff_spec, !Z.shiftl_spec by lia.
  assert (∀ k, k < 0 ∨ 16 ≤ k → Z.testbit f k = false ∧ Z.testbit 65535 k = false) as Hout.
  { intros k [Hk|Hk]; [rewrite !Z.testbit_neg_r by lia; done|].
    split; apply Z.bits_above_log2; try lia.
    - destruct (decide (f = 0)) as [->|]; [simpl; lia|]. apply Z.log2_lt_pow2; [lia|].
      apply Z.lt_le_trans with (2 ^ 16); [lia|]. apply Z.pow_le_mono_r; lia.
    - change (Z.log2 65535) with 15. lia. }
  destruct (Z.leb_spec 64 i), (Z.ltb_spec i 80); simpl.
  - assert (Z.testbit 65535 (i - 64) = true) as ->.
    { change 65535 with (Z.ones 16). apply Z.ones_spec_low. lia. }
    by rewrite andb_false_r.
  - destruct (Hout (i - 64)) as [-> ->]; [lia|]. by rewrite andb_true_r, orb_false_r.
  - destruct (Hout (i - 64)) as [-> ->]; [lia|]. by rewrite andb_true_r, orb_false_r.
  - lia.
Qed.

Lemma withHextets_inj base f f' :
  0 ≤ f < 2 ^ 16 → 0 ≤ f' < 2 ^ 16 →
  withHextets base 48 f = withHextets base 48 f' → f = f'.
Proof.
  intros Hf Hf' [= He]. change (128 - 8 * (48 / 8) - 16) with 64 in He.
  apply Z.bits_inj'. intros i Hi. destruct (decide (i < 16)) as [Hlt|Hge].
  - pose proof (f_equal (λ v, Z.testbit v (i + 64)) He) as Hb. simpl in Hb.
    rewrite !hextet_testbit in Hb by lia.
    replace ((64 <=? i + 64) && (i + 64 <? 80)) with true in Hb by
      (symmetry; apply andb_true_intro; split; [apply Z.leb_le|apply Z.ltb_lt]; lia).
    by replace (i + 64 - 64) with i in Hb by lia.
  - assert (∀ x, 0 ≤ x < 2 ^ 16 → Z.testbit x i = false) as Hz; [|by rewrite !Hz].
    intros x Hx. destruct (decide (x = 0)) as [->|]; [by rewrite Z.testbit_0_l|].
    apply Z.bits_above_log2; [lia|]. apply Z.log2_lt_pow2; [lia|].
    apply Z.lt_le_trans with (2 ^ 16); [lia|]. apply Z.pow_le_mono_r; lia.
Qed.

(** A locator of at most 48 bits contains every SID made from it. *)
Lemma withHextets_contains base v f :
  pfx_addr base = Addr6 v → 0 ≤ pfx_bits base ≤ 48 → 0 ≤ f < 2 ^ 16 →
  prefix_contains base (withHextets base 48 f) = true.
Proof.
  intros Hb Hbits Hf. unfold prefix_contains, prefix_is_valid, withHextets. rewrite Hb. simpl (As16 _).
  apply andb_true_intro. split; [apply Z.leb_le; lia|]. apply Z.eqb_eq.
  change (128 - 8 * (48 / 8) - 16) with 64. apply Z.bits_inj'. intros i Hi.
  rewrite !Z.shiftr_spec, hextet_testbit by lia.
  destruct (Z.ltb_spec (i + (128 - pfx_bits base)) 80); [lia|]. by rewrite andb_false_r.
Qed.

(** ** The allocator's invariant *)

Record sid_inv (st : sid_state) : Prop := {
  iv_alloc : ∀ k sid, sidTenantMap st !! k = Some sid → sid ∈ sidAllocationMap st;
  iv_inj : ∀ k k' sid, sidTenantMap st !! k = Some sid → sidTenantMap st !! k' = Some sid → k = k';
  iv_db : foldl load_allocation (∅, ∅) (db_allocations st) = (sidAllocationMap st, sidTenantMap st);
}.

Section inv.
Context (db_fails : bool) (locator : Prefix) (tenantID sidType : string).
Notation key := (tenantMapKey locator tenantID sidType).

Lemma draw_spec fuel st :
  sid_inv st → sidTenantMap st !! key = None →
  let '(st', r) := draw db_fails locator tenantID sidType fuel st in
  sid_inv st' ∧
  match r with
  | Ok sid => sid ∉ sidAllocationMap st ∧ sidTenantMap st' = <[key := sid]> (sidTenantMap st) ∧
              ∃ cur, sid = withHextets locator 48 (Hash.permute cur)
  | Err _ => sidTenantMap st' = sidTenantMap st
  end.
Proof.
  revert st. induction fuel as [|fuel IH]; intros st Hinv Hkey; simpl; [done|].
  destruct (decide (_ ∈ sidAllocationMap st)) as [Hin|Hnin].
  - specialize (IH {| sidAllocationMap := sidAllocationMap st; sidTenantMap := sidTenantMap st;
      sidCursor := u16 (sidCursor st + 1); db_allocations := db_allocations st; db_cursor := db_cursor st |}).
    apply IH; [|done]. by destruct Hinv.
  - destruct db_fails; [done|]. destruct Hinv as [Ha Hi Hdb]. split.
    + split; simpl.
      * intros k sid. rewrite lookup_insert_Some. intros [[<- <-]|[_ Hk]]; [set_solver|].
        apply Ha in Hk. set_solver.
      * intros k k' sid. rewrite !lookup_insert_Some.
        intros [[<- <-]|[Hk Hks]] [[<- Hs]|[Hk' Hks']]; try done.
        -- apply Ha in Hks'. done.
        -- subst sid. apply Ha in Hks. done.
        -- by eapply Hi.
      * rewrite foldl_app, Hdb. done.
    + simpl. eauto.
Qed.

Lemma getOrGenerateSID_spec st :
  sid_inv st →
  let '(st', r) := getOrGenerateSID db_fails locator tenantID sidType st in
  sid_inv st' ∧ sidTenantMap st ⊆ sidTenantMap st' ∧
  match r with
  | Ok sid => sidTenantMap st' !! key = Some sid
  | Err _ => sidTenantMap st' = sidTenantMap st ∧ sidTenantMap st !! key = None
  end.
Proof.
  intros Hinv. unfold getOrGenerateSID. destruct (sidTenantMap st !! key) as [sid|] eqn:Hkey.
  - destruct Hinv as [Ha Hi Hdb]. split; [|done]. split; simpl; [|done|].
    + intros k s Hs. apply Ha in Hs. set_solver.
    + rewrite Hdb. f_equal. apply Ha in Hkey. set_solver.
  - pose proof (draw_spec MaxSIDCollisionChecks st Hinv Hkey) as Hd.
    destruct (draw _ _ _ _ _ st) as [st' [sid|e]]; destruct Hd as [Hinv' Hr]; (split; [done|]).
    + destruct Hr as (_ & -> & _). split; [by apply insert_subseteq|by rewrite lookup_insert_eq].
    + rewrite Hr. done.
Qed.
End inv.

Lemma restart_inv st : sid_inv st → sid_inv (restart (db_allocations st) (db_cursor st)).
Proof. intros [Ha Hi Hdb]. unfold restart. rewrite Hdb. by split; simpl. Qed.

(** ** Lifetimes: requests, some of which fail, and restarts *)

Inductive sid_step : sid_state → sid_state → Prop :=
  | step_request db_fails locator tenantID sidType st :
      sid_step st (getOrGenerateSID db_fails locator tenantID sidType st).1
  | step_restart st : sid_step st (restart (db_allocations st) (db_cursor st)).

Definition sid_fresh (cursor : Z) : sid_state := restart [] cursor.

Lemma sid_fresh_inv cursor : sid_inv (sid_fresh cursor).
Proof. split; simpl; [|..|done]; intros *; by rewrite lookup_empty. Qed.

Lemma sid_steps_inv st st' :
  sid_inv st → rtc sid_step st st' → sid_inv st' ∧ sidTenantMap st ⊆ sidTenantMap st'.
Proof.
  intros Hinv Hsteps. induction Hsteps as [st|st st1 st' Hstep _ IH]; [done|].
  assert (sid_inv st1 ∧ sidTenantMap st ⊆ sidTenantMap st1) as [Hinv1 Hsub1].
  { destruct Hstep as [f l t ty st|st].
    - pose proof (getOrGenerateSID_spec f l t ty st Hinv) as Hs.
      destruct (getOrGenerateSID f l t ty st) as [st1 r]. by destruct Hs as (? & ? & _).
    - split; [by apply restart_inv|]. destruct Hinv as [_ _ Hdb]. unfold restart. simpl. by rewrite Hdb. }
  destruct (IH Hinv1) as [? Hsub2]. split; [done|]. by etrans.
Qed.

(** ** Results *)

(** C14: over any sequence of requests, database failures and restarts the
    allocator never gives one SID to two different keys, and a key keeps its
    SID: every later request for it succeeds with the same one. *)
Theorem sid_allocation_stable cursor st st' k sid db_fails locator tenantID sidType :
  rtc sid_step (sid_fresh cursor) st → rtc sid_step st st' →
  sidTenantMap st !! tenantMapKey locator tenantID sidType = Some sid →
  (getOrGenerateSID db_fails locator tenantID sidType st').2 = Ok sid ∧
  (sidTenantMap st' !! k = Some sid → k = tenantMapKey locator tenantID sidType).
Proof.
  intros H1 H2 Hk. destruct (sid_steps_inv _ _ (sid_fresh_inv cursor) H1) as [Hinv _].
  destruct (sid_steps_inv _ _ Hinv H2) as [Hinv' Hsub].
  assert (sidTenantMap st' !! tenantMapKey locator tenantID sidType = Some sid) as Hk'
    by (by eapply lookup_weaken).
  split; [unfold getOrGenerateSID; by rewrite Hk'|]. intros Hother. by eapply (iv_inj _ Hinv').
Qed.

(** A SID allocated from an IPv6 locator of at most 48 bits lies inside
    that locator, its function number is between 0xf001 and 0xffff, and it was
    not allocated before. *)
Theorem new_sid_in_locator locator tenantID sidType v st st' sid :
  sid_inv st → pfx_addr locator = Addr6 v → 0 ≤ pfx_bits locator ≤ 48 →
  sidTenantMap st !! tenantMapKey locator tenantID sidType = None →
  getOrGenerateSID false locator tenantID sidType st = (st', Ok sid) →
  prefix_contains locator sid = true ∧ sid ∉ sidAllocationMap st ∧
  ∃ f, Hash.low ≤ f ≤ Hash.high ∧ sid = withHextets locator 48 f.
Proof.
  intros Hinv Hv Hbits Hkey Hget. unfold getOrGenerateSID in Hget. rewrite Hkey in Hget.
  pose proof (draw_spec false locator tenantID sidType MaxSIDCollisionChecks st Hinv Hkey) as Hd.
  rewrite Hget in Hd. destruct Hd as (_ & Hnin & _ & cur & ->).
  pose proof (Hash.permute_range cur) as Hr.
  split; [|split; [done|eauto]]. eapply withHextets_contains; [done|done|].
  unfold Hash.low, Hash.high in Hr. lia.
Qed.

(** The function numbers are not a permutation of the range: the 16-bit
    product wraps before the remainder is taken, so different cursors below
    the period give the same number. *)
Theorem permute_collides :
  ∃ x y, 0 ≤ x < y ∧ y < Hash.n ∧ Hash.permute x = Hash.permute y.
Proof. exists 42, 2111. vm_compute. repeat split; discriminate || reflexivity. Qed.

(** ** Witnesses *)

Definition demo_locator : Prefix := MkPrefix (Addr6 (0xfc000001 * 2 ^ 96)) 48.
Definition demo_sids : sid_state := (getOrGenerateSID false demo_locator "7" EncapTypeDT46 (sid_fresh 0)).1.

Lemma demo_sids_reached : rtc sid_step (sid_fresh 0) demo_sids.
Proof. eapply rtc_once, step_request. Qed.

Lemma sid_allocation_stable_witness :
  ∃ sid, sidTenantMap demo_sids !! tenantMapKey demo_locator "7" EncapTypeDT46 = Some sid ∧
    (getOrGenerateSID true demo_locator "7" EncapTypeDT46
       (restart (db_allocations demo_sids) (db_cursor demo_sids))).2 = Ok sid.
Proof.
  eexists. split; [vm_compute; reflexivity|].
  eapply (sid_allocation_stable 0 demo_sids _ "" _ true demo_locator "7" EncapTypeDT46);
    [apply demo_sids_reached|eapply rtc_once, step_restart|vm_compute; reflexivity].
Defined.

Lemma new_sid_in_locator_witness :
  ∃ sid, (getOrGenerateSID false demo_locator "7" EncapTypeDT46 (sid_fresh 0)).2 = Ok sid ∧
    prefix_contains demo_locator sid = true.
Proof.
  eexists. split; [vm_compute; reflexivity|].
  eapply (new_sid_in_locator demo_locator "7" EncapTypeDT46 (0xfc000001 * 2 ^ 96) (sid_fresh 0) demo_sids);
    [apply sid_fresh_inv|reflexivity|simpl; lia|reflexivity|vm_compute; reflexivity].
Defined.
