(* ===== verification/Registry.v ===== *)
(** Node intents (nodesync) and the service registry that versions and
    publishes them: transactions (service_registry_tx.go), the staged changes
    of a PE (service_registry_pe.go), CPE updates (service_registry_cpe.go),
    recovery and republication (service_registry.go). *)

From S2P Require Import Prelude Netip Topology Sid.

(** ** Intents *)

Record PE_PortalIntent := {
  po_HostFacingInterface : string;
  po_TunnelInterfaceID : Z;
  po_SitePrefix : Prefix;
  po_TenantPrefix : Prefix;
}.

Record PESIDInstallIntent := {
  ii_TenantID : string;
  ii_PrefixRoutes : list Prefix;
  ii_Segments : list Addr;
  ii_Color : Z;
}.

Record TenantIntent := {
  ti_PortalIntents : gmap string PE_PortalIntent;
  ti_DT46SID : Addr;
  ti_InstallPaths : list PESIDInstallIntent;
}.

Record PeerIntent := {
  pi_PeerID : string;
  pi_PeerLoopback : Prefix;
  pi_LocalLoopback : Prefix;
  pi_PeerAddress : Addr;
  pi_PeerInterface : string;
  pi_LocalInterface : string;
  pi_TelemetryKey : string;
}.

Record PETrafficClassIntent := { tci_Color : Z; tci_DSCP : list Z }.

Record PEIntent := {
  pei_NodeID : string;
  pei_Tenants : gmap string TenantIntent;
  pei_Peers : gmap string PeerIntent;
  pei_TrafficClassIntent : list PETrafficClassIntent;
}.

Record CPEIntent := {
  cpe_PortalID : string;
  cpe_TunnelInterfaceID : Z;
  cpe_TunnelPE : string;
  cpe_TunnelPEEndpointAddr : Addr;
  cpe_TenantID : string;
  cpe_TenantPrefix : Prefix;
  cpe_SitePrefix : Prefix;
}.

Inductive Intent := IntentPE (i : PEIntent) | IntentCPE (i : CPEIntent).

(** [NodeType]: the two known values, or any other string of the database. *)
Inductive NodeType := NodeTypeCPE | NodeTypePE | NodeTypeOther (s : string).

Record NodeIntent := {
  ni_ID : string;
  ni_NodeType : NodeType;
  ni_Intent : Intent;
  ni_Timestamp : Time;
  ni_Generation : Z;
  ni_Version : Z;
}.

(** [Clone] copies every map and slice an intent holds.  Values are immutable
    here, so the copy equals the original ([Clone_id]): a snapshot taken under
    the lock does not see later changes. *)
Definition clone_install (i : PESIDInstallIntent) : PESIDInstallIntent :=
  {| ii_TenantID := ii_TenantID i; ii_PrefixRoutes := ii_PrefixRoutes i; ii_Segments := ii_Segments i;
     ii_Color := ii_Color i |}.

Definition clone_tenant (t : TenantIntent) : TenantIntent :=
  {| ti_DT46SID := ti_DT46SID t; ti_PortalIntents := ti_PortalIntents t;
     ti_InstallPaths := clone_install <$> ti_InstallPaths t |}.

Definition clone_class (c : PETrafficClassIntent) : PETrafficClassIntent :=
  {| tci_Color := tci_Color c; tci_DSCP := tci_DSCP c |}.

Definition PEIntent_Clone (i : PEIntent) : PEIntent :=
  {| pei_NodeID := pei_NodeID i; pei_Tenants := clone_tenant <$> pei_Tenants i; pei_Peers := pei_Peers i;
     pei_TrafficClassIntent := clone_class <$> pei_TrafficClassIntent i |}.

Definition CPEIntent_Clone (i : CPEIntent) : CPEIntent :=
  {| cpe_PortalID := cpe_PortalID i; cpe_TunnelInterfaceID := cpe_TunnelInterfaceID i; cpe_TunnelPE := cpe_TunnelPE i;
     cpe_TunnelPEEndpointAddr := cpe_TunnelPEEndpointAddr i; cpe_TenantID := cpe_TenantID i;
     cpe_TenantPrefix := cpe_TenantPrefix i; cpe_SitePrefix := cpe_SitePrefix i |}.

Definition Clone (n : NodeIntent) : NodeIntent :=
  {| ni_ID := ni_ID n; ni_NodeType := ni_NodeType n;
     ni_Intent := match ni_Intent n with
                  | IntentPE i => IntentPE (PEIntent_Clone i)
                  | IntentCPE i => IntentCPE (CPEIntent_Clone i)
                  end;
     ni_Timestamp := ni_Timestamp n; ni_Generation := ni_Generation n; ni_Version := ni_Version n |}.

Lemma clone_install_id i : clone_install i = i.
Proof. by destruct i. Qed.

Lemma clone_tenant_id t : clone_tenant t = t.
Proof.
  destruct t. unfold clone_tenant. simpl. f_equal.
  rewrite <-list_fmap_id. apply list_fmap_ext. intros. apply clone_install_id.
Qed.

Lemma Clone_id n : Clone n = n.
Proof.
  destruct n as [id ty [[node ts ps cs]|[]] tm gn vs]; [|done]. unfold Clone, PEIntent_Clone. simpl. do 3 f_equal.
  - rewrite <-map_fmap_id. apply map_fmap_ext. intros. apply clone_tenant_id.
  - rewrite <-list_fmap_id. apply list_fmap_ext. by intros ? [] ?.
Qed.

Definition PrefixPE : string := "pop".
Definition PrefixCPE : string := "cpe".
Definition LaneIntent : string := "intent".

Definition Key (prefix id lane : string) : string :=
  String.append prefix (String.append "." (String.append id (String.append "." lane))).

(** ** State *)

(** The registry, and the versions the database holds per (type, node). *)
Record ServiceRegistry := {
  sr_registry : gmap string NodeIntent;
  sr_sids : sid_state;
}.

Inductive registry_error :=
  | IntentIsNotPE (node : string)
  | NoTenantIntent (node : string) (e : sid_error)
  | UnknownNodeType (node : string)
  | PublishFailed (key : string)
  | UpsertFailed (node : string).

Definition empty_pe (nodeID : string) : PEIntent :=
  {| pei_NodeID := nodeID; pei_Tenants := ∅; pei_Peers := ∅; pei_TrafficClassIntent := [] |}.

(** [getOrCreateRegistryEntryForPE] and [...ForCPE]: the entry, which the
    caller's map holds afterwards. *)
Definition getOrCreateRegistryEntryForPE (reg : gmap string NodeIntent) (nodeID : string) (now : Time) : NodeIntent :=
  default {| ni_ID := nodeID; ni_NodeType := NodeTypePE; ni_Intent := IntentPE (empty_pe nodeID);
             ni_Timestamp := now; ni_Generation := 1; ni_Version := 1 |} (reg !! nodeID).

Definition empty_cpe (portalID : string) : CPEIntent :=
  {| cpe_PortalID := portalID; cpe_TunnelInterfaceID := 0; cpe_TunnelPE := "";
     cpe_TunnelPEEndpointAddr := AddrZero; cpe_TenantID := ""; cpe_TenantPrefix := prefix_zero;
     cpe_SitePrefix := prefix_zero |}.

Definition getOrCreateRegistryEntryForCPE (reg : gmap string NodeIntent) (portalID : string) (now : Time) : NodeIntent :=
  default {| ni_ID := portalID; ni_NodeType := NodeTypeCPE; ni_Intent := IntentCPE (empty_cpe portalID);
             ni_Timestamp := now; ni_Generation := 0; ni_Version := 1 |} (reg !! portalID).

(** ** Staged changes *)

(** The closures handed to [MutatePE]. *)
Inductive mutation :=
  | StageSIDSegs (tenantID : string) (locator : Prefix) (paths : list PESIDInstallIntent)
  | StagePortal (tenantID portalID : string) (portal : PE_PortalIntent) (locator : Prefix)
  | StagePeers (peers : gmap string PeerIntent)
  | StageTrafficClass (mapping : list PETrafficClassIntent).

Record pendingMutation := { pm_NodeType : NodeType; pm_Mutate : mutation }.

Notation RegistryTx := (gmap string (list pendingMutation)).

Definition BeginTx : RegistryTx := ∅.

Definition MutatePE (tx : RegistryTx) (nodeID : NodeID) (m : mutation) : RegistryTx :=
  <[nodeID := map_get [] tx nodeID ++ [{| pm_NodeType := NodeTypePE; pm_Mutate := m |}]]> tx.

Definition set_tenant (i : PEIntent) (tenantID : string) (t : TenantIntent) : PEIntent :=
  {| pei_NodeID := pei_NodeID i; pei_Tenants := <[tenantID := t]> (pei_Tenants i);
     pei_Peers := pei_Peers i; pei_TrafficClassIntent := pei_TrafficClassIntent i |}.

(** [db_fails key]: whether the database refuses the allocation for [key]. *)
Section commit.
Context `{RangeOrder} (db_fails : string → bool).

Definition getOrCreateTenantIntentForPE (sids : sid_state) (tenantID : string) (locator : Prefix) (pe : PEIntent)
    : sid_state * result sid_error (PEIntent * TenantIntent) :=
  match pei_Tenants pe !! tenantID with
  | Some t => (sids, Ok (pe, t))
  | None =>
      let '(sids, r) := getOrGenerateSID (db_fails (tenantMapKey locator tenantID EncapTypeDT46))
                          locator tenantID EncapTypeDT46 sids in
      match r with
      | Err e => (sids, Err e)
      | Ok sid =>
          let t := {| ti_PortalIntents := ∅; ti_DT46SID := sid; ti_InstallPaths := [] |} in
          (sids, Ok (set_tenant pe tenantID t, t))
      end
  end.

(** What a closure does to a PE intent. *)
Definition mutate_pe (node : string) (sids : sid_state) (pe : PEIntent) (m : mutation)
    : sid_state * PEIntent * option registry_error :=
  match m with
  | StageSIDSegs tenantID locator paths =>
      let '(sids, r) := getOrCreateTenantIntentForPE sids tenantID locator pe in
      match r with
      | Err e => (sids, pe, Some (NoTenantIntent node e))
      | Ok (pe, t) =>
          (sids, set_tenant pe tenantID {| ti_PortalIntents := ti_PortalIntents t; ti_DT46SID := ti_DT46SID t;
                                           ti_InstallPaths := paths |}, None)
      end
  | StagePortal tenantID portalID portal locator =>
      let '(sids, r) := getOrCreateTenantIntentForPE sids tenantID locator pe in
      match r with
      | Err e => (sids, pe, Some (NoTenantIntent node e))
      | Ok (pe, t) =>
          (sids, set_tenant pe tenantID {| ti_PortalIntents := <[portalID := portal]> (ti_PortalIntents t);
                                           ti_DT46SID := ti_DT46SID t;
                                           ti_InstallPaths := ti_InstallPaths t |}, None)
      end
  | StagePeers peers =>
      (sids, {| pei_NodeID := pei_NodeID pe; pei_Tenants := pei_Tenants pe; pei_Peers := peers;
                pei_TrafficClassIntent := pei_TrafficClassIntent pe |}, None)
  | StageTrafficClass mapping =>
      (sids, {| pei_NodeID := pei_NodeID pe; pei_Tenants := pei_Tenants pe; pei_Peers := pei_Peers pe;
                pei_TrafficClassIntent := mapping |}, None)
  end.

(** [m.Mutate(intentEntry.Intent)]: the type check, then the closure. *)
Definition mutate_step (node : string) (acc : sid_state * Intent * list registry_error) (m : pendingMutation)
    : sid_state * Intent * list registry_error :=
  let '(sids, i, errs) := acc in
  match i with
  | IntentPE pe =>
      let '(sids, pe, e) := mutate_pe node sids pe (pm_Mutate m) in
      (sids, IntentPE pe, match e with Some e => errs ++ [e] | None => errs end)
  | IntentCPE _ => (sids, i, errs ++ [IntentIsNotPE node])
  end.

Definition bump (ni : NodeIntent) (i : Intent) (now : Time) : NodeIntent :=
  {| ni_ID := ni_ID ni; ni_NodeType := ni_NodeType ni; ni_Intent := i; ni_Timestamp := now;
     ni_Generation := u32 (ni_Generation ni + 1); ni_Version := ni_Version ni |}.

Definition publish_key (ni : NodeIntent) (entryKey : string) : option string :=
  match ni_NodeType ni with
  | NodeTypePE => Some (Key PrefixPE entryKey LaneIntent)
  | NodeTypeCPE => Some (Key PrefixCPE entryKey LaneIntent)
  | NodeTypeOther _ => None
  end.

Record commit_state := {
  cs_reg : ServiceRegistry;
  cs_snapshots : gmap string NodeIntent;
  cs_errors : list registry_error;
}.

(** The node's entry, made if it is missing for the type the first change
    names. *)
Definition tx_entry (reg : gmap string NodeIntent) (entryKey : string) (mutations : list pendingMutation)
    (now : Time) : option NodeIntent :=
  match reg !! entryKey, mutations with
  | Some e, _ => Some e
  | None, m :: _ =>
      match pm_NodeType m with
      | NodeTypePE => Some (getOrCreateRegistryEntryForPE reg entryKey now)
      | NodeTypeCPE => Some (getOrCreateRegistryEntryForCPE reg entryKey now)
      | NodeTypeOther _ => None
      end
  | None, [] => None
  end.

(** One node of the first loop of [Commit], under the registry's lock. *)
Definition commit_node (now : Time) (st : commit_state) (km : string * list pendingMutation) : commit_state :=
  let '(entryKey, mutations) := km in
  let reg := sr_registry (cs_reg st) in
  match tx_entry reg entryKey mutations now with
  | None => st
  | Some e =>
      let '(sids, i, errs) := foldl (mutate_step entryKey) (sr_sids (cs_reg st), ni_Intent e, cs_errors st) mutations in
      let e' := bump e i now in
      let reg' := {| sr_registry := <[entryKey := e']> reg; sr_sids := sids |} in
      match publish_key e' entryKey with
      | None => {| cs_reg := reg'; cs_snapshots := cs_snapshots st; cs_errors := errs ++ [UnknownNodeType entryKey] |}
      | Some k => {| cs_reg := reg'; cs_snapshots := <[k := Clone e']> (cs_snapshots st); cs_errors := errs |}
      end
  end.

(** The second loop: the version goes to the database, then the snapshot to
    the bucket.  A failed database write is only logged. *)
Definition publish_step (upsert_ok publish_ok : string → bool)
    (acc : list (string * NodeIntent) * list registry_error) (ks : string * NodeIntent)
    : list (string * NodeIntent) * list registry_error :=
  if upsert_ok ks.1 then
    if publish_ok ks.1 then (acc.1 ++ [ks], acc.2) else (acc.1, acc.2 ++ [PublishFailed ks.1])
  else acc.

(** The registry after the call, what was published, and the errors joined. *)
Definition Commit (upsert_ok publish_ok : string → bool) (r : ServiceRegistry) (tx : RegistryTx) (now : Time)
    : ServiceRegistry * list (string * NodeIntent) * list registry_error :=
  let st := foldl (commit_node now) {| cs_reg := r; cs_snapshots := ∅; cs_errors := [] |} (range_map tx) in
  let '(pub, errs) := foldl (publish_step upsert_ok publish_ok) ([], cs_errors st) (range_map (cs_snapshots st)) in
  (cs_reg st, pub, errs).

(** ** CPE updates *)

Definition UpsertCPEIntentForSite (upsert_ok publish_ok : bool) (r : ServiceRegistry) (portalID : string)
    (cpe : CPEIntent) (now : Time) : ServiceRegistry * list (string * NodeIntent) * option registry_error :=
  let current := getOrCreateRegistryEntryForCPE (sr_registry r) portalID now in
  let e := bump current (IntentCPE cpe) now in
  let r := {| sr_registry := <[portalID := e]> (sr_registry r); sr_sids := sr_sids r |} in
  let key := Key PrefixCPE portalID LaneIntent in
  if upsert_ok then
    if publish_ok then (r, [(key, Clone e)], None) else (r, [], Some (PublishFailed key))
  else (r, [], Some (UpsertFailed portalID)).

(** ** Recovery *)

Record NodeGeneration := { ng_NodeType : NodeType; ng_NodeID : string; ng_Version : Z }.

Definition load_generation (now : Time) (reg : gmap string NodeIntent) (g : NodeGeneration) : gmap string NodeIntent :=
  let put i := <[ng_NodeID g := {| ni_ID := ng_NodeID g; ni_NodeType := ng_NodeType g; ni_Intent := i;
      ni_Timestamp := now; ni_Generation := 0; ni_Version := u32 (ng_Version g + 1) |}]> reg in
  match ng_NodeType g with
  | NodeTypePE => put (IntentPE (empty_pe (ng_NodeID g)))
  | NodeTypeCPE => put (IntentCPE (empty_cpe (ng_NodeID g)))
  | NodeTypeOther _ => reg
  end.

Definition LoadPreviousStateFromDB (generations : list NodeGeneration) (allocations : list SIDAllocation)
    (cursor : Z) (now : Time) : ServiceRegistry :=
  {| sr_registry := foldl (load_generation now) ∅ generations; sr_sids := restart allocations cursor |}.

(** [Restore]: republish every intent, up to the first failure. *)
Definition restore_key (ni : NodeIntent) : string :=
  match ni_Intent ni with
  | IntentCPE i => Key PrefixCPE (cpe_PortalID i) LaneIntent
  | IntentPE i => Key PrefixPE (pei_NodeID i) LaneIntent
  end.

Fixpoint restore_loop (publish_ok : string → bool) (l : list NodeIntent) (acc : list (string * NodeIntent))
    : list (string * NodeIntent) * option registry_error :=
  match l with
  | [] => (acc, None)
  | ni :: l =>
      if publish_ok (restore_key ni) then restore_loop publish_ok l (acc ++ [(restore_key ni, ni)])
      else (acc, Some (PublishFailed (restore_key ni)))
  end.

Definition Restore (ensure_ok : bool) (publish_ok : string → bool) (r : ServiceRegistry)
    : list (string * NodeIntent) * option registry_error :=
  if ensure_ok then restore_loop publish_ok (Clone <$> (range_map (sr_registry r)).*2) []
  else ([], Some (PublishFailed "")).
End commit.

(** ** Keys *)

Lemma Key_inj p id id' lane : Key p id lane = Key p id' lane → id = id'.
Proof. unfold Key. intros H%append_inj_r%append_inj_r%append_inj_l. done. Qed.

Lemma publish_key_inj ni ni' id id' k :
  publish_key ni id = Some k → publish_key ni' id' = Some k → id = id'.
Proof.
  intros H1 H2. assert (publish_key ni id = publish_key ni' id') as He by congruence.
  unfold publish_key in *. clear H2.
  destruct (ni_NodeType ni), (ni_NodeType ni'); try discriminate;
    apply (inj Some) in He; first [by apply Key_inj in He|discriminate He].
Qed.

(** ** Transactions *)

(** What [MutatePE] builds. *)
Definition tx_ok (tx : RegistryTx) : Prop :=
  ∀ id ms, tx !! id = Some ms → ms ≠ [] ∧ Forall (λ m, pm_NodeType m = NodeTypePE) ms.

Lemma BeginTx_ok : tx_ok BeginTx.
Proof. intros id ms. unfold BeginTx. by rewrite lookup_empty. Qed.

Lemma MutatePE_ok tx id m : tx_ok tx → tx_ok (MutatePE tx id m).
Proof.
  unfold tx_ok. intros Hok i ms. unfold MutatePE. rewrite lookup_insert_Some. intros [[<- <-]|[_ Hms]]; [|exact (Hok _ _ Hms)].
  split; [by destruct (map_get [] tx id)|]. apply list.Forall_app. split; [|by repeat constructor].
  unfold map_get. destruct (tx !! id) as [ms|] eqn:He; [by apply Hok in He as [_ ?]|constructor].
Qed.

(** The entry a transaction starts from. *)
Definition entry_before (reg : gmap string NodeIntent) (id : string) (now : Time) : NodeIntent :=
  getOrCreateRegistryEntryForPE reg id now.

(** [e'] is [e] with its intent replaced and one generation later. *)
Definition bumped (e e' : NodeIntent) (now : Time) : Prop :=
  ni_ID e' = ni_ID e ∧ ni_NodeType e' = ni_NodeType e ∧ ni_Timestamp e' = now ∧
  ni_Generation e' = u32 (ni_Generation e + 1) ∧ ni_Version e' = ni_Version e.

Section commit_spec.
Context `{RangeOrder} (db_fails : string → bool) (now : Time).

Record commit_inv (r : ServiceRegistry) (ids : list string) (st : commit_state) : Prop := {
  cv_out : ∀ id, id ∉ ids → sr_registry (cs_reg st) !! id = sr_registry r !! id;
  cv_in : ∀ id, id ∈ ids → ∃ e, sr_registry (cs_reg st) !! id = Some e ∧
    bumped (entry_before (sr_registry r) id now) e now;
  cv_snap : ∀ k ni, cs_snapshots st !! k = Some ni ↔
    ∃ id, id ∈ ids ∧ sr_registry (cs_reg st) !! id = Some ni ∧ publish_key ni id = Some k;
}.

Lemma commit_node_inv r tx ids st id ms :
  tx_ok tx → tx !! id = Some ms → id ∉ ids → commit_inv r ids st →
  commit_inv r (ids ++ [id]) (commit_node db_fails now st (id, ms)).
Proof.
  intros Hok Hms Hnew [Hout Hin Hsnap]. destruct (Hok _ _ Hms) as [Hne HF].
  unfold commit_node.
  assert (tx_entry (sr_registry (cs_reg st)) id ms now = Some (entry_before (sr_registry r) id now)) as ->.
  { unfold tx_entry, entry_before, getOrCreateRegistryEntryForPE. rewrite <-(Hout id Hnew).
    destruct (sr_registry (cs_reg st) !! id) as [e|] eqn:He; [done|]. destruct ms as [|m ms]; [done|].
    apply list.Forall_cons in HF as [-> _]. done. }
  destruct (foldl (mutate_step db_fails id) _ ms) as [[sids i] errs].
  set (e := entry_before (sr_registry r) id now). set (e' := bump e i now).
  assert (bumped e e' now) as Hb by done.
  assert (∀ st', sr_registry (cs_reg st') = <[id := e']> (sr_registry (cs_reg st)) →
    cs_snapshots st' = match publish_key e' id with Some k => <[k := e']> (cs_snapshots st) | None => cs_snapshots st end →
    commit_inv r (ids ++ [id]) st') as Hgoal.
  { intros st' Hreg Hsn. split.
    - intros x Hx. rewrite Hreg, lookup_insert_ne by set_solver. apply Hout. set_solver.
    - intros x Hx. rewrite Hreg. destruct (decide (x = id)) as [->|Hxid].
      + exists e'. by rewrite lookup_insert_eq.
      + rewrite lookup_insert_ne by done. apply Hin. set_solver.
    - intros k ni. rewrite Hsn.
      assert ((∃ x, x ∈ ids ++ [id] ∧ sr_registry (cs_reg st') !! x = Some ni ∧ publish_key ni x = Some k) ↔
              (publish_key e' id = Some k ∧ ni = e') ∨ cs_snapshots st !! k = Some ni) as ->.
      { rewrite Hsnap, Hreg. split.
        - intros (x & Hx & Hl & Hp). apply lookup_insert_Some in Hl as [[<- <-]|[Hne' Hl]]; [by left|right].
          exists x. split; [set_solver|done].
        - intros [[Hp ->]|(x & Hx & Hl & Hp)].
          + exists id. rewrite lookup_insert_eq. split; [set_solver|done].
          + exists x. rewrite lookup_insert_ne by (by intros ->). split; [set_solver|done]. }
      destruct (publish_key e' id) as [k'|] eqn:Hk'; [|naive_solver].
      rewrite lookup_insert_Some. split; [naive_solver|]. intros [[[= ->] ->]|Hs]; [by left|right].
      split; [|done]. intros ->. apply Hsnap in Hs as (x & Hx & _ & Hp).
      apply Hnew. by rewrite (publish_key_inj _ _ _ _ _ Hk' Hp). }
  rewrite Clone_id. destruct (publish_key e' id) eqn:Hk; apply Hgoal; done.
Qed.

Lemma commit_nodes r tx :
  tx_ok tx →
  commit_inv r (range_map tx).*1
    (foldl (commit_node db_fails now) {| cs_reg := r; cs_snapshots := ∅; cs_errors := [] |} (range_map tx)).
Proof.
  intros Hok. pose proof (NoDup_range_map_fst tx) as Hnd. revert Hnd.
  apply (foldl_ind (commit_node db_fails now) (λ l st, NoDup l.*1 → commit_inv r l.*1 st)).
  - intros _. split; simpl; [done|by intros ? ?%not_elem_of_nil|].
    intros k ni. rewrite lookup_empty. split; [done|]. by intros (x & ?%not_elem_of_nil & _).
  - intros l [id ms] st IH Hin%elem_of_range_map Hnd. rewrite fmap_app in *. simpl in *.
    apply list.NoDup_app in Hnd as (Hnd & Hdis & _).
    eapply commit_node_inv; [done|done| |by apply IH].
    intros Hx. apply (Hdis _ Hx). by apply list_elem_of_singleton.
Qed.

Lemma publish_spec upsert_ok publish_ok l acc ks :
  ks ∈ (foldl (publish_step upsert_ok publish_ok) acc l).1 ↔
  ks ∈ acc.1 ∨ (ks ∈ l ∧ upsert_ok ks.1 = true ∧ publish_ok ks.1 = true).
Proof.
  revert acc. induction l as [|x l IH]; intros acc; simpl.
  { split; [by left|]. by intros [?|[?%not_elem_of_nil _]]. }
  rewrite IH. unfold publish_step. destruct (upsert_ok x.1) eqn:H1; [destruct (publish_ok x.1) eqn:H2|]; simpl.
  - set_solver.
  - split; [set_solver|]. intros [?|[[->|?]%elem_of_cons [? ?]]]; [by left|congruence|by right].
  - split; [set_solver|]. intros [?|[[->|?]%elem_of_cons [? ?]]]; [by left|congruence|by right].
Qed.
End commit_spec.

(** ** The SID of a tenant on a node *)

(** The locator a staged change names, if any. *)
Definition mutation_locator (m : mutation) : option Prefix :=
  match m with
  | StageSIDSegs _ locator _ | StagePortal _ _ _ locator => Some locator
  | _ => None
  end.

Section dt46.
Context (db_fails : string → bool) (loc : string → Prefix).

Definition tenant_sids_ok (id : string) (sids : sid_state) (i : Intent) : Prop :=
  match i with
  | IntentPE pe => ∀ tenant t, pei_Tenants pe !! tenant = Some t →
      sidTenantMap sids !! tenantMapKey (loc id) tenant EncapTypeDT46 = Some (ti_DT46SID t)
  | IntentCPE _ => True
  end.

Lemma tenant_sids_mono id sids sids' i :
  sidTenantMap sids ⊆ sidTenantMap sids' → tenant_sids_ok id sids i → tenant_sids_ok id sids' i.
Proof. destruct i as [pe|]; [|done]. intros Hsub Hpe tenant t Ht. eapply lookup_weaken; [by apply Hpe|done]. Qed.

Lemma set_tenant_ok id sids pe tenant t :
  tenant_sids_ok id sids (IntentPE pe) →
  sidTenantMap sids !! tenantMapKey (loc id) tenant EncapTypeDT46 = Some (ti_DT46SID t) →
  tenant_sids_ok id sids (IntentPE (set_tenant pe tenant t)).
Proof.
  intros Hpe Ht tenant' t'. simpl. rewrite lookup_insert_Some. intros [[<- <-]|[_ ?]]; [done|by apply Hpe].
Qed.

Lemma getOrCreateTenantIntent_ok id sids tenant pe :
  sid_inv sids → tenant_sids_ok id sids (IntentPE pe) →
  let '(sids', r) := getOrCreateTenantIntentForPE db_fails sids tenant (loc id) pe in
  sid_inv sids' ∧ sidTenantMap sids ⊆ sidTenantMap sids' ∧
  match r with
  | Ok (pe', t) => tenant_sids_ok id sids' (IntentPE pe') ∧
      sidTenantMap sids' !! tenantMapKey (loc id) tenant EncapTypeDT46 = Some (ti_DT46SID t)
  | Err _ => True
  end.
Proof.
  intros Hinv Hpe. unfold getOrCreateTenantIntentForPE.
  destruct (pei_Tenants pe !! tenant) as [t|] eqn:Ht; [split_and!; [done..|by apply Hpe]|].
  pose proof (getOrGenerateSID_spec (db_fails (tenantMapKey (loc id) tenant EncapTypeDT46)) (loc id) tenant EncapTypeDT46 sids Hinv) as Hs.
  destruct (getOrGenerateSID _ _ _ _ sids) as [sids' [sid|e]]; destruct Hs as (? & Hsub & Hr); [|done].
  split_and!; [done|done| |done]. apply set_tenant_ok; [by eapply tenant_sids_mono|done].
Qed.

Lemma mutate_step_ok id sids i errs m :
  match mutation_locator (pm_Mutate m) with Some l => l = loc id | None => True end →
  sid_inv sids → tenant_sids_ok id sids i →
  let '(sids', i', _) := mutate_step db_fails id (sids, i, errs) m in
  sid_inv sids' ∧ sidTenantMap sids ⊆ sidTenantMap sids' ∧ tenant_sids_ok id sids' i'.
Proof.
  intros Hl Hinv Hi. unfold mutate_step. destruct i as [pe|cpe]; [|done].
  destruct (pm_Mutate m) as [tenant l paths|tenant portal pi l|peers|mapping]; simpl in *; [| |done|done]; subst l;
    pose proof (getOrCreateTenantIntent_ok id sids tenant pe Hinv Hi) as Hs;
    destruct (getOrCreateTenantIntentForPE db_fails sids tenant (loc id) pe) as [sids' [[pe' t]|e]];
    destruct Hs as (Hinv' & Hsub & Hr); (split; [done|split; [done|]]).
  - destruct Hr. by apply set_tenant_ok.
  - by eapply (tenant_sids_mono id sids sids' (IntentPE pe)).
  - destruct Hr. by apply set_tenant_ok.
  - by eapply (tenant_sids_mono id sids sids' (IntentPE pe)).
Qed.

(** Every PE's tenants carry the SID the allocator holds for the node's
    locator. *)
Record registry_sids_ok (r : ServiceRegistry) : Prop := {
  rs_inv : sid_inv (sr_sids r);
  rs_ok : ∀ id e, sr_registry r !! id = Some e → tenant_sids_ok id (sr_sids r) (ni_Intent e);
}.

Definition tx_locators_ok (tx : RegistryTx) : Prop :=
  ∀ id ms m, tx !! id = Some ms → m ∈ ms →
    match mutation_locator (pm_Mutate m) with Some l => l = loc id | None => True end.

Lemma commit_node_sids `{RangeOrder} now st id ms :
  (∀ m, m ∈ ms → match mutation_locator (pm_Mutate m) with Some l => l = loc id | None => True end) →
  registry_sids_ok (cs_reg st) → registry_sids_ok (cs_reg (commit_node db_fails now st (id, ms))).
Proof.
  intros Hms [Hinv Hok]. unfold commit_node.
  destruct (tx_entry _ id ms now) as [e|] eqn:He; [|done].
  assert (tenant_sids_ok id (sr_sids (cs_reg st)) (ni_Intent e)) as Hi.
  { unfold tx_entry, getOrCreateRegistryEntryForPE, getOrCreateRegistryEntryForCPE in He.
    destruct (sr_registry (cs_reg st) !! id) as [e0|] eqn:He0.
    - injection He as <-. by apply Hok.
    - destruct ms as [|m ms]; [done|]. destruct (pm_NodeType m); [..|done]; injection He as <-; simpl; [done|].
      intros tenant t. by rewrite lookup_empty. }
  assert (∀ sids i errs l, (∀ m, m ∈ l → match mutation_locator (pm_Mutate m) with Some l => l = loc id | None => True end) →
    sid_inv sids → tenant_sids_ok id sids i →
    let '(sids', i', _) := foldl (mutate_step db_fails id) (sids, i, errs) l in
    sid_inv sids' ∧ sidTenantMap sids ⊆ sidTenantMap sids' ∧ tenant_sids_ok id sids' i') as Hfold.
  { intros sids i errs l. revert sids i errs. induction l as [|m l IH]; intros sids i errs Hl Hs Ht; [done|].
    cbn [foldl]. pose proof (mutate_step_ok id sids i errs m (Hl m ltac:(left)) Hs Ht) as H1.
    destruct (mutate_step db_fails id (sids, i, errs) m) as [[sids1 i1] errs1]. destruct H1 as (Hs1 & Hsub1 & Ht1).
    specialize (IH sids1 i1 errs1 (λ m Hm, Hl m (list_elem_of_further _ _ _ Hm)) Hs1 Ht1).
    destruct (foldl _ _ l) as [[sids2 i2] errs2]. destruct IH as (? & ? & ?). split_and!; [done|by etrans|done]. }
  specialize (Hfold (sr_sids (cs_reg st)) (ni_Intent e) (cs_errors st) ms Hms Hinv Hi).
  destruct (foldl _ _ ms) as [[sids i] errs]. destruct Hfold as (Hs & Hsub & Ht).
  assert (registry_sids_ok {| sr_registry := <[id := bump e i now]> (sr_registry (cs_reg st)); sr_sids := sids |}) as Hr.
  { split; simpl; [done|]. intros x e'. rewrite lookup_insert_Some. intros [[<- <-]|[_ Hx]]; [done|].
    eapply tenant_sids_mono; [done|]. by apply Hok. }
  by destruct (publish_key _ id).
Qed.

Lemma Commit_sids `{RangeOrder} upsert_ok publish_ok r tx now :
  tx_locators_ok tx → registry_sids_ok r →
  registry_sids_ok (Commit db_fails upsert_ok publish_ok r tx now).1.1.
Proof.
  intros Htx Hr. unfold Commit.
  set (st := foldl _ _ (range_map tx)).
  assert (registry_sids_ok (cs_reg st)) as Hst.
  { apply (foldl_ind (commit_node db_fails now) (λ _ st, registry_sids_ok (cs_reg st))); [done|].
    intros _ [id ms] t Ht Hin%elem_of_range_map. apply commit_node_sids; [|done]. intros m Hm. by eapply Htx. }
  by destruct (foldl (publish_step _ _) _ _).
Qed.
End dt46.

(** ** Results *)

(** A transaction bumps every node it touches by exactly one generation,
    whatever the number of changes, keeps its version, leaves all other nodes
    alone, and publishes exactly the snapshots of touched nodes whose version
    reached the database and whose write to the bucket succeeded. *)
Theorem Commit_one_generation `{RangeOrder} db_fails upsert_ok publish_ok r tx now :
  tx_ok tx →
  let '(r', pub, _) := Commit db_fails upsert_ok publish_ok r tx now in
  (∀ id, tx !! id = None → sr_registry r' !! id = sr_registry r !! id) ∧
  (∀ id, is_Some (tx !! id) → ∃ e, sr_registry r' !! id = Some e ∧
     bumped (getOrCreateRegistryEntryForPE (sr_registry r) id now) e now) ∧
  (∀ k ni, (k, ni) ∈ pub ↔ upsert_ok k = true ∧ publish_ok k = true ∧
     ∃ id, is_Some (tx !! id) ∧ sr_registry r' !! id = Some ni ∧ publish_key ni id = Some k).
Proof.
  intros Hok. unfold Commit. pose proof (commit_nodes db_fails now r tx Hok) as [Hout Hin Hsnap].
  set (st := foldl (commit_node db_fails now) _ (range_map tx)) in *.
  pose proof (λ ks, publish_spec upsert_ok publish_ok (range_map (cs_snapshots st)) ([], cs_errors st) ks) as Hpub.
  destruct (foldl (publish_step upsert_ok publish_ok) _ _) as [pub errs]. simpl in Hpub.
  assert (∀ id, id ∈ (range_map tx).*1 ↔ is_Some (tx !! id)) as Hdom.
  { intros id. rewrite range_map_perm, list_elem_of_fmap. split.
    - intros ([i ms] & -> & Hi%elem_of_map_to_list). eauto.
    - intros [ms Hms]. exists (id, ms). by rewrite elem_of_map_to_list. }
  split_and!.
  - intros id Hid. apply Hout. rewrite Hdom, Hid. by intros [].
  - intros id Hid. by apply Hin, Hdom.
  - intros k ni. rewrite Hpub, elem_of_range_map, Hsnap. setoid_rewrite Hdom. simpl.
    pose proof (not_elem_of_nil (k, ni)). naive_solver.
Qed.


Lemma publish_none publish_ok acc l : foldl (publish_step (λ _, false) publish_ok) acc l = acc.
Proof. by induction l. Qed.

(** A version that cannot be written to the database is lost silently:
    staging peers for a PE and committing while the database refuses the
    write reports no error although nothing is published. *)
Theorem Commit_hides_database_failure `{RangeOrder} db_fails publish_ok r node peers now :
  sr_registry r !! node = None →
  let '(_, pub, errs) := Commit db_fails (λ _, false) publish_ok r (MutatePE BeginTx node (StagePeers peers)) now in
  pub = [] ∧ errs = [].
Proof.
  intros Hnode. unfold Commit, MutatePE, BeginTx. rewrite insert_empty.
  rewrite range_map_singleton, publish_none. cbn [foldl]. split; [done|].
  unfold commit_node, tx_entry, getOrCreateRegistryEntryForPE. cbn [cs_reg sr_registry].
  by rewrite Hnode.
Qed.

(** ** Witnesses *)

Definition demo_registry : ServiceRegistry := {| sr_registry := ∅; sr_sids := sid_fresh 0 |}.
Definition demo_tx : RegistryTx :=
  MutatePE (MutatePE BeginTx "ams" (StagePeers ∅)) "ams" (StageSIDSegs "7" demo_locator []).

Lemma demo_tx_ok : tx_ok demo_tx.
Proof. apply MutatePE_ok, MutatePE_ok, BeginTx_ok. Qed.

Definition demo_commit : ServiceRegistry * list (string * NodeIntent) * list registry_error :=
  Commit (H := canonical_order) (λ _, false) (λ _, true) (λ _, true) demo_registry demo_tx 0.

(** Two changes, one generation. *)
Lemma Commit_one_generation_witness :
  ∃ e, sr_registry demo_commit.1.1 !! "ams"%string = Some e ∧ ni_Generation e = 2.
Proof.
  pose proof (@Commit_one_generation canonical_order (λ _, false) (λ _, true) (λ _, true) demo_registry demo_tx 0 demo_tx_ok) as Hc.
  assert (Commit (H := canonical_order) (λ _, false) (λ _, true) (λ _, true) demo_registry demo_tx 0 = demo_commit) as He by reflexivity.
  rewrite He in Hc. destruct demo_commit as [[r pub] errs]. destruct Hc as (_ & Hin & _).
  destruct (Hin "ams"%string) as (e & Hl & Hb); [vm_compute; eexists; reflexivity|].
  exists e. split; [exact Hl|]. destruct Hb as (_ & _ & _ & Hg & _). rewrite Hg. vm_compute. reflexivity.
Defined.

Lemma demo_registry_sids_ok : registry_sids_ok (λ _, demo_locator) demo_registry.
Proof. split; [apply sid_fresh_inv|]. intros id e. simpl. by rewrite lookup_empty. Qed.

Lemma demo_tx_locators : tx_locators_ok (λ _, demo_locator) demo_tx.
Proof.
  intros id ms m Hms Hm. unfold demo_tx, MutatePE, BeginTx, map_get in Hms.
  apply lookup_insert_Some in Hms as [[_ <-]|[Hne Hms]].
  - rewrite lookup_insert_eq in Hm. simpl in Hm.
    apply elem_of_cons in Hm as [->|[->|Hm%not_elem_of_nil]%elem_of_cons]; done.
  - apply lookup_insert_Some in Hms as [[Heq _]|[_ Hms]]; [done|]. by rewrite lookup_empty in Hms.
Qed.


Lemma Commit_hides_database_failure_witness :
  let '(_, pub, errs) := Commit (H := canonical_order) (λ _, false) (λ _, false) (λ _, true) demo_registry
                           (MutatePE BeginTx "ams" (StagePeers ∅)) 0 in
  pub = [] ∧ errs = [].
Proof.
  apply (@Commit_hides_database_failure canonical_order (λ _, false) (λ _, true) demo_registry "ams" ∅ 0).
  vm_compute. reflexivity.
Defined.
