(* ===== verification/Inventory.v ===== *)
(** The node inventory (node_inventory.go): facts about the nodes that path
    computation does not need, such as the access side of a PE. *)

From S2P Require Import Prelude Float64 Netip Topology CostGraph PceGraph Cspf Bandwidth Tenants.

Record NodeAccess := {
  na_Interface : string;
  na_Address : Prefix;
  na_Aggregate : Prefix;
  na_Nexthop : Addr;
}.

Record NodeInterface := { nif_Name : string; nif_Role : string; nif_Peer : string; nif_Address : string }.

Record InventoryNode := {
  in_ID : NodeID;
  in_Name : string;
  in_Index : Z;
  in_ISISNet : string;
  in_Locator : string;
  in_Loopback : string;
  in_Interfaces : list NodeInterface;
  in_Access : option NodeAccess;
}.

Definition HasAccessSide (n : InventoryNode) : bool :=
  match in_Access n with Some _ => true | None => false end.

(** The part of a PoP in the topology file that the inventory reads. *)
Record RawAccess := { rac_Interface : string; rac_Address : string; rac_Aggregate : string; rac_Nexthop : string }.
Record RawInventoryPop := {
  rip_ID : string; rip_Name : string; rip_Index : Z; rip_IsisNet : string; rip_Locator : string;
  rip_Loopback : string; rip_Interfaces : list NodeInterface; rip_Access : option RawAccess;
}.

Inductive inventory_error :=
  | DuplicateNodeID (id : string)
  | DuplicateNodeName (name : string)
  | BadAccessAddress (id s : string)
  | BadAccessAggregate (id s : string)
  | BadAccessNexthop (id s : string)
  | AddressOutsideAggregate (id : string)
  | NexthopOutsideAggregate (id : string).

Record JSONNodeInventory := {
  inv_byID : gmap NodeID InventoryNode;
  inv_byName : gmap string InventoryNode;
}.

Definition load_access (id : string) (a : option RawAccess) : result inventory_error (option NodeAccess) :=
  match a with
  | None => Ok None
  | Some a =>
      match ParsePrefix (rac_Address a) with
      | None => Err (BadAccessAddress id (rac_Address a))
      | Some address =>
      match ParsePrefix (rac_Aggregate a) with
      | None => Err (BadAccessAggregate id (rac_Aggregate a))
      | Some aggregate =>
      match ParseAddr (rac_Nexthop a) with
      | None => Err (BadAccessNexthop id (rac_Nexthop a))
      | Some nexthop =>
          if negb (prefixWithin aggregate address) then Err (AddressOutsideAggregate id)
          else if negb (prefix_contains aggregate nexthop) then Err (NexthopOutsideAggregate id)
          else Ok (Some {| na_Interface := rac_Interface a; na_Address := address;
                           na_Aggregate := aggregate; na_Nexthop := nexthop |})
      end end end
  end.

Definition load_node (inv : JSONNodeInventory) (p : RawInventoryPop) : result inventory_error JSONNodeInventory :=
  match inv_byID inv !! rip_ID p with
  | Some _ => Err (DuplicateNodeID (rip_ID p))
  | None =>
  match inv_byName inv !! rip_Name p with
  | Some _ => Err (DuplicateNodeName (rip_Name p))
  | None =>
      access ← load_access (rip_ID p) (rip_Access p);
      let node := {| in_ID := rip_ID p; in_Name := rip_Name p; in_Index := rip_Index p;
                     in_ISISNet := rip_IsisNet p; in_Locator := rip_Locator p; in_Loopback := rip_Loopback p;
                     in_Interfaces := rip_Interfaces p; in_Access := access |} in
      Ok {| inv_byID := <[rip_ID p := node]> (inv_byID inv);
            inv_byName := <[rip_Name p := node]> (inv_byName inv) |}
  end end.

(** [Load] on decoded data; on an error the inventory keeps what it had. *)
Definition LoadInventory (inv : JSONNodeInventory) (pops : list RawInventoryPop)
    : JSONNodeInventory * option inventory_error :=
  match foldM load_node {| inv_byID := ∅; inv_byName := ∅ |} pops with
  | Ok inv' => (inv', None)
  | Err e => (inv, Some e)
  end.

Definition InvNode (inv : JSONNodeInventory) (id : NodeID) : option InventoryNode := inv_byID inv !! id.
Definition NodeByName (inv : JSONNodeInventory) (name : string) : option InventoryNode := inv_byName inv !! name.

Definition node_id_le (a b : InventoryNode) : Prop := str_le (in_ID a) (in_ID b).
#[export] Instance node_id_le_dec : RelDecision node_id_le.
Proof. intros a b. unfold node_id_le. apply _. Defined.

Definition Nodes `{RangeOrder} (inv : JSONNodeInventory) : list InventoryNode :=
  merge_sort node_id_le (range_map (inv_byID inv)).*2.

(** ** What loading establishes *)

Record inventory_wf (inv : JSONNodeInventory) : Prop := {
  iw_id : ∀ id n, inv_byID inv !! id = Some n → in_ID n = id ∧ inv_byName inv !! in_Name n = Some n;
  iw_name : ∀ name n, inv_byName inv !! name = Some n → in_Name n = name ∧ inv_byID inv !! in_ID n = Some n;
  iw_access : ∀ id n a, inv_byID inv !! id = Some n → in_Access n = Some a →
    prefixWithin (na_Aggregate a) (na_Address a) = true ∧
    prefix_contains (na_Aggregate a) (na_Nexthop a) = true;
}.

Lemma load_access_ok id raw a :
  load_access id raw = Ok (Some a) →
  prefixWithin (na_Aggregate a) (na_Address a) = true ∧ prefix_contains (na_Aggregate a) (na_Nexthop a) = true.
Proof.
  unfold load_access. destruct raw as [raw|]; [|done].
  destruct (ParsePrefix (rac_Address raw)) as [ad|]; [|done].
  destruct (ParsePrefix (rac_Aggregate raw)) as [ag|]; [|done].
  destruct (ParseAddr (rac_Nexthop raw)) as [nh|]; [|done].
  destruct (prefixWithin ag ad) eqn:H1; [|done]. destruct (prefix_contains ag nh) eqn:H2; [|done].
  simpl. by intros [= <-].
Qed.

Lemma load_node_wf inv p inv' : inventory_wf inv → load_node inv p = Ok inv' → inventory_wf inv'.
Proof.
  intros [Hid Hname Hacc]. unfold load_node.
  destruct (inv_byID inv !! rip_ID p) eqn:H1; [done|]. destruct (inv_byName inv !! rip_Name p) eqn:H2; [done|].
  intros (access & Ha & [= <-])%result_bind_Ok. split; simpl.
  - intros id n. rewrite lookup_insert_Some. intros [[<- <-]|[Hne Hn]]; simpl.
    + by rewrite lookup_insert_eq.
    + destruct (Hid _ _ Hn) as [<- Hb]. by rewrite lookup_insert_ne by congruence.
  - intros name n. rewrite lookup_insert_Some. intros [[<- <-]|[Hne Hn]]; simpl.
    + by rewrite lookup_insert_eq.
    + destruct (Hname _ _ Hn) as [<- Hb]. by rewrite lookup_insert_ne by congruence.
  - intros id n a. rewrite lookup_insert_Some. intros [[<- <-]|[Hne Hn]]; simpl; [|by apply (Hacc id n)].
    intros ->. by eapply load_access_ok.
Qed.

(** The node ids and names of a loaded inventory are unambiguous and every
    access side lies inside its aggregate; a failed load changes nothing. *)
Lemma LoadInventory_wf inv pops :
  match LoadInventory inv pops with
  | (inv', None) => inventory_wf inv'
  | (inv', Some _) => inv' = inv
  end.
Proof.
  unfold LoadInventory. destruct (foldM load_node _ pops) as [inv'|e] eqn:Hf; [|done].
  revert Hf. apply (foldM_ind load_node (λ _ i, inventory_wf i)).
  - split; simpl; intros *; by rewrite lookup_empty.
  - intros _ p t t' Ht _. by apply load_node_wf.
Qed.
