(* ===== verification/Controller.v ===== *)
(** The controller: turning computed paths into segment lists and staged
    intents (controller_segments.go, controller_dispatcher.go), the static
    intents of the nodes (controller_intents.go) and the tunnel events that
    change a site's intents (controller_tunnels.go). *)

From S2P Require Import Prelude Float64 Netip Topology CostGraph PceGraph Demo Cspf CspfCorrect Bandwidth Tenants Demand Inventory Sid Registry.

(** ** Segment lists *)

Inductive segment_error :=
  | PathLengthMismatch
  | TransitNodeUnknown (n : NodeID)
  | IndexOutOfRange.

(** The address, when the edge is a single link whose node reported one. *)
Definition endXOf (g : PCEGraph) (id : PCEEdgeID) : option Addr :=
  match pg_edges g !! id with
  | None => None
  | Some edge =>
      if IsBundle edge then None
      else match pe_RealEdges edge with
           | [r] => if addr_is_valid (Edge_EndX r) then Some (Edge_EndX r) else None
           | _ => None
           end
  end.

(** The turn of the loop for node [i] of the path. *)
Definition transit_step (g : PCEGraph) (path : Path) (segments : list Addr) (i : nat)
    : result segment_error (list Addr) :=
  match p_Nodes path !! i, p_Edges path !! i with
  | Some n, Some id =>
      match pg_nodes g !! n with
      | None => Err (TransitNodeUnknown n)
      | Some node =>
          match endXOf g id with
          | Some endX => Ok (segments ++ [endX])
          | None => Ok (segments ++ [pfx_addr (Node_Locator node)])
          end
      end
  | _, _ => Err IndexOutOfRange
  end.

Definition transitSegments (g : PCEGraph) (path : Path) : result segment_error (list Addr) :=
  if decide (Z.of_nat (length (p_Edges path)) = Z.of_nat (length (p_Nodes path)) - 1)
  then foldM (transit_step g path) [] (seq 1 (length (p_Nodes path) - 2))
  else Err PathLengthMismatch.

(** ** Dispatching a path set *)

Definition remoteSiteRoute := (Site * Path)%type.
Notation RemoteRoutes := (gmap NodeID (gmap TenantID (list remoteSiteRoute))).

Definition PathKey_le (k k' : PathKey) : Prop := PathKey_Compare k k' ≠ Gt.
#[export] Instance PathKey_le_dec : RelDecision PathKey_le.
Proof. intros a b. unfold PathKey_le. apply _. Defined.

(** Every site of the tenant at the far PoP becomes one route. *)
Definition add_site_routes (key : PathKey) (path : Path) (m : gmap TenantID (list remoteSiteRoute)) (s : Site)
    : gmap TenantID (list remoteSiteRoute) :=
  if decide (s_Attach s = pk_To key)
  then <[pk_Tenant key := map_get [] m (pk_Tenant key) ++ [(s, path)]]> m else m.

Definition collect_step (inv : JSONNodeInventory) (repo : JSONTenantRepository) (paths : PathSet)
    (acc : RemoteRoutes) (key : PathKey) : RemoteRoutes :=
  match paths !! key with
  | None => acc
  | Some path =>
      if decide (pk_From key = pk_To key) then acc else
      match InvNode inv (pk_From key) with
      | None => acc
      | Some _ =>
          match Tenant_ repo (pk_Tenant key) with
          | None => acc
          | Some tenant =>
              <[pk_From key := foldl (add_site_routes key path) (map_get ∅ acc (pk_From key)) (t_Sites tenant)]> acc
          end
      end
  end.

Section dispatch.
Context `{RangeOrder} (db_fails : string → bool) (g : Graph).

Definition remoteRoutesByNode (inv : JSONNodeInventory) (repo : JSONTenantRepository) (paths : PathSet) : RemoteRoutes :=
  foldl (collect_step inv repo paths) ∅ (merge_sort PathKey_le (range_map paths).*1).

(** One route of a tenant on a node: the egress SID and the transit segments. *)
Definition route_step (tenantID : TenantID) (acc : sid_state * list PESIDInstallIntent) (route : remoteSiteRoute)
    : sid_state * list PESIDInstallIntent :=
  let '(sids, intents) := acc in
  let '(remote, path) := route in
  match g_nodes g !! s_Attach remote with
  | None => (sids, intents)
  | Some remoteNode =>
      let '(sids, r) := getOrGenerateSID (db_fails (tenantMapKey (Node_Locator remoteNode) (dec tenantID) EncapTypeDT46))
                          (Node_Locator remoteNode) (dec tenantID) EncapTypeDT46 sids in
      match r with
      | Err _ => (sids, intents)
      | Ok dt46 =>
          match transitSegments (NewPCEGraph g) path with
          | Err _ => (sids, intents)
          | Ok segs =>
              (sids, intents ++ [{| ii_TenantID := dec tenantID; ii_PrefixRoutes := [s_Prefix remote];
                                    ii_Segments := segs ++ [dt46]; ii_Color := p_Label path |}])
          end
      end
  end.

Definition stage_tenant (nodeID : NodeID) (locator : Prefix) (acc : sid_state * RegistryTx)
    (tr : TenantID * list remoteSiteRoute) : sid_state * RegistryTx :=
  let '(sids, intents) := foldl (route_step tr.1) (acc.1, []) tr.2 in
  (sids, MutatePE acc.2 nodeID (StageSIDSegs (dec tr.1) locator intents)).

Definition stage_node (acc : sid_state * RegistryTx) (nt : NodeID * gmap TenantID (list remoteSiteRoute))
    : sid_state * RegistryTx :=
  match g_nodes g !! nt.1 with
  | None => acc
  | Some localNode => foldl (stage_tenant nt.1 (Node_Locator localNode)) acc (range_map nt.2)
  end.

(** What the dispatcher stages for a path set, and the SIDs after it. *)
Definition stage_paths (inv : JSONNodeInventory) (repo : JSONTenantRepository) (paths : PathSet) (sids : sid_state)
    : sid_state * RegistryTx :=
  foldl stage_node (sids, BeginTx) (range_map (remoteRoutesByNode inv repo paths)).

Definition dispatch (upsert_ok publish_ok : string → bool) (inv : JSONNodeInventory) (repo : JSONTenantRepository)
    (r : ServiceRegistry) (paths : PathSet) (now : Time)
    : ServiceRegistry * list (string * NodeIntent) * list registry_error :=
  let '(sids, tx) := stage_paths inv repo paths (sr_sids r) in
  Commit db_fails upsert_ok publish_ok {| sr_registry := sr_registry r; sr_sids := sids |} tx now.

(** ** Static intents *)

Definition peer_step (nd : Node) (peers : gmap string PeerIntent) (e : Edge) : gmap string PeerIntent :=
  if decide (Edge_Local e = Node_ID nd) then
    match g_nodes g !! Edge_Remote e with
    | None => peers
    | Some remote =>
        match ParsePrefix (Edge_RemoteAddr e) with
        | None => peers
        | Some peerPrefix =>
            <[Edge_LocalIface e :=
              {| pi_PeerID := Edge_Remote e; pi_PeerLoopback := Node_Loopback remote;
                 pi_LocalLoopback := Node_Loopback nd; pi_PeerAddress := pfx_addr peerPrefix;
                 pi_PeerInterface := Edge_RemoteIface e; pi_LocalInterface := Edge_LocalIface e;
                 pi_TelemetryKey := edge_id (Node_ID nd) (Edge_LocalIface e) (Node_ID remote) (Edge_RemoteIface e) |}]> peers
        end
    end
  else peers.

Definition stagePeerIntents (tx : RegistryTx) : RegistryTx :=
  foldl (λ tx nd, MutatePE tx (Node_ID nd) (StagePeers (foldl (peer_step nd) ∅ (range_map (g_edges g)).*2)))
    tx (range_map (g_nodes g)).*2.

Definition stageTrafficClassMapping (repo : JSONTenantRepository) (tx : RegistryTx) : RegistryTx :=
  let mapping := (λ class, {| tci_Color := tc_Label class; tci_DSCP := cm_DSCP (tc_Match class) |}) <$> Classes repo in
  foldl (λ tx nodeID, MutatePE tx nodeID (StageTrafficClass mapping)) tx (range_map (g_nodes g)).*1.

(** ** Tunnel events *)

(** [NilAccess] is not an error value of the code: it is the nil dereference
    of [attachNode.Access], which panics. *)
Inductive tunnel_error :=
  | PortalNotFound | TenantNotFound | AttachNodeNotInInventory | AttachNodeNotInTopology
  | NilAccess | RegistryFailed (e : registry_error) | CommitFailed (es : list registry_error).

Definition handleCPETunnelUpdate (upsert_ok publish_ok : bool) (inv : JSONNodeInventory) (repo : JSONTenantRepository)
    (r : ServiceRegistry) (portalID : string) (ifID : Z) (now : Time)
    : ServiceRegistry * list (string * NodeIntent) * option tunnel_error :=
  match SiteByPortalID repo portalID with
  | None => (r, [], Some PortalNotFound)
  | Some site =>
  match Tenant_ repo (s_TenantID site) with
  | None => (r, [], Some TenantNotFound)
  | Some tenant =>
  match InvNode inv (s_Attach site) with
  | None => (r, [], Some AttachNodeNotInInventory)
  | Some attach =>
  match in_Access attach with
  | None => (r, [], Some NilAccess)
  | Some access =>
      let cpe := {| cpe_PortalID := portalID; cpe_TunnelInterfaceID := ifID; cpe_TunnelPE := s_AttachNode site;
                    cpe_TunnelPEEndpointAddr := pfx_addr (na_Address access); cpe_TenantID := dec (s_TenantID site);
                    cpe_TenantPrefix := t_Allocation tenant; cpe_SitePrefix := s_Prefix site |} in
      let '(r, pub, e) := UpsertCPEIntentForSite upsert_ok publish_ok r portalID cpe now in
      (r, pub, RegistryFailed <$> e)
  end end end end.

Definition handlePETunnelUpdate (upsert_ok publish_ok : string → bool) (inv : JSONNodeInventory)
    (repo : JSONTenantRepository) (r : ServiceRegistry) (portalID : string) (ifID : Z) (now : Time)
    : ServiceRegistry * list (string * NodeIntent) * option tunnel_error :=
  match SiteByPortalID repo portalID with
  | None => (r, [], Some PortalNotFound)
  | Some site =>
  match Tenant_ repo (s_TenantID site) with
  | None => (r, [], Some TenantNotFound)
  | Some tenant =>
  match InvNode inv (s_Attach site) with
  | None => (r, [], Some AttachNodeNotInInventory)
  | Some node =>
  match g_nodes g !! s_Attach site with
  | None => (r, [], Some AttachNodeNotInTopology)
  | Some topologyNode =>
      let portal := {| po_HostFacingInterface := "eth1"; po_TunnelInterfaceID := ifID;
                       po_SitePrefix := s_Prefix site; po_TenantPrefix := t_Allocation tenant |} in
      let tx := MutatePE BeginTx (in_ID node) (StagePortal (dec (t_ID tenant)) portalID portal (Node_Locator topologyNode)) in
      let '(r, pub, errs) := Commit db_fails upsert_ok publish_ok r tx now in
      (r, pub, match errs with [] => None | _ => Some (CommitFailed errs) end)
  end end end end.

(** The state change of the portal authentication endpoint, after its reply. *)
Definition portalAuth (inv : JSONNodeInventory) (repo : JSONTenantRepository) (r : ServiceRegistry)
    (portalID : string) (now : Time) : ServiceRegistry :=
  match SiteByPortalID repo portalID with
  | None => r
  | Some site =>
  match InvNode inv (s_Attach site) with
  | None => r
  | Some attach =>
  match in_Access attach with
  | None => r
  | Some access =>
  match Tenant_ repo (s_TenantID site) with
  | None => r
  | Some tenant =>
  match sr_registry r !! portalID with
  | Some _ => r
  | None =>
      let cpe := {| cpe_PortalID := ""; cpe_TunnelInterfaceID := 0; cpe_TunnelPE := s_AttachNode site;
                    cpe_TunnelPEEndpointAddr := pfx_addr (na_Address access); cpe_TenantID := dec (s_TenantID site);
                    cpe_TenantPrefix := t_Allocation tenant; cpe_SitePrefix := s_Prefix site |} in
      {| sr_registry := <[portalID := {| ni_ID := portalID; ni_NodeType := NodeTypeCPE; ni_Intent := IntentCPE cpe;
                                         ni_Timestamp := now; ni_Generation := 1; ni_Version := 1 |}]> (sr_registry r);
         sr_sids := sr_sids r |}
  end end end end end.

Definition expectedResyncReplies (inv : JSONNodeInventory) (repo : JSONTenantRepository) : Z :=
  foldl (λ expected t, expected + Z.of_nat (length (t_Sites t)))
    (foldl (λ expected nd, if HasAccessSide nd then expected + 1 else expected) 0 (Nodes inv)) (Tenants repo).
End dispatch.

(** ** Segment lists *)

Lemma transit_steps_ok g path k segs0 :
  (∀ i, (1 <= i < 1 + k)%nat → ∃ n id, p_Nodes path !! i = Some n ∧ p_Edges path !! i = Some id ∧ is_Some (pg_nodes g !! n)) →
  ∃ segs, foldM (transit_step g path) segs0 (seq 1 k) = Ok (segs0 ++ segs) ∧ length segs = k ∧
    ∀ i, (i < k)%nat → ∃ n id node, p_Nodes path !! S i = Some n ∧ p_Edges path !! S i = Some id ∧
      pg_nodes g !! n = Some node ∧ segs !! i = Some (default (pfx_addr (Node_Locator node)) (endXOf g id)).
Proof.
  induction k as [|k IH]; intros Hk.
  { exists []. rewrite app_nil_r. split_and!; [done|done|]. intros i ?. lia. }
  destruct IH as (segs & Hf & Hlen & Hspec); [intros i ?; apply Hk; lia|].
  destruct (Hk (S k)) as (n & id & Hn & Hid & [node Hnode]); [lia|].
  rewrite seq_S, foldM_app, Hf. simpl. unfold transit_step. rewrite Hn, Hid, Hnode.
  exists (segs ++ [default (pfx_addr (Node_Locator node)) (endXOf g id)]).
  split_and!.
  - destruct (endXOf g id); by rewrite app_assoc.
  - rewrite length_app, Hlen. simpl. lia.
  - intros i Hi. destruct (decide (i = k)) as [->|Hne].
    + exists n, id, node. rewrite lookup_app_r by lia. by rewrite Hlen, Nat.sub_diag.
    + destruct (Hspec i) as (n' & id' & node' & ? & ? & ? & ?); [lia|].
      exists n', id', node'. rewrite lookup_app_l by lia. done.
Qed.

(** ** What the dispatcher stages *)

Definition route_of (repo : JSONTenantRepository) (paths : PathSet) (node : NodeID) (t : TenantID)
    (sp : remoteSiteRoute) (key : PathKey) : Prop :=
  paths !! key = Some sp.2 ∧ pk_From key = node ∧ pk_Tenant key = t ∧ pk_From key ≠ pk_To key ∧
  s_Attach sp.1 = pk_To key ∧ ∃ tenant, Tenant_ repo t = Some tenant ∧ sp.1 ∈ t_Sites tenant.

Definition routes_ok (repo : JSONTenantRepository) (paths : PathSet) (node : NodeID)
    (m : gmap TenantID (list remoteSiteRoute)) : Prop :=
  ∀ t rs sp, m !! t = Some rs → sp ∈ rs → ∃ key, route_of repo paths node t sp key.

Lemma collect_ok inv repo paths acc key :
  (∀ node m, acc !! node = Some m → routes_ok repo paths node m) →
  ∀ node m, collect_step inv repo paths acc key !! node = Some m → routes_ok repo paths node m.
Proof.
  intros Hacc node m. unfold collect_step. destruct (paths !! key) as [path|] eqn:Hpath; [|by apply Hacc].
  case_decide as Hne; [by apply Hacc|]. destruct (InvNode inv (pk_From key)); [|by apply Hacc].
  destruct (Tenant_ repo (pk_Tenant key)) as [tenant|] eqn:Ht; [|by apply Hacc].
  rewrite lookup_insert_Some. intros [[<- <-]|[_ ?]]; [|by apply Hacc].
  apply (foldl_ind (add_site_routes key path) (λ _ m, routes_ok repo paths (pk_From key) m)).
  - unfold map_get. destruct (acc !! pk_From key) as [m|] eqn:Hm; [by apply Hacc|].
    intros t rs sp. simpl. by rewrite lookup_empty.
  - intros _ s m IH Hs. unfold add_site_routes. case_decide as Hto; [|done].
    intros t rs sp. rewrite lookup_insert_Some. intros [[<- <-]|[_ Hl]]; [|by apply IH].
    intros [Hin| ->%list_elem_of_singleton]%elem_of_app.
    + unfold map_get in Hin. destruct (m !! pk_Tenant key) as [rs|] eqn:Hrs; [|by apply not_elem_of_nil in Hin].
      by eapply IH.
    + exists key. split_and!; try done. eauto.
Qed.

Section staged.
Context `{RangeOrder} (db_fails : string → bool) (g : Graph) (inv : JSONNodeInventory) (repo : JSONTenantRepository)
  (paths : PathSet).

Lemma remoteRoutes_ok node m :
  remoteRoutesByNode inv repo paths !! node = Some m → routes_ok repo paths node m.
Proof.
  revert node m. apply (foldl_ind (collect_step inv repo paths) (λ _ acc, ∀ node m, acc !! node = Some m → routes_ok repo paths node m)).
  - intros node m. by rewrite lookup_empty.
  - intros _ key acc Hacc _. by apply collect_ok.
Qed.

(** A route to install: to a site of the same tenant at the far end of one of
    the tenant's paths, through the path's transit segments, ending at the
    tenant's SID on the far node. *)
Definition install_ok (sids : sid_state) (node : NodeID) (t : TenantID) (ii : PESIDInstallIntent) : Prop :=
  ∃ key site path remote segs sid,
    route_of repo paths node t (site, path) key ∧
    g_nodes g !! pk_To key = Some remote ∧ transitSegments (NewPCEGraph g) path = Ok segs ∧
    sidTenantMap sids !! tenantMapKey (Node_Locator remote) (dec t) EncapTypeDT46 = Some sid ∧
    ii = {| ii_TenantID := dec t; ii_PrefixRoutes := [s_Prefix site]; ii_Segments := segs ++ [sid];
            ii_Color := p_Label path |}.

Lemma install_mono sids sids' node t ii :
  sidTenantMap sids ⊆ sidTenantMap sids' → install_ok sids node t ii → install_ok sids' node t ii.
Proof.
  intros Hsub (key & site & path & remote & segs & sid & ? & ? & ? & Hs & ?).
  exists key, site, path, remote, segs, sid. split_and!; try done. by eapply lookup_weaken.
Qed.

Lemma route_step_ok node t sids intents sp :
  sid_inv sids → Forall (install_ok sids node t) intents → (∃ key, route_of repo paths node t sp key) →
  let '(sids', intents') := route_step db_fails g t (sids, intents) sp in
  sid_inv sids' ∧ sidTenantMap sids ⊆ sidTenantMap sids' ∧ Forall (install_ok sids' node t) intents'.
Proof.
  intros Hinv HF [key Hroute]. unfold route_step. destruct sp as [site path].
  destruct (g_nodes g !! s_Attach site) as [remote|] eqn:Hremote; [|done].
  pose proof (getOrGenerateSID_spec (db_fails (tenantMapKey (Node_Locator remote) (dec t) EncapTypeDT46))
    (Node_Locator remote) (dec t) EncapTypeDT46 sids Hinv) as Hs.
  destruct (getOrGenerateSID _ _ _ _ sids) as [sids' [sid|e]]; destruct Hs as (Hinv' & Hsub & Hr).
  2:{ split_and!; [done|done|]. eapply list.Forall_impl; [done|]. intros ii. by apply install_mono. }
  assert (Forall (install_ok sids' node t) intents) as HF'.
  { eapply list.Forall_impl; [done|]. intros ii. by apply install_mono. }
  destruct (transitSegments (NewPCEGraph g) path) as [segs|e] eqn:Hseg; [|done].
  split_and!; [done|done|]. apply list.Forall_app. split; [done|]. apply Forall_singleton.
  destruct Hroute as (? & ? & ? & ? & Hto & ?). simpl in Hto. rewrite Hto in Hremote.
  exists key, site, path, remote, segs, sid. split_and!; try done.
Qed.

Lemma route_steps_ok node t rs sids intents :
  sid_inv sids → Forall (install_ok sids node t) intents → (∀ sp, sp ∈ rs → ∃ key, route_of repo paths node t sp key) →
  let '(sids', intents') := foldl (route_step db_fails g t) (sids, intents) rs in
  sid_inv sids' ∧ sidTenantMap sids ⊆ sidTenantMap sids' ∧ Forall (install_ok sids' node t) intents'.
Proof.
  revert sids intents. induction rs as [|sp rs IH]; intros sids intents Hinv HF Hrs; [done|]. cbn [foldl].
  pose proof (route_step_ok node t sids intents sp Hinv HF (Hrs sp ltac:(left))) as H1.
  destruct (route_step db_fails g t (sids, intents) sp) as [sids1 intents1]. destruct H1 as (Hinv1 & Hsub1 & HF1).
  specialize (IH sids1 intents1 Hinv1 HF1 (λ sp Hsp, Hrs sp (list_elem_of_further _ _ _ Hsp))).
  destruct (foldl _ _ rs) as [sids2 intents2]. destruct IH as (? & ? & ?). split_and!; [done|by etrans|done].
Qed.

(** What a staged change is. *)
Definition staged_ok (sids : sid_state) (node : NodeID) (m : pendingMutation) : Prop :=
  ∃ t nd intents, g_nodes g !! node = Some nd ∧ pm_NodeType m = NodeTypePE ∧
    pm_Mutate m = StageSIDSegs (dec t) (Node_Locator nd) intents ∧ Forall (install_ok sids node t) intents.

Record stage_inv (sids0 : sid_state) (acc : sid_state * RegistryTx) : Prop := {
  sg_inv : sid_inv acc.1;
  sg_sub : sidTenantMap sids0 ⊆ sidTenantMap acc.1;
  sg_tx : ∀ node ms m, acc.2 !! node = Some ms → m ∈ ms → staged_ok acc.1 node m;
}.

Lemma staged_mono sids sids' node m :
  sidTenantMap sids ⊆ sidTenantMap sids' → staged_ok sids node m → staged_ok sids' node m.
Proof.
  intros Hsub (t & nd & intents & ? & ? & ? & HF). exists t, nd, intents. split_and!; try done.
  eapply list.Forall_impl; [done|]. intros ii. by apply install_mono.
Qed.

Lemma stage_tenant_inv sids0 node nd acc t rs :
  g_nodes g !! node = Some nd → (∀ sp, sp ∈ rs → ∃ key, route_of repo paths node t sp key) →
  stage_inv sids0 acc → stage_inv sids0 (stage_tenant db_fails g node (Node_Locator nd) acc (t, rs)).
Proof.
  intros Hnd Hrs [Hinv Hsub Htx]. unfold stage_tenant. cbn [fst snd].
  pose proof (route_steps_ok node t rs acc.1 [] Hinv (Forall_nil_2 _) Hrs) as H1.
  destruct (foldl _ _ rs) as [sids intents]. destruct H1 as (Hinv1 & Hsub1 & HF).
  split; cbn [fst snd]; [done|by etrans|].
  intros id ms m. unfold MutatePE. rewrite lookup_insert_Some. intros [[<- <-]|[_ Hl]] Hm.
  - apply elem_of_app in Hm as [Hm| ->%list_elem_of_singleton].
    + unfold map_get in Hm. destruct (acc.2 !! node) as [ms|] eqn:He; [|by apply not_elem_of_nil in Hm].
      eapply staged_mono; [done|by eapply Htx].
    + by exists t, nd, intents.
  - eapply staged_mono; [done|by eapply Htx].
Qed.

Lemma stage_paths_inv sids : sid_inv sids → stage_inv sids (stage_paths db_fails g inv repo paths sids).
Proof.
  intros Hinv. unfold stage_paths. apply (foldl_ind (stage_node db_fails g) (λ _ acc, stage_inv sids acc)).
  - split; simpl; [done|done|]. intros node ms m. unfold BeginTx. by rewrite lookup_empty.
  - intros _ [node m] acc Hacc Hin%elem_of_range_map. unfold stage_node. cbn [fst snd].
    destruct (g_nodes g !! node) as [nd|] eqn:Hnd; [|done].
    apply (foldl_ind (stage_tenant db_fails g node (Node_Locator nd)) (λ _ acc, stage_inv sids acc)); [done|].
    intros _ [t rs] acc' Hacc' Hrs%elem_of_range_map. apply stage_tenant_inv; [done| |done].
    intros sp Hsp. by eapply (remoteRoutes_ok node m Hin t rs).
Qed.
End staged.

(** ** Results *)

(** The segment list of a path whose transit nodes are in the topology has
    one segment per transit node, in path order: the End.X of the path's link
    out of the node when that is known, the node's locator address otherwise. *)
Theorem transitSegments_spec g path :
  Z.of_nat (length (p_Edges path)) = Z.of_nat (length (p_Nodes path)) - 1 →
  (∀ n, n ∈ p_Nodes path → is_Some (pg_nodes g !! n)) →
  ∃ segs, transitSegments g path = Ok segs ∧ length segs = (length (p_Nodes path) - 2)%nat ∧
    ∀ i, (i < length segs)%nat → ∃ n id node, p_Nodes path !! S i = Some n ∧ p_Edges path !! S i = Some id ∧
      pg_nodes g !! n = Some node ∧ segs !! i = Some (default (pfx_addr (Node_Locator node)) (endXOf g id)).
Proof.
  intros Hlen Hnodes. unfold transitSegments. rewrite decide_True by done.
  destruct (transit_steps_ok g path (length (p_Nodes path) - 2) []) as (segs & Hf & Hl & Hs).
  - intros i Hi. destruct (lookup_lt_is_Some_2 (p_Nodes path) i) as [n Hn]; [lia|].
    destruct (lookup_lt_is_Some_2 (p_Edges path) i) as [id Hid]; [lia|].
    exists n, id. split_and!; try done. apply Hnodes. by eapply list_elem_of_lookup_2.
  - exists segs. rewrite Hf. split_and!; [done|done|]. intros i Hi. apply Hs. lia.
Qed.

(** C18: tenant isolation and correct steering.  Every route the dispatcher
    stages for a tenant on a node belongs to a path of that tenant leaving that
    node, leads to the prefix of a site of the same tenant at the path's far
    end, inside the tenant's allocation, and its segment list is the path's
    transit segments followed by the SID the allocator holds for the tenant on
    the far node. *)
Theorem staged_routes_isolated `{RangeOrder} db_fails g inv repo paths sids sids' tx node ms m :
  repo_wf repo → sid_inv sids → stage_paths db_fails g inv repo paths sids = (sids', tx) →
  tx !! node = Some ms → m ∈ ms →
  ∃ t nd intents, g_nodes g !! node = Some nd ∧ pm_Mutate m = StageSIDSegs (dec t) (Node_Locator nd) intents ∧
    ∀ ii, ii ∈ intents → ∃ key path tenant site remote segs sid,
      paths !! key = Some path ∧ pk_From key = node ∧ pk_Tenant key = t ∧
      tr_byID repo !! t = Some tenant ∧ site ∈ t_Sites tenant ∧ s_TenantID site = t ∧ s_Attach site = pk_To key ∧
      prefixWithin (t_Allocation tenant) (s_Prefix site) = true ∧
      g_nodes g !! pk_To key = Some remote ∧ transitSegments (NewPCEGraph g) path = Ok segs ∧
      (getOrGenerateSID true (Node_Locator remote) (dec t) EncapTypeDT46 sids').2 = Ok sid ∧
      ii = {| ii_TenantID := dec t; ii_PrefixRoutes := [s_Prefix site]; ii_Segments := segs ++ [sid];
              ii_Color := p_Label path |}.
Proof.
  intros Hrepo Hinv Hstage Hms Hm. pose proof (stage_paths_inv db_fails g inv repo paths sids Hinv) as [_ _ Htx].
  rewrite Hstage in Htx. destruct (Htx _ _ _ Hms Hm) as (t & nd & intents & Hnd & _ & Hmut & HF). simpl in HF.
  exists t, nd, intents. split_and!; [done|done|]. intros ii Hii. rewrite list.Forall_forall in HF.
  destruct (HF ii Hii) as (key & site & path & remote & segs & sid & Hroute & Hremote & Hseg & Hsid & ->).
  destruct Hroute as (Hp & Hf & Ht & _ & Hto & tenant & Htenant & Hsite). simpl in *.
  destruct (rp_site _ Hrepo _ _ _ Htenant Hsite) as [Hst Hw].
  exists key, path, tenant, site, remote, segs, sid. split_and!; try done.
  unfold getOrGenerateSID. by rewrite Hsid.
Qed.

(** The intent the portal authentication creates carries no portal id, so
    republication after a reconnect puts it under the key of the empty id and
    not under the portal's own key. *)
Theorem portalAuth_restored_elsewhere inv repo r portalID now e :
  sr_registry r !! portalID = None → portalID ≠ ""%string →
  sr_registry (portalAuth inv repo r portalID now) !! portalID = Some e →
  restore_key e = Key PrefixCPE "" LaneIntent ∧ restore_key e ≠ Key PrefixCPE portalID LaneIntent.
Proof.
  intros Hnone Hne. unfold portalAuth.
  destruct (SiteByPortalID repo portalID) as [site|]; [|congruence].
  destruct (InvNode inv (s_Attach site)) as [attach|]; [|congruence].
  destruct (in_Access attach) as [access|]; [|congruence].
  destruct (Tenant_ repo (s_TenantID site)) as [tenant|]; [|congruence].
  rewrite Hnone. simpl. rewrite lookup_insert_eq. intros [= <-]. unfold restore_key. simpl.
  split; [done|]. intros He. apply (Key_inj PrefixCPE "" portalID LaneIntent) in He. done.
Qed.

(** ** Witnesses *)

Definition demo_route : Path :=
  {| p_Nodes := ["ams"; "fra"; "lon"]%string; p_Edges := demo_path; p_Links := []; p_Cost := f_zero; p_Label := 1 |}.

Lemma transitSegments_spec_witness :
  ∃ segs, transitSegments demo_graph demo_route = Ok segs ∧ length segs = 1%nat.
Proof.
  destruct (transitSegments_spec demo_graph demo_route) as (segs & Hs & Hl & _).
  - reflexivity.
  - intros nd. unfold demo_route. cbn [p_Nodes].
    intros [->|[->|[->|Hn%not_elem_of_nil]%elem_of_cons]%elem_of_cons]%elem_of_cons; [..|destruct Hn];
      vm_compute; eexists; reflexivity.
  - exists segs. split; [exact Hs|exact Hl].
Defined.

Definition demo_pop_entry (id : string) : RawInventoryPop :=
  {| rip_ID := id; rip_Name := id; rip_Index := 0; rip_IsisNet := ""; rip_Locator := ""; rip_Loopback := "";
     rip_Interfaces := [];
     rip_Access := Some {| rac_Interface := "eth9"; rac_Address := "192.0.2.1/24"; rac_Aggregate := "192.0.2.0/24";
                           rac_Nexthop := "192.0.2.254" |} |}.

Definition demo_inventory : JSONNodeInventory :=
  (LoadInventory {| inv_byID := ∅; inv_byName := ∅ |} [demo_pop_entry "ams"; demo_pop_entry "lon"]).1.

Definition demo_paths : PathSet :=
  {[ {| pk_Tenant := 7; pk_From := "ams"; pk_To := "lon"; pk_Label := 1 |} := demo_route ]}.

Definition demo_staged : sid_state * RegistryTx :=
  stage_paths (H := canonical_order) (λ _, false) demo_topology demo_inventory demo_repo demo_paths (sid_fresh 0).

Definition count_intents (ms : list pendingMutation) : list nat :=
  (λ m, match pm_Mutate m with StageSIDSegs _ _ iis => length iis | _ => 0%nat end) <$> ms.

Lemma staged_routes_isolated_witness :
  ∃ m t nd intents, demo_staged.2 !! "ams"%string = Some [m] ∧
    pm_Mutate m = StageSIDSegs (dec t) (Node_Locator nd) intents ∧ length intents = 1%nat.
Proof.
  destruct (demo_staged.2 !! "ams"%string) as [ms|] eqn:Hms; [|exfalso; revert Hms; vm_compute; discriminate].
  destruct ms as [|m [|m' ms]]; [exfalso; revert Hms; vm_compute; discriminate| |exfalso; revert Hms; vm_compute; discriminate].
  destruct (@staged_routes_isolated canonical_order (λ _, false) demo_topology demo_inventory demo_repo demo_paths
    (sid_fresh 0) demo_staged.1 demo_staged.2 "ams" [m] m demo_repo_wf (sid_fresh_inv 0)
    (surjective_pairing demo_staged) Hms ltac:(left)) as (t & nd & intents & _ & Hm & _).
  exists m, t, nd, intents. split; [reflexivity|]. split; [exact Hm|].
  assert (count_intents <$> demo_staged.2 !! "ams"%string = Some [1%nat]) as He by (vm_compute; reflexivity).
  rewrite Hms in He. cbn in He. rewrite Hm in He. injection He as He. exact He.
Defined.

Lemma portalAuth_restored_elsewhere_witness :
  ∃ e, sr_registry (portalAuth demo_inventory demo_repo demo_registry "cpe1" 0) !! "cpe1"%string = Some e ∧
    restore_key e = "cpe..intent"%string.
Proof.
  destruct (sr_registry (portalAuth demo_inventory demo_repo demo_registry "cpe1" 0) !! "cpe1"%string) as [e|] eqn:He;
    [|exfalso; revert He; vm_compute; discriminate].
  exists e. split; [reflexivity|].
  apply (portalAuth_restored_elsewhere demo_inventory demo_repo demo_registry "cpe1" 0 e);
    [vm_compute; reflexivity|discriminate|exact He].
Defined.
