(* ===== verification/Stamp.v ===== *)
(** The STAMP wire format (libs/stamp): test packets of the session sender and
    the session reflector, their TLV extensions, NTP timestamps and error
    estimates, and the sender and reflector state machines.

    A byte is a [Z] between 0 and 255 and a buffer a list of bytes.  Slicing
    past the length of a buffer is the error [Panic], so that a decoder that
    reads out of bounds is visible as a result. *)

From S2P Require Import Prelude.

(** ** Errors *)

Inductive tlv_level := LevelPacket | LevelReturnPath | LevelContainer.

Inductive stamp_err :=
  | AuthNotImplemented
  | PacketTooShort (got : nat)
  | TruncatedHeader (level : tlv_level)
  | TLVOverrun (level : tlv_level) (ty : Z) (declared remain : nat)
  | ControlCodeSize (got : nat)
  | KeyNotUTF8
  | KeyTooLong
  | ContainerTooLong
  | InvalidClockFormat
  | ScaleOutOfRange
  | SocketError
  | Panic
  | OutOfFuel.

(** The two results that no run of the code may give. *)
Definition defect (e : stamp_err) : bool :=
  match e with Panic | OutOfFuel => true | _ => false end.

(** ** Buffers *)

Definition byte_at (v : Z) (shift : Z) : Z := u8 (Z.shiftr v shift).
Definition put16 (v : Z) : list Z := [byte_at v 8; byte_at v 0].
Definition put32 (v : Z) : list Z := [byte_at v 24; byte_at v 16; byte_at v 8; byte_at v 0].

(** Writing [bs] at offset [off] of a buffer that is long enough. *)
Definition put_at (off : nat) (bs buf : list Z) : list Z :=
  take off buf ++ bs ++ drop (off + length bs) buf.

(** [b[i:j]]. *)
Definition slice (b : list Z) (i j : nat) : result stamp_err (list Z) :=
  if (i <=? j)%nat && (j <=? length b)%nat then Ok (take (j - i) (drop i b)) else Err Panic.

Definition uint8_of (b : list Z) : result stamp_err Z :=
  match b with b0 :: _ => Ok b0 | _ => Err Panic end.
Definition uint16_of (b : list Z) : result stamp_err Z :=
  match b with b0 :: b1 :: _ => Ok (b0 * 256 + b1) | _ => Err Panic end.
Definition uint32_of (b : list Z) : result stamp_err Z :=
  match b with
  | b0 :: b1 :: b2 :: b3 :: _ => Ok (((b0 * 256 + b1) * 256 + b2) * 256 + b3)
  | _ => Err Panic
  end.

Definition get8 (b : list Z) (i : nat) : result stamp_err Z := slice b i (i + 1) ≫= uint8_of.
Definition get16 (b : list Z) (i : nat) : result stamp_err Z := slice b i (i + 2) ≫= uint16_of.
Definition get32 (b : list Z) (i : nat) : result stamp_err Z := slice b i (i + 4) ≫= uint32_of.

(** A Go string is its bytes. *)
Definition string_bytes (s : string) : list Z := (λ c, Z.of_N (N_of_ascii c)) <$> String.list_ascii_of_string s.
Definition bytes_string (b : list Z) : string :=
  String.string_of_list_ascii ((λ z, ascii_of_N (Z.to_N z)) <$> b).

(** [utf8.Valid]: the ranges of the first and second byte, then continuation
    bytes. *)
Definition in_range (lo hi z : Z) : bool := (lo <=? z) && (z <=? hi).
Definition continuation : Z → bool := in_range 0x80 0xBF.

Fixpoint utf8_valid (b : list Z) : bool :=
  match b with
  | [] => true
  | b0 :: r0 =>
      if b0 <? 0x80 then utf8_valid r0
      else match r0 with
      | b1 :: r1 =>
          if in_range 0xC2 0xDF b0 then continuation b1 && utf8_valid r1
          else match r1 with
          | b2 :: r2 =>
              if in_range 0xE0 0xEF b0 then
                in_range (if b0 =? 0xE0 then 0xA0 else 0x80) (if b0 =? 0xED then 0x9F else 0xBF) b1 &&
                continuation b2 && utf8_valid r2
              else match r2 with
              | b3 :: r3 =>
                  in_range 0xF0 0xF4 b0 &&
                  in_range (if b0 =? 0xF0 then 0x90 else 0x80) (if b0 =? 0xF4 then 0x8F else 0xBF) b1 &&
                  continuation b2 && continuation b3 && utf8_valid r3
              | [] => false
              end
          | [] => false
          end
      | [] => false
      end
  end.

(** ** Timestamps *)

Definition NtpUnixOffset : Z := 2208988800.

Notation TimestampClockFormat := string (only parsing).
Definition ClockFormatNTP : string := "NTP".

Record Timestamp := { ts_Seconds : Z; ts_Fraction : Z }.

(** [t.Unix()] and [t.Nanosecond()]. *)
Definition time_unix (t : Time) : Z := t / 1000000000.
Definition time_nanosecond (t : Time) : Z := t mod 1000000000.

Definition wireNTPTimestampToTime (sec frac : Z) : Time :=
  let seconds := i64 (sec - NtpUnixOffset) in
  let nanos := i64 (Z.shiftr (u64 (frac * 1000000000)) 32) in
  seconds * 1000000000 + nanos.

Definition generateNtpTimestamp (t : Time) : Timestamp :=
  let seconds := u32 (i64 (time_unix t + NtpUnixOffset)) in
  let nanos := u64 (time_nanosecond t) in
  let fraction := u32 (u64 (Z.shiftl nanos 32) / 1000000000) in
  {| ts_Seconds := seconds; ts_Fraction := fraction |}.

(** [NewTimestamp] and [FromTime] differ only in where the instant comes from:
    [NewTimestamp] reads the clock, which is the argument [now] here. *)
Definition FromTime (format : TimestampClockFormat) (t : Time) : result stamp_err Timestamp :=
  if (format =? ClockFormatNTP)%string then Ok (generateNtpTimestamp t) else Err InvalidClockFormat.

Definition NewTimestamp (format : TimestampClockFormat) (now : Time) : result stamp_err Timestamp :=
  if (format =? ClockFormatNTP)%string then Ok (generateNtpTimestamp now) else Err InvalidClockFormat.

Definition ToTime (t : Timestamp) (format : TimestampClockFormat) : result stamp_err Time :=
  if (format =? ClockFormatNTP)%string then Ok (wireNTPTimestampToTime (ts_Seconds t) (ts_Fraction t))
  else Err InvalidClockFormat.

(** ** Error estimates *)

Record ErrorEstimate := {
  ee_Sync : bool;
  ee_ClockFormat : string;
  ee_ZBit : bool;
  ee_Scale : Z;
  ee_Multiplier : Z;
}.

Definition ErrorEstimateDecode (val : Z) : ErrorEstimate := {|
  ee_Sync := negb (Z.land val 0x8000 =? 0);
  ee_ZBit := negb (Z.land val 0x4000 =? 0);
  ee_Scale := u8 (Z.shiftr (Z.land val 0x3F00) 8);
  ee_Multiplier := u8 (Z.land val 0xFF);
  ee_ClockFormat := ClockFormatNTP;
|}.

Definition ErrorEstimate_Encode (e : ErrorEstimate) : Z :=
  let val := if ee_Sync e then 0x8000 else 0 in
  let val := Z.lor val 0 in
  let val := Z.lor val (u16 (Z.shiftl (Z.land (ee_Scale e) 0x3F) 8)) in
  Z.lor val (ee_Multiplier e).

Definition NewErrorEstimate (synchronized : bool) (clockFormat : TimestampClockFormat) (scale multiplier : Z) :
    result stamp_err ErrorEstimate :=
  if scale >? 63 then Err ScaleOutOfRange
  else Ok {| ee_Sync := synchronized; ee_Scale := scale; ee_Multiplier := multiplier; ee_ZBit := false;
             ee_ClockFormat := clockFormat |}.

(** ** Extensions *)

Definition TLVReturnPath : Z := 10.
Definition TLVMaetoContainer : Z := 250.
Definition RPControlCode : Z := 1.
Definition MCTelemetryKey : Z := 1.

Record SRExtReturnPathControlCode := { cc_RequestReply : bool }.
Record SRExtReturnPath := { rp_ControlCode : option SRExtReturnPathControlCode }.
Record SRExtMaetoContainerTelemetryKey := { tk_Key : string }.
Record SRExtMaetoContainer := { mc_TelemetryKey : option SRExtMaetoContainerTelemetryKey }.
Record SRExtensions := {
  sx_ReturnPath : option SRExtReturnPath;
  sx_MaetoContainer : option SRExtMaetoContainer;
}.

(** [if p.X != nil { enc, err := p.X.Encode() ...; buf = append(buf, enc...) }] *)
Definition append_opt {A} (encode : A → result stamp_err (list Z)) (x : option A) (buf : list Z) :
    result stamp_err (list Z) :=
  match x with
  | Some a => enc ← encode a; mret (buf ++ enc)
  | None => Ok buf
  end.

Definition ControlCode_Encode (s : SRExtReturnPathControlCode) : result stamp_err (list Z) :=
  let controlFlag := if cc_RequestReply s then Z.lor 0 0x1 else 0 in
  let buf := replicate 8 0 in
  let buf := put_at 0 [0x0] buf in
  let buf := put_at 1 [RPControlCode] buf in
  let buf := put_at 2 (put16 4) buf in
  Ok (put_at 4 (put32 controlFlag) buf).

Definition ReturnPath_Encode (p : SRExtReturnPath) : result stamp_err (list Z) :=
  let buf := [0x00; TLVReturnPath] in
  let buf := buf ++ put16 0 in
  let beforeSubTLVLength := length buf in
  buf ← append_opt ControlCode_Encode (rp_ControlCode p) buf;
  mret (put_at (beforeSubTLVLength - 2) (put16 (u16 (Z.of_nat (length buf - beforeSubTLVLength)))) buf).

Definition TelemetryKey_Encode (s : SRExtMaetoContainerTelemetryKey) : result stamp_err (list Z) :=
  if (0xFFFF <? Z.of_nat (String.length (tk_Key s))) then Err KeyTooLong
  else
    let buf := replicate 4 0 in
    let buf := put_at 0 [0x0] buf in
    let buf := put_at 1 [MCTelemetryKey] buf in
    let buf := put_at 2 (put16 (u16 (Z.of_nat (String.length (tk_Key s))))) buf in
    Ok (buf ++ string_bytes (tk_Key s)).

Definition MaetoContainer_Encode (s : SRExtMaetoContainer) : result stamp_err (list Z) :=
  let buf := replicate 4 0 in
  let buf := put_at 0 [0x0] buf in
  let buf := put_at 1 [TLVMaetoContainer] buf in
  let buf := put_at 2 (put16 0) buf in
  let beforeSubTLVLength := length buf in
  buf ← append_opt TelemetryKey_Encode (mc_TelemetryKey s) buf;
  let len := Z.of_nat (length buf - beforeSubTLVLength) in
  if 0xFFFF <? len then Err ContainerTooLong
  else mret (put_at 2 (put16 (u16 len)) buf).

Definition SRExtensions_Encode (p : SRExtensions) : result stamp_err (list Z) :=
  buf ← append_opt ReturnPath_Encode (sx_ReturnPath p) [];
  append_opt MaetoContainer_Encode (sx_MaetoContainer p) buf.

(** The loop of the three TLV decoders: [handle] is the [switch] over the type
    octet, [acc] the structure being filled. *)
Fixpoint tlv_loop {A} (fuel : nat) (level : tlv_level) (handle : Z → list Z → A → result stamp_err A)
    (b : list Z) (cursor : nat) (acc : A) : result stamp_err A :=
  match fuel with
  | O => Err OutOfFuel
  | S fuel =>
      if (cursor <? length b)%nat then
        if (length b - cursor <? 4)%nat then Err (TruncatedHeader level)
        else
          ty ← get8 b (cursor + 1);
          len ← get16 b (cursor + 2);
          let len := Z.to_nat len in
          if (length b <? cursor + 4 + len)%nat then Err (TLVOverrun level ty len (length b - cursor - 4))
          else
            val ← slice b (cursor + 4) (cursor + 4 + len);
            acc ← handle ty val acc;
            tlv_loop fuel level handle b (cursor + (4 + len)) acc
      else Ok acc
  end.

(** The cursor grows by at least 4 in each round, so a budget of one more than
    the length of the region is never spent. *)
Definition tlv_scan {A} (level : tlv_level) (handle : Z → list Z → A → result stamp_err A) (b : list Z) (acc : A) :
    result stamp_err A := tlv_loop (S (length b)) level handle b 0 acc.

Definition decodeControlCode (b : list Z) : result stamp_err SRExtReturnPathControlCode :=
  if (length b =? 4)%nat then
    controlFlag ← uint32_of b;
    mret {| cc_RequestReply := negb (Z.land controlFlag 0x1 =? 0) |}
  else Err (ControlCodeSize (length b)).

Definition return_path_handle (subType : Z) (val : list Z) (r : SRExtReturnPath) : result stamp_err SRExtReturnPath :=
  if subType =? RPControlCode then
    controlCode ← decodeControlCode val; mret {| rp_ControlCode := Some controlCode |}
  else Ok r.

Definition decodeReturnPath (b : list Z) : result stamp_err SRExtReturnPath :=
  tlv_scan LevelReturnPath return_path_handle b {| rp_ControlCode := None |}.

Definition decodeTelemetryKey (b : list Z) : result stamp_err SRExtMaetoContainerTelemetryKey :=
  if utf8_valid b then Ok {| tk_Key := bytes_string b |} else Err KeyNotUTF8.

Definition container_handle (subType : Z) (val : list Z) (c : SRExtMaetoContainer) :
    result stamp_err SRExtMaetoContainer :=
  if subType =? MCTelemetryKey then
    telemetryKey ← decodeTelemetryKey val; mret {| mc_TelemetryKey := Some telemetryKey |}
  else Ok c.

Definition decodeMaetoContainer (b : list Z) : result stamp_err SRExtMaetoContainer :=
  tlv_scan LevelContainer container_handle b {| mc_TelemetryKey := None |}.

Definition ext_handle (tlvType : Z) (val : list Z) (ext : SRExtensions) : result stamp_err SRExtensions :=
  if tlvType =? TLVReturnPath then
    returnPath ← decodeReturnPath val;
    mret {| sx_ReturnPath := Some returnPath; sx_MaetoContainer := sx_MaetoContainer ext |}
  else if tlvType =? TLVMaetoContainer then
    maetoContainer ← decodeMaetoContainer val;
    mret {| sx_ReturnPath := sx_ReturnPath ext; sx_MaetoContainer := Some maetoContainer |}
  else Ok ext.

Definition decodeSRExtensions (b : list Z) : result stamp_err (option SRExtensions) :=
  if (length b =? 0)%nat then Ok None
  else
    ext ← tlv_scan LevelPacket ext_handle b {| sx_ReturnPath := None; sx_MaetoContainer := None |};
    mret (Some ext).

(** ** Packets *)

Record SenderPacket := {
  sp_SequenceNumber : Z;
  sp_Timestamp : Timestamp;
  sp_ErrorEstimate : Z;
  sp_SSID : Z;
  sp_SRExtensions : option SRExtensions;
}.

Record ReflectorPacket := {
  rf_SequenceNumber : Z;
  rf_Timestamp : Timestamp;
  rf_ErrorEstimate : Z;
  rf_ReceiveTimestamp : Timestamp;
  rf_SenderSequenceNumber : Z;
  rf_SenderTimestamp : Timestamp;
  rf_SenderErrorEstimate : Z;
  rf_SenderTTL : Z;
  rf_SSID : Z;
  rf_SRExtensions : option SRExtensions;
}.

Definition SenderPacket_Encode (p : SenderPacket) (hmacKey : option (list Z)) : result stamp_err (list Z) :=
  match hmacKey with
  | Some _ => Err AuthNotImplemented
  | None =>
      let buf := replicate 44 0 in
      let buf := put_at 0 (put32 (sp_SequenceNumber p)) buf in
      let buf := put_at 4 (put32 (ts_Seconds (sp_Timestamp p))) buf in
      let buf := put_at 8 (put32 (ts_Fraction (sp_Timestamp p))) buf in
      let buf := put_at 12 (put16 (sp_ErrorEstimate p)) buf in
      let buf := put_at 14 (put16 (sp_SSID p)) buf in
      append_opt SRExtensions_Encode (sp_SRExtensions p) buf
  end.

Definition DecodeSenderPacket (hmacKey : option (list Z)) (b : list Z) : result stamp_err SenderPacket :=
  match hmacKey with
  | Some _ => Err Panic
  | None =>
      if (length b <? 44)%nat then Err (PacketTooShort (length b))
      else
        seq ← get32 b 0;
        sec ← get32 b 4;
        frac ← get32 b 8;
        ee ← get16 b 12;
        ssid ← get16 b 14;
        rest ← slice b 44 (length b);
        ext ← decodeSRExtensions rest;
        mret {| sp_SequenceNumber := seq; sp_Timestamp := {| ts_Seconds := sec; ts_Fraction := frac |};
                sp_ErrorEstimate := ee; sp_SSID := ssid; sp_SRExtensions := ext |}
  end.

Definition ReflectorPacket_Encode (p : ReflectorPacket) (hmacKey : option (list Z)) : result stamp_err (list Z) :=
  match hmacKey with
  | Some _ => Err Panic
  | None =>
      let buf := replicate 44 0 in
      let buf := put_at 0 (put32 (rf_SequenceNumber p)) buf in
      let buf := put_at 4 (put32 (ts_Seconds (rf_Timestamp p))) buf in
      let buf := put_at 8 (put32 (ts_Fraction (rf_Timestamp p))) buf in
      let buf := put_at 12 (put16 (rf_ErrorEstimate p)) buf in
      let buf := put_at 14 (put16 (rf_SSID p)) buf in
      let buf := put_at 16 (put32 (ts_Seconds (rf_ReceiveTimestamp p))) buf in
      let buf := put_at 20 (put32 (ts_Fraction (rf_ReceiveTimestamp p))) buf in
      let buf := put_at 24 (put32 (rf_SenderSequenceNumber p)) buf in
      let buf := put_at 28 (put32 (ts_Seconds (rf_SenderTimestamp p))) buf in
      let buf := put_at 32 (put32 (ts_Fraction (rf_SenderTimestamp p))) buf in
      let buf := put_at 36 (put16 (rf_SenderErrorEstimate p)) buf in
      let buf := put_at 40 [rf_SenderTTL p] buf in
      append_opt SRExtensions_Encode (rf_SRExtensions p) buf
  end.

Definition DecodeReflectorPacket (hmacKey : option (list Z)) (data : list Z) : result stamp_err ReflectorPacket :=
  match hmacKey with
  | Some _ => Err Panic
  | None =>
      if (length data <? 44)%nat then Err (PacketTooShort (length data))
      else
        seq ← get32 data 0;
        sec ← get32 data 4;
        frac ← get32 data 8;
        ee ← get16 data 12;
        ssid ← get16 data 14;
        rxsec ← get32 data 16;
        rxfrac ← get32 data 20;
        sseq ← get32 data 24;
        ssec ← get32 data 28;
        sfrac ← get32 data 32;
        see ← get16 data 36;
        ttl ← get8 data 40;
        rest ← slice data 44 (length data);
        ext ← decodeSRExtensions rest;
        mret {| rf_SequenceNumber := seq; rf_Timestamp := {| ts_Seconds := sec; ts_Fraction := frac |};
                rf_ErrorEstimate := ee; rf_SSID := ssid;
                rf_ReceiveTimestamp := {| ts_Seconds := rxsec; ts_Fraction := rxfrac |};
                rf_SenderSequenceNumber := sseq;
                rf_SenderTimestamp := {| ts_Seconds := ssec; ts_Fraction := sfrac |};
                rf_SenderErrorEstimate := see; rf_SenderTTL := ttl; rf_SRExtensions := ext |}
  end.

(** ** The session sender *)

Record ErrorEstimateConfig := {
  ec_Scale : Z;
  ec_Multiplier : Z;
  ec_ClockFormat : string;
  ec_Synchronized : bool;
}.
Record Config := { cfg_ErrorEstimate : ErrorEstimateConfig }.

Record Sender := {
  snd_HMACKey : option (list Z);
  snd_seq : Z;
  snd_timeout : Duration;
  snd_Config : Config;
  snd_srExtensions : option SRExtensions;
}.

Record SenderConfig := {
  sc_HMACKey : option (list Z);
  sc_Timeout : Duration;
  sc_Config : Config;
  sc_SRExtensions : option SRExtensions;
}.

Definition NewSenderFromConn (cfg : SenderConfig) (conn : bool) : result stamp_err Sender :=
  if negb conn then Err SocketError
  else Ok {| snd_HMACKey := sc_HMACKey cfg; snd_seq := 0;
             snd_timeout := (if sc_Timeout cfg =? 0 then 5 * Second else sc_Timeout cfg);
             snd_Config := sc_Config cfg; snd_srExtensions := sc_SRExtensions cfg |}.

(** [dial]: whether both addresses resolve and the socket opens. *)
Definition NewSender (cfg : SenderConfig) (dial : bool) : result stamp_err Sender :=
  if negb (ec_ClockFormat (cfg_ErrorEstimate (sc_Config cfg)) =? ClockFormatNTP)%string then Err InvalidClockFormat
  else if negb dial then Err SocketError
  else Ok {| snd_HMACKey := sc_HMACKey cfg; snd_seq := 0;
             snd_timeout := (if sc_Timeout cfg =? 0 then 5 * Second else sc_Timeout cfg);
             snd_Config := sc_Config cfg; snd_srExtensions := sc_SRExtensions cfg |}.

Definition encodeNext (s : Sender) (now : Time) : result stamp_err (list Z) :=
  let c := cfg_ErrorEstimate (snd_Config s) in
  timestamp ← NewTimestamp (ec_ClockFormat c) now;
  errorEstimate ← NewErrorEstimate (ec_Synchronized c) (ec_ClockFormat c) (ec_Scale c) (ec_Multiplier c);
  SenderPacket_Encode
    {| sp_SequenceNumber := snd_seq s; sp_Timestamp := timestamp;
       sp_ErrorEstimate := ErrorEstimate_Encode errorEstimate; sp_SSID := 0;
       sp_SRExtensions := snd_srExtensions s |} None.

Definition bump_seq (s : Sender) : Sender :=
  {| snd_HMACKey := snd_HMACKey s; snd_seq := u32 (snd_seq s + 1); snd_timeout := snd_timeout s;
     snd_Config := snd_Config s; snd_srExtensions := snd_srExtensions s |}.

(** The size of the receive buffers. *)
Definition rx_buffer : nat := 1500.

(** [SendOnly]: the sender afterwards, what was written to the socket, and the
    outcome. *)
Definition SendOnly (s : Sender) (now : Time) (write_ok : bool) : Sender * list (list Z) * result stamp_err unit :=
  match snd_HMACKey s with
  | Some _ => (s, [], Err AuthNotImplemented)
  | None =>
      match encodeNext s now with
      | Err e => (s, [], Err e)
      | Ok buf => if write_ok then (bump_seq s, [buf], Ok tt) else (s, [], Err SocketError)
      end
  end.

(** [Send]: [reply] is the datagram that arrives before the deadline, if one
    does. *)
Definition Send (s : Sender) (now : Time) (write_ok : bool) (reply : option (list Z)) :
    Sender * list (list Z) * result stamp_err ReflectorPacket :=
  match snd_HMACKey s with
  | Some _ => (s, [], Err AuthNotImplemented)
  | None =>
      match encodeNext s now with
      | Err e => (s, [], Err e)
      | Ok buf =>
          if negb write_ok then (s, [], Err SocketError)
          else match reply with
          | None => (s, [buf], Err SocketError)
          | Some dgram =>
              let rx := take rx_buffer dgram in
              if (length rx <? 44)%nat then (s, [buf], Err (PacketTooShort (length rx)))
              else match DecodeReflectorPacket None rx with
                   | Err e => (s, [buf], Err e)
                   | Ok pkt => (bump_seq s, [buf], Ok pkt)
                   end
          end
      end
  end.

(** ** The session reflector *)

Inductive ProbePacket :=
  | ProbeSender (p : SenderPacket)
  | ProbeReflector (p : ReflectorPacket).

Definition requestsReply (p : SenderPacket) : bool :=
  match sp_SRExtensions p with
  | Some {| sx_ReturnPath := Some {| rp_ControlCode := Some cc |} |} => cc_RequestReply cc
  | _ => true
  end.

Record Reflector := { rfl_Config : Config; rfl_seq : Z }.

Definition NewReflector (cfg : Config) : Reflector := {| rfl_Config := cfg; rfl_seq := 0 |}.

(** What one round of [Serve] leaves behind: packets put on the control
    channel, replies written with their destination, errors handed to
    [onError]. *)
Record serve_out := {
  so_control : list ProbePacket;
  so_written : list (string * list Z);
  so_errors : list stamp_err;
}.

Definition serve_none : serve_out := {| so_control := []; so_written := []; so_errors := [] |}.
Definition serve_error (e : stamp_err) : serve_out := {| so_control := []; so_written := []; so_errors := [e] |}.

(** A datagram as [ReadFrom] returns it, the two clock readings of the round
    and whether the reply can be written. *)
Record datagram := {
  dg_bytes : list Z;
  dg_addr : string;
  dg_rx : Time;
  dg_tx : Time;
  dg_write_ok : bool;
}.

(** Everything up to the reflected packet, in the order of the code's checks. *)
Definition reflect (r : Reflector) (d : datagram) : result stamp_err (SenderPacket * ReflectorPacket) :=
  let c := cfg_ErrorEstimate (rfl_Config r) in
  let buf := take rx_buffer (dg_bytes d) in
  rxTimestamp ← NewTimestamp (ec_ClockFormat c) (dg_rx d);
  if (length buf <? 44)%nat then Err (PacketTooShort (length buf))
  else
    senderPkt ← DecodeSenderPacket None buf;
    errorEstimate ← NewErrorEstimate (ec_Synchronized c) (ec_ClockFormat c) (ec_Scale c) (ec_Multiplier c);
    timestamp ← NewTimestamp (ec_ClockFormat c) (dg_tx d);
    mret (senderPkt,
      {| rf_SequenceNumber := rfl_seq r; rf_Timestamp := timestamp;
         rf_ErrorEstimate := ErrorEstimate_Encode errorEstimate;
         rf_ReceiveTimestamp := rxTimestamp;
         rf_SenderSequenceNumber := sp_SequenceNumber senderPkt;
         rf_SenderTimestamp := sp_Timestamp senderPkt;
         rf_SenderErrorEstimate := sp_ErrorEstimate senderPkt;
         rf_SenderTTL := 1; rf_SSID := sp_SSID senderPkt;
         rf_SRExtensions := sp_SRExtensions senderPkt |}).

Definition on_chan (hasChan : bool) (p : ProbePacket) : list ProbePacket := if hasChan then [p] else [].

(** One round of the loop for a datagram that was read. *)
Definition serve_step (hasChan : bool) (r : Reflector) (d : datagram) : Reflector * serve_out :=
  match reflect r d with
  | Err e => (r, serve_error e)
  | Ok (senderPkt, reflectorPkt) =>
      let r' := {| rfl_Config := rfl_Config r; rfl_seq := u32 (rfl_seq r + 1) |} in
      let first := on_chan hasChan (ProbeSender senderPkt) in
      let both := first ++ on_chan hasChan (ProbeReflector reflectorPkt) in
      if requestsReply senderPkt then
        match ReflectorPacket_Encode reflectorPkt None with
        | Err e => (r', {| so_control := first; so_written := []; so_errors := [e] |})
        | Ok bytes =>
            if dg_write_ok d then (r', {| so_control := both; so_written := [(dg_addr d, bytes)]; so_errors := [] |})
            else (r', {| so_control := first; so_written := []; so_errors := [SocketError] |})
        end
      else (r', {| so_control := both; so_written := []; so_errors := [] |})
  end.

(** What the socket delivers to [Serve]: a datagram, a transient read error, or
    the end (the context is done or the socket is closed). *)
Inductive serve_in :=
  | InDatagram (d : datagram)
  | InError
  | InStop.

Fixpoint Serve (hasChan : bool) (r : Reflector) (ins : list serve_in) : Reflector * list serve_out :=
  match ins with
  | [] | InStop :: _ => (r, [])
  | InError :: ins => let '(r', outs) := Serve hasChan r ins in (r', serve_error SocketError :: outs)
  | InDatagram d :: ins =>
      let '(r1, out) := serve_step hasChan r d in
      let '(r2, outs) := Serve hasChan r1 ins in (r2, out :: outs)
  end.
