(* ===== verification/StampCorrect.v ===== *)
(** Correctness of the STAMP codec and sessions of [Stamp]: decoders never read
    out of bounds, what is encoded decodes to the same packet, timestamps
    survive within a nanosecond, and an exchange between a sender and a
    reflector echoes the sender's fields. *)

From S2P Require Import Prelude Stamp.

(** ** Bytes *)

Definition is_byte (z : Z) : Prop := 0 ≤ z < 256.
Notation is_bytes := (Forall is_byte).

Lemma byte_at_range v k : is_byte (byte_at v k).
Proof. apply Z.mod_pos_bound. lia. Qed.

Lemma join16 v : 0 ≤ v < 2 ^ 16 → byte_at v 8 * 256 + byte_at v 0 = v.
Proof.
  intros Hv. unfold byte_at, u8. rewrite !Z.shiftr_div_pow2 by lia.
  change (2 ^ 8) with 256. change (2 ^ 0) with 1. rewrite Z.div_1_r.
  rewrite (Z.mod_small (v / 256)) by (split; [apply Z.div_pos; lia|apply Z.div_lt_upper_bound; lia]).
  pose proof (Z.div_mod v 256). lia.
Qed.

Lemma join32 v : 0 ≤ v < 2 ^ 32 →
  ((byte_at v 24 * 256 + byte_at v 16) * 256 + byte_at v 8) * 256 + byte_at v 0 = v.
Proof.
  intros Hv. unfold byte_at, u8. rewrite !Z.shiftr_div_pow2 by lia.
  change (2 ^ 24) with (256 * 256 * 256). change (2 ^ 16) with (256 * 256). change (2 ^ 8) with 256.
  change (2 ^ 0) with 1. rewrite Z.div_1_r, <-!Z.div_div by lia.
  rewrite (Z.mod_small (v / 256 / 256 / 256))
    by (split; [repeat apply Z.div_pos; lia|repeat apply Z.div_lt_upper_bound; lia]).
  pose proof (Z.div_mod v 256). pose proof (Z.div_mod (v / 256) 256). pose proof (Z.div_mod (v / 256 / 256) 256). lia.
Qed.

Lemma string_bytes_length s : length (string_bytes s) = String.length s.
Proof.
  unfold string_bytes. rewrite length_fmap. induction s as [|c s IH]; simpl; [done|]. by rewrite IH.
Qed.

Lemma string_bytes_range s : is_bytes (string_bytes s).
Proof.
  unfold string_bytes. apply list.Forall_fmap, list.Forall_forall. intros c _. unfold is_byte. simpl.
  pose proof (N_ascii_bounded c). lia.
Qed.

Lemma bytes_string_bytes s : bytes_string (string_bytes s) = s.
Proof.
  unfold bytes_string, string_bytes. rewrite <-list_fmap_compose.
  rewrite <-(String.string_of_list_ascii_of_string s) at 2. f_equal.
  rewrite <-(list_fmap_id (String.list_ascii_of_string s)) at 2. apply list_fmap_ext. intros _ c _. simpl.
  by rewrite N2Z.id, ascii_N_embedding.
Qed.

Lemma string_bytes_string b : is_bytes b → string_bytes (bytes_string b) = b.
Proof.
  intros Hb. unfold bytes_string, string_bytes. rewrite String.list_ascii_of_string_of_list_ascii, <-list_fmap_compose.
  rewrite <-(list_fmap_id b) at 2. apply list_fmap_ext. intros i z Hz. simpl.
  eapply Forall_lookup_1 in Hb; [|exact Hz]. unfold is_byte in Hb.
  rewrite N_ascii_embedding by lia. lia.
Qed.

(** ** Reading a buffer *)

Lemma slice_ok b i j : (i ≤ j ≤ length b)%nat → slice b i j = Ok (take (j - i) (drop i b)).
Proof.
  intros Hij. unfold slice. rewrite (proj2 (Nat.leb_le i j)), (proj2 (Nat.leb_le j (length b))) by lia. done.
Qed.

Lemma slice_length b i j s : slice b i j = Ok s → length s = (j - i)%nat ∧ (j ≤ length b)%nat.
Proof.
  unfold slice. destruct (i <=? j)%nat eqn:Hi, (j <=? length b)%nat eqn:Hj; simpl; intros [= <-].
  apply Nat.leb_le in Hi, Hj. rewrite length_take, length_drop. lia.
Qed.

Lemma slice_bytes b i j s : is_bytes b → slice b i j = Ok s → is_bytes s.
Proof.
  intros Hb. unfold slice. destruct (_ && _); intros [= <-]. by apply Forall_take, Forall_drop.
Qed.

Lemma slice_app pre s post : slice (pre ++ s ++ post) (length pre) (length pre + length s) = Ok s.
Proof.
  rewrite slice_ok by (rewrite !length_app; lia).
  by rewrite drop_app_length, Nat.add_comm, Nat.add_sub, take_app_length.
Qed.

Lemma get8_ok b i : (i + 1 ≤ length b)%nat → ∃ v, get8 b i = Ok v ∧ (is_bytes b → is_byte v).
Proof.
  intros Hi. unfold get8. destruct (slice b i (i + 1)) as [s|] eqn:Hs; [|by rewrite slice_ok in Hs by lia].
  pose proof (slice_length _ _ _ _ Hs) as [Hl _]. destruct s as [|v s]; [simpl in Hl; lia|].
  exists v. split; [done|]. intros Hb. pose proof (slice_bytes _ _ _ _ Hb Hs) as Hsb. by inversion Hsb.
Qed.

Lemma get16_ok b i : (i + 2 ≤ length b)%nat → ∃ v, get16 b i = Ok v ∧ (is_bytes b → 0 ≤ v < 2 ^ 16).
Proof.
  intros Hi. unfold get16. destruct (slice b i (i + 2)) as [s|] eqn:Hs; [|by rewrite slice_ok in Hs by lia].
  pose proof (slice_length _ _ _ _ Hs) as [Hl _]. destruct s as [|v0 [|v1 s]]; [simpl in Hl; lia..|].
  eexists. split; [reflexivity|]. intros Hb. pose proof (slice_bytes _ _ _ _ Hb Hs) as Hsb.
  decompose_Forall_hyps. unfold is_byte in *. lia.
Qed.

Lemma get32_ok b i : (i + 4 ≤ length b)%nat → ∃ v, get32 b i = Ok v ∧ (is_bytes b → 0 ≤ v < 2 ^ 32).
Proof.
  intros Hi. unfold get32. destruct (slice b i (i + 4)) as [s|] eqn:Hs; [|by rewrite slice_ok in Hs by lia].
  pose proof (slice_length _ _ _ _ Hs) as [Hl _].
  destruct s as [|v0 [|v1 [|v2 [|v3 s]]]]; [simpl in Hl; lia..|].
  eexists. split; [reflexivity|]. intros Hb. pose proof (slice_bytes _ _ _ _ Hb Hs) as Hsb.
  decompose_Forall_hyps. unfold is_byte in *. lia.
Qed.

(** ** The TLV loop *)

(** One TLV as the encoders write it. *)
Definition tlv (ty : Z) (val : list Z) : list Z := [0; ty] ++ put16 (Z.of_nat (length val)) ++ val.

Lemma tlv_length ty val : length (tlv ty val) = (4 + length val)%nat.
Proof. done. Qed.

Section loop.
  Context {A : Type} (level : tlv_level) (handle : Z → list Z → A → result stamp_err A).

Lemma tlv_loop_unfold fuel b cursor acc :
  tlv_loop (S fuel) level handle b cursor acc =
  (if (cursor <? length b)%nat then
     if (length b - cursor <? 4)%nat then Err (TruncatedHeader level)
     else
       ty ← get8 b (cursor + 1);
       len ← get16 b (cursor + 2);
       let len := Z.to_nat len in
       if (length b <? cursor + 4 + len)%nat then Err (TLVOverrun level ty len (length b - cursor - 4))
       else
         val ← slice b (cursor + 4) (cursor + 4 + len);
         acc ← handle ty val acc;
         tlv_loop fuel level handle b (cursor + (4 + len)) acc
   else Ok acc).
Proof. done. Qed.

(** A round either stops the loop with an error of its own, or passes a value
    inside the region to the handler and moves the cursor past it. *)
Lemma tlv_loop_round fuel b cursor acc :
  tlv_loop (S fuel) level handle b cursor acc = Ok acc ∧ (length b ≤ cursor)%nat ∨
  (∃ e, tlv_loop (S fuel) level handle b cursor acc = Err e ∧ defect e = false) ∨
  ∃ ty val, (cursor + 4 + length val ≤ length b)%nat ∧
    (is_bytes b → is_bytes val ∧ Z.of_nat (length val) < 2 ^ 16) ∧
    tlv_loop (S fuel) level handle b cursor acc =
      (acc ← handle ty val acc; tlv_loop fuel level handle b (cursor + (4 + length val)) acc).
Proof.
  rewrite tlv_loop_unfold. destruct (cursor <? length b)%nat eqn:Hc;
    [apply Nat.ltb_lt in Hc|apply Nat.ltb_ge in Hc; by left].
  destruct (length b - cursor <? 4)%nat eqn:H4; [right; left; by eexists|]. apply Nat.ltb_ge in H4.
  destruct (get8_ok b (cursor + 1)) as (ty & -> & _); [lia|]. cbn [mbind result_bind].
  destruct (get16_ok b (cursor + 2)) as (len & -> & Hlen); [lia|]. cbn [mbind result_bind].
  set (n := Z.to_nat len).
  destruct (length b <? cursor + 4 + n)%nat eqn:Hn; [right; left; by eexists|]. apply Nat.ltb_ge in Hn.
  destruct (slice b (cursor + 4) (cursor + 4 + n)) as [val|] eqn:Hs; [|by rewrite slice_ok in Hs by lia].
  right. right. exists ty, val. pose proof (slice_length _ _ _ _ Hs) as [Hl _].
  split_and!; [lia|intros Hb; split; [eapply slice_bytes; eauto|specialize (Hlen Hb); lia]|]. simpl. do 3 f_equal. lia.
Qed.

(** Within its budget the loop only fails with the loop's or the handler's own
    errors: no out-of-bounds read, no exhausted budget. *)
Lemma tlv_loop_safe fuel b cursor acc e :
  (∀ ty val a e, handle ty val a = Err e → defect e = false) → (length b - cursor < fuel)%nat →
  tlv_loop fuel level handle b cursor acc = Err e → defect e = false.
Proof.
  intros Hh. revert cursor acc. induction fuel as [|fuel IH]; intros cursor acc Hf He; [lia|].
  destruct (tlv_loop_round fuel b cursor acc) as [[Hr _]|[(e' & Hr & Hd)|(ty & val & Hl & _ & Hr)]]; rewrite Hr in He.
  - done.
  - by simplify_eq.
  - destruct (handle ty val acc) as [a|] eqn:Ha; simpl in He; [|simplify_eq; eauto].
    eapply IH; [|exact He]. lia.
Qed.

(** An invariant of the handler on the values inside the region holds of the
    result. *)
Lemma tlv_loop_inv (P : A → Prop) fuel b cursor acc acc' :
  is_bytes b →
  (∀ ty val a a', is_bytes val → Z.of_nat (length val) < 2 ^ 16 → (length val + 4 ≤ length b)%nat → P a → handle ty val a = Ok a' → P a') →
  P acc → tlv_loop fuel level handle b cursor acc = Ok acc' → P acc'.
Proof.
  intros Hb Hh. revert cursor acc. induction fuel as [|fuel IH]; intros cursor acc HP He; [done|].
  destruct (tlv_loop_round fuel b cursor acc) as [[Hr _]|[(e' & Hr & Hd)|(ty & val & Hl & Hv & Hr)]]; rewrite Hr in He.
  - by simplify_eq.
  - done.
  - destruct (handle ty val acc) as [a|] eqn:Ha; simpl in He; [|done].
    eapply IH; [|exact He]. eapply Hh; [by apply Hv|by apply Hv| |exact HP|exact Ha]. lia.
Qed.

(** On a region that an encoder wrote, a round hands the value back. *)
Lemma tlv_loop_tlv fuel pre ty val post acc :
  Z.of_nat (length val) < 2 ^ 16 →
  tlv_loop (S fuel) level handle (pre ++ tlv ty val ++ post) (length pre) acc =
  (acc ← handle ty val acc; tlv_loop fuel level handle (pre ++ tlv ty val ++ post) (length (pre ++ tlv ty val)) acc).
Proof.
  intros Hv. rewrite tlv_loop_unfold. set (b := pre ++ tlv ty val ++ post).
  assert (length b = length pre + (4 + length val) + length post)%nat as Hb
    by (unfold b; rewrite !length_app, tlv_length; lia).
  rewrite (proj2 (Nat.ltb_lt (length pre) (length b))), (proj2 (Nat.ltb_ge (length b - length pre) 4)) by lia.
  assert (get8 b (length pre + 1) = Ok ty) as ->.
  { unfold get8, b, tlv. rewrite <-app_assoc.
    replace (pre ++ [0; ty] ++ _) with ((pre ++ [0]) ++ [ty] ++ (put16 (Z.of_nat (length val)) ++ val) ++ post)
      by by rewrite <-!app_assoc.
    pose proof (slice_app (pre ++ [0]) [ty] ((put16 (Z.of_nat (length val)) ++ val) ++ post)) as Hs.
    rewrite length_app in Hs. simpl in Hs. simpl. by rewrite Hs. }
  assert (get16 b (length pre + 2) = Ok (Z.of_nat (length val))) as ->.
  { unfold get16, b, tlv. rewrite <-app_assoc.
    replace (pre ++ [0; ty] ++ _) with ((pre ++ [0; ty]) ++ put16 (Z.of_nat (length val)) ++ val ++ post)
      by by rewrite <-!app_assoc.
    pose proof (slice_app (pre ++ [0; ty]) (put16 (Z.of_nat (length val))) (val ++ post)) as Hs.
    rewrite length_app in Hs. cbn [length put16] in Hs. rewrite Hs. cbn. f_equal. apply join16. lia. }
  cbn [mbind result_bind]. rewrite Nat2Z.id, (proj2 (Nat.ltb_ge (length b) (length pre + 4 + length val))) by lia.
  assert (slice b (length pre + 4) (length pre + 4 + length val) = Ok val) as ->.
  { unfold b, tlv.
    replace (pre ++ ([0; ty] ++ put16 (Z.of_nat (length val)) ++ val) ++ post)
      with ((pre ++ [0; ty] ++ put16 (Z.of_nat (length val))) ++ val ++ post) by by rewrite <-!app_assoc.
    rewrite <-(slice_app (pre ++ [0; ty] ++ put16 (Z.of_nat (length val))) val post). rewrite length_app. done. }
  cbn [mbind result_bind]. by rewrite length_app, tlv_length.
Qed.

(** The loop ends at the end of the region. *)
Lemma tlv_loop_end fuel b acc : tlv_loop (S fuel) level handle b (length b) acc = Ok acc.
Proof. rewrite tlv_loop_unfold, (proj2 (Nat.ltb_ge _ _)) by lia. done. Qed.

Lemma tlv_scan_one ty val acc :
  Z.of_nat (length val) < 2 ^ 16 → tlv_scan level handle (tlv ty val) acc = handle ty val acc.
Proof.
  intros Hv. unfold tlv_scan.
  pose proof (tlv_loop_tlv (length (tlv ty val)) [] ty val [] acc Hv) as Hl.
  rewrite app_nil_r in Hl. cbn [app length] in Hl. rewrite Hl.
  destruct (handle ty val acc) as [a|]; [|done]. cbn [mbind result_bind]. apply tlv_loop_end.
Qed.

Lemma tlv_scan_two ty1 val1 ty2 val2 acc :
  Z.of_nat (length val1) < 2 ^ 16 → Z.of_nat (length val2) < 2 ^ 16 →
  tlv_scan level handle (tlv ty1 val1 ++ tlv ty2 val2) acc = (acc ← handle ty1 val1 acc; handle ty2 val2 acc).
Proof.
  intros Hv1 Hv2. unfold tlv_scan.
  pose proof (tlv_loop_tlv (length (tlv ty1 val1 ++ tlv ty2 val2)) [] ty1 val1 (tlv ty2 val2) acc Hv1) as Hl.
  cbn [app length] in Hl. rewrite Hl. destruct (handle ty1 val1 acc) as [a|]; [|done]. cbn [mbind result_bind].
  destruct (length (tlv ty1 val1 ++ tlv ty2 val2)) as [|n] eqn:Hn;
    [rewrite length_app, tlv_length in Hn; lia|].
  pose proof (tlv_loop_tlv n (tlv ty1 val1) ty2 val2 [] a Hv2) as Hl2. rewrite app_nil_r in Hl2. rewrite Hl2.
  destruct (handle ty2 val2 a) as [a'|]; [|done].
  destruct n as [|n]; [rewrite length_app, !tlv_length in Hn; lia|].
  cbn [mbind result_bind]. apply tlv_loop_end.
Qed.
End loop.

(** ** Extensions *)

(** A telemetry key that fits: valid UTF-8, and short enough for its sub-TLV to
    fit in the container. *)
Definition key_ok (k : string) : Prop :=
  utf8_valid (string_bytes k) = true ∧ Z.of_nat (String.length k) ≤ 0xFFFB.

Definition container_ok (c : SRExtMaetoContainer) : Prop :=
  match mc_TelemetryKey c with Some k => key_ok (tk_Key k) | None => True end.

Definition ext_ok (x : SRExtensions) : Prop :=
  match sx_MaetoContainer x with Some c => container_ok c | None => True end.

(** The values the encoders put inside the three TLV levels. *)
Definition cc_val (c : SRExtReturnPathControlCode) : list Z := [0; 0; 0; if cc_RequestReply c then 1 else 0].
Definition rp_val (p : SRExtReturnPath) : list Z := from_option (λ c, tlv RPControlCode (cc_val c)) [] (rp_ControlCode p).
Definition mc_val (c : SRExtMaetoContainer) : list Z :=
  from_option (λ k, tlv MCTelemetryKey (string_bytes (tk_Key k))) [] (mc_TelemetryKey c).
Definition ext_val (x : SRExtensions) : list Z :=
  from_option (λ p, tlv TLVReturnPath (rp_val p)) [] (sx_ReturnPath x) ++
  from_option (λ c, tlv TLVMaetoContainer (mc_val c)) [] (sx_MaetoContainer x).

Lemma ReturnPath_Encode_eq p : ReturnPath_Encode p = Ok (tlv TLVReturnPath (rp_val p)).
Proof. destruct p as [[[[|]]|]]; reflexivity. Qed.

Lemma rp_val_length p : Z.of_nat (length (rp_val p)) < 2 ^ 16.
Proof. destruct p as [[[[|]]|]]; simpl; lia. Qed.

Lemma TelemetryKey_Encode_eq k :
  Z.of_nat (String.length (tk_Key k)) ≤ 0xFFFF →
  TelemetryKey_Encode k = Ok (tlv MCTelemetryKey (string_bytes (tk_Key k))).
Proof.
  intros Hk. unfold TelemetryKey_Encode. rewrite (proj2 (Z.ltb_ge 0xFFFF _)) by lia.
  rewrite u16_id by lia. unfold tlv. rewrite string_bytes_length. reflexivity.
Qed.

Lemma mc_val_length c :
  length (mc_val c) = match mc_TelemetryKey c with Some k => (4 + String.length (tk_Key k))%nat | None => 0%nat end.
Proof. unfold mc_val. destruct (mc_TelemetryKey c); [|done]. simpl. by rewrite string_bytes_length. Qed.

Lemma container_ok_length c : container_ok c → Z.of_nat (length (mc_val c)) ≤ 0xFFFF.
Proof.
  rewrite mc_val_length. unfold container_ok, key_ok. destruct (mc_TelemetryKey c); [|simpl; lia]. intros [_ ?]. lia.
Qed.

(** The container's encoder succeeds exactly when the value fits its length
    field. *)
Lemma MaetoContainer_Encode_eq c :
  MaetoContainer_Encode c =
  if 0xFFFF <? Z.of_nat (length (mc_val c))
  then Err (if 0xFFFF + 4 <? Z.of_nat (length (mc_val c)) then KeyTooLong else ContainerTooLong)
  else Ok (tlv TLVMaetoContainer (mc_val c)).
Proof.
  destruct c as [[k|]]; [|reflexivity]. unfold MaetoContainer_Encode. cbn [mc_TelemetryKey append_opt].
  rewrite (mc_val_length {| mc_TelemetryKey := Some k |}). cbn [mc_TelemetryKey].
  destruct (0xFFFF + 4 <? Z.of_nat (4 + String.length (tk_Key k))) eqn:Hk.
  { apply Z.ltb_lt in Hk. unfold TelemetryKey_Encode. rewrite !(proj2 (Z.ltb_lt _ _)) by lia. done. }
  apply Z.ltb_ge in Hk. rewrite TelemetryKey_Encode_eq by lia. cbn [mbind result_bind mret result_ret].
  rewrite length_app, tlv_length, string_bytes_length.
  replace (Z.of_nat (length _ + _ - _)) with (Z.of_nat (4 + String.length (tk_Key k))) by (simpl; lia).
  destruct (0xFFFF <? Z.of_nat (4 + String.length (tk_Key k))) eqn:Hl; [done|]. apply Z.ltb_ge in Hl.
  rewrite u16_id by lia. unfold tlv at 2, mc_val. cbn [mc_TelemetryKey from_option].
  rewrite tlv_length, string_bytes_length. reflexivity.
Qed.

Lemma SRExtensions_Encode_eq x : ext_ok x → SRExtensions_Encode x = Ok (ext_val x).
Proof.
  destruct x as [[p|] [c|]]; unfold SRExtensions_Encode, ext_ok, ext_val; cbn [append_opt sx_ReturnPath sx_MaetoContainer];
    rewrite ?ReturnPath_Encode_eq; cbn [mbind result_bind mret result_ret from_option]; intros Hok;
    try (rewrite MaetoContainer_Encode_eq, (proj2 (Z.ltb_ge _ _)) by (by apply container_ok_length));
    by rewrite ?app_nil_r.
Qed.

(** Decoding what was encoded. *)
Lemma decodeReturnPath_val p : decodeReturnPath (rp_val p) = Ok p.
Proof. destruct p as [[[[|]]|]]; reflexivity. Qed.

Lemma decodeMaetoContainer_val c : container_ok c → decodeMaetoContainer (mc_val c) = Ok c.
Proof.
  destruct c as [[[k]|]]; [|reflexivity]. intros [Hu Hl]. unfold decodeMaetoContainer, mc_val. cbn [mc_TelemetryKey from_option].
  cbn [tk_Key] in *. rewrite tlv_scan_one by (rewrite string_bytes_length; lia).
  unfold container_handle, decodeTelemetryKey. rewrite Hu. cbn. by rewrite bytes_string_bytes.
Qed.

(** An extension block without TLVs is written as nothing, and reads back as no
    block. *)
Definition norm_ext (x : option SRExtensions) : option SRExtensions :=
  match x with Some {| sx_ReturnPath := None; sx_MaetoContainer := None |} => None | _ => x end.

Lemma ext_handle_rp p x :
  ext_handle TLVReturnPath (rp_val p) x = Ok {| sx_ReturnPath := Some p; sx_MaetoContainer := sx_MaetoContainer x |}.
Proof. unfold ext_handle. rewrite Z.eqb_refl, decodeReturnPath_val. done. Qed.

Lemma ext_handle_mc c x :
  container_ok c →
  ext_handle TLVMaetoContainer (mc_val c) x = Ok {| sx_ReturnPath := sx_ReturnPath x; sx_MaetoContainer := Some c |}.
Proof. intros Hc. unfold ext_handle. rewrite Z.eqb_refl, decodeMaetoContainer_val by done. done. Qed.

Lemma decodeSRExtensions_val x : ext_ok x → decodeSRExtensions (ext_val x) = Ok (norm_ext (Some x)).
Proof.
  destruct x as [[p|] [c|]]; unfold ext_ok, ext_val; cbn [sx_ReturnPath sx_MaetoContainer from_option]; intros Hok;
    unfold decodeSRExtensions; [| | |reflexivity]; rewrite ?app_nil_r; cbn [app];
    try pose proof (container_ok_length _ Hok).
  - rewrite (proj2 (Nat.eqb_neq _ _)) by (rewrite length_app, !tlv_length; lia).
    rewrite tlv_scan_two by (try apply rp_val_length; lia).
    rewrite ext_handle_rp. cbn [mbind result_bind]. by rewrite ext_handle_mc.
  - rewrite (proj2 (Nat.eqb_neq _ _)) by (rewrite !tlv_length; lia).
    rewrite tlv_scan_one by apply rp_val_length. by rewrite ext_handle_rp.
  - rewrite (proj2 (Nat.eqb_neq _ _)) by (rewrite !tlv_length; lia).
    rewrite tlv_scan_one by lia. by rewrite ext_handle_mc.
Qed.

(** ** Safety of the decoders *)

Lemma tlv_scan_safe {A} level (handle : Z → list Z → A → result stamp_err A) b acc e :
  (∀ ty val a e, handle ty val a = Err e → defect e = false) → tlv_scan level handle b acc = Err e → defect e = false.
Proof. intros Hh. apply tlv_loop_safe; [done|lia]. Qed.

Lemma decodeReturnPath_safe b e : decodeReturnPath b = Err e → defect e = false.
Proof.
  apply tlv_scan_safe. intros ty val a e'. unfold return_path_handle, decodeControlCode.
  destruct (ty =? _); [|done]. destruct (length val =? 4)%nat eqn:Hl; [|by intros [= <-]].
  destruct val as [|? [|? [|? [|? [|]]]]]; done.
Qed.

Lemma decodeMaetoContainer_safe b e : decodeMaetoContainer b = Err e → defect e = false.
Proof.
  apply tlv_scan_safe. intros ty val a e'. unfold container_handle, decodeTelemetryKey.
  destruct (ty =? _); [|done]. destruct (utf8_valid val); simpl; [done|by intros [= <-]].
Qed.

Lemma decodeSRExtensions_safe b e : decodeSRExtensions b = Err e → defect e = false.
Proof.
  unfold decodeSRExtensions. destruct (length b =? 0)%nat; [done|].
  destruct (tlv_scan _ _ _ _) eqn:Hs; simpl; [done|]. intros [= <-]. revert Hs. apply tlv_scan_safe.
  intros ty val a e'. unfold ext_handle. destruct (ty =? TLVReturnPath).
  { destruct (decodeReturnPath val) eqn:Hr; simpl; [done|]. intros [= <-]. by eapply decodeReturnPath_safe. }
  destruct (ty =? TLVMaetoContainer); [|done].
  destruct (decodeMaetoContainer val) eqn:Hr; simpl; [done|]. intros [= <-]. by eapply decodeMaetoContainer_safe.
Qed.

(** Steps through the field reads of a decoder on a buffer of at least 44
    octets. *)
Ltac read_fields :=
  repeat match goal with
  | |- context [get32 ?b ?i] =>
      let v := fresh "v" in let Hv := fresh "Hv" in
      destruct (get32_ok b i) as (v & -> & Hv); [lia|]; cbn [mbind result_bind]
  | |- context [get16 ?b ?i] =>
      let v := fresh "v" in let Hv := fresh "Hv" in
      destruct (get16_ok b i) as (v & -> & Hv); [lia|]; cbn [mbind result_bind]
  | |- context [get8 ?b ?i] =>
      let v := fresh "v" in let Hv := fresh "Hv" in
      destruct (get8_ok b i) as (v & -> & Hv); [lia|]; cbn [mbind result_bind]
  end.

Lemma rest_ok b : (44 ≤ length b)%nat → slice b 44 (length b) = Ok (drop 44 b).
Proof. intros Hb. rewrite slice_ok by lia. f_equal. apply take_ge. rewrite length_drop. lia. Qed.

(** ** Packets in range *)

Definition u32_ok (v : Z) : Prop := 0 ≤ v < 2 ^ 32.
Definition u16_ok (v : Z) : Prop := 0 ≤ v < 2 ^ 16.
Definition ts_ok (t : Timestamp) : Prop := u32_ok (ts_Seconds t) ∧ u32_ok (ts_Fraction t).
Definition opt_ext_ok (x : option SRExtensions) : Prop := match x with Some x => ext_ok x | None => True end.

Definition sender_ok (p : SenderPacket) : Prop :=
  u32_ok (sp_SequenceNumber p) ∧ ts_ok (sp_Timestamp p) ∧ u16_ok (sp_ErrorEstimate p) ∧ u16_ok (sp_SSID p) ∧
  opt_ext_ok (sp_SRExtensions p).

Definition reflector_ok (p : ReflectorPacket) : Prop :=
  u32_ok (rf_SequenceNumber p) ∧ ts_ok (rf_Timestamp p) ∧ u16_ok (rf_ErrorEstimate p) ∧
  ts_ok (rf_ReceiveTimestamp p) ∧ u32_ok (rf_SenderSequenceNumber p) ∧ ts_ok (rf_SenderTimestamp p) ∧
  u16_ok (rf_SenderErrorEstimate p) ∧ is_byte (rf_SenderTTL p) ∧ u16_ok (rf_SSID p) ∧
  opt_ext_ok (rf_SRExtensions p).

(** The packet with its extension block normalised. *)
Definition norm_sender (p : SenderPacket) : SenderPacket :=
  {| sp_SequenceNumber := sp_SequenceNumber p; sp_Timestamp := sp_Timestamp p;
     sp_ErrorEstimate := sp_ErrorEstimate p; sp_SSID := sp_SSID p; sp_SRExtensions := norm_ext (sp_SRExtensions p) |}.
Definition norm_reflector (p : ReflectorPacket) : ReflectorPacket :=
  {| rf_SequenceNumber := rf_SequenceNumber p; rf_Timestamp := rf_Timestamp p;
     rf_ErrorEstimate := rf_ErrorEstimate p; rf_ReceiveTimestamp := rf_ReceiveTimestamp p;
     rf_SenderSequenceNumber := rf_SenderSequenceNumber p; rf_SenderTimestamp := rf_SenderTimestamp p;
     rf_SenderErrorEstimate := rf_SenderErrorEstimate p; rf_SenderTTL := rf_SenderTTL p;
     rf_SSID := rf_SSID p; rf_SRExtensions := norm_ext (rf_SRExtensions p) |}.

Definition opt_ext_val (x : option SRExtensions) : list Z := from_option ext_val [] x.

Lemma append_ext x buf : opt_ext_ok x → append_opt SRExtensions_Encode x buf = Ok (buf ++ opt_ext_val x).
Proof.
  destruct x as [x|]; intros Hx; cbn [append_opt opt_ext_val from_option]; [|by rewrite app_nil_r].
  by rewrite SRExtensions_Encode_eq.
Qed.

Lemma decode_ext x : opt_ext_ok x → decodeSRExtensions (opt_ext_val x) = Ok (norm_ext x).
Proof. destruct x as [x|]; intros Hx; [by apply decodeSRExtensions_val|done]. Qed.

(** The decoders on a buffer of at least 44 octets. *)
Lemma DecodeSenderPacket_eq b :
  (44 ≤ length b)%nat → DecodeSenderPacket None b =
  (seq ← get32 b 0; sec ← get32 b 4; frac ← get32 b 8; ee ← get16 b 12; ssid ← get16 b 14;
   ext ← decodeSRExtensions (drop 44 b);
   mret {| sp_SequenceNumber := seq; sp_Timestamp := {| ts_Seconds := sec; ts_Fraction := frac |};
           sp_ErrorEstimate := ee; sp_SSID := ssid; sp_SRExtensions := ext |}).
Proof.
  intros Hb. unfold DecodeSenderPacket. destruct (Nat.ltb_spec (length b) 44); [lia|].
  by read_fields; rewrite rest_ok by done.
Qed.

Lemma DecodeReflectorPacket_eq b :
  (44 ≤ length b)%nat → DecodeReflectorPacket None b =
  (seq ← get32 b 0; sec ← get32 b 4; frac ← get32 b 8; ee ← get16 b 12; ssid ← get16 b 14;
   rxsec ← get32 b 16; rxfrac ← get32 b 20; sseq ← get32 b 24; ssec ← get32 b 28; sfrac ← get32 b 32;
   see ← get16 b 36; ttl ← get8 b 40;
   ext ← decodeSRExtensions (drop 44 b);
   mret {| rf_SequenceNumber := seq; rf_Timestamp := {| ts_Seconds := sec; ts_Fraction := frac |};
           rf_ErrorEstimate := ee; rf_SSID := ssid;
           rf_ReceiveTimestamp := {| ts_Seconds := rxsec; ts_Fraction := rxfrac |};
           rf_SenderSequenceNumber := sseq;
           rf_SenderTimestamp := {| ts_Seconds := ssec; ts_Fraction := sfrac |};
           rf_SenderErrorEstimate := see; rf_SenderTTL := ttl; rf_SRExtensions := ext |}).
Proof.
  intros Hb. unfold DecodeReflectorPacket. destruct (Nat.ltb_spec (length b) 44); [lia|].
  by read_fields; rewrite rest_ok by done.
Qed.

(** Reading the octets of a field one by one. *)
Lemma drop_lookup {A} (b : list A) i x : b !! i = Some x → drop i b = x :: drop (S i) b.
Proof. intros Hx. by apply drop_S. Qed.

Lemma get8_lookup b i b0 : b !! i = Some b0 → get8 b i = Ok b0.
Proof.
  intros H0. unfold get8. pose proof (lookup_lt_Some _ _ _ H0). rewrite slice_ok by lia.
  by rewrite Nat.add_comm, Nat.add_sub, (drop_lookup _ _ _ H0).
Qed.

Lemma get16_lookup b i v :
  u16_ok v → b !! i = Some (byte_at v 8) → b !! S i = Some (byte_at v 0) → get16 b i = Ok v.
Proof.
  intros Hv H0 H1. unfold get16. pose proof (lookup_lt_Some _ _ _ H1). rewrite slice_ok by lia.
  rewrite Nat.add_comm, Nat.add_sub, (drop_lookup _ _ _ H0), (drop_lookup _ _ _ H1). simpl. f_equal. by apply join16.
Qed.

Lemma get32_lookup b i v :
  u32_ok v → b !! i = Some (byte_at v 24) → b !! S i = Some (byte_at v 16) → b !! S (S i) = Some (byte_at v 8) →
  b !! S (S (S i)) = Some (byte_at v 0) → get32 b i = Ok v.
Proof.
  intros Hv H0 H1 H2 H3. unfold get32. pose proof (lookup_lt_Some _ _ _ H3). rewrite slice_ok by lia.
  rewrite Nat.add_comm, Nat.add_sub, (drop_lookup _ _ _ H0), (drop_lookup _ _ _ H1), (drop_lookup _ _ _ H2),
    (drop_lookup _ _ _ H3). simpl. f_equal. by apply join32.
Qed.

Lemma SenderPacket_codec p :
  sender_ok p → ∃ b, SenderPacket_Encode p None = Ok b ∧ DecodeSenderPacket None b = Ok (norm_sender p) ∧
    length b = (44 + length (opt_ext_val (sp_SRExtensions p)))%nat.
Proof.
  destruct p as [seq [sec frac] ee ssid x]. intros (Hseq & [Hsec Hfrac] & Hee & Hssid & Hx). cbn in Hseq, Hsec, Hfrac, Hee, Hssid, Hx.
  unfold SenderPacket_Encode. cbn [sp_SRExtensions]. rewrite append_ext by done.
  eexists. split; [reflexivity|]. split; [|rewrite length_app; reflexivity].
  rewrite DecodeSenderPacket_eq by (rewrite length_app; apply Nat.le_add_r).
  rewrite (get32_lookup _ 0 seq), (get32_lookup _ 4 sec), (get32_lookup _ 8 frac), (get16_lookup _ 12 ee),
    (get16_lookup _ 14 ssid) by (done || reflexivity).
  cbn [mbind result_bind].
  rewrite drop_app_length' by reflexivity. rewrite (decode_ext x) by done. done.
Qed.

Lemma ReflectorPacket_codec p :
  reflector_ok p → ∃ b, ReflectorPacket_Encode p None = Ok b ∧ DecodeReflectorPacket None b = Ok (norm_reflector p) ∧
    length b = (44 + length (opt_ext_val (rf_SRExtensions p)))%nat.
Proof.
  destruct p as [seq [sec frac] ee [rxsec rxfrac] sseq [ssec sfrac] see ttl ssid x].
  intros (Hseq & [Hsec Hfrac] & Hee & [Hrs Hrf] & Hss & [Hsns Hsnf] & Hsee & Httl & Hssid & Hx).
  cbn in Hseq, Hsec, Hfrac, Hee, Hrs, Hrf, Hss, Hsns, Hsnf, Hsee, Httl, Hssid, Hx.
  unfold ReflectorPacket_Encode. cbn [rf_SRExtensions]. rewrite append_ext by done.
  eexists. split; [reflexivity|]. split; [|rewrite length_app; reflexivity].
  rewrite DecodeReflectorPacket_eq by (rewrite length_app; apply Nat.le_add_r).
  rewrite (get32_lookup _ 0 seq), (get32_lookup _ 4 sec), (get32_lookup _ 8 frac), (get16_lookup _ 12 ee),
    (get16_lookup _ 14 ssid), (get32_lookup _ 16 rxsec), (get32_lookup _ 20 rxfrac), (get32_lookup _ 24 sseq),
    (get32_lookup _ 28 ssec), (get32_lookup _ 32 sfrac), (get16_lookup _ 36 see), (get8_lookup _ 40 ttl)
    by (done || reflexivity).
  cbn [mbind result_bind].
  rewrite drop_app_length' by reflexivity. rewrite (decode_ext x) by done. done.
Qed.

(** ** What a decoder accepts *)

Lemma decodeMaetoContainer_ok b c :
  is_bytes b → Z.of_nat (length b) < 2 ^ 16 → decodeMaetoContainer b = Ok c → container_ok c.
Proof.
  intros Hb Hl. apply tlv_loop_inv; [done| |done]. intros ty val a a' Hval _ Hv Ha.
  unfold container_handle, decodeTelemetryKey. destruct (ty =? _); [|congruence].
  destruct (utf8_valid val) eqn:Hu; [|done]. intros [= <-]. unfold container_ok, key_ok. simpl.
  rewrite string_bytes_string by done. split; [done|].
  rewrite <-string_bytes_length, string_bytes_string by done. lia.
Qed.

Lemma decodeSRExtensions_ok b x : is_bytes b → decodeSRExtensions b = Ok x → opt_ext_ok x.
Proof.
  intros Hb. unfold decodeSRExtensions. destruct (length b =? 0)%nat; [by intros [= <-]|].
  destruct (tlv_scan _ _ _ _) as [ext|] eqn:Hs; [|done]. intros [= <-]. revert Hs. change (opt_ext_ok (Some ext)) with (ext_ok ext).
  apply tlv_loop_inv; [done| |done]. intros ty val a a' Hval Hl _ Ha. unfold ext_handle.
  destruct (ty =? TLVReturnPath).
  { destruct (decodeReturnPath val); [|done]. by intros [= <-]. }
  destruct (ty =? TLVMaetoContainer); [|congruence].
  destruct (decodeMaetoContainer val) as [c|] eqn:Hc; [|done]. intros [= <-].
  by apply (decodeMaetoContainer_ok val).
Qed.

Lemma DecodeSenderPacket_ok b p : is_bytes b → DecodeSenderPacket None b = Ok p → sender_ok p.
Proof.
  intros Hb. destruct (decide (44 ≤ length b)%nat) as [Hl|Hl].
  2: { unfold DecodeSenderPacket. destruct (Nat.ltb_spec (length b) 44); [done|lia]. }
  rewrite DecodeSenderPacket_eq by done. read_fields.
  destruct (decodeSRExtensions (drop 44 b)) as [x|] eqn:Hx; [|done]. intros [= <-].
  apply decodeSRExtensions_ok in Hx; [|by apply Forall_drop]. unfold sender_ok, ts_ok, u32_ok, u16_ok. naive_solver.
Qed.

(** ** Timestamps *)

Definition nanos : Z := 1000000000.

Lemma fraction_range t : 0 ≤ Z.shiftl (time_nanosecond t) 32 / nanos < 2 ^ 32.
Proof.
  unfold time_nanosecond, nanos. pose proof (Z.mod_pos_bound t 1000000000) as Hm.
  rewrite Z.shiftl_mul_pow2 by lia. split; [apply Z.div_pos; lia|]. apply Z.div_lt_upper_bound; lia.
Qed.

Lemma generate_fraction t : ts_Fraction (generateNtpTimestamp t) = Z.shiftl (time_nanosecond t) 32 / nanos.
Proof.
  pose proof (fraction_range t) as Hf. cbn [ts_Fraction generateNtpTimestamp].
  pose proof (Z.mod_pos_bound t 1000000000) as Hm. unfold time_nanosecond, nanos in *.
  rewrite (u64_id (t mod _)) by lia.
  rewrite u64_id by (rewrite Z.shiftl_mul_pow2 by lia; lia). by apply u32_id.
Qed.

Lemma generate_ok t : ts_ok (generateNtpTimestamp t).
Proof. split; simpl; apply u32_range. Qed.

(** A fraction converted there and back loses less than a nanosecond. *)
Lemma fraction_back n :
  0 ≤ n < nanos → n - 1 ≤ Z.shiftr (Z.shiftl n 32 / nanos * nanos) 32 ≤ n.
Proof.
  intros Hn. rewrite Z.shiftl_mul_pow2, Z.shiftr_div_pow2 by lia. unfold nanos in *.
  pose proof (Z.div_mod (n * 2 ^ 32) 1000000000). pose proof (Z.mod_pos_bound (n * 2 ^ 32) 1000000000).
  split; [apply Z.div_le_lower_bound; lia|]. apply Z.lt_succ_r, Z.div_lt_upper_bound; lia.
Qed.

(** The instant a timestamp stands for: the same instant of the first NTP era,
    at most a nanosecond earlier. *)
Lemma wire_generate t :
  - 2 ^ 63 ≤ time_unix t + NtpUnixOffset < 2 ^ 63 →
  let ts := generateNtpTimestamp t in
  let era := (time_unix t + NtpUnixOffset) / 2 ^ 32 in
  t - era * 2 ^ 32 * nanos - 1 ≤ wireNTPTimestampToTime (ts_Seconds ts) (ts_Fraction ts) ≤ t - era * 2 ^ 32 * nanos.
Proof.
  intros Hu ts era. unfold wireNTPTimestampToTime. unfold ts. rewrite generate_fraction.
  pose proof (fraction_range t) as Hf.
  rewrite (u64_id (_ * 1000000000)) by (unfold nanos in *; lia).
  assert (0 ≤ time_nanosecond t < nanos) as Hn by (apply Z.mod_pos_bound; unfold nanos; lia).
  pose proof (fraction_back (time_nanosecond t) Hn) as Hb. fold nanos.
  set (back := Z.shiftr _ 32) in *. assert (0 ≤ back) by (apply Z.shiftr_nonneg; unfold nanos in *; lia).
  unfold nanos in Hn. rewrite (i64_id back) by lia.
  cbn [ts_Seconds generateNtpTimestamp]. rewrite (i64_id (time_unix t + _)) by lia.
  unfold u32. set (w := time_unix t + NtpUnixOffset) in *.
  pose proof (Z.mod_pos_bound w (2 ^ 32) ltac:(lia)) as Hm. rewrite (i64_id (w mod 2 ^ 32 - _)) by (unfold NtpUnixOffset; lia).
  pose proof (Z.div_mod w (2 ^ 32) ltac:(lia)) as Hw. fold era in Hw.
  assert (t = time_unix t * 1000000000 + time_nanosecond t) as Ht
    by (unfold time_unix, time_nanosecond; pose proof (Z.div_mod t 1000000000); lia).
  unfold nanos. subst w. nia.
Qed.

(** ** Error estimates *)

(** The sixteen-bit facts about error estimates are decided by evaluation. *)
Lemma forall_below (P : Z → bool) (n : Z) :
  forallb P (seqZ 0 n) = true → ∀ z, 0 ≤ z < n → P z = true.
Proof.
  intros Hall z Hz. rewrite forallb_forall in Hall. apply Hall, list_elem_of_In, elem_of_seqZ. lia.
Qed.

#[export] Instance ErrorEstimate_eq_dec : EqDecision ErrorEstimate.
Proof. solve_decision. Defined.

Definition estimate (sync : bool) (m s : Z) : ErrorEstimate :=
  {| ee_Sync := sync; ee_ClockFormat := ClockFormatNTP; ee_ZBit := false; ee_Scale := s; ee_Multiplier := m |}.

Definition estimate_check (sync : bool) (m s : Z) : bool :=
  let e := estimate sync m s in
  bool_decide (ErrorEstimateDecode (ErrorEstimate_Encode e) = e) &&
  (0 <=? ErrorEstimate_Encode e) && (ErrorEstimate_Encode e <? 2 ^ 16).

Definition wire_check (v : Z) : bool := ErrorEstimate_Encode (ErrorEstimateDecode v) =? Z.land v 0xBFFF.

Lemma estimate_checks sync : forallb (λ m, forallb (estimate_check sync m) (seqZ 0 64)) (seqZ 0 256) = true.
Proof. destruct sync; vm_cast_no_check (eq_refl true). Qed.

Lemma wire_checks : forallb (λ hi, forallb (λ lo, wire_check (hi * 256 + lo)) (seqZ 0 256)) (seqZ 0 256) = true.
Proof. vm_cast_no_check (eq_refl true). Qed.

Lemma estimate_there_and_back sync m s :
  0 ≤ m < 256 → 0 ≤ s < 64 →
  ErrorEstimateDecode (ErrorEstimate_Encode (estimate sync m s)) = estimate sync m s ∧
  u16_ok (ErrorEstimate_Encode (estimate sync m s)).
Proof.
  intros Hm Hs. pose proof (forall_below _ _ (estimate_checks sync) m Hm) as Hc.
  apply (forall_below _ _ Hc s) in Hs. unfold estimate_check in Hs.
  rewrite !andb_true_iff, bool_decide_eq_true, Z.leb_le, Z.ltb_lt in Hs. unfold u16_ok. tauto.
Qed.

Lemma estimate_back_and_there v : u16_ok v → ErrorEstimate_Encode (ErrorEstimateDecode v) = Z.land v 0xBFFF.
Proof.
  intros Hv. apply Z.eqb_eq. change (wire_check v = true). rewrite <-(join16 v Hv).
  pose proof (forall_below _ _ wire_checks (byte_at v 8) (byte_at_range v 8)) as Hc.
  exact (forall_below _ _ Hc (byte_at v 0) (byte_at_range v 0)).
Qed.

(** ** Sessions *)

(** A configuration the sender and the reflector accept. *)
Definition config_ok (c : Config) : Prop :=
  let e := cfg_ErrorEstimate c in
  ec_ClockFormat e = ClockFormatNTP ∧ 0 ≤ ec_Scale e < 64 ∧ 0 ≤ ec_Multiplier e < 256.

(** The error estimate such a configuration announces. *)
Definition config_estimate (c : Config) : Z :=
  let e := cfg_ErrorEstimate c in
  ErrorEstimate_Encode {| ee_Sync := ec_Synchronized e; ee_ClockFormat := ec_ClockFormat e; ee_ZBit := false;
                          ee_Scale := ec_Scale e; ee_Multiplier := ec_Multiplier e |}.

Lemma config_estimate_ok c : config_ok c → u16_ok (config_estimate c).
Proof. intros (Hf & Hs & Hm). unfold config_estimate. rewrite Hf. by apply (estimate_there_and_back (ec_Synchronized _) (ec_Multiplier _) (ec_Scale _)). Qed.

Lemma NewTimestamp_ok c now :
  config_ok c → NewTimestamp (ec_ClockFormat (cfg_ErrorEstimate c)) now = Ok (generateNtpTimestamp now).
Proof. intros (Hf & _). unfold NewTimestamp. by rewrite Hf. Qed.

Lemma NewErrorEstimate_ok c :
  config_ok c → let e := cfg_ErrorEstimate c in
  ∃ est, NewErrorEstimate (ec_Synchronized e) (ec_ClockFormat e) (ec_Scale e) (ec_Multiplier e) = Ok est ∧
    ErrorEstimate_Encode est = config_estimate c.
Proof.
  intros (_ & Hs & _) e. unfold NewErrorEstimate. rewrite Z.gtb_ltb, (proj2 (Z.ltb_ge 63 _)) by (unfold e; lia).
  eexists. split; reflexivity.
Qed.

(** The packet a sender writes next. *)
Definition next_packet (s : Sender) (now : Time) : SenderPacket :=
  {| sp_SequenceNumber := snd_seq s; sp_Timestamp := generateNtpTimestamp now;
     sp_ErrorEstimate := config_estimate (snd_Config s); sp_SSID := 0; sp_SRExtensions := snd_srExtensions s |}.

Lemma encodeNext_eq s now :
  config_ok (snd_Config s) → encodeNext s now = SenderPacket_Encode (next_packet s now) None.
Proof.
  intros Hc. unfold encodeNext. rewrite NewTimestamp_ok by done.
  destruct (NewErrorEstimate_ok _ Hc) as (est & -> & He). cbn [mbind result_bind]. by rewrite He.
Qed.

(** What the reflector sends back for a packet it accepts. *)
Definition reflection (r : Reflector) (rx tx : Time) (p : SenderPacket) : ReflectorPacket :=
  {| rf_SequenceNumber := rfl_seq r; rf_Timestamp := generateNtpTimestamp tx;
     rf_ErrorEstimate := config_estimate (rfl_Config r);
     rf_ReceiveTimestamp := generateNtpTimestamp rx;
     rf_SenderSequenceNumber := sp_SequenceNumber p; rf_SenderTimestamp := sp_Timestamp p;
     rf_SenderErrorEstimate := sp_ErrorEstimate p; rf_SenderTTL := 1; rf_SSID := sp_SSID p;
     rf_SRExtensions := sp_SRExtensions p |}.

Lemma reflect_eq r d p :
  config_ok (rfl_Config r) → DecodeSenderPacket None (take rx_buffer (dg_bytes d)) = Ok p →
  reflect r d = Ok (p, reflection r (dg_rx d) (dg_tx d) p).
Proof.
  intros Hc Hd. unfold reflect. rewrite !NewTimestamp_ok by done. cbn [mbind result_bind].
  destruct (Nat.ltb_spec (length (take rx_buffer (dg_bytes d))) 44) as [Hl|Hl].
  { unfold DecodeSenderPacket in Hd. destruct (Nat.ltb_spec (length (take rx_buffer (dg_bytes d))) 44); [done|lia]. }
  rewrite Hd. destruct (NewErrorEstimate_ok _ Hc) as (est & -> & He). cbn [mbind result_bind]. unfold reflection. by rewrite He.
Qed.

Lemma reflection_ok r rx tx p :
  config_ok (rfl_Config r) → u32_ok (rfl_seq r) → sender_ok p → reflector_ok (reflection r rx tx p).
Proof.
  intros Hc Hr (H1 & H2 & H3 & H4 & H5). unfold reflector_ok, reflection. simpl.
  pose proof (config_estimate_ok _ Hc). pose proof (generate_ok rx). pose proof (generate_ok tx).
  split_and!; try done; unfold is_byte; lia.
Qed.

Definition next_reflector (r : Reflector) : Reflector :=
  {| rfl_Config := rfl_Config r; rfl_seq := u32 (rfl_seq r + 1) |}.

(** A round on a packet the reflector accepts. *)
Lemma serve_step_accepts hasChan r d p :
  config_ok (rfl_Config r) → u32_ok (rfl_seq r) → sender_ok p → dg_write_ok d = true →
  DecodeSenderPacket None (take rx_buffer (dg_bytes d)) = Ok p →
  let q := reflection r (dg_rx d) (dg_tx d) p in
  ∃ bytes, ReflectorPacket_Encode q None = Ok bytes ∧ DecodeReflectorPacket None bytes = Ok (norm_reflector q) ∧
    length bytes = (44 + length (opt_ext_val (sp_SRExtensions p)))%nat ∧
    serve_step hasChan r d =
      (next_reflector r,
       {| so_control := on_chan hasChan (ProbeSender p) ++ on_chan hasChan (ProbeReflector q);
          so_written := (if requestsReply p then [(dg_addr d, bytes)] else []); so_errors := [] |}).
Proof.
  intros Hc Hr Hp Hw Hd q.
  destruct (ReflectorPacket_codec q) as (bytes & He & Hdec & Hl); [by apply reflection_ok|].
  exists bytes. split_and!; [done..|]. unfold serve_step. rewrite (reflect_eq r d p) by done.
  fold q. rewrite He, Hw. by destruct (requestsReply p).
Qed.

Lemma norm_ext_val x : opt_ext_val (norm_ext x) = opt_ext_val x.
Proof. by destruct x as [[[p|] [c|]]|]. Qed.

Lemma norm_ext_ok x : opt_ext_ok x → opt_ext_ok (norm_ext x).
Proof. by destruct x as [[[p|] [c|]]|]. Qed.

Lemma norm_sender_ok p : sender_ok p → sender_ok (norm_sender p).
Proof. intros (? & ? & ? & ? & ?). unfold sender_ok. simpl. split_and!; try done. by apply norm_ext_ok. Qed.

Lemma requestsReply_norm p : requestsReply (norm_sender p) = requestsReply p.
Proof. by destruct p as [? ? ? ? [[[[[cc|]]|] [c|]]|]]. Qed.

(** ** Properties *)

(** C21: the packet decoders are safe on every input.  Whatever bytes arrive,
    of any length and with any declared TLV lengths, no read leaves the buffer
    and the TLV loops end; a packet is accepted only if it has its 44 octets. *)
Theorem decoders_never_panic b :
  match DecodeSenderPacket None b with Ok _ => (44 ≤ length b)%nat | Err e => defect e = false end ∧
  match DecodeReflectorPacket None b with Ok _ => (44 ≤ length b)%nat | Err e => defect e = false end.
Proof.
  destruct (decide (44 ≤ length b)%nat) as [Hl|Hl].
  2: { unfold DecodeSenderPacket, DecodeReflectorPacket. by destruct (Nat.ltb_spec (length b) 44); [|lia]. }
  rewrite DecodeSenderPacket_eq, DecodeReflectorPacket_eq by done.
  split; read_fields; destruct (decodeSRExtensions (drop 44 b)) as [x|e] eqn:Hx; simpl; try done;
    by apply decodeSRExtensions_safe in Hx.
Qed.

(** C22: encoding and decoding are inverse.  A sender or reflector packet whose
    fields fit their widths and whose telemetry key, if any, is valid UTF-8 of
    at most 65531 octets is encoded, and decodes to the same packet; only an
    extension block with no TLV in it is read back as no block. *)
Theorem packets_roundtrip p q :
  sender_ok p → reflector_ok q →
  (∃ b, SenderPacket_Encode p None = Ok b ∧ DecodeSenderPacket None b = Ok (norm_sender p)) ∧
  (∃ b, ReflectorPacket_Encode q None = Ok b ∧ DecodeReflectorPacket None b = Ok (norm_reflector q)).
Proof.
  intros Hp Hq. destruct (SenderPacket_codec p Hp) as (b & ? & ? & _).
  destruct (ReflectorPacket_codec q Hq) as (b' & ? & ? & _).
  split; eexists; (split; [eassumption|eassumption]).
Qed.

(** The reflector answers every packet it accepts.  For arbitrary received
    bytes that decode to a sender packet, the round raises no error, counts the
    packet, hands the packet and its reflection to the control channel, and
    writes a reply to the sender's address exactly when the return path asks
    for one (which it does by default).  The reply decodes to the sender's
    sequence number, timestamp, error estimate, SSID and extensions with the
    reflector's own counter and timestamps. *)
Theorem reflector_echoes hasChan r d p :
  config_ok (rfl_Config r) → u32_ok (rfl_seq r) → is_bytes (dg_bytes d) → dg_write_ok d = true →
  DecodeSenderPacket None (take rx_buffer (dg_bytes d)) = Ok p →
  ∃ out, serve_step hasChan r d = (next_reflector r, out) ∧ so_errors out = [] ∧
    so_control out = (if hasChan then [ProbeSender p; ProbeReflector (reflection r (dg_rx d) (dg_tx d) p)] else []) ∧
    if requestsReply p then
      ∃ bytes, so_written out = [(dg_addr d, bytes)] ∧
        DecodeReflectorPacket None bytes = Ok (norm_reflector (reflection r (dg_rx d) (dg_tx d) p))
    else so_written out = [].
Proof.
  intros Hc Hr Hb Hw Hd. pose proof (DecodeSenderPacket_ok _ _ (Forall_take _ _ _ Hb) Hd) as Hp.
  destruct (serve_step_accepts hasChan r d p Hc Hr Hp Hw Hd) as (bytes & _ & Hdec & _ & ->).
  eexists. split; [reflexivity|]. split; [done|]. split; [by destruct hasChan|].
  destruct (requestsReply p); [eauto|done].
Qed.

(** C23: a full exchange.  A sender and a reflector with accepted
    configurations, and a test packet that fits the receive buffer and asks for
    a reply: the reflector answers it, the sender accepts the answer, and the
    packet it returns carries the sequence number and send time of the test
    packet with the two instants of the reflector; both counters advance. *)
Theorem exchange s r addr t0 rx tx buf :
  config_ok (snd_Config s) → config_ok (rfl_Config r) → u32_ok (snd_seq s) → u32_ok (rfl_seq r) →
  snd_HMACKey s = None → opt_ext_ok (snd_srExtensions s) → requestsReply (next_packet s t0) = true →
  encodeNext s t0 = Ok buf → (length buf ≤ rx_buffer)%nat →
  ∃ reply pkt,
    serve_step false r {| dg_bytes := buf; dg_addr := addr; dg_rx := rx; dg_tx := tx; dg_write_ok := true |} =
      (next_reflector r, {| so_control := []; so_written := [(addr, reply)]; so_errors := [] |}) ∧
    Send s t0 true (Some reply) = (bump_seq s, [buf], Ok pkt) ∧
    rf_SenderSequenceNumber pkt = snd_seq s ∧ rf_SenderTimestamp pkt = generateNtpTimestamp t0 ∧
    rf_ReceiveTimestamp pkt = generateNtpTimestamp rx ∧ rf_Timestamp pkt = generateNtpTimestamp tx ∧
    rf_SequenceNumber pkt = rfl_seq r ∧ rf_SRExtensions pkt = norm_ext (snd_srExtensions s).
Proof.
  intros Hcs Hcr Hss Hrs Hkey Hx Hreq Henc Hlen. pose proof Henc as Henc'. rewrite encodeNext_eq in Henc' by done.
  assert (sender_ok (next_packet s t0)) as Hp
    by (unfold sender_ok; simpl; split_and!; try done; (apply generate_ok || by apply config_estimate_ok)).
  destruct (SenderPacket_codec _ Hp) as (b & Hb & Hdec & Hl). rewrite Hb in Henc'. injection Henc' as ->.
  set (d := {| dg_bytes := buf; dg_addr := addr; dg_rx := rx; dg_tx := tx; dg_write_ok := true |}).
  assert (DecodeSenderPacket None (take rx_buffer (dg_bytes d)) = Ok (norm_sender (next_packet s t0))) as Hd
    by (simpl dg_bytes; by rewrite take_ge by done).
  destruct (serve_step_accepts false r d _ Hcr Hrs (norm_sender_ok _ Hp) eq_refl Hd)
    as (reply & _ & Hrdec & Hrl & Hstep).
  exists reply, (norm_reflector (reflection r rx tx (norm_sender (next_packet s t0)))). split.
  { rewrite Hstep, requestsReply_norm, Hreq. done. }
  cbn [sp_SRExtensions norm_sender next_packet] in Hrl, Hl. rewrite norm_ext_val in Hrl.
  split_and!; [|reflexivity..|simpl; by destruct (snd_srExtensions s) as [[[?|] [?|]]|]].
  unfold Send. rewrite Hkey, Henc. simpl negb. cbv iota. rewrite take_ge by lia.
  destruct (Nat.ltb_spec (length reply) 44); [lia|]. rewrite Hrdec. reflexivity.
Qed.

(** Clock readings survive the wire.  A time converted to an NTP timestamp
    and back is the same instant, less than two nanoseconds early, moved by a
    whole number of NTP eras: by none for every instant from 1900 to 2036. *)
Theorem ntp_roundtrip t :
  - 2 ^ 63 ≤ time_unix t + NtpUnixOffset < 2 ^ 63 →
  ∃ ts t', FromTime ClockFormatNTP t = Ok ts ∧ ToTime ts ClockFormatNTP = Ok t' ∧
    let era := (time_unix t + NtpUnixOffset) / 2 ^ 32 in
    t - era * 2 ^ 32 * nanos - 1 ≤ t' ≤ t - era * 2 ^ 32 * nanos ∧
    (0 ≤ time_unix t + NtpUnixOffset < 2 ^ 32 → t - 1 ≤ t' ≤ t).
Proof.
  intros Hu. eexists _, _. split; [reflexivity|]. split; [reflexivity|].
  pose proof (wire_generate t Hu) as Hw. cbv zeta in *. split; [exact Hw|]. intros He.
  rewrite Z.div_small in Hw by lia. lia.
Qed.

(** Error estimates survive the wire.  An estimate the constructor accepts
    encodes to 16 bits and decodes to itself, and re-encoding any decoded field
    keeps every bit but the Z bit, which is always sent as 0. *)
Theorem error_estimate_roundtrip sync scale multiplier e v :
  0 ≤ scale < 256 → 0 ≤ multiplier < 256 → u16_ok v →
  NewErrorEstimate sync ClockFormatNTP scale multiplier = Ok e →
  u16_ok (ErrorEstimate_Encode e) ∧ ErrorEstimateDecode (ErrorEstimate_Encode e) = e ∧
  ErrorEstimate_Encode (ErrorEstimateDecode v) = Z.land v 0xBFFF.
Proof.
  intros Hs Hm Hv. unfold NewErrorEstimate. rewrite Z.gtb_ltb. destruct (Z.ltb_spec 63 scale); [done|].
  intros [= <-]. destruct (estimate_there_and_back sync multiplier scale) as [He Hr]; [lia..|].
  split_and!; [done|done|by apply estimate_back_and_there].
Qed.

(** ** Witnesses *)

Definition demo_ext : SRExtensions :=
  {| sx_ReturnPath := Some {| rp_ControlCode := Some {| cc_RequestReply := true |} |};
     sx_MaetoContainer := Some {| mc_TelemetryKey := Some {| tk_Key := "ams.fra" |} |} |}.
Definition demo_config : Config :=
  {| cfg_ErrorEstimate := {| ec_Scale := 3; ec_Multiplier := 100; ec_ClockFormat := ClockFormatNTP;
                             ec_Synchronized := true |} |}.
Definition demo_sender : Sender :=
  {| snd_HMACKey := None; snd_seq := 2 ^ 32 - 1; snd_timeout := Second; snd_Config := demo_config;
     snd_srExtensions := Some demo_ext |}.
Definition demo_reflector : Reflector := {| rfl_Config := demo_config; rfl_seq := 7 |}.
Definition demo_now : Time := 1750000000123456789.
Definition demo_packet : SenderPacket := next_packet demo_sender demo_now.
Definition demo_datagram : datagram :=
  {| dg_bytes := match encodeNext demo_sender demo_now with Ok b => b | Err _ => [] end;
     dg_addr := "[fd00::1]:862"; dg_rx := demo_now + 5000000; dg_tx := demo_now + 5001000; dg_write_ok := true |}.

Lemma demo_config_ok : config_ok demo_config.
Proof. unfold config_ok. simpl. split_and!; [done|lia..]. Qed.

Lemma demo_ext_ok : opt_ext_ok (Some demo_ext).
Proof. split; [reflexivity|vm_compute; congruence]. Qed.

Lemma demo_packet_ok : sender_ok demo_packet.
Proof.
  unfold sender_ok, ts_ok, u32_ok, u16_ok, demo_packet, next_packet. cbn [sp_SRExtensions snd_srExtensions demo_sender].
  split_and!; try (apply demo_ext_ok); vm_compute; congruence.
Qed.

Lemma packets_roundtrip_witness :
  ∃ b, SenderPacket_Encode demo_packet None = Ok b ∧ DecodeSenderPacket None b = Ok demo_packet ∧ length b = 71%nat.
Proof.
  destruct (packets_roundtrip demo_packet (reflection demo_reflector 0 0 demo_packet) demo_packet_ok) as [(b & He & Hd) _].
  { apply reflection_ok; [exact demo_config_ok|split; vm_compute; congruence|exact demo_packet_ok]. }
  exists b. split; [exact He|]. split; [exact Hd|]. revert He. vm_compute. intros [= <-]. reflexivity.
Defined.

Lemma reflector_echoes_witness :
  ∃ out bytes, serve_step true demo_reflector demo_datagram = (next_reflector demo_reflector, out) ∧
    so_written out = [("[fd00::1]:862"%string, bytes)].
Proof.
  destruct (reflector_echoes true demo_reflector demo_datagram demo_packet demo_config_ok) as (out & Hs & _ & _ & Hw).
  - split; vm_compute; congruence.
  - apply (proj2 (list.Forall_forall _ _)). intros z Hz.
    assert (bool_decide (Forall (λ z, bool_decide (0 ≤ z < 256) = true) (dg_bytes demo_datagram)) = true) as Hf
      by (vm_compute; reflexivity).
    apply bool_decide_eq_true in Hf. rewrite list.Forall_forall in Hf. specialize (Hf z Hz). by apply bool_decide_eq_true in Hf.
  - reflexivity.
  - vm_compute. reflexivity.
  - replace (requestsReply demo_packet) with true in Hw by reflexivity. destruct Hw as (bytes & Hw & _). eauto.
Defined.

Lemma exchange_witness :
  ∃ reply pkt, Send demo_sender demo_now true (Some reply) = (bump_seq demo_sender, [dg_bytes demo_datagram], Ok pkt) ∧
    rf_SenderSequenceNumber pkt = 2 ^ 32 - 1 ∧ snd_seq (bump_seq demo_sender) = 0.
Proof.
  destruct (exchange demo_sender demo_reflector "[fd00::1]:862" demo_now 0 0 (dg_bytes demo_datagram)
    demo_config_ok demo_config_ok) as (reply & pkt & _ & Hs & Hq & _).
  - split; vm_compute; congruence.
  - split; vm_compute; congruence.
  - reflexivity.
  - exact demo_ext_ok.
  - reflexivity.
  - vm_compute. reflexivity.
  - vm_compute. lia.
  - exists reply, pkt. split; [exact Hs|]. split; [exact Hq|reflexivity].
Defined.

Lemma ntp_roundtrip_witness :
  ∃ ts t', FromTime ClockFormatNTP demo_now = Ok ts ∧ ToTime ts ClockFormatNTP = Ok t' ∧
    demo_now - 1 ≤ t' ≤ demo_now.
Proof.
  destruct (ntp_roundtrip demo_now) as (ts & t' & Hf & Ht & _ & Hb); [vm_compute; split; congruence|].
  exists ts, t'. split; [exact Hf|]. split; [exact Ht|]. apply Hb. vm_compute. split; congruence.
Defined.

Lemma error_estimate_roundtrip_witness :
  ∃ e, NewErrorEstimate true ClockFormatNTP 3 100 = Ok e ∧ ErrorEstimateDecode (ErrorEstimate_Encode e) = e.
Proof.
  destruct (NewErrorEstimate true ClockFormatNTP 3 100) as [e|] eqn:He; [|discriminate].
  destruct (error_estimate_roundtrip true 3 100 e 0) as (_ & Hd & _); [lia|lia|split; vm_compute; congruence|exact He|].
  exists e. split; [reflexivity|exact Hd].
Defined.
