(* ===== verification/Resource.v ===== *)
(** The resources a node's dataplane holds (libs/dataplane/resource*.go), their
    identities, and their rendering from an intent and from the observed
    forwarding state (reconciler_render.go). *)

From S2P Require Import Prelude Netip Topology Sid Registry.

(** ** Resources *)

Inductive Kind := KindVRF | KindRule | KindXFRM | KindRoute | KindSID | KindSRRoute | KindClassification.

#[export] Instance Kind_eq_dec : EqDecision Kind.
Proof. solve_decision. Defined.

Definition kind_string (k : Kind) : string :=
  match k with
  | KindVRF => "vrf"
  | KindRule => "rule"
  | KindXFRM => "xfrm"
  | KindRoute => "route"
  | KindSID => "sid"
  | KindSRRoute => "sr_route"
  | KindClassification => "classification"
  end.

Record ID := { id_Kind : Kind; id_Key : string }.

Record VRF := { vrf_Name : string; vrf_TableID : Z; vrf_Index : Z }.
Record XFRM := { xfrm_Name : string; xfrm_IfID : Z; xfrm_Parent : string; xfrm_MasterVRF : string; xfrm_Index : Z }.
Record Route := { rt_Table : Z; rt_Dst : Prefix; rt_Dev : string; rt_Via : Addr; rt_Metric : Z }.
Record Rule := { ru_Priority : Z; ru_Src : option Prefix; ru_Table : Z; ru_Mark : Z; ru_Iif : string }.
Record SID := { sid_SIDType : string; sid_SID : Addr; sid_TableID : Z; sid_Metric : Z; sid_VrfTableID : Z }.
Record SRRoute := { sr_Prefix : Prefix; sr_Segments : list Addr; sr_Table : Z; sr_Color : Z }.
Record Classification := { cl_Classifier : Z; cl_Mark : Z }.

(** The [Resource] interface by its implementations. *)
Inductive Resource :=
  | RVRF (v : VRF)
  | RXFRM (x : XFRM)
  | RRoute (r : Route)
  | RRule (r : Rule)
  | RSID (s : SID)
  | RSRRoute (s : SRRoute)
  | RClassification (c : Classification).

(** [fmt.Sprintf] with the pieces already printed. *)
Definition cat (ss : list string) : string := foldr String.append ""%string ss.

(** [strings.Join] *)
Fixpoint join (sep : string) (l : list string) : string :=
  match l with
  | [] => ""
  | [a] => a
  | a :: l => cat [a; sep; join sep l]
  end.

Definition VRF_ID (v : VRF) : ID :=
  {| id_Kind := KindVRF; id_Key := cat [kind_string KindVRF; ":"; vrf_Name v] |}.

Definition XFRM_ID (x : XFRM) : ID :=
  {| id_Kind := KindXFRM; id_Key := cat [kind_string KindXFRM; ":"; xfrm_Name x; "."; dec (xfrm_IfID x)] |}.

Definition Route_ID (r : Route) : ID :=
  {| id_Kind := KindRoute;
     id_Key := cat [kind_string KindRoute; ":"; dec (rt_Table r); "."; prefix_string (rt_Dst r); "."; rt_Dev r] |}.

Definition Rule_ID (r : Rule) : ID :=
  let src := match ru_Src r with Some p => prefix_string p | None => ""%string end in
  {| id_Kind := KindRule;
     id_Key := cat [kind_string KindRule; ":"; dec (ru_Priority r); "."; src; "."; dec (ru_Table r); "."; dec (ru_Mark r)] |}.

Definition SID_ID (s : SID) : ID :=
  {| id_Kind := KindSID;
     id_Key := cat [kind_string KindSID; ":"; sid_SIDType s; "."; addr_string (sid_SID s); "."; dec (sid_VrfTableID s)] |}.

Definition SRRoute_ID (s : SRRoute) : ID :=
  let segmentStr := cat (addr_string <$> sr_Segments s) in
  {| id_Kind := KindSRRoute;
     id_Key := cat [kind_string KindSRRoute; ":"; dec (sr_Table s); "."; prefix_string (sr_Prefix s); "."; segmentStr] |}.

Definition Classification_ID (c : Classification) : ID :=
  {| id_Kind := KindClassification;
     id_Key := cat [kind_string KindClassification; ":"; dec (cl_Classifier c); "."; dec (cl_Mark c)] |}.

Definition resource_ID (r : Resource) : ID :=
  match r with
  | RVRF v => VRF_ID v
  | RXFRM x => XFRM_ID x
  | RRoute r => Route_ID r
  | RRule r => Rule_ID r
  | RSID s => SID_ID s
  | RSRRoute s => SRRoute_ID s
  | RClassification c => Classification_ID c
  end.

Definition rkey (r : Resource) : string := id_Key (resource_ID r).
Definition rkind (r : Resource) : Kind := id_Kind (resource_ID r).

Notation resources := (gmap string Resource).

(** [resources[x.ID().Key] = x] *)
Definition put (rs : resources) (r : Resource) : resources := <[rkey r := r]> rs.

(** ** Table numbers *)

Definition vrfTableBits : Z := 24.
Definition colorBits : Z := 8.

(** [fnv.New64a]: for each octet, xor then multiply, in 64 bits. *)
Definition fnv64a (s : string) : Z :=
  foldl (λ h c, u64 (Z.lxor h (Z.of_N (N_of_ascii c)) * 1099511628211)) 14695981039346656037
    (String.list_ascii_of_string s).

Definition StringToID (s : string) : Z :=
  let minVal := 300 in
  let span := Z.shiftl 1 vrfTableBits - minVal in
  u32 (minVal + fnv64a s mod span).

(** [int] is 64 bits wide. *)
Definition ColorTableID (vrfTable color : Z) : Z := Z.lor (i64 (Z.shiftl (i64 color) vrfTableBits)) vrfTable.

(** ** Rendering an intent *)

Definition CPETunnelTable : Z := 100.
Definition CPERulePriority : Z := 100.

Inductive render_error :=
  | NoSitePrefix
  | DSCPTooBig (dscp : Z)
  | NilDestination.

Definition IPv6Unspecified : Addr := Addr6 0.

Definition RenderCPEIntent (cpe : CPEIntent) : result render_error resources :=
  if cpe_TunnelInterfaceID cpe =? 0 then Ok ∅
  else if negb (prefix_is_valid (cpe_SitePrefix cpe)) then Err NoSitePrefix
  else
    let xfrmTunnelName := cat ["xfrm-tenant-"; cpe_TenantID cpe] in
    let rs := put ∅ (RXFRM {| xfrm_Name := xfrmTunnelName; xfrm_IfID := cpe_TunnelInterfaceID cpe; xfrm_Parent := "lo";
                              xfrm_MasterVRF := ""; xfrm_Index := 0 |}) in
    let rs := put rs (RRoute {| rt_Table := CPETunnelTable; rt_Dst := PrefixFrom IPv6Unspecified 0;
                                rt_Dev := xfrmTunnelName; rt_Via := AddrZero; rt_Metric := 0 |}) in
    Ok (put rs (RRule {| ru_Priority := CPERulePriority; ru_Src := Some (cpe_SitePrefix cpe);
                         ru_Table := CPETunnelTable; ru_Mark := 0; ru_Iif := "" |})).

Section render.
Context `{RangeOrder}.

Definition class_render (color : Z) (rs : resources) (dscp : Z) : result render_error resources :=
  if dscp >=? 255 then Err (DSCPTooBig dscp)
  else Ok (put rs (RClassification {| cl_Classifier := u32 dscp; cl_Mark := u32 color |})).

Definition classes_render (rs : resources) (t : PETrafficClassIntent) : result render_error resources :=
  foldM (class_render (tci_Color t)) rs (tci_DSCP t).

Definition vrf_name (tenantID : string) : string := cat ["maeto-vrf-"; tenantID].
Definition tun_name (tenantID : string) (ifid : Z) : string := cat ["maeto-tun-"; tenantID; "-"; dec ifid].

Definition portal_render (tenantID : string) (tableID : Z) (rs : resources) (p : PE_PortalIntent) : resources :=
  let xfrmName := tun_name tenantID (po_TunnelInterfaceID p) in
  let rs := put rs (RXFRM {| xfrm_Name := xfrmName; xfrm_IfID := po_TunnelInterfaceID p;
                             xfrm_Parent := po_HostFacingInterface p; xfrm_MasterVRF := vrf_name tenantID;
                             xfrm_Index := 0 |}) in
  put rs (RRoute {| rt_Table := tableID; rt_Dst := po_SitePrefix p; rt_Dev := xfrmName; rt_Via := AddrZero;
                    rt_Metric := 0 |}).

(** The state of the loop over a tenant's install paths: the resources, the
    table owners seen so far and the tenant's colors. *)
Record sr_state := { ss_resources : resources; ss_owner : gmap Z string; ss_colors : gset Z }.

(** Another tenant's route was rendered into the table before. *)
Definition table_collision (owner : gmap Z string) (routingTableID : Z) (pathTenantID : string) : bool :=
  match owner !! routingTableID with
  | Some tenantID => negb (tenantID =? pathTenantID)%string
  | None => false
  end.

Definition sr_prefix_render (tableID : Z) (path : PESIDInstallIntent) (s : sr_state) (prefix : Prefix) : sr_state :=
  let routingTableID := ColorTableID tableID (ii_Color path) in
  let colors := {[ii_Color path]} ∪ ss_colors s in
  if table_collision (ss_owner s) routingTableID (ii_TenantID path)
  then {| ss_resources := ss_resources s; ss_owner := ss_owner s; ss_colors := colors |}
  else {| ss_resources := put (ss_resources s)
            (RSRRoute {| sr_Prefix := prefix; sr_Segments := rev (ii_Segments path); sr_Color := ii_Color path;
                         sr_Table := routingTableID |});
          ss_owner := <[routingTableID := ii_TenantID path]> (ss_owner s);
          ss_colors := colors |}.

Definition sr_path_render (tableID : Z) (s : sr_state) (path : PESIDInstallIntent) : sr_state :=
  foldl (sr_prefix_render tableID path) s (ii_PrefixRoutes path).

Definition color_rule (tenantID : string) (color : Z) : Resource :=
  RRule {| ru_Priority := 80; ru_Src := None; ru_Table := ColorTableID (StringToID tenantID) color;
           ru_Mark := i64 color; ru_Iif := vrf_name tenantID |}.

Definition tenant_render (s : resources * gmap Z string) (kt : string * TenantIntent) : resources * gmap Z string :=
  let '(rs, owner) := s in
  let '(tenantID, t) := kt in
  let tableID := StringToID tenantID in
  let rs := put rs (RVRF {| vrf_Name := vrf_name tenantID; vrf_TableID := tableID; vrf_Index := 0 |}) in
  let rs := if addr_is_valid (ti_DT46SID t)
            then put rs (RSID {| sid_SIDType := EncapTypeDT46; sid_SID := ti_DT46SID t; sid_TableID := tableID;
                                 sid_Metric := 0; sid_VrfTableID := 0 |})
            else rs in
  let rs := foldl (portal_render tenantID tableID) rs (range_map (ti_PortalIntents t)).*2 in
  let s := foldl (sr_path_render tableID) {| ss_resources := rs; ss_owner := owner; ss_colors := ∅ |}
             (ti_InstallPaths t) in
  let colors := (range_map (set_to_map (λ c, (c, tt)) (ss_colors s) : gmap Z unit)).*1 in
  (foldl (λ rs color, put rs (color_rule tenantID color)) (ss_resources s) colors, ss_owner s).

Definition RenderPEIntent (pe : PEIntent) : result render_error resources :=
  rs ← foldM classes_render ∅ (pei_TrafficClassIntent pe);
  mret (foldl tenant_render (rs, ∅) (range_map (pei_Tenants pe))).1.
End render.

(** ** Rendering the observed state *)

(** What the dataplane reports, with the fields the rendering reads.  A
    destination is a nilable [*net.IPNet]: its address and prefix length. *)
Record IPNet := { ipn_IP : Addr; ipn_Ones : Z }.
Record DataplaneVRF := { dv_Name : string; dv_Index : Z; dv_TableID : Z }.
Record DataplaneXFRM := { dx_Name : string; dx_Index : Z; dx_IfID : Z; dx_ParentName : string; dx_MasterName : string }.
Record DataplaneRoute := { dr_Dev : string; dr_Dst : option IPNet; dr_Table : Z; dr_Via : Addr }.
Record DataplaneSRRoute := { ds_Dst : option IPNet; ds_Table : Z; ds_Color : Z; ds_Segments : list Addr }.
Record DataplaneSID := { di_Dst : option IPNet; di_VrfTableID : Z; di_EncapType : string }.
Record DataplaneRule := { du_Priority : Z; du_Src : option Prefix; du_Table : Z; du_Mark : Z; du_Iif : string }.
Record DataplaneClassification := { dc_Classifier : Z; dc_Mark : Z }.

Record fib := {
  fib_vrfs : list DataplaneVRF;
  fib_xfrms : list DataplaneXFRM;
  fib_routes : list DataplaneRoute;
  fib_sids : list DataplaneSID;
  fib_rules : list DataplaneRule;
  fib_srRoutes : list DataplaneSRRoute;
  fib_classifications : list DataplaneClassification;
}.

Definition of_classification (c : DataplaneClassification) : Resource :=
  RClassification {| cl_Classifier := dc_Classifier c; cl_Mark := dc_Mark c |}.
Definition of_vrf (l : DataplaneVRF) : Resource :=
  RVRF {| vrf_Name := dv_Name l; vrf_TableID := dv_TableID l; vrf_Index := dv_Index l |}.
Definition of_xfrm (l : DataplaneXFRM) : Resource :=
  RXFRM {| xfrm_Name := dx_Name l; xfrm_IfID := dx_IfID l; xfrm_Parent := dx_ParentName l;
           xfrm_MasterVRF := dx_MasterName l; xfrm_Index := dx_Index l |}.
Definition of_route (r : DataplaneRoute) (dst : IPNet) : Resource :=
  RRoute {| rt_Table := dr_Table r; rt_Dst := PrefixFrom (ipn_IP dst) (ipn_Ones dst); rt_Dev := dr_Dev r;
            rt_Via := dr_Via r; rt_Metric := 0 |}.
Definition of_rule (r : DataplaneRule) : Resource :=
  RRule {| ru_Priority := du_Priority r; ru_Src := du_Src r; ru_Table := du_Table r; ru_Mark := du_Mark r;
           ru_Iif := du_Iif r |}.
Definition of_sid (s : DataplaneSID) (dst : IPNet) : Resource :=
  RSID {| sid_SIDType := di_EncapType s; sid_SID := ipn_IP dst; sid_TableID := di_VrfTableID s; sid_Metric := 0;
          sid_VrfTableID := 0 |}.
Definition of_srRoute (r : DataplaneSRRoute) (dst : IPNet) : Resource :=
  RSRRoute {| sr_Prefix := PrefixFrom (ipn_IP dst) (ipn_Ones dst); sr_Segments := ds_Segments r;
              sr_Color := u64 (ds_Color r); sr_Table := ds_Table r |}.

(** Reading [r.Dst.IP] of a nil destination is a nil dereference. *)
Definition with_dst {A} (dst : A → option IPNet) (f : A → IPNet → Resource) (a : A) : result render_error Resource :=
  match dst a with Some d => Ok (f a d) | None => Err NilDestination end.

Definition put_all {A} (f : A → result render_error Resource) (rs : resources) (l : list A) :
    result render_error resources :=
  foldM (λ rs a, r ← f a; mret (put rs r)) rs l.

Definition RenderFIB (f : fib) : result render_error resources :=
  rs ← put_all (λ c, Ok (of_classification c)) ∅ (fib_classifications f);
  rs ← put_all (λ l, Ok (of_vrf l)) rs (fib_vrfs f);
  rs ← put_all (λ l, Ok (of_xfrm l)) rs (fib_xfrms f);
  rs ← put_all (with_dst dr_Dst of_route) rs (fib_routes f);
  rs ← put_all (λ r, Ok (of_rule r)) rs (fib_rules f);
  rs ← put_all (with_dst di_Dst of_sid) rs (fib_sids f);
  put_all (with_dst ds_Dst of_srRoute) rs (fib_srRoutes f).
