(* ===== verification/Reconcile.v ===== *)
(** The reconciler (libs/dataplane/reconciler*.go, state.go): it compares the
    resources an intent asks for with those the dataplane holds, applies the
    difference and repeats, and reports the outcome. *)

From S2P Require Import Prelude Netip Topology Sid Registry Resource.

(** ** The dataplane interface *)

(** The mutating calls of the [Dataplane] interface that the reconciler makes. *)
Inductive dp_op :=
  | EnsureClassificationBase
  | UpsertVRF (tableName : string) (tableID : Z)
  | RemoveVRF (linkIndex : Z)
  | InsertXFRMInterface (name underlay : string) (ifID : Z) (masterVRF : option string)
  | RemoveXFRMInterface (linkIndex : Z)
  | UpsertRule (priority : Z) (src : option Prefix) (tableID mark : Z) (iif : string)
  | RemoveRule (priority : Z) (src : option Prefix) (tableID mark : Z) (iif : string)
  | InsertPrefixRoute (dev : string) (tableID : Z) (prefix : Prefix) (via : Addr)
  | RemovePrefixRoute (prefix : Prefix) (tableID : Z)
  | InsertSRRouteForPrefix (prefix : Prefix) (tableID : Z) (segments : list Addr)
  | RemoveSRRouteForPrefix (prefix : Prefix) (tableID : Z)
  | UpsertDT46SID (sid : Addr) (vrfTableID : Z)
  | RemoveSID (sid : Addr)
  | InsertClassification (classifier mark : Z)
  | RemoveClassification (classifier : Z).

Inductive DataplaneLink := LinkVRF (l : DataplaneVRF) | LinkXFRM (l : DataplaneXFRM).

Notation dp_error := string (only parsing).

(** A dataplane: its reads, and the effect and outcome of a mutating call. *)
Class Dataplane (D : Type) := {
  GetLinksByType : D → string → result dp_error (list DataplaneLink);
  GetPrefixRoutes : D → result dp_error (list DataplaneRoute);
  GetRules : D → result dp_error (list DataplaneRule);
  GetSIDs : D → result dp_error (list DataplaneSID);
  GetSRRoutes : D → result dp_error (list DataplaneSRRoute);
  GetClassifications : D → result dp_error (list DataplaneClassification);
  dp_do : D → dp_op → D * option dp_error;
}.

(** ** Planning *)

Inductive rec_error :=
  | WrongNodeType
  | StaleIntent
  | DataplaneFailure (e : string)
  | UnexpectedLink
  | FIBRenderFailed (e : render_error)
  | RenderFailed (e : render_error)
  | NotConverged.

Record Reconciler := {
  rc_nodeType : NodeType;
  rc_current : option NodeIntent;
  rc_lastCurrent : option resources;
  rc_lastDesired : option resources;
}.

Definition NewReconciler (nodeType : NodeType) : Reconciler :=
  {| rc_nodeType := nodeType; rc_current := None; rc_lastCurrent := None; rc_lastDesired := None |}.

#[export] Instance NodeType_eq_dec : EqDecision NodeType.
Proof. solve_decision. Defined.

(** Older than the intent the node last converged on. *)
Definition stale (r : Reconciler) (desired : NodeIntent) : bool :=
  match rc_current r with
  | Some c => (ni_Version desired <? ni_Version c) ||
              ((ni_Version desired =? ni_Version c) && (ni_Generation desired <? ni_Generation c))
  | None => false
  end.

Definition read {A} (x : result dp_error A) : result rec_error A :=
  match x with Ok a => Ok a | Err e => Err (DataplaneFailure e) end.

Definition as_vrf (acc : list DataplaneVRF) (l : DataplaneLink) : result rec_error (list DataplaneVRF) :=
  match l with LinkVRF v => Ok (acc ++ [v]) | _ => Err UnexpectedLink end.
Definition as_xfrm (acc : list DataplaneXFRM) (l : DataplaneLink) : result rec_error (list DataplaneXFRM) :=
  match l with LinkXFRM x => Ok (acc ++ [x]) | _ => Err UnexpectedLink end.

Definition DiffResult : Type := list Resource * list Resource.
Definition d_Remove (d : DiffResult) : list Resource := d.1.
Definition d_Add (d : DiffResult) : list Resource := d.2.

Section reconciler.
Context `{RangeOrder} {D : Type} `{Dataplane D}.

Definition observe (d : D) : result rec_error fib :=
  rVrfs ← read (GetLinksByType d "vrf");
  vrfLinks ← foldM as_vrf [] rVrfs;
  rXfrms ← read (GetLinksByType d "xfrm");
  xfrmLinks ← foldM as_xfrm [] rXfrms;
  routes ← read (GetPrefixRoutes d);
  rules ← read (GetRules d);
  sids ← read (GetSIDs d);
  srRoutes ← read (GetSRRoutes d);
  classifications ← read (GetClassifications d);
  mret {| fib_vrfs := vrfLinks; fib_xfrms := xfrmLinks; fib_routes := routes; fib_sids := sids; fib_rules := rules;
          fib_srRoutes := srRoutes; fib_classifications := classifications |}.

Definition render_intent (i : Intent) : result render_error resources :=
  match i with
  | IntentCPE i => RenderCPEIntent i
  | IntentPE i => RenderPEIntent i
  end.

Definition Plan (r : Reconciler) (d : D) (desired : NodeIntent) : result rec_error (resources * resources) :=
  if negb (bool_decide (ni_NodeType desired = rc_nodeType r)) then Err WrongNodeType
  else if stale r desired then Err StaleIntent
  else
    f ← observe d;
    match RenderFIB f with
    | Err e => Err (FIBRenderFailed e)
    | Ok currentResources =>
        match render_intent (ni_Intent desired) with
        | Err e => Err (RenderFailed e)
        | Ok desiredResources => Ok (currentResources, desiredResources)
        end
    end.

(** ** Difference *)

Definition keyDifference {A B} (map1 : gmap string A) (map2 : gmap string B) : list string :=
  filter (λ k, map2 !! k = None) (range_map map1).*1.

Definition Diff (curr desired : resources) : DiffResult :=
  (omap (λ k, curr !! k) (keyDifference curr desired), omap (λ k, desired !! k) (keyDifference desired curr)).

(** ** Applying *)

Definition remove_op (r : Resource) : dp_op :=
  match r with
  | RRoute r => RemovePrefixRoute (rt_Dst r) (rt_Table r)
  | RXFRM x => RemoveXFRMInterface (xfrm_Index x)
  | RVRF v => RemoveVRF (vrf_Index v)
  | RRule r => RemoveRule (ru_Priority r) (ru_Src r) (ru_Table r) (ru_Mark r) (ru_Iif r)
  | RSID s => RemoveSID (sid_SID s)
  | RSRRoute s => RemoveSRRouteForPrefix (sr_Prefix s) (sr_Table s)
  | RClassification c => RemoveClassification (cl_Classifier c)
  end.

Definition add_op (r : Resource) : dp_op :=
  match r with
  | RVRF v => UpsertVRF (vrf_Name v) (vrf_TableID v)
  | RXFRM x =>
      let mVRF := if (xfrm_MasterVRF x =? "")%string then None else Some (xfrm_MasterVRF x) in
      let parent := if (xfrm_Parent x =? "")%string then "lo"%string else xfrm_Parent x in
      InsertXFRMInterface (xfrm_Name x) parent (xfrm_IfID x) mVRF
  | RRoute r => InsertPrefixRoute (rt_Dev r) (rt_Table r) (rt_Dst r) (rt_Via r)
  | RSRRoute s => InsertSRRouteForPrefix (sr_Prefix s) (sr_Table s) (sr_Segments s)
  | RRule r => UpsertRule (ru_Priority r) (ru_Src r) (ru_Table r) (ru_Mark r) (ru_Iif r)
  | RSID s => UpsertDT46SID (sid_SID s) (sid_TableID s)
  | RClassification c => InsertClassification (cl_Classifier c) (cl_Mark c)
  end.

Definition remove_kinds : list Kind :=
  [KindClassification; KindRule; KindSRRoute; KindSID; KindRoute; KindXFRM; KindVRF].
Definition add_kinds : list Kind :=
  [KindVRF; KindXFRM; KindRoute; KindSID; KindSRRoute; KindRule; KindClassification].

(** The resources in the order of the two nested loops. *)
Definition by_kinds (kinds : list Kind) (rs : list Resource) : list Resource :=
  kinds ≫= λ kind, filter (λ r, rkind r = kind) rs.

(** A failed call is logged and the loops go on. *)
Definition run_op (d : D) (op : dp_op) : D := (dp_do d op).1.

Definition apply_ops (diff : DiffResult) : list dp_op :=
  (remove_op <$> by_kinds remove_kinds (d_Remove diff)) ++ (add_op <$> by_kinds add_kinds (d_Add diff)).

Definition Apply (d : D) (diff : DiffResult) : D * result rec_error unit :=
  match dp_do d EnsureClassificationBase with
  | (d, Some e) => (d, Err (DataplaneFailure e))
  | (d, None) => (foldl run_op d (apply_ops diff), Ok tt)
  end.

(** ** The loop *)

(** What the deferred report sees of a run. *)
Record run_outcome := {
  oc_current : option resources;
  oc_desired : option resources;
  oc_diff : DiffResult;
  oc_converged : bool;
  oc_passes : nat;
  oc_err : option rec_error;
}.

Definition maxPasses : nat := 3.

Fixpoint reconcile_loop (passes_left : nat) (pass : nat) (r : Reconciler) (d : D) (ni : NodeIntent) (oc : run_outcome) :
    D * run_outcome :=
  match passes_left with
  | O => (d, {| oc_current := oc_current oc; oc_desired := oc_desired oc; oc_diff := oc_diff oc;
                oc_converged := false; oc_passes := oc_passes oc; oc_err := Some NotConverged |})
  | S passes_left =>
      match Plan r d ni with
      | Err e => (d, {| oc_current := None; oc_desired := None; oc_diff := oc_diff oc; oc_converged := false;
                        oc_passes := S pass; oc_err := Some e |})
      | Ok (current, desired) =>
          let diff := Diff current desired in
          let seen := {| oc_current := Some current; oc_desired := Some desired; oc_diff := diff; oc_converged := false;
                         oc_passes := S pass; oc_err := None |} in
          match d_Add diff, d_Remove diff with
          | [], [] => (d, {| oc_current := Some current; oc_desired := Some desired; oc_diff := diff;
                             oc_converged := true; oc_passes := S pass; oc_err := None |})
          | _, _ =>
              match Apply d diff with
              | (d, Err e) => (d, {| oc_current := Some current; oc_desired := Some desired; oc_diff := diff;
                                     oc_converged := false; oc_passes := S pass; oc_err := Some e |})
              | (d, Ok _) => reconcile_loop passes_left (S pass) r d ni seen
              end
          end
      end
  end.

Definition outcome_start : run_outcome :=
  {| oc_current := None; oc_desired := None; oc_diff := ([], []); oc_converged := false; oc_passes := 0%nat; oc_err := None |}.

(** ** Reporting *)

Record ResourceState := { rs_Kind : Kind; rs_Key : string; rs_Spec : Resource }.

Record NodeState := {
  ns_NodeID : string;
  ns_NodeType : NodeType;
  ns_ReportedAt : Time;
  ns_Generation : Z;
  ns_Observed : bool;
  ns_Converged : bool;
  ns_Passes : nat;
  ns_Error : option rec_error;
  ns_Current : list ResourceState;
  ns_Desired : list ResourceState;
  ns_Add : list ResourceState;
  ns_Remove : list ResourceState;
}.

Definition NewResourceState (res : Resource) : ResourceState :=
  {| rs_Kind := rkind res; rs_Key := rkey res; rs_Spec := res |}.

Definition resource_state_cmp (a b : ResourceState) : comparison :=
  cmp_or [String.compare (kind_string (rs_Kind a)) (kind_string (rs_Kind b)); String.compare (rs_Key a) (rs_Key b)].
Definition resource_state_le (a b : ResourceState) : Prop := resource_state_cmp a b ≠ Gt.
#[export] Instance resource_state_le_dec : RelDecision resource_state_le.
Proof. unfold RelDecision, resource_state_le. intros. apply _. Defined.

Definition ResourceStates (rs : list Resource) : list ResourceState :=
  merge_sort resource_state_le (NewResourceState <$> rs).

Definition ResourceStatesFromMap (rs : option resources) : list ResourceState :=
  ResourceStates (match rs with Some m => (range_map m).*2 | None => [] end).

Definition intentNodeID (ni : NodeIntent) : string :=
  match ni_Intent ni with IntentPE i => pei_NodeID i | IntentCPE i => cpe_PortalID i end.

(** [report]: the reconciler with the last observation, and the state handed to
    the reporter if one is set. *)
Definition report (r : Reconciler) (hasReporter : bool) (ni : NodeIntent) (oc : run_outcome) (now : Time) :
    Reconciler * option NodeState :=
  if negb hasReporter then (r, None)
  else
    let observed := match oc_current oc with Some _ => true | None => false end in
    let r := if observed
             then {| rc_nodeType := rc_nodeType r; rc_current := rc_current r; rc_lastCurrent := oc_current oc;
                     rc_lastDesired := oc_desired oc |}
             else r in
    (r, Some {|
      ns_NodeID := intentNodeID ni; ns_NodeType := rc_nodeType r; ns_ReportedAt := now;
      ns_Generation := ni_Generation ni; ns_Observed := observed; ns_Converged := oc_converged oc;
      ns_Passes := oc_passes oc; ns_Error := oc_err oc;
      ns_Current := ResourceStatesFromMap (rc_lastCurrent r); ns_Desired := ResourceStatesFromMap (rc_lastDesired r);
      ns_Add := ResourceStates (d_Add (oc_diff oc)); ns_Remove := ResourceStates (d_Remove (oc_diff oc)) |}).

(** The reconciler and the dataplane after a run, its outcome and its report. *)
Definition Reconcile (r : Reconciler) (d : D) (ni : NodeIntent) (hasReporter : bool) (now : Time) :
    Reconciler * D * run_outcome * option NodeState :=
  let '(d, oc) := reconcile_loop maxPasses 0 r d ni outcome_start in
  let r := if oc_converged oc
           then {| rc_nodeType := rc_nodeType r; rc_current := Some ni; rc_lastCurrent := rc_lastCurrent r;
                   rc_lastDesired := rc_lastDesired r |}
           else r in
  let '(r, st) := report r hasReporter ni oc now in
  (r, d, oc, st).

(** [Start]: the base chain first, then every intent of the feed in order; a
    failed run is logged. *)
Definition start_step (hasReporter : bool) (now : Time) (s : Reconciler * D) (ni : NodeIntent) : Reconciler * D :=
  let '(r, d, _, _) := Reconcile s.1 s.2 ni hasReporter now in (r, d).

Definition Start (r : Reconciler) (d : D) (hasReporter : bool) (now : Time) (feed : list NodeIntent) :
    result rec_error (Reconciler * D) :=
  match dp_do d EnsureClassificationBase with
  | (_, Some e) => Err (DataplaneFailure e)
  | (d, None) => Ok (foldl (start_step hasReporter now) (r, d) feed)
  end.
End reconciler.
