(* ===== verification/Contract.v ===== *)
(** What the reconciler relies on of a dataplane: an interface with laws.  The
    kernel's objects by identity, when the kernel accepts one, what a removal
    may take with it, and the queue of classification writes. *)

From S2P Require Import Prelude Netip Topology Sid Registry Resource Reconcile.

(** ** Kernel identities *)

(** What the kernel tells objects apart by: it holds at most one object per
    identity.  A resource's key says more (the device of a route, the segments
    of an encapsulation), so that a change of those is a removal and an
    addition under one identity. *)
Inductive Kid :=
  | KVrf (name : string)
  | KXfrm (name : string)
  | KRoute (table : Z) (dst : Prefix)
  | KRule (r : Rule)
  | KSid (sid : Addr)
  | KSRRoute (prefix : Prefix) (table : Z)
  | KClass (classifier : Z).

Definition rkid (r : Resource) : Kid :=
  match r with
  | RVRF v => KVrf (vrf_Name v)
  | RXFRM x => KXfrm (xfrm_Name x)
  | RRoute r => KRoute (rt_Table r) (rt_Dst r)
  | RRule r => KRule r
  | RSID s => KSid (sid_SID s)
  | RSRRoute s => KSRRoute (sr_Prefix s) (sr_Table s)
  | RClassification c => KClass (cl_Classifier c)
  end.

#[export] Instance Rule_eq_dec : EqDecision Rule.
Proof. solve_decision. Defined.
#[export] Instance Kid_eq_dec : EqDecision Kid.
Proof. solve_decision. Defined.

Notation view := (Kid → option Resource).

Definition upd (V : view) (k : Kid) (r : option Resource) : view := λ k', if decide (k' = k) then r else V k'.

Lemma upd_eq V k r : upd V k r k = r.
Proof. unfold upd. by rewrite decide_True. Qed.
Lemma upd_ne V k r k' : k' ≠ k → upd V k r k' = V k'.
Proof. intros. unfold upd. by rewrite decide_False. Qed.

Definition is_class (r : Resource) : bool := match r with RClassification _ => true | _ => false end.
Definition is_link (r : Resource) : bool := match r with RVRF _ | RXFRM _ => true | _ => false end.
(** The objects the kernel drops with the link they go out of. *)
Definition is_dependent (r : Resource) : bool := match r with RRoute _ | RSID _ => true | _ => false end.

(** [r'] is [r] as the kernel shows it: the fields that identify it and those
    other resources depend on agree. *)
Definition shows (r r' : Resource) : Prop :=
  rkey r' = rkey r ∧ rkid r' = rkid r ∧
  match r, r' with
  | RVRF v, RVRF v' => vrf_TableID v' = vrf_TableID v
  | RXFRM x, RXFRM x' => xfrm_MasterVRF x' = xfrm_MasterVRF x
  | RClassification c, RClassification c' => c' = c
  | _, _ => True
  end.

Lemma shows_refl r : shows r r.
Proof. by destruct r. Qed.

(** A prefix without host bits, which the kernel gives back as it was written. *)
Definition canonical (p : Prefix) : Prop :=
  PrefixFrom (pfx_addr p) (pfx_bits p) = p ∧
  match pfx_addr p with
  | AddrZero => False
  | Addr4 v => v mod 2 ^ (32 - pfx_bits p) = 0
  | Addr6 v => v mod 2 ^ (128 - pfx_bits p) = 0
  end.

(** When the kernel accepts a resource: what it refers to exists and it is
    something the dataplane can express. *)
Definition ready (V : view) (r : Resource) : Prop :=
  match r with
  | RVRF v => 0 ≤ vrf_TableID v < 2 ^ 32
  | RXFRM x => xfrm_MasterVRF x = ""%string ∨ is_Some (V (KVrf (xfrm_MasterVRF x)))
  | RRoute r => canonical (rt_Dst r) ∧
      (addr_is_valid (rt_Via r) = true ∨
       ∃ x, V (KXfrm (rt_Dev r)) = Some (RXFRM x) ∧
         ∀ k v, V k = Some (RVRF v) → vrf_TableID v = rt_Table r → xfrm_MasterVRF x = vrf_Name v)
  | RRule r => match ru_Src r with Some p => canonical p | None => True end
  | RSID s => sid_SIDType s = EncapTypeDT46 ∧ sid_VrfTableID s = 0 ∧
      ∃ k v, V k = Some (RVRF v) ∧ vrf_TableID v = sid_TableID s
  | RSRRoute s => canonical (sr_Prefix s) ∧ sr_Segments s ≠ [] ∧
      ∀ a, a ∈ sr_Segments s → ∃ v, a = Addr6 v
  | RClassification _ => True
  end.

(** ** The contract *)

(** A classification write waits in a queue until the base is ensured again. *)
Inductive class_op := ClassSet (c : Classification) | ClassDel (classifier : Z).

Definition class_play (V : view) (op : class_op) : view :=
  match op with
  | ClassSet c => upd V (KClass (cl_Classifier c)) (Some (RClassification c))
  | ClassDel k => upd V (KClass k) None
  end.

Definition play (q : list class_op) (V : view) : view := foldl class_play V q.

Lemma play_ext q (V V' : view) k : V k = V' k → play q V k = play q V' k.
Proof.
  unfold play. revert V V'. induction q as [|op q IH]; intros V V' Hk; [done|]. simpl. apply IH.
  destruct op as [c|c]; simpl; unfold upd; by destruct (decide _).
Qed.

(** The resources behind an observed state, in the order of the rendering. *)
Definition fib_resources (f : fib) : list (result render_error Resource) :=
  ((λ c, Ok (of_classification c)) <$> fib_classifications f) ++
  ((λ l, Ok (of_vrf l)) <$> fib_vrfs f) ++
  ((λ l, Ok (of_xfrm l)) <$> fib_xfrms f) ++
  (with_dst dr_Dst of_route <$> fib_routes f) ++
  ((λ r, Ok (of_rule r)) <$> fib_rules f) ++
  (with_dst di_Dst of_sid <$> fib_sids f) ++
  (with_dst ds_Dst of_srRoute <$> fib_srRoutes f).

(** How an entry [r0] may look after the removal of [r]: as before, gone with a
    removed link, or (an interface whose VRF was removed) without its master. *)
Definition after_removal (r r0 : Resource) (o : option Resource) : Prop :=
  match o with
  | Some r' => r' = r0 ∨
      (rkey r' = rkey r0 ∧ rkid r' = rkid r0 ∧
       ∃ v x, r = RVRF v ∧ r0 = RXFRM x ∧ xfrm_MasterVRF x = vrf_Name v ∧ xfrm_MasterVRF x ≠ ""%string)
  | None => is_link r = true ∧ is_dependent r0 = true
  end.

(** What the reconciler relies on: the reads show the kernel's objects; an
    accepted addition shows up under its identity and touches nothing else; a
    removal of a present object takes it away and otherwise only what
    [after_removal] allows; classification writes are queued, and ensuring the
    base plays the queue. *)
Class DataplaneContract (D : Type) `{Dataplane D} := {
  dp_ok : D → Prop;
  dp_view : D → view;
  dp_queue : D → list class_op;
  dp_view_kid : ∀ d k r, dp_ok d → dp_view d k = Some r → rkid r = k;
  dp_observe : ∀ d, dp_ok d → ∃ f rs, observe d = Ok f ∧ fib_resources f = Ok <$> rs ∧
    ∀ r, r ∈ rs ↔ dp_view d (rkid r) = Some r;
  dp_ensure : ∀ d, dp_ok d → ∃ d', dp_do d EnsureClassificationBase = (d', None) ∧ dp_ok d' ∧
    dp_queue d' = [] ∧ ∀ k, dp_view d' k = play (dp_queue d) (dp_view d) k;
  dp_add : ∀ d r, dp_ok d → is_class r = false → ready (dp_view d) r → dp_view d (rkid r) = None →
    let d' := run_op d (add_op r) in
    dp_ok d' ∧ dp_queue d' = dp_queue d ∧
    ∃ r', shows r r' ∧ ∀ k, dp_view d' k = upd (dp_view d) (rkid r) (Some r') k;
  dp_remove : ∀ d r, dp_ok d → is_class r = false → dp_view d (rkid r) = Some r →
    let d' := run_op d (remove_op r) in
    dp_ok d' ∧ dp_queue d' = dp_queue d ∧ dp_view d' (rkid r) = None ∧
    ∀ k, k ≠ rkid r → match dp_view d k with
                       | Some r0 => after_removal r r0 (dp_view d' k)
                       | None => dp_view d' k = None
                       end;
  dp_class_add : ∀ d c, dp_ok d →
    let d' := run_op d (add_op (RClassification c)) in
    dp_ok d' ∧ dp_queue d' = dp_queue d ++ [ClassSet c] ∧ ∀ k, dp_view d' k = dp_view d k;
  dp_class_remove : ∀ d c, dp_ok d →
    let d' := run_op d (remove_op (RClassification c)) in
    dp_ok d' ∧ dp_queue d' = dp_queue d ++ [ClassDel (cl_Classifier c)] ∧ ∀ k, dp_view d' k = dp_view d k;
}.
