(* ===== verification/MemDataplane.v ===== *)
(** A dataplane in memory that keeps the contract: the objects as a list with
    one entry per kernel identity, and the queue of classification writes.
    Links are numbered by their names, and removing an interface takes the
    routes over it with it, as the kernel does. *)

From S2P Require Import Prelude Netip Topology Sid Registry Resource Reconcile Contract.

Record mem := { m_objects : list Resource; m_queue : list class_op }.

Definition mem_empty : mem := {| m_objects := []; m_queue := [] |}.

(** The index of a link: some number that determines the name. *)
Definition link_index (name : string) : Z := Z.pos (encode name).

#[export] Instance link_index_inj : Inj (=) (=) link_index.
Proof. intros x y [= He]. by apply (inj encode). Qed.

(** An object in the form in which it is read back. *)
Definition held (r : Resource) : Prop :=
  match r with
  | RVRF v => vrf_Index v = link_index (vrf_Name v)
  | RXFRM x => xfrm_Index x = link_index (xfrm_Name x)
  | RRoute r => PrefixFrom (pfx_addr (rt_Dst r)) (pfx_bits (rt_Dst r)) = rt_Dst r ∧ rt_Metric r = 0
  | RSID s => sid_Metric s = 0 ∧ sid_VrfTableID s = 0
  | RSRRoute s => PrefixFrom (pfx_addr (sr_Prefix s)) (pfx_bits (sr_Prefix s)) = sr_Prefix s ∧ sr_Color s = 0
  | RRule _ | RClassification _ => True
  end.

(** ** Reads *)

Definition net_of (p : Prefix) : option IPNet := Some {| ipn_IP := pfx_addr p; ipn_Ones := pfx_bits p |}.

Definition mem_vrf (r : Resource) : option DataplaneVRF :=
  match r with
  | RVRF v => Some {| dv_Name := vrf_Name v; dv_Index := vrf_Index v; dv_TableID := vrf_TableID v |}
  | _ => None
  end.
Definition mem_xfrm (r : Resource) : option DataplaneXFRM :=
  match r with
  | RXFRM x => Some {| dx_Name := xfrm_Name x; dx_Index := xfrm_Index x; dx_IfID := xfrm_IfID x;
                       dx_ParentName := xfrm_Parent x; dx_MasterName := xfrm_MasterVRF x |}
  | _ => None
  end.
Definition mem_route (r : Resource) : option DataplaneRoute :=
  match r with
  | RRoute r => Some {| dr_Dev := rt_Dev r; dr_Dst := net_of (rt_Dst r); dr_Table := rt_Table r; dr_Via := rt_Via r |}
  | _ => None
  end.
Definition mem_rule (r : Resource) : option DataplaneRule :=
  match r with
  | RRule r => Some {| du_Priority := ru_Priority r; du_Src := ru_Src r; du_Table := ru_Table r;
                       du_Mark := ru_Mark r; du_Iif := ru_Iif r |}
  | _ => None
  end.
Definition mem_sid (r : Resource) : option DataplaneSID :=
  match r with
  | RSID s => Some {| di_Dst := Some {| ipn_IP := sid_SID s; ipn_Ones := 128 |}; di_VrfTableID := sid_TableID s;
                      di_EncapType := sid_SIDType s |}
  | _ => None
  end.
Definition mem_srRoute (r : Resource) : option DataplaneSRRoute :=
  match r with
  | RSRRoute s => Some {| ds_Dst := net_of (sr_Prefix s); ds_Table := sr_Table s; ds_Color := sr_Color s;
                          ds_Segments := sr_Segments s |}
  | _ => None
  end.
Definition mem_class (r : Resource) : option DataplaneClassification :=
  match r with
  | RClassification c => Some {| dc_Classifier := cl_Classifier c; dc_Mark := cl_Mark c |}
  | _ => None
  end.

Definition mem_links (d : mem) (type : string) : list DataplaneLink :=
  if (type =? "vrf")%string then LinkVRF <$> omap mem_vrf (m_objects d)
  else if (type =? "xfrm")%string then LinkXFRM <$> omap mem_xfrm (m_objects d)
  else [].

(** ** Writes *)

Definition hold (rs : list Resource) (r : Resource) : list Resource := r :: filter (λ r0, rkid r0 ≠ rkid r) rs.
Definition release (rs : list Resource) (k : Kid) : list Resource := filter (λ r0, rkid r0 ≠ k) rs.

(** The routes over the interface with an index go with it. *)
Definition over (index : Z) (r : Resource) : bool :=
  match r with RRoute r => link_index (rt_Dev r) =? index | _ => false end.
Definition has_index (is_vrf : bool) (index : Z) (r : Resource) : bool :=
  match r with
  | RVRF v => is_vrf && (vrf_Index v =? index)
  | RXFRM x => negb is_vrf && (xfrm_Index x =? index)
  | _ => false
  end.
Definition unlink (is_vrf : bool) (rs : list Resource) (index : Z) : list Resource :=
  filter (λ r, has_index is_vrf index r || over index r = false) rs.

Definition mem_flush (rs : list Resource) (op : class_op) : list Resource :=
  match op with
  | ClassSet c => hold rs (RClassification c)
  | ClassDel k => release rs (KClass k)
  end.

Definition mem_do (d : mem) (op : dp_op) : mem * option string :=
  let holds r := {| m_objects := hold (m_objects d) r; m_queue := m_queue d |} in
  let with_objects rs := {| m_objects := rs; m_queue := m_queue d |} in
  let queues op := {| m_objects := m_objects d; m_queue := m_queue d ++ [op] |} in
  (match op with
   | EnsureClassificationBase => {| m_objects := foldl mem_flush (m_objects d) (m_queue d); m_queue := [] |}
   | UpsertVRF name table => holds (RVRF {| vrf_Name := name; vrf_TableID := table; vrf_Index := link_index name |})
   | RemoveVRF index => with_objects (unlink true (m_objects d) index)
   | InsertXFRMInterface name underlay ifID master =>
       holds (RXFRM {| xfrm_Name := name; xfrm_IfID := ifID; xfrm_Parent := underlay;
                       xfrm_MasterVRF := default ""%string master; xfrm_Index := link_index name |})
   | RemoveXFRMInterface index => with_objects (unlink false (m_objects d) index)
   | UpsertRule p src t m iif =>
       holds (RRule {| ru_Priority := p; ru_Src := src; ru_Table := t; ru_Mark := m; ru_Iif := iif |})
   | RemoveRule p src t m iif =>
       with_objects (release (m_objects d) (KRule {| ru_Priority := p; ru_Src := src; ru_Table := t; ru_Mark := m; ru_Iif := iif |}))
   | InsertPrefixRoute dev t p via =>
       holds (RRoute {| rt_Table := t; rt_Dst := p; rt_Dev := dev; rt_Via := via; rt_Metric := 0 |})
   | RemovePrefixRoute p t => with_objects (release (m_objects d) (KRoute t p))
   | InsertSRRouteForPrefix p t segs =>
       holds (RSRRoute {| sr_Prefix := p; sr_Segments := segs; sr_Table := t; sr_Color := 0 |})
   | RemoveSRRouteForPrefix p t => with_objects (release (m_objects d) (KSRRoute p t))
   | UpsertDT46SID sid t =>
       holds (RSID {| sid_SIDType := EncapTypeDT46; sid_SID := sid; sid_TableID := t; sid_Metric := 0; sid_VrfTableID := 0 |})
   | RemoveSID sid => with_objects (release (m_objects d) (KSid sid))
   | InsertClassification c m => queues (ClassSet {| cl_Classifier := c; cl_Mark := m |})
   | RemoveClassification c => queues (ClassDel c)
   end, None).

#[export] Instance mem_dataplane : Dataplane mem := {
  GetLinksByType d t := Ok (mem_links d t);
  GetPrefixRoutes d := Ok (omap mem_route (m_objects d));
  GetRules d := Ok (omap mem_rule (m_objects d));
  GetSIDs d := Ok (omap mem_sid (m_objects d));
  GetSRRoutes d := Ok (omap mem_srRoute (m_objects d));
  GetClassifications d := Ok (omap mem_class (m_objects d));
  dp_do := mem_do;
}.

(** ** Its view *)

Record mem_ok (d : mem) : Prop := {
  mo_nodup : NoDup (rkid <$> m_objects d);
  mo_held : ∀ r, r ∈ m_objects d → held r;
}.

Definition objects_view (rs : list Resource) : view := λ k, head (filter (λ r, rkid r = k) rs).

Lemma objects_view_spec rs k r :
  NoDup (rkid <$> rs) → objects_view rs k = Some r ↔ r ∈ rs ∧ rkid r = k.
Proof.
  unfold objects_view. intros Hnd. induction rs as [|r0 rs IH]; simpl in *.
  { split; [done|]. by intros [?%not_elem_of_nil _]. }
  apply list.NoDup_cons in Hnd as [Hr0 Hnd]. rewrite filter_cons, elem_of_cons. case_decide as Hk; simpl.
  - split; [intros [= <-]; auto|]. intros [[->|Hr] Hrk]; [done|]. exfalso. apply Hr0. rewrite Hk, <-Hrk. by apply list_elem_of_fmap_2.
  - rewrite IH by done. naive_solver.
Qed.

Lemma objects_view_ext rs1 rs2 :
  NoDup (rkid <$> rs1) → NoDup (rkid <$> rs2) → (∀ r, r ∈ rs1 ↔ r ∈ rs2) → ∀ k, objects_view rs1 k = objects_view rs2 k.
Proof.
  intros H1 H2 He k. apply option_eq. intros r. rewrite !objects_view_spec by done. by rewrite He.
Qed.

Lemma NoDup_rkid_filter (P : Resource → Prop) `{∀ r, Decision (P r)} rs :
  NoDup (rkid <$> rs) → NoDup (rkid <$> filter P rs).
Proof.
  induction rs as [|r rs IH]; [done|]. simpl. intros [Hr Hnd]%list.NoDup_cons. rewrite filter_cons.
  case_decide; simpl; [|auto]. constructor; [|auto]. intros (r' & Hk & [_ Hr']%list_elem_of_filter)%list_elem_of_fmap.
  apply Hr. rewrite Hk. by apply list_elem_of_fmap_2.
Qed.

Lemma NoDup_hold rs r : NoDup (rkid <$> rs) → NoDup (rkid <$> hold rs r).
Proof.
  intros Hnd. unfold hold. simpl. constructor; [|by apply NoDup_rkid_filter].
  by intros (r' & Hk & [? _]%list_elem_of_filter)%list_elem_of_fmap.
Qed.

Lemma view_hold rs r k :
  NoDup (rkid <$> rs) → objects_view (hold rs r) k = upd (objects_view rs) (rkid r) (Some r) k.
Proof.
  intros Hnd. apply option_eq. intros r'. rewrite objects_view_spec by (by apply NoDup_hold).
  unfold upd, hold. rewrite elem_of_cons, list_elem_of_filter. case_decide as Hk.
  - subst k. naive_solver.
  - rewrite objects_view_spec by done. naive_solver.
Qed.

Lemma view_release rs k0 k :
  NoDup (rkid <$> rs) → objects_view (release rs k0) k = upd (objects_view rs) k0 None k.
Proof.
  intros Hnd. apply option_eq. intros r'. unfold release. rewrite objects_view_spec by (by apply NoDup_rkid_filter).
  unfold upd. rewrite list_elem_of_filter. case_decide as Hk; [naive_solver|].
  rewrite objects_view_spec by done. naive_solver.
Qed.

Lemma mem_flush_ok rs op :
  NoDup (rkid <$> rs) → (∀ r, r ∈ rs → held r) →
  NoDup (rkid <$> mem_flush rs op) ∧ (∀ r, r ∈ mem_flush rs op → held r) ∧
  ∀ k, objects_view (mem_flush rs op) k = class_play (objects_view rs) op k.
Proof.
  intros Hnd Hh. destruct op as [c|c]; cbn [mem_flush class_play].
  - split_and!; [by apply NoDup_hold| |intros k; by apply view_hold].
    intros r. unfold hold. rewrite elem_of_cons, list_elem_of_filter. intros [->|[_ ?]]; [done|auto].
  - split_and!; [by apply NoDup_rkid_filter| |intros k; by apply view_release].
    intros r. unfold release. rewrite list_elem_of_filter. intros [_ ?]. auto.
Qed.

Lemma mem_flushes_ok q rs :
  NoDup (rkid <$> rs) → (∀ r, r ∈ rs → held r) →
  NoDup (rkid <$> foldl mem_flush rs q) ∧ (∀ r, r ∈ foldl mem_flush rs q → held r) ∧
  ∀ k, objects_view (foldl mem_flush rs q) k = play q (objects_view rs) k.
Proof.
  revert rs. induction q as [|op q IH]; intros rs Hnd Hh; simpl; [done|].
  destruct (mem_flush_ok rs op Hnd Hh) as (Hnd1 & Hh1 & Hv1). destruct (IH _ Hnd1 Hh1) as (Hnd2 & Hh2 & Hv2).
  split_and!; [done..|]. intros k. rewrite Hv2. by apply play_ext.
Qed.

(** ** The contract *)

(** Reading the objects of one kind and rendering them gives them back. *)
Lemma read_back {A} (get : Resource → option A) (f : A → result render_error Resource) (rs : list Resource) :
  (∀ r a, r ∈ rs → get r = Some a → f a = Ok r) →
  f <$> omap get rs = Ok <$> filter (λ r, is_Some (get r)) rs.
Proof.
  induction rs as [|r rs IH]; intros Hf; simpl; [done|]. rewrite filter_cons.
  specialize (IH (λ r' a Hr', Hf r' a (list_elem_of_further _ _ _ Hr'))).
  destruct (get r) as [a|] eqn:Hg; simpl.
  - rewrite (Hf r a) by (done || by left). f_equal. exact IH.
  - exact IH.
Qed.

Lemma as_vrf_all ls acc : foldM as_vrf acc (LinkVRF <$> ls) = Ok (acc ++ ls).
Proof. revert acc. induction ls as [|l ls IH]; intros acc; simpl; [by rewrite app_nil_r|]. by rewrite IH, <-app_assoc. Qed.
Lemma as_xfrm_all ls acc : foldM as_xfrm acc (LinkXFRM <$> ls) = Ok (acc ++ ls).
Proof. revert acc. induction ls as [|l ls IH]; intros acc; simpl; [by rewrite app_nil_r|]. by rewrite IH, <-app_assoc. Qed.

Definition mem_fib (rs : list Resource) : fib :=
  {| fib_vrfs := omap mem_vrf rs; fib_xfrms := omap mem_xfrm rs; fib_routes := omap mem_route rs; fib_sids := omap mem_sid rs;
     fib_rules := omap mem_rule rs; fib_srRoutes := omap mem_srRoute rs; fib_classifications := omap mem_class rs |}.

Lemma mem_observe d : observe d = Ok (mem_fib (m_objects d)).
Proof.
  unfold observe. cbn [GetLinksByType GetPrefixRoutes GetRules GetSIDs GetSRRoutes GetClassifications mem_dataplane read
    mbind result_bind mem_links String.eqb Ascii.eqb Bool.eqb].
  rewrite as_vrf_all. cbn [mbind result_bind]. rewrite as_xfrm_all. done.
Qed.

Lemma mem_reads rs :
  (∀ r, r ∈ rs → held r) →
  ∃ rs', fib_resources (mem_fib rs) = Ok <$> rs' ∧ ∀ r, r ∈ rs' ↔ r ∈ rs.
Proof.
  intros Hh. eexists. split.
  - unfold fib_resources, mem_fib. cbn [fib_vrfs fib_xfrms fib_routes fib_sids fib_rules fib_srRoutes fib_classifications].
    do 7 (rewrite read_back; [|intros r a Hr; pose proof (Hh _ Hr) as Hhr; destruct r; simpl in *; intros; simplify_eq;
      unfold with_dst, of_route, of_sid, of_srRoute, of_vrf, of_xfrm, of_rule, of_classification; simpl;
      try destruct Hhr as [Hhr1 Hhr2]; try rewrite Hhr1; try (rewrite <-Hhr2); destruct_and?; repeat f_equal;
      match goal with r : _ |- _ => by destruct r; simplify_eq/= end]).
    rewrite <-!fmap_app. reflexivity.
  - intros r. rewrite !elem_of_app, !list_elem_of_filter. split; [naive_solver|].
    intros Hr. destruct r; naive_solver.
Qed.

Lemma mem_ok_hold d r :
  mem_ok d → held r →
  mem_ok {| m_objects := hold (m_objects d) r; m_queue := m_queue d |}.
Proof.
  intros [Hnd Hh] Hr. split; cbn [m_objects]; [by apply NoDup_hold|].
  intros r'. unfold hold. rewrite elem_of_cons, list_elem_of_filter. naive_solver.
Qed.

Lemma mem_ok_filter d (P : Resource → Prop) `{∀ r, Decision (P r)} :
  mem_ok d → mem_ok {| m_objects := filter P (m_objects d); m_queue := m_queue d |}.
Proof.
  intros [Hnd Hh]. split; cbn [m_objects]; [by apply NoDup_rkid_filter|].
  intros r'. rewrite list_elem_of_filter. naive_solver.
Qed.

(** The object an accepted addition leaves, which shows the resource. *)
Lemma mem_add_op d r :
  is_class r = false → ready (objects_view (m_objects d)) r →
  ∃ r', run_op d (add_op r) = {| m_objects := hold (m_objects d) r'; m_queue := m_queue d |} ∧ shows r r' ∧ held r'.
Proof.
  intros Hc Hr. destruct r as [v|x|r|r|s|s|c]; try done; eexists; (split; [reflexivity|]).
  - done.
  - repeat split; simpl. destruct (xfrm_MasterVRF x =? "")%string eqn:He; [|done].
    by apply String.eqb_eq in He as ->.
  - destruct Hr as [[Hp _] _]. by repeat split.
  - by destruct r; repeat split.
  - destruct Hr as (Ht & Hv & _). split; [|done]. unfold shows, rkey. simpl. by rewrite Ht, Hv.
  - destruct Hr as [[Hp _] _]. by repeat split.
Qed.

Lemma unlink_spec d is_vrf index r k :
  mem_ok d → r ∈ m_objects d → has_index is_vrf index r = true → rkid r ≠ k →
  let rs := unlink is_vrf (m_objects d) index in
  match objects_view (m_objects d) k with
  | Some r0 => objects_view rs k = Some r0 ∨ (objects_view rs k = None ∧ over index r0 = true)
  | None => objects_view rs k = None
  end.
Proof.
  intros [Hnd Hh] Hr Hi Hk rs. assert (NoDup (rkid <$> rs)) as Hnd' by (by apply NoDup_rkid_filter).
  assert (∀ r0, objects_view rs k = Some r0 ↔ objects_view (m_objects d) k = Some r0 ∧ has_index is_vrf index r0 || over index r0 = false) as Hv.
  { intros r0. rewrite !objects_view_spec by done. unfold rs, unlink. rewrite list_elem_of_filter. naive_solver. }
  destruct (objects_view (m_objects d) k) as [r0|] eqn:Hr0.
  2: { destruct (objects_view rs k) as [r0|] eqn:Hr1; [|done]. by destruct (proj1 (Hv r0) eq_refl). }
  apply objects_view_spec in Hr0 as [Hin Hk0]; [|done].
  assert (has_index is_vrf index r0 = false) as Hi0.
  { apply not_true_iff_false. intros Hi0. apply Hk. rewrite <-Hk0. pose proof (Hh _ Hr) as H1. pose proof (Hh _ Hin) as H2.
    destruct r as [v|x| | | | |], r0 as [v0|x0| | | | |], is_vrf; simplify_eq/=; f_equal; apply (inj link_index); lia. }
  destruct (over index r0) eqn:Ho.
  - right. split; [|done]. destruct (objects_view rs k) as [r1|] eqn:Hr1; [|done].
    destruct (proj1 (Hv r1) eq_refl) as [[= <-] Hr2]. by rewrite Ho, orb_true_r in Hr2.
  - left. apply Hv. by rewrite Hi0, Ho.
Qed.

Lemma unlink_gone d is_vrf index r :
  mem_ok d → r ∈ m_objects d → has_index is_vrf index r = true →
  objects_view (unlink is_vrf (m_objects d) index) (rkid r) = None.
Proof.
  intros [Hnd Hh] Hr Hi. destruct (objects_view _ _) as [r0|] eqn:Hr0; [|done]. exfalso.
  apply objects_view_spec in Hr0 as [Hr0 Hk]; [|by apply NoDup_rkid_filter].
  apply list_elem_of_filter in Hr0 as [Hi0 Hr0].
  assert (r0 = r) as ->; [|by rewrite Hi in Hi0].
  pose proof (proj2 (objects_view_spec _ (rkid r) r Hnd) (conj Hr eq_refl)).
  pose proof (proj2 (objects_view_spec _ (rkid r) r0 Hnd) (conj Hr0 Hk)). congruence.
Qed.

Definition removal_of (is_vrf : bool) (r : Resource) (index : Z) : Prop :=
  has_index is_vrf index r = true ∧ is_link r = true.

(** A removal releases an identity or unlinks. *)
Lemma mem_remove_op d r :
  is_class r = false → held r →
  run_op d (remove_op r) = {| m_objects := release (m_objects d) (rkid r); m_queue := m_queue d |} ∨
  ∃ is_vrf index, removal_of is_vrf r index ∧
    run_op d (remove_op r) = {| m_objects := unlink is_vrf (m_objects d) index; m_queue := m_queue d |}.
Proof.
  intros Hc Hh. destruct r as [v|x|r|r|s|s|c]; try done; try (by left).
  - right. exists true, (vrf_Index v). repeat split; simpl. by rewrite Z.eqb_refl.
  - right. exists false, (xfrm_Index x). repeat split; simpl. by rewrite Z.eqb_refl.
  - left. by destruct r.
Qed.

Lemma mem_dp_remove (d : mem) r :
  mem_ok d → is_class r = false → objects_view (m_objects d) (rkid r) = Some r →
  let d' := run_op d (remove_op r) in
  mem_ok d' ∧ m_queue d' = m_queue d ∧ objects_view (m_objects d') (rkid r) = None ∧
  ∀ k, k ≠ rkid r → match objects_view (m_objects d) k with
                     | Some r0 => after_removal r r0 (objects_view (m_objects d') k)
                     | None => objects_view (m_objects d') k = None
                     end.
Proof.
  intros Hok Hc Hv. pose proof (mo_nodup _ Hok) as Hnd. pose proof Hv as [Hr _]%objects_view_spec; [|done]. intros d'.
  destruct (mem_remove_op d r Hc (mo_held _ Hok _ Hr)) as [He|(is_vrf & index & [Hi Hl] & He)]; unfold d'; rewrite He.
  - split_and!; [by apply mem_ok_filter|done|..]; cbn [m_objects].
    + by rewrite view_release, upd_eq.
    + intros k Hk. rewrite view_release, upd_ne by done. destruct (objects_view (m_objects d) k); [by left|done].
  - split_and!; [by apply mem_ok_filter|done|by apply unlink_gone|]. intros k Hk. cbn [m_objects].
    pose proof (unlink_spec d is_vrf index r k Hok Hr Hi (not_eq_sym Hk)) as Hu. simpl in Hu.
    destruct (objects_view (m_objects d) k) as [r0|]; [|done].
    destruct Hu as [-> |[-> Ho]]; [by left|]. split; [done|]. by destruct r0.
Qed.

#[export] Instance mem_contract : DataplaneContract mem.
Proof.
  refine {| dp_ok := mem_ok; dp_view := λ d, objects_view (m_objects d); dp_queue := m_queue |}.
  - intros d k r [Hnd _] Hr. by apply objects_view_spec in Hr as [_ ?].
  - intros d [Hnd Hh]. destruct (mem_reads _ Hh) as (rs & Hrs & Hin).
    exists (mem_fib (m_objects d)), rs. split_and!; [apply mem_observe|done|].
    intros r. rewrite Hin, objects_view_spec by done. naive_solver.
  - intros d [Hnd Hh]. destruct (mem_flushes_ok (m_queue d) _ Hnd Hh) as (? & ? & ?). eexists. by split_and!.
  - intros d r Hok Hc Hr _ d'. destruct (mem_add_op d r Hc Hr) as (r' & He & Hsh & Hh). unfold d'. rewrite He.
    split_and!; [by apply mem_ok_hold|done|]. exists r'. split; [done|]. intros k. cbn [m_objects].
    rewrite view_hold by apply Hok. by rewrite (proj1 (proj2 Hsh)).
  - apply mem_dp_remove.
  - intros d c [Hnd Hh]. split_and!; [done| |done]. by destruct c.
  - intros d c [Hnd Hh]. done.
Defined.
