(* ===== verification/ReconcileCorrect.v ===== *)
(** Correctness of the reconciler of [Reconcile] against the contract of
    [Contract]: a run converges within its three passes, although
    classification writes are only flushed by the next pass and deleting a
    link may take routes with it; intents never go back in time. *)

From S2P Require Import Prelude Netip Topology Sid Registry Resource Reconcile Contract MemDataplane.

(** ** Rendering as a fold *)

Lemma put_all_ok {A} (f : A → result render_error Resource) m l rs :
  f <$> l = Ok <$> rs → put_all f m l = Ok (foldl put m rs).
Proof.
  unfold put_all. revert m rs. induction l as [|a l IH]; intros m [|r rs] Hl; [done|done|done|].
  cbn in Hl. injection Hl as Hf Hl. simpl. rewrite Hf. simpl. by apply IH.
Qed.

Lemma RenderFIB_ok f rs : fib_resources f = Ok <$> rs → RenderFIB f = Ok (foldl put ∅ rs).
Proof.
  unfold fib_resources, RenderFIB. intros Hf.
  repeat match goal with
  | H : _ ++ _ = _ <$> _ |- _ => symmetry in H; apply fmap_app_inv in H as (?rs & ?rs & ?Hl & H & ->)
  end.
  rewrite (put_all_ok _ _ _ _ Hl). cbn [mbind result_bind]. rewrite (put_all_ok _ _ _ _ Hl0). cbn [mbind result_bind].
  rewrite (put_all_ok _ _ _ _ Hl1). cbn [mbind result_bind]. rewrite (put_all_ok _ _ _ _ Hl2). cbn [mbind result_bind].
  rewrite (put_all_ok _ _ _ _ Hl3). cbn [mbind result_bind]. rewrite (put_all_ok _ _ _ _ Hl4). cbn [mbind result_bind].
  rewrite (put_all_ok _ _ _ _ Hf). by rewrite !foldl_app.
Qed.

Lemma puts_lookup rs m key r : foldl put m rs !! key = Some r → (r ∈ rs ∧ rkey r = key) ∨ m !! key = Some r.
Proof.
  revert m. induction rs as [|r0 rs IH]; intros m Hr; simpl in Hr; [by right|].
  destruct (IH _ Hr) as [[? ?]|Hm]; [left; split; [by right|done]|].
  unfold put in Hm. apply lookup_insert_Some in Hm as [[<- ->]|[_ ?]]; [left; split; [by left|done]|by right].
Qed.

Lemma puts_is_Some rs m key : is_Some (m !! key) ∨ (∃ r, r ∈ rs ∧ rkey r = key) → is_Some (foldl put m rs !! key).
Proof.
  revert m. induction rs as [|r0 rs IH]; intros m; simpl.
  - intros [?|(r & Hr%not_elem_of_nil & _)]; done.
  - intros Hor. apply IH. destruct (decide (rkey r0 = key)) as [<-|Hne].
    { left. unfold put. rewrite lookup_insert_eq. eauto. }
    destruct Hor as [Hm|(r & [->|Hr]%elem_of_cons & Hk)]; [|done|right; eauto].
    left. unfold put. by rewrite lookup_insert_ne.
Qed.

(** A map of resources by key that holds exactly the objects of a view. *)
Record keyed (V : view) (C : resources) : Prop := {
  ky_in : ∀ key r, C !! key = Some r → V (rkid r) = Some r ∧ rkey r = key;
  ky_all : ∀ k r, V k = Some r → is_Some (C !! rkey r);
}.

Lemma keyed_puts V rs :
  (∀ k r, V k = Some r → rkid r = k) → (∀ r, r ∈ rs ↔ V (rkid r) = Some r) → keyed V (foldl put ∅ rs).
Proof.
  intros Hkid Hrs. split.
  - intros key r [[Hr Hk]|He%lookup_empty_Some]%puts_lookup; [|done]. by rewrite <-Hrs.
  - intros k r Hr. apply puts_is_Some. right. exists r. split; [|done]. apply Hrs. by rewrite (Hkid _ _ Hr).
Qed.

(** ** The difference *)

Section diff.
Context `{RangeOrder}.

Lemma elem_of_keyDifference {A B} (m1 : gmap string A) (m2 : gmap string B) k :
  k ∈ keyDifference m1 m2 ↔ is_Some (m1 !! k) ∧ m2 !! k = None.
Proof.
  unfold keyDifference. rewrite list_elem_of_filter, list_elem_of_fmap. split.
  - intros [Hn ([k' a] & -> & Ha)]. apply elem_of_range_map in Ha. eauto.
  - intros [[a Ha] Hn]. split; [done|]. exists (k, a). split; [done|]. by apply elem_of_range_map.
Qed.

Lemma NoDup_keyDifference {A B} (m1 : gmap string A) (m2 : gmap string B) : NoDup (keyDifference m1 m2).
Proof. apply list.NoDup_filter, NoDup_range_map_fst. Qed.

(** The resources under a list of keys. *)
Lemma elem_of_at_keys (m : resources) (ks : list string) r :
  (∀ key r, m !! key = Some r → rkey r = key) →
  r ∈ omap (λ k, m !! k) ks ↔ rkey r ∈ ks ∧ m !! rkey r = Some r.
Proof.
  intros Hm. rewrite list_elem_of_omap. split.
  - intros (k & Hk & Hr). by rewrite (Hm _ _ Hr).
  - intros [? ?]. eauto.
Qed.

Lemma NoDup_at_keys (m : resources) (ks : list string) :
  (∀ key r, m !! key = Some r → rkey r = key) → NoDup ks → NoDup (rkey <$> omap (λ k, m !! k) ks).
Proof.
  intros Hm. induction 1 as [|k ks Hk Hnd IH]; simpl; [constructor|].
  destruct (m !! k) as [r|] eqn:Hr; [|done]. simpl. constructor; [|done].
  rewrite (Hm _ _ Hr), list_elem_of_fmap. intros (r' & Hkr & (k' & Hk' & Hr')%list_elem_of_omap).
  by rewrite (Hm _ _ Hr') in Hkr; subst.
Qed.

Lemma elem_of_Remove (C des : resources) r :
  (∀ key r, C !! key = Some r → rkey r = key) →
  r ∈ d_Remove (Diff C des) ↔ C !! rkey r = Some r ∧ des !! rkey r = None.
Proof. intros HC. unfold Diff, d_Remove. simpl. rewrite elem_of_at_keys, elem_of_keyDifference by done. naive_solver. Qed.

Lemma elem_of_Add (C des : resources) r :
  (∀ key r, des !! key = Some r → rkey r = key) →
  r ∈ d_Add (Diff C des) ↔ des !! rkey r = Some r ∧ C !! rkey r = None.
Proof. intros HC. unfold Diff, d_Add. simpl. rewrite elem_of_at_keys, elem_of_keyDifference by done. naive_solver. Qed.

Lemma NoDup_Remove (C des : resources) :
  (∀ key r, C !! key = Some r → rkey r = key) → NoDup (rkey <$> d_Remove (Diff C des)).
Proof. intros HC. apply NoDup_at_keys; [done|apply NoDup_keyDifference]. Qed.

Lemma NoDup_Add (C des : resources) :
  (∀ key r, des !! key = Some r → rkey r = key) → NoDup (rkey <$> d_Add (Diff C des)).
Proof. intros HC. apply NoDup_at_keys; [done|apply NoDup_keyDifference]. Qed.
End diff.

(** ** The order of a pass *)

Lemma elem_of_by_kinds kinds rs r : r ∈ by_kinds kinds rs ↔ r ∈ rs ∧ rkind r ∈ kinds.
Proof.
  unfold by_kinds. rewrite list_elem_of_bind. setoid_rewrite list_elem_of_filter. naive_solver.
Qed.

Lemma rkind_cases r ks : ks = remove_kinds ∨ ks = add_kinds → rkind r ∈ ks.
Proof. intros [-> | ->]; destruct r; unfold rkind, remove_kinds, add_kinds; simpl; set_solver. Qed.

(** The order of the kinds carries over to the resources. *)
Lemma by_kinds_sorted (R : Kind → Kind → Prop) kinds rs :
  (∀ k, R k k) → StronglySorted R kinds → StronglySorted (λ r1 r2, R (rkind r1) (rkind r2)) (by_kinds kinds rs).
Proof.
  intros Hrefl. unfold by_kinds. induction 1 as [|k kinds Hs IH Hall]; simpl; [constructor|].
  apply StronglySorted_app_2; [| |exact IH].
  - intros r1 r2 [-> _]%list_elem_of_filter (k2 & [<- _]%list_elem_of_filter & Hk2)%list_elem_of_bind.
    rewrite list.Forall_forall in Hall. by apply Hall.
  - assert (∀ r, r ∈ filter (λ r, rkind r = k) rs → rkind r = k) as Hk by (intros r; rewrite list_elem_of_filter; tauto).
    revert Hk. generalize (filter (λ r, rkind r = k) rs) as l. induction l as [|r l IHl]; intros Hk; constructor.
    + apply IHl. intros r' Hr'. apply Hk. by right.
    + apply list.Forall_forall. intros r' Hr'. rewrite (Hk r), (Hk r') by (by constructor). apply Hrefl.
Qed.

Lemma NoDup_by_kinds {B} (f : Resource → B) kinds rs : NoDup kinds → NoDup (f <$> rs) → NoDup (f <$> by_kinds kinds rs).
Proof.
  intros Hk Hrs. unfold by_kinds. induction Hk as [|k kinds Hnin Hk IH]; simpl; [constructor|].
  rewrite fmap_app. apply list.NoDup_app. split_and!; [|intros b|exact IH].
  - clear -Hrs. induction rs as [|r rs IHr]; [constructor|]. simpl in Hrs. apply list.NoDup_cons in Hrs as [Hr Hrs].
    rewrite filter_cons. destruct (decide _); [|by apply IHr]. simpl. constructor; [|by apply IHr].
    intros (r' & Hf & [_ Hr']%list_elem_of_filter)%list_elem_of_fmap. apply Hr. rewrite Hf. by apply list_elem_of_fmap_2.
  - intros (r1 & -> & [Hk1 Hr1]%list_elem_of_filter)%list_elem_of_fmap (r2 & Hf & Hr2)%list_elem_of_fmap.
    apply list_elem_of_bind in Hr2 as (k2 & [Hk2 Hr2]%list_elem_of_filter & Hin).
    assert (r1 = r2) as ->. 2: congruence.
    apply list_elem_of_lookup in Hr1 as [i Hi]. apply list_elem_of_lookup in Hr2 as [j Hj].
    assert (i = j) as ->; [|congruence].
    eapply NoDup_lookup; [exact Hrs|rewrite list_lookup_fmap, Hi; done|rewrite list_lookup_fmap, Hj; simpl; by rewrite Hf].
Qed.

(** ** Removals *)

(** The order of removal: a resource that is removed later is untouched by the
    earlier removals. *)
Definition remove_rank (k : Kind) : nat :=
  match k with KindXFRM => 1 | KindVRF => 2 | _ => 0 end.

Definition removed_first (r1 r2 : Resource) : Prop := (remove_rank (rkind r1) ≤ remove_rank (rkind r2))%nat.

Lemma removed_first_untouched r1 r2 o : removed_first r1 r2 → after_removal r1 r2 o → o = Some r2.
Proof.
  unfold removed_first, after_removal. destruct o as [r'|].
  - intros Hr [->|(_ & _ & v & x & -> & -> & _)]; [done|]. simpl in Hr. lia.
  - intros Hr [H1 H2]. destruct r1, r2; simpl in *; try done; lia.
Qed.

(** What is left of an entry [r0] after the removal of a list. *)
Definition left_of (L : list Resource) (r0 : Resource) (o : option Resource) : Prop :=
  match o with
  | Some r' => r' = r0 ∨
      (rkey r' = rkey r0 ∧ rkid r' = rkid r0 ∧
       ∃ v x, RVRF v ∈ L ∧ r0 = RXFRM x ∧ xfrm_MasterVRF x = vrf_Name v ∧ xfrm_MasterVRF x ≠ ""%string)
  | None => (∃ r, r ∈ L ∧ is_link r = true) ∧ is_dependent r0 = true
  end.

Lemma left_of_cons r L r0 o o' :
  after_removal r r0 o → match o with Some r1 => left_of L r1 o' | None => o' = None end →
  left_of (r :: L) r0 o'.
Proof.
  unfold after_removal, left_of. destruct o as [r1|].
  - intros [->|(Hk1 & Hi1 & v & x & -> & -> & Hm)].
    + destruct o' as [r2|]; [|intros [(r' & ? & ?) ?]; split; [exists r'; split; [by right|done]|done]].
      intros [->|(? & ? & v & x & ? & ?)]; [by left|right]. split_and!; [done..|]. exists v, x. split; [by right|done].
    + destruct o' as [r2|].
      * intros Hr2. right. split_and!; [destruct Hr2 as [->|(-> & _)]; done|destruct Hr2 as [->|(_ & -> & _)]; done|].
        exists v, x. split; [by left|]. by split.
      * intros [_ Hd]. destruct r1; done.
  - intros [? ?] ->. split; [|done]. exists r. split; [by left|done].
Qed.

Section contract.
Context `{RangeOrder} {D : Type} `{DataplaneContract D}.
Implicit Types d : D.

Lemma removes L d :
  dp_ok d → NoDup (rkid <$> L) → StronglySorted removed_first L →
  (∀ r, r ∈ L → is_class r = false ∧ dp_view d (rkid r) = Some r) →
  let d' := foldl run_op d (remove_op <$> L) in
  dp_ok d' ∧ dp_queue d' = dp_queue d ∧ (∀ r, r ∈ L → dp_view d' (rkid r) = None) ∧
  ∀ k, k ∉ rkid <$> L → match dp_view d k with
                        | Some r0 => left_of L r0 (dp_view d' k)
                        | None => dp_view d' k = None
                        end.
Proof.
  intros Hok Hnd Hs. revert d Hok. induction L as [|r L IH]; intros d Hok HL d'.
  { split_and!; [done..|set_solver|]. intros k _. subst d'. simpl. destruct (dp_view d k); [by left|done]. }
  simpl in Hnd. apply list.NoDup_cons in Hnd as [Hr Hnd]. apply StronglySorted_inv in Hs as [Hs Hall].
  destruct (HL r) as [Hc Hv]; [by left|]. destruct (dp_remove d r Hok Hc Hv) as (Hok1 & Hq1 & Hn1 & Hk1).
  set (d1 := run_op d (remove_op r)) in *.
  assert (∀ r', r' ∈ L → rkid r' ≠ rkid r) as Hne by (intros r' Hr' He; apply Hr; rewrite <-He; by apply list_elem_of_fmap_2).
  destruct (IH Hnd Hs d1 Hok1) as (Hok' & Hq' & Hn' & Hk').
  { intros r' Hr'. destruct (HL r') as [Hc' Hv']; [by right|]. split; [done|]. specialize (Hk1 (rkid r') (Hne _ Hr')).
    rewrite Hv' in Hk1. rewrite list.Forall_forall in Hall. by apply (removed_first_untouched r); [apply Hall|]. }
  fold d' in Hok', Hq', Hn', Hk'. split_and!; [done|by etrans; [exact Hq'|exact Hq1]| |].
  - intros r' [->|Hr']%elem_of_cons; [|by apply Hn'].
    specialize (Hk' (rkid r)). rewrite Hn1 in Hk'. apply Hk'. intros (r' & He & Hr')%list_elem_of_fmap. by apply (Hne r').
  - intros k Hk. simpl in Hk. apply not_elem_of_cons in Hk as [Hkr Hk]. specialize (Hk' k Hk). specialize (Hk1 k Hkr).
    destruct (dp_view d k) as [r0|].
    + apply (left_of_cons r L r0 (dp_view d1 k)); [done|]. by destruct (dp_view d1 k).
    + by rewrite Hk1 in Hk'.
Qed.

(** ** Additions *)

Lemma adds L d :
  dp_ok d → NoDup (rkid <$> L) →
  (∀ r, r ∈ L → is_class r = false ∧ dp_view d (rkid r) = None) →
  (∀ L1 r L2 (V : view), L = L1 ++ r :: L2 → (∀ k, k ∉ rkid <$> L1 → V k = dp_view d k) →
     (∀ r1, r1 ∈ L1 → ∃ r1', shows r1 r1' ∧ V (rkid r1) = Some r1') → ready V r) →
  let d' := foldl run_op d (add_op <$> L) in
  dp_ok d' ∧ dp_queue d' = dp_queue d ∧
  (∀ r, r ∈ L → ∃ r', shows r r' ∧ dp_view d' (rkid r) = Some r') ∧
  ∀ k, k ∉ rkid <$> L → dp_view d' k = dp_view d k.
Proof.
  revert d. induction L as [|r L IH]; intros d Hok Hnd HL Hready d'.
  { split_and!; [done..|set_solver|done]. }
  simpl in Hnd. apply list.NoDup_cons in Hnd as [Hr Hnd]. destruct (HL r) as [Hc Hv]; [by left|].
  assert (ready (dp_view d) r) as Hrd by (apply (Hready [] r L); [done|done|set_solver]).
  destruct (dp_add d r Hok Hc Hrd Hv) as (Hok1 & Hq1 & r' & Hsh & Hk1).
  set (d1 := run_op d (add_op r)) in *.
  assert (∀ r', r' ∈ L → rkid r' ≠ rkid r) as Hne by (intros r2 Hr2 He; apply Hr; rewrite <-He; by apply list_elem_of_fmap_2).
  destruct (IH d1 Hok1 Hnd) as (Hok' & Hq' & Hn' & Hk').
  { intros r2 Hr2. destruct (HL r2) as [Hc2 Hv2]; [by right|]. split; [done|]. by rewrite Hk1, upd_ne by (by apply Hne). }
  { intros L1 r2 L2 V -> HV1 HV2. apply (Hready (r :: L1) r2 L2); [done| |].
    - intros k Hk. simpl in Hk. apply not_elem_of_cons in Hk as [? ?]. by rewrite HV1, Hk1, upd_ne.
    - intros r1 [->|Hr1]%elem_of_cons; [|by apply HV2]. exists r'. split; [done|].
      rewrite HV1, Hk1, upd_eq; [done|]. intros (r1 & He & Hr1)%list_elem_of_fmap. apply (Hne r1); [set_solver|done]. }
  fold d' in Hok', Hq', Hn', Hk'. split_and!; [done|by etrans; [exact Hq'|exact Hq1]| |].
  - intros r2 [->|Hr2]%elem_of_cons; [|by apply Hn']. exists r'. split; [done|].
    rewrite Hk', Hk1, upd_eq; [done|]. intros (r1 & He & Hr1)%list_elem_of_fmap. by apply (Hne r1).
  - intros k Hk. simpl in Hk. apply not_elem_of_cons in Hk as [? ?]. by rewrite Hk', Hk1, upd_ne.
Qed.

(** ** Classifications *)

Definition del_op (r : Resource) : list class_op :=
  match r with RClassification c => [ClassDel (cl_Classifier c)] | _ => [] end.
Definition set_op (r : Resource) : list class_op :=
  match r with RClassification c => [ClassSet c] | _ => [] end.

Lemma class_removes L d :
  dp_ok d → (∀ r, r ∈ L → is_class r = true) →
  let d' := foldl run_op d (remove_op <$> L) in
  dp_ok d' ∧ dp_queue d' = dp_queue d ++ (L ≫= del_op) ∧ ∀ k, dp_view d' k = dp_view d k.
Proof.
  revert d. induction L as [|r L IH]; intros d Hok HL d'; [simpl; by rewrite app_nil_r|].
  destruct r; try (specialize (HL _ ltac:(left)); done).
  destruct (dp_class_remove d c Hok) as (Hok1 & Hq1 & Hv1).
  destruct (IH _ Hok1) as (Hok' & Hq' & Hv'); [intros; apply HL; by right|].
  split; [done|]. split; [etrans; [exact Hq'|]; rewrite Hq1, <-app_assoc; done|].
  intros k. by rewrite Hv', Hv1.
Qed.

Lemma class_adds L d :
  dp_ok d → (∀ r, r ∈ L → is_class r = true) →
  let d' := foldl run_op d (add_op <$> L) in
  dp_ok d' ∧ dp_queue d' = dp_queue d ++ (L ≫= set_op) ∧ ∀ k, dp_view d' k = dp_view d k.
Proof.
  revert d. induction L as [|r L IH]; intros d Hok HL d'; [simpl; by rewrite app_nil_r|].
  destruct r; try (specialize (HL _ ltac:(left)); done).
  destruct (dp_class_add d c Hok) as (Hok1 & Hq1 & Hv1).
  destruct (IH _ Hok1) as (Hok' & Hq' & Hv'); [intros; apply HL; by right|].
  split; [done|]. split; [etrans; [exact Hq'|]; rewrite Hq1, <-app_assoc; done|].
  intros k. by rewrite Hv', Hv1.
Qed.

Definition class_kid (k : Kid) : Prop := ∃ c, k = KClass c.

Lemma class_kid_of r : class_kid (rkid r) ↔ is_class r = true.
Proof. destruct r; simpl; (split; [intros [? ?]; done|intros; try done; by eexists]). Qed.

Lemma play_other q V k : ¬ class_kid k → play q V k = V k.
Proof.
  intros Hk. unfold play. revert V. induction q as [|[c|c] q IH]; intros V; [done|..]; simpl;
    rewrite IH; apply upd_ne; intros ->; apply Hk; by eexists.
Qed.

Lemma play_dels R V k :
  ((∃ c, RClassification c ∈ R ∧ k = KClass (cl_Classifier c)) ∧ play (R ≫= del_op) V k = None) ∨
  ((∀ c, RClassification c ∈ R → k ≠ KClass (cl_Classifier c)) ∧ play (R ≫= del_op) V k = V k).
Proof.
  revert V. induction R as [|r R IH]; intros V; [right; split; [set_solver|done]|].
  cbn [mbind list_bind]. unfold play. rewrite foldl_app. fold (play (del_op r) V).
  destruct (IH (play (del_op r) V)) as [[(c & Hc & ->) Hp]|[Hn Hp]].
  - left. split; [exists c; split; [by right|done]|exact Hp].
  - unfold play in Hp at 1. destruct r as [| | | | | |c].
    7: { destruct (decide (k = KClass (cl_Classifier c))) as [->|Hne].
         - left. split; [exists c; split; [by left|done]|]. rewrite Hp. apply upd_eq.
         - right. split; [|rewrite Hp; by apply upd_ne].
           intros c' [Hc|Hc]%elem_of_cons; [by simplify_eq|by apply Hn]. }
    all: right; split; [|exact Hp]; intros c' [Hc|Hc]%elem_of_cons; [done|by apply Hn].
Qed.

Lemma play_sets A V k :
  (∃ c, RClassification c ∈ A ∧ k = KClass (cl_Classifier c) ∧ play (A ≫= set_op) V k = Some (RClassification c)) ∨
  ((∀ c, RClassification c ∈ A → k ≠ KClass (cl_Classifier c)) ∧ play (A ≫= set_op) V k = V k).
Proof.
  revert V. induction A as [|r A IH]; intros V; [right; split; [set_solver|done]|].
  cbn [mbind list_bind]. unfold play. rewrite foldl_app. fold (play (set_op r) V).
  destruct (IH (play (set_op r) V)) as [(c & Hc & -> & Hp)|[Hn Hp]].
  - left. exists c. split; [by right|]. split; [done|exact Hp].
  - unfold play in Hp at 1. destruct r as [| | | | | |c].
    7: { destruct (decide (k = KClass (cl_Classifier c))) as [->|Hne].
         - left. exists c. split; [by left|]. split; [done|]. rewrite Hp. apply upd_eq.
         - right. split; [|rewrite Hp; by apply upd_ne].
           intros c' [Hc|Hc]%elem_of_cons; [by simplify_eq|by apply Hn]. }
    all: right; split; [|exact Hp]; intros c' [Hc|Hc]%elem_of_cons; [done|by apply Hn].
Qed.

(** ** What is wanted *)

Section desired.
Context (des : resources).

Definition wanted (r : Resource) : Prop := des !! rkey r = Some r.

(** The wanted resources by kernel identity. *)
Definition des_view : view := λ k, head (filter (λ r, rkid r = k) (map_to_list des).*2).

(** A set of resources a kernel can hold: one per identity, and each is ready
    when all are there. *)
Record desired_ok : Prop := {
  de_key : ∀ key r, des !! key = Some r → rkey r = key;
  de_kid : ∀ r1 r2, wanted r1 → wanted r2 → rkid r1 = rkid r2 → r1 = r2;
  de_ready : ∀ r, wanted r → ready des_view r;
}.

(** What is there under a wanted key is what is wanted, and keys tell what is
    there apart. *)
Record compatible (V : view) : Prop := {
  cp_shows : ∀ k r w, V k = Some r → des !! rkey r = Some w → shows w r;
  cp_keys : ∀ k1 k2 r1 r2, V k1 = Some r1 → V k2 = Some r2 → rkey r1 = rkey r2 → k1 = k2;
}.

Lemma des_view_iff k w :
  (∀ key r, des !! key = Some r → rkey r = key) → (∀ r1 r2, wanted r1 → wanted r2 → rkid r1 = rkid r2 → r1 = r2) →
  des_view k = Some w ↔ wanted w ∧ rkid w = k.
Proof.
  intros Hkey Hkid.
  assert (∀ r, r ∈ filter (λ r, rkid r = k) (map_to_list des).*2 ↔ wanted r ∧ rkid r = k) as Hin.
  { intros r. rewrite list_elem_of_filter, list_elem_of_fmap. split.
    - intros [Hk ([key r'] & -> & Hr%elem_of_map_to_list)]. simpl in *. split; [|done]. unfold wanted. by rewrite (Hkey _ _ Hr).
    - intros [Hw Hk]. split; [done|]. exists (rkey r, r). split; [done|]. by apply elem_of_map_to_list. }
  unfold des_view. destruct (filter _ _) as [|r0 l]; simpl.
  - split; [done|]. by intros ?%Hin%not_elem_of_nil.
  - destruct (proj1 (Hin r0) (list_elem_of_here _ _)). split; [by intros [= <-]|].
    intros [? ?]. f_equal. apply Hkid; congruence.
Qed.

Context (Hdes : desired_ok).

Lemma des_view_wanted k w : des_view k = Some w → wanted w ∧ rkid w = k.
Proof. apply des_view_iff; apply Hdes. Qed.

Lemma wanted_des_view w : wanted w → des_view (rkid w) = Some w.
Proof. intros. by apply des_view_iff; [apply Hdes..|]. Qed.

Lemma shows_vrf w v : shows w (RVRF v) → ∃ v0, w = RVRF v0 ∧ vrf_Name v0 = vrf_Name v ∧ vrf_TableID v0 = vrf_TableID v.
Proof. intros (_ & Hk & Hm). destruct w; simplify_eq/=. eauto. Qed.

Lemma shows_to_vrf v r : shows (RVRF v) r → ∃ v0, r = RVRF v0 ∧ vrf_Name v0 = vrf_Name v ∧ vrf_TableID v0 = vrf_TableID v.
Proof. intros (_ & Hk & Hm). destruct r; simplify_eq/=. eauto. Qed.

Lemma shows_to_xfrm x r :
  shows (RXFRM x) r → ∃ x0, r = RXFRM x0 ∧ xfrm_Name x0 = xfrm_Name x ∧ xfrm_MasterVRF x0 = xfrm_MasterVRF x.
Proof. intros (_ & Hk & Hm). destruct r; simplify_eq/=. eauto. Qed.

(** Ready among the wanted resources is ready in any view that shows the links
    the resource needs and no other VRF. *)
Lemma ready_transfer V r :
  (∀ v, wanted (RVRF v) → (∀ v', r ≠ RVRF v') → ∃ r', V (KVrf (vrf_Name v)) = Some r' ∧ shows (RVRF v) r') →
  (∀ x, wanted (RXFRM x) → is_dependent r = true → ∃ r', V (KXfrm (xfrm_Name x)) = Some r' ∧ shows (RXFRM x) r') →
  (∀ k v, V k = Some (RVRF v) → ∃ w, wanted w ∧ shows w (RVRF v)) →
  ready des_view r → ready V r.
Proof.
  intros Hvrf Hx Honly. destruct r as [v|x|r|r|s|s|c]; simpl; try done.
  - intros [?|[w Hw]]; [by left|right]. apply des_view_wanted in Hw as [Hw Hk].
    destruct w as [v| | | | | |]; try done. injection Hk as Hk. destruct (Hvrf v Hw) as (r' & Hr' & _); [done|].
    rewrite Hk in Hr'. eauto.
  - intros [Hc [?|(x & Hxv & Hm)]]; split; try done; [by left|right].
    apply des_view_wanted in Hxv as [Hw Hk]. injection Hk as Hk. destruct (Hx x Hw eq_refl) as (r' & Hr' & Hsh).
    apply shows_to_xfrm in Hsh as (x0 & -> & _ & Hm0). rewrite Hk in Hr'. exists x0. split; [done|].
    intros k v Hv Ht. destruct (Honly k v Hv) as (w & Hww & (v0 & -> & Hn0 & Ht0)%shows_vrf).
    rewrite Hm0, <-Hn0. apply (Hm (KVrf (vrf_Name v0))); [|congruence]. by apply (wanted_des_view (RVRF v0)).
  - intros (Ht & Hz & k & v & Hv & Htab). split_and!; [done..|]. apply des_view_wanted in Hv as [Hw Hk].
    destruct (Hvrf v Hw) as (r' & Hr' & (v0 & -> & _ & Ht0)%shows_to_vrf); [done|].
    exists (KVrf (vrf_Name v)), v0. split; [done|congruence].
Qed.

(** ** After the removals of a pass *)

Section pass.
Context (V0 V1 : view) (C : resources) (L : list Resource).
Context (HC : keyed V0 C) (Hcomp : compatible V0) (Hkid0 : ∀ k r, V0 k = Some r → rkid r = k).
Context (HL : ∀ r, r ∈ L ↔ r ∈ d_Remove (Diff C des) ∧ is_class r = false).
Context (Hgone : ∀ r, r ∈ L → V1 (rkid r) = None).
Context (Hleft : ∀ k, ¬ class_kid k → k ∉ rkid <$> L →
  match V0 k with Some r0 => left_of L r0 (V1 k) | None => V1 k = None end).

Lemma C_key key r : C !! key = Some r → rkey r = key.
Proof. intros Hr. by apply (ky_in _ _ HC) in Hr as [_ ?]. Qed.

Lemma C_of_view k r : V0 k = Some r → C !! rkey r = Some r.
Proof.
  intros Hr. destruct (ky_all _ _ HC _ _ Hr) as [r' Hr']. destruct (ky_in _ _ HC _ _ Hr') as [HV Hk].
  pose proof (cp_keys _ Hcomp _ _ _ _ HV Hr Hk) as <-. congruence.
Qed.

Lemma elem_of_L r : r ∈ L ↔ V0 (rkid r) = Some r ∧ des !! rkey r = None ∧ is_class r = false.
Proof.
  rewrite HL, elem_of_Remove by apply C_key. split.
  - intros [[Hr ?] ?]. apply (ky_in _ _ HC) in Hr as [? _]. done.
  - intros (Hr & ? & ?). split_and!; try done. by apply (C_of_view (rkid r)).
Qed.

Lemma not_removed k r w : V0 k = Some r → des !! rkey r = Some w → k ∉ rkid <$> L.
Proof.
  intros Hr Hw (r2 & -> & Hr2)%list_elem_of_fmap. apply elem_of_L in Hr2 as (Hr2 & Hn & _). congruence.
Qed.

(** A wanted resource that was there is still shown, unless the kernel dropped
    it together with a removed link. *)
Lemma kept w :
  wanted w → is_class w = false → is_Some (C !! rkey w) →
  (∃ r', V1 (rkid w) = Some r' ∧ shows w r') ∨
  (V1 (rkid w) = None ∧ is_dependent w = true ∧ ∃ r, r ∈ L ∧ is_link r = true).
Proof.
  intros Hw Hc [r Hr]. destruct (ky_in _ _ HC _ _ Hr) as [HV Hk]. pose proof Hw as Hw'. unfold wanted in Hw'.
  rewrite <-Hk in Hw'. pose proof (cp_shows _ Hcomp _ _ _ HV Hw') as Hsh.
  pose proof (proj1 (proj2 Hsh)) as Hki. rewrite Hki in HV.
  pose proof (Hleft (rkid w)) as Hl. rewrite HV in Hl.
  specialize (Hl ltac:(rewrite class_kid_of; congruence) ltac:(by eapply not_removed)).
  destruct (V1 (rkid w)) as [r'|]; simpl in Hl.
  - left. exists r'. split; [done|]. destruct Hl as [->|(Hkr & Hkk & v & x & Hv & -> & Hm & Hne)]; [done|].
    exfalso. destruct w as [|xw| | | | |]; try done. destruct Hsh as (_ & _ & Hmw).
    pose proof (de_ready Hdes _ Hw) as [He|[w2 Hw2]]; [congruence|].
    apply des_view_wanted in Hw2 as [Hw2 Hk2]. destruct w2 as [v2| | | | | |]; try done. injection Hk2 as Hk2.
    apply elem_of_L in Hv as (_ & Hnone & _). unfold wanted, rkey in Hw2, Hnone. simpl in Hw2, Hnone.
    rewrite <-Hm, Hmw, <-Hk2, Hw2 in Hnone. done.
  - right. destruct Hl as [Hl Hd]. split; [done|]. split; [|done].
    destruct w, r; simplify_eq/=; try done; destruct Hsh as (_ & ? & _); done.
Qed.

(** What is left shows something wanted that was there. *)
Lemma only_kept k r' :
  ¬ class_kid k → V1 k = Some r' → ∃ w, wanted w ∧ rkid w = k ∧ shows w r' ∧ is_Some (C !! rkey w).
Proof.
  intros Hk Hr'. destruct (decide (k ∈ rkid <$> L)) as [(r & -> & Hr)%list_elem_of_fmap|Hnin].
  { apply Hgone in Hr. congruence. }
  pose proof (Hleft k Hk Hnin) as Hl. destruct (V0 k) as [r0|] eqn:Hr0; [|congruence].
  assert (rkid r0 = k) as Hk0 by eauto.
  destruct (des !! rkey r0) as [w|] eqn:Hw.
  2: { exfalso. apply Hnin. rewrite <-Hk0. apply list_elem_of_fmap_2, elem_of_L. rewrite Hk0.
       split_and!; try done. apply not_true_iff_false. rewrite <-class_kid_of. by rewrite Hk0. }
  pose proof (cp_shows _ Hcomp _ _ _ Hr0 Hw) as Hsh. pose proof (de_key Hdes _ _ Hw) as Hwk.
  assert (wanted w) as Hww by (unfold wanted; congruence).
  assert (rkid w = k) as Hkw by (rewrite <-Hk0; symmetry; apply Hsh).
  assert (is_Some (C !! rkey w)) as HCw by (rewrite Hwk; eexists; by eapply C_of_view).
  exists w. split_and!; try done. destruct (kept w Hww) as [(r2 & Hr2 & ?)|[Hn _]]; [| |congruence|congruence].
  - apply not_true_iff_false. rewrite <-class_kid_of. by rewrite Hkw.
  - done.
Qed.
End pass.

(** ** A pass *)

Definition nonclass_removes : list Kind := [KindRule; KindSRRoute; KindSID; KindRoute; KindXFRM; KindVRF].
Definition nonclass_adds : list Kind := [KindVRF; KindXFRM; KindRoute; KindSID; KindSRRoute; KindRule].

Definition class_queue (C : resources) : list class_op :=
  (by_kinds [KindClassification] (d_Remove (Diff C des)) ≫= del_op) ++
  (by_kinds [KindClassification] (d_Add (Diff C des)) ≫= set_op).

Lemma apply_ops_split diff :
  apply_ops diff =
  (remove_op <$> by_kinds [KindClassification] (d_Remove diff)) ++ (remove_op <$> by_kinds nonclass_removes (d_Remove diff)) ++
  (add_op <$> by_kinds nonclass_adds (d_Add diff)) ++ (add_op <$> by_kinds [KindClassification] (d_Add diff)).
Proof.
  assert (∀ k1 k2 l, by_kinds (k1 ++ k2) l = by_kinds k1 l ++ by_kinds k2 l) as Happ
    by (intros; unfold by_kinds; by rewrite bind_app).
  unfold apply_ops. change remove_kinds with ([KindClassification] ++ nonclass_removes).
  change add_kinds with (nonclass_adds ++ [KindClassification]). by rewrite !Happ, !fmap_app, <-!app_assoc.
Qed.

Lemma elem_of_class_kind l r : r ∈ by_kinds [KindClassification] l ↔ r ∈ l ∧ is_class r = true.
Proof. rewrite elem_of_by_kinds. destruct r; unfold rkind; simpl; set_solver. Qed.
Lemma elem_of_nonclass_removes l r : r ∈ by_kinds nonclass_removes l ↔ r ∈ l ∧ is_class r = false.
Proof. rewrite elem_of_by_kinds. unfold nonclass_removes. destruct r; unfold rkind; simpl; set_solver. Qed.
Lemma elem_of_nonclass_adds l r : r ∈ by_kinds nonclass_adds l ↔ r ∈ l ∧ is_class r = false.
Proof. rewrite elem_of_by_kinds. unfold nonclass_adds. destruct r; unfold rkind; simpl; set_solver. Qed.

Lemma NoDup_kinds : NoDup nonclass_removes ∧ NoDup nonclass_adds.
Proof. unfold nonclass_removes, nonclass_adds. split; repeat (constructor; [set_solver|]); constructor. Qed.

Lemma NoDup_fmap_via {A B E} (f : A → B) (g : A → E) l :
  NoDup (f <$> l) → (∀ x y, x ∈ l → y ∈ l → g x = g y → f x = f y) → NoDup (g <$> l).
Proof.
  induction l as [|x l IH]; simpl; [constructor|]. intros [Hx Hnd]%list.NoDup_cons Hg. constructor.
  - intros (y & He & Hy)%list_elem_of_fmap. apply Hx. rewrite (Hg x y) by (by (left || right) || done).
    by apply list_elem_of_fmap_2.
  - apply IH; [done|]. intros y z Hy Hz. apply Hg; by right.
Qed.

(** The order of additions: a link before what refers to it. *)
Definition add_rank (k : Kind) : nat := match k with KindVRF => 0 | KindXFRM => 1 | _ => 2 end.

Lemma add_before A1 r A2 l w :
  by_kinds nonclass_adds l = A1 ++ r :: A2 → w ∈ l → is_class w = false →
  (add_rank (rkind w) < add_rank (rkind r))%nat → w ∈ A1.
Proof.
  intros Hsplit Hw Hc Hrank. assert (w ∈ by_kinds nonclass_adds l) as Hin by (by apply elem_of_nonclass_adds).
  assert (StronglySorted (λ r1 r2, (add_rank (rkind r1) ≤ add_rank (rkind r2))%nat) (by_kinds nonclass_adds l)) as Hs.
  { apply (by_kinds_sorted (λ k1 k2, (add_rank k1 ≤ add_rank k2)%nat)); [done|]. unfold nonclass_adds.
    repeat constructor. }
  rewrite Hsplit in Hin, Hs. apply elem_of_app in Hin as [?|[->|Hin]%elem_of_cons]; [done|lia|].
  apply StronglySorted_app in Hs as (_ & _ & Hs). apply StronglySorted_inv in Hs as [_ Hall].
  rewrite list.Forall_forall in Hall. specialize (Hall w Hin). simpl in Hall. lia.
Qed.

(** Whatever is added is ready when its turn comes. *)
Lemma adds_ready (V2 V : view) (C : resources) A A1 r A2 :
  (∀ k r, V2 k = Some r → rkid r = k) →
  (∀ w, wanted w → is_class w = false → is_Some (C !! rkey w) →
     (∃ r', V2 (rkid w) = Some r' ∧ shows w r') ∨ is_dependent w = true) →
  (∀ k r', ¬ class_kid k → V2 k = Some r' → ∃ w, wanted w ∧ shows w r') →
  (∀ r, r ∈ A ↔ wanted r ∧ C !! rkey r = None) →
  by_kinds nonclass_adds A = A1 ++ r :: A2 →
  (∀ k, k ∉ rkid <$> A1 → V k = V2 k) → (∀ r1, r1 ∈ A1 → ∃ r1', shows r1 r1' ∧ V (rkid r1) = Some r1') →
  ready V r.
Proof.
  intros Hkid Hkept Honly HA Hsplit HV1 HV2.
  assert (∀ r1, r1 ∈ A1 → wanted r1) as HwA.
  { intros r1 Hr1. apply HA. apply (elem_of_nonclass_adds A). rewrite Hsplit. set_solver. }
  assert (wanted r) as Hwr by (apply HA, (elem_of_nonclass_adds A); rewrite Hsplit; set_solver).
  assert (∀ w, wanted w → is_link w = true → (add_rank (rkind w) < add_rank (rkind r))%nat →
            ∃ r', V (rkid w) = Some r' ∧ shows w r') as Hlink.
  { intros w Hw Hlk Hrank. assert (is_class w = false) as Hc by (by destruct w).
    destruct (decide (rkid w ∈ rkid <$> A1)) as [(r1 & Hk1 & Hr1)%list_elem_of_fmap|Hnin].
    { rewrite (de_kid Hdes w r1) by auto. destruct (HV2 r1 Hr1) as (r1' & ? & ?). eauto. }
    rewrite HV1 by done. destruct (C !! rkey w) as [r0|] eqn:Hr0.
    - destruct (Hkept w Hw Hc) as [?|Hd]; [by rewrite Hr0|done|by destruct w].
    - exfalso. apply Hnin, list_elem_of_fmap_2. eapply add_before; [exact Hsplit|by apply HA|done|done]. }
  apply ready_transfer; [..|by apply (de_ready Hdes)].
  - intros v Hv Hne. apply (Hlink (RVRF v) Hv eq_refl). destruct r; unfold rkind; simpl; try lia. by edestruct Hne.
  - intros x Hx Hd. apply (Hlink (RXFRM x) Hx eq_refl). destruct r; unfold rkind; simpl; try lia; done.
  - intros k v Hv. destruct (decide (k ∈ rkid <$> A1)) as [(r1 & -> & Hr1)%list_elem_of_fmap|Hnin].
    + destruct (HV2 r1 Hr1) as (r1' & Hsh & Hr1'). exists r1. rewrite Hr1' in Hv. injection Hv as ->. auto.
    + rewrite HV1 in Hv by done. apply (Honly k); [|done]. intros [c ->]. by apply Hkid in Hv.
Qed.

Lemma pass d C :
  dp_ok d → keyed (dp_view d) C → compatible (dp_view d) →
  ∃ d', Apply d (Diff C des) = (d', Ok tt) ∧ dp_ok d' ∧ dp_queue d' = class_queue C ∧
    (∀ k, class_kid k → dp_view d' k = play (dp_queue d) (dp_view d) k) ∧
    (∀ k r', ¬ class_kid k → dp_view d' k = Some r' → ∃ w, wanted w ∧ rkid w = k ∧ shows w r') ∧
    (∀ w, wanted w → is_class w = false →
       (∃ r', dp_view d' (rkid w) = Some r' ∧ shows w r') ∨
       (∃ r, r ∈ d_Remove (Diff C des) ∧ is_link r = true)).
Proof.
  intros Hok HC Hcomp. destruct (dp_ensure d Hok) as (d0 & He & Hok0 & Hq0 & Hv0).
  unfold Apply. rewrite He, apply_ops_split, !foldl_app.
  set (R := d_Remove (Diff C des)). set (A := d_Add (Diff C des)).
  pose proof (λ k r, dp_view_kid d k r Hok) as Hkid.
  destruct (class_removes (by_kinds [KindClassification] R) d0 Hok0) as (Hok1 & Hq1 & Hv1).
  { intros r. rewrite elem_of_class_kind. tauto. }
  set (d1 := foldl run_op d0 _) in *.
  assert (∀ k, ¬ class_kid k → dp_view d1 k = dp_view d k) as Hnc by (intros k Hk; rewrite Hv1, Hv0; by apply play_other).
  assert (∀ r, r ∈ R → dp_view d (rkid r) = Some r) as HR.
  { intros r [Hr _]%elem_of_Remove; [|apply (C_key _ _ HC)]. by apply (ky_in _ _ HC) in Hr as [? _]. }
  destruct (removes (by_kinds nonclass_removes R) d1 Hok1) as (Hok2 & Hq2 & Hgone & Hleft).
  { apply NoDup_by_kinds; [apply NoDup_kinds|].
    apply (NoDup_fmap_via rkey); [apply NoDup_Remove, (C_key _ _ HC)|].
    intros r1 r2 Hr1%HR Hr2%HR Hk. congruence. }
  { apply (by_kinds_sorted (λ k1 k2, (remove_rank k1 ≤ remove_rank k2)%nat)); [done|].
    unfold nonclass_removes. repeat constructor. }
  { intros r [Hr Hc]%elem_of_nonclass_removes. split; [done|]. rewrite Hnc; [by apply HR|].
    rewrite class_kid_of. congruence. }
  set (d2 := foldl run_op d1 _) in *.
  assert (∀ k, ¬ class_kid k → k ∉ rkid <$> by_kinds nonclass_removes R →
    match dp_view d k with Some r0 => left_of (by_kinds nonclass_removes R) r0 (dp_view d2 k) | None => dp_view d2 k = None end) as Hleft'.
  { intros k Hk Hn. rewrite <-(Hnc k Hk). by apply Hleft. }
  pose proof (kept (dp_view d) (dp_view d2) C _ HC Hcomp (λ r, elem_of_nonclass_removes R r) Hleft') as Hkept.
  pose proof (only_kept (dp_view d) (dp_view d2) C _ HC Hcomp Hkid (λ r, elem_of_nonclass_removes R r) Hgone Hleft') as Honly.
  assert (∀ r, r ∈ A → wanted r ∧ C !! rkey r = None) as HA by (intros r; apply elem_of_Add, Hdes).
  assert (∀ r, r ∈ by_kinds nonclass_adds A → is_class r = false ∧ dp_view d2 (rkid r) = None) as Habsent.
  { intros r [Hr Hc]%elem_of_nonclass_adds. split; [done|]. destruct (dp_view d2 (rkid r)) as [r'|] eqn:Hr'; [|done].
    destruct (Honly (rkid r) r') as (w & Hw & Hkw & _ & HCw); [rewrite class_kid_of; congruence|done|].
    destruct (HA r Hr) as [Hwr Hn]. rewrite (de_kid Hdes w r) in HCw by done. rewrite Hn in HCw. by destruct HCw. }
  destruct (adds (by_kinds nonclass_adds A) d2 Hok2) as (Hok3 & Hq3 & Hadded & Hother); [|done| |].
  { apply NoDup_by_kinds; [apply NoDup_kinds|]. apply (NoDup_fmap_via rkey); [apply NoDup_Add, Hdes|].
    intros r1 r2 Hr1%HA Hr2%HA Hk. by rewrite (de_kid Hdes r1 r2) by tauto. }
  { intros A1 r A2 V Hsplit HV1 HV2. eapply (adds_ready (dp_view d2) V C A); [..|exact HV1|exact HV2].
    - intros k r0. by apply dp_view_kid.
    - intros w Hw Hc HCw. destruct (Hkept w Hw Hc HCw) as [?|(_ & ? & _)]; auto.
    - intros k r' Hk Hr'. destruct (Honly k r' Hk Hr') as (w & ? & _ & ? & _). eauto.
    - intros r0. apply elem_of_Add, Hdes.
    - exact Hsplit. }
  set (d3 := foldl run_op d2 _) in *.
  destruct (class_adds (by_kinds [KindClassification] A) d3 Hok3) as (Hok4 & Hq4 & Hv4).
  { intros r. rewrite elem_of_class_kind. tauto. }
  eexists. split; [reflexivity|]. set (d4 := foldl run_op d3 _) in *.
  assert (∀ k, class_kid k → k ∉ rkid <$> by_kinds nonclass_removes R ∧ k ∉ rkid <$> by_kinds nonclass_adds A) as Hck.
  { intros k Hk. split; intros (r & -> & Hr)%list_elem_of_fmap; apply class_kid_of in Hk.
    - apply elem_of_nonclass_removes in Hr as [_ ?]. congruence.
    - apply elem_of_nonclass_adds in Hr as [_ ?]. congruence. }
  split_and!; [done| |intros k Hk|intros k r' Hk Hr'|intros w Hw Hc].
  - rewrite Hq4, Hq3, Hq2, Hq1, Hq0. done.
  - destruct (Hck k Hk) as [Hn1 Hn2]. rewrite Hv4, Hother, <-Hv0, <-Hv1 by done. specialize (Hleft k Hn1).
    destruct (dp_view d1 k) as [r0|] eqn:Hr0; [|done]. pose proof (dp_view_kid _ _ _ Hok1 Hr0) as Hk0.
    destruct (dp_view d2 k) as [r'|]; simpl in Hleft.
    + destruct Hleft as [->|(_ & _ & v & x & _ & -> & _)]; [done|]. destruct Hk as [c ->]. done.
    + destruct Hleft as [_ Hd], Hk as [c ->]. by destruct r0.
  - rewrite Hv4 in Hr'. destruct (decide (k ∈ rkid <$> by_kinds nonclass_adds A)) as [(r & -> & Hr)%list_elem_of_fmap|Hnin].
    + destruct (Hadded r Hr) as (r2 & Hsh & Hr2). exists r. apply elem_of_nonclass_adds in Hr as [Hr _].
      split_and!; [by apply HA|done|congruence].
    + rewrite Hother in Hr' by done. destruct (Honly k r' Hk Hr') as (w & ? & ? & ? & _). eauto.
  - rewrite Hv4. destruct (C !! rkey w) as [r0|] eqn:Hr0.
    + destruct (Hkept w Hw Hc) as [(r' & Hr' & Hsh)|(_ & _ & r & [Hr _]%elem_of_nonclass_removes & ?)]; [by rewrite Hr0| |by right; eauto].
      left. exists r'. split; [|done]. rewrite Hother; [done|].
      intros (r & Hk & [Hr _]%elem_of_nonclass_adds)%list_elem_of_fmap. destruct (HA r Hr) as [Hwr Hn].
      rewrite (de_kid Hdes w r) in Hr0 by done. congruence.
    + left. destruct (Hadded w) as (r' & ? & ?); [|eauto]. apply elem_of_nonclass_adds. split; [|done].
      apply elem_of_Add; [apply Hdes|done].
Qed.

(** ** The loop *)

(** A view that shows exactly what is wanted. *)
Record matches (V : view) : Prop := {
  mt_only : ∀ k r, V k = Some r → ∃ w, wanted w ∧ rkid w = k ∧ shows w r;
  mt_all : ∀ w, wanted w → ∃ r, V (rkid w) = Some r ∧ shows w r;
}.

(** Nothing queued would change the view. *)
Definition settled d : Prop := ∀ k, play (dp_queue d) (dp_view d) k = dp_view d k.

Lemma class_queue_spec (V0 V : view) C k :
  keyed V0 C → compatible V0 → class_kid k →
  (∃ c, wanted (RClassification c) ∧ k = KClass (cl_Classifier c) ∧ play (class_queue C) V k = Some (RClassification c)) ∨
  (∀ w, wanted w → rkid w = k → is_Some (C !! rkey w)) ∧
  ((∃ r, V0 k = Some r ∧ des !! rkey r = None) ∧ play (class_queue C) V k = None ∨
   (∀ r, V0 k = Some r → is_Some (des !! rkey r)) ∧ play (class_queue C) V k = V k).
Proof.
  intros HC Hcomp Hk. pose proof (C_key _ _ HC) as HCk. unfold class_queue, play. rewrite foldl_app.
  fold (play (by_kinds [KindClassification] (d_Remove (Diff C des)) ≫= del_op) V).
  set (V' := play _ V). destruct (play_sets (by_kinds [KindClassification] (d_Add (Diff C des))) V' k)
    as [(c & [Hc _]%elem_of_class_kind & -> & Hp)|[Hn Hp]].
  { left. exists c. apply elem_of_Add in Hc as [Hw _]; [done|apply Hdes]. }
  right. split.
  { intros w Hw <-. destruct (C !! rkey w) as [r|] eqn:Hr; [eauto|exfalso]. apply class_kid_of in Hk.
    destruct w as [| | | | | |c]; try done. apply (Hn c); [|done]. apply elem_of_class_kind. split; [|done].
    apply elem_of_Add; [apply Hdes|done]. }
  unfold play in Hp. rewrite Hp. unfold V'.
  destruct (play_dels (by_kinds [KindClassification] (d_Remove (Diff C des))) V k)
    as [[(c & [Hc _]%elem_of_class_kind & ->) Hd]|[Hnd Hd]].
  - left. split; [|exact Hd]. apply elem_of_Remove in Hc as [Hc Hnone]; [|done].
    apply (ky_in _ _ HC) in Hc as [Hc _]. eauto.
  - right. split; [|exact Hd]. intros r Hr. destruct (des !! rkey r) as [w|] eqn:Hw; [eauto|exfalso].
    pose proof (C_of_view V0 C HC Hcomp k r Hr) as HCr. pose proof (ky_in _ _ HC _ _ HCr) as [Hr' _].
    assert (k = rkid r) as Hkr by (by eapply (cp_keys _ Hcomp)). rewrite Hkr in Hk. apply class_kid_of in Hk.
    destruct r as [| | | | | |c]; try done. apply (Hnd c); [|done]. apply elem_of_class_kind. split; [|done].
    by apply elem_of_Remove.
Qed.

(** Playing the queue of a pass brings the classifications in line. *)
Lemma class_aligned (V0 : view) C k :
  (∀ k r, V0 k = Some r → rkid r = k) → keyed V0 C → compatible V0 → class_kid k →
  (∀ r, play (class_queue C) V0 k = Some r → ∃ w, wanted w ∧ rkid w = k ∧ shows w r) ∧
  (∀ w, wanted w → rkid w = k → ∃ r, play (class_queue C) V0 k = Some r ∧ shows w r).
Proof.
  intros Hkid HC Hcomp Hk.
  destruct (class_queue_spec V0 V0 C k HC Hcomp Hk) as [(c & Hc & -> & ->)|[Hall Hrest]].
  { split.
    - intros r [= <-]. exists (RClassification c). split_and!; [done..|apply shows_refl].
    - intros w Hw Hkw. rewrite (de_kid Hdes w (RClassification c)) by done. eexists. split; [done|apply shows_refl]. }
  assert (∀ w, wanted w → rkid w = k → ∃ r, V0 k = Some r ∧ shows w r) as Hin.
  { intros w Hw Hkw. destruct (Hall w Hw Hkw) as [r Hr]. destruct (ky_in _ _ HC _ _ Hr) as [HV Hkr].
    assert (shows w r) as Hsh by (eapply (cp_shows _ Hcomp); [exact HV|]; rewrite Hkr; exact Hw).
    exists r. split; [|done]. by rewrite <-Hkw, <-(proj1 (proj2 Hsh)). }
  destruct Hrest as [[(r & Hr & Hnone) ->]|[Hsome ->]].
  - split; [done|]. intros w Hw Hkw. destruct (Hin w Hw Hkw) as (r' & Hr' & (Hkey & _)).
    rewrite Hr in Hr'. injection Hr' as <-. unfold wanted in Hw. rewrite <-Hkey in Hw. congruence.
  - split; [|done]. intros r Hr. destruct (Hsome r Hr) as [w Hw]. exists w.
    pose proof (cp_shows _ Hcomp _ _ _ Hr Hw) as Hsh. pose proof (de_key Hdes _ _ Hw) as Hkw.
    split_and!; [unfold wanted; congruence| |done]. rewrite <-(proj1 (proj2 Hsh)). eauto.
Qed.

(** Playing it once more changes nothing. *)
Lemma class_stable (V0 V : view) C k :
  keyed V0 C → compatible V0 → class_kid k →
  (∀ r, V k = Some r → ∃ w, wanted w ∧ rkid w = k ∧ shows w r) →
  (∀ w, wanted w → rkid w = k → ∃ r, V k = Some r ∧ shows w r) →
  play (class_queue C) V k = V k.
Proof.
  intros HC Hcomp Hk Honly Hall.
  destruct (class_queue_spec V0 V C k HC Hcomp Hk) as [(c & Hc & -> & ->)|[Hin [[(r & Hr & Hnone) ->]|[_ ->]]]]; [| |done].
  - destruct (Hall _ Hc eq_refl) as (r & -> & (_ & Hkr & Hcr)). destruct r; simplify_eq/=; done.
  - destruct (V k) as [r'|] eqn:Hr'; [|done]. destruct (Honly r' eq_refl) as (w & Hw & Hkw & _).
    destruct (Hin w Hw Hkw) as [r2 Hr2]. destruct (ky_in _ _ HC _ _ Hr2) as [HV Hk2].
    assert (shows w r2) as Hsh by (eapply (cp_shows _ Hcomp); [exact HV|]; rewrite Hk2; exact Hw).
    rewrite (proj1 (proj2 Hsh)), Hkw, Hr in HV. injection HV as <-. rewrite Hk2 in Hnone. unfold wanted in Hw. congruence.
Qed.

Lemma matches_no_diff (V : view) C :
  keyed V C → matches V → d_Add (Diff C des) = [] ∧ d_Remove (Diff C des) = [].
Proof.
  intros HC Hm. split; apply elem_of_nil_inv; intros r.
  - intros [Hw Hn]%elem_of_Add; [|apply Hdes]. destruct (mt_all _ Hm r Hw) as (r0 & Hr0 & (Hk & _)).
    destruct (ky_all _ _ HC _ _ Hr0) as [r1 Hr1]. congruence.
  - intros [Hr Hn]%elem_of_Remove; [|apply (C_key _ _ HC)]. destruct (ky_in _ _ HC _ _ Hr) as [HV _].
    destruct (mt_only _ Hm _ _ HV) as (w & Hw & _ & (Hk & _)). unfold wanted in Hw. congruence.
Qed.

Lemma no_diff_matches (V : view) C :
  (∀ k r, V k = Some r → rkid r = k) → keyed V C → compatible V →
  d_Add (Diff C des) = [] → d_Remove (Diff C des) = [] → matches V.
Proof.
  intros Hkid HC Hcomp HA HR. split.
  - intros k r Hr. destruct (des !! rkey r) as [w|] eqn:Hw.
    + exists w. pose proof (cp_shows _ Hcomp _ _ _ Hr Hw) as Hsh. pose proof (de_key Hdes _ _ Hw).
      split_and!; [unfold wanted; congruence| |done]. rewrite <-(proj1 (proj2 Hsh)). eauto.
    + exfalso. apply (not_elem_of_nil r). rewrite <-HR. apply elem_of_Remove; [apply (C_key _ _ HC)|].
      split; [|done]. by eapply C_of_view.
  - intros w Hw. destruct (C !! rkey w) as [r|] eqn:Hr.
    + destruct (ky_in _ _ HC _ _ Hr) as [HV Hk]. assert (shows w r) as Hsh by (eapply (cp_shows _ Hcomp); [exact HV|]; rewrite Hk; exact Hw).
      exists r. split; [|done]. by rewrite <-(proj1 (proj2 Hsh)).
    + exfalso. apply (not_elem_of_nil w). rewrite <-HA. apply elem_of_Add; [apply Hdes|]. done.
Qed.

(** A view made of wanted resources and of classifications from before is
    compatible if the view before was. *)
Lemma compatible_after (V0 V : view) :
  compatible V0 → (∀ k r, V0 k = Some r → rkid r = k) →
  (∀ k r, V k = Some r → (∃ w, wanted w ∧ rkid w = k ∧ shows w r) ∨ V0 k = Some r) → compatible V.
Proof.
  intros Hcomp Hkid HV.
  assert (∀ k1 k2 r1 r2 w, wanted w → rkid w = k1 → shows w r1 → V0 k2 = Some r2 → rkey r1 = rkey r2 → k1 = k2) as Hmixed.
  { intros k1 k2 r1 r2 w Hw <- (Hk1 & _) Hr2 He.
    assert (shows w r2) as (_ & <- & _); [|by eauto]. eapply (cp_shows _ Hcomp); [exact Hr2|]. unfold wanted in Hw. congruence. }
  split.
  - intros k r w Hr Hw. destruct (HV k r Hr) as [(w' & Hw' & _ & Hsh)|Hr0]; [|by eapply (cp_shows _ Hcomp)].
    pose proof (proj1 Hsh) as Hk. unfold wanted in Hw'. congruence.
  - intros k1 k2 r1 r2 Hr1 Hr2 He.
    destruct (HV k1 r1 Hr1) as [(w1 & Hw1 & Hk1 & Hs1)|Hv1], (HV k2 r2 Hr2) as [(w2 & Hw2 & Hk2 & Hs2)|Hv2].
    + pose proof (proj1 Hs1). pose proof (proj1 Hs2). unfold wanted in *. congruence.
    + by eapply Hmixed.
    + symmetry. by eapply Hmixed.
    + by eapply (cp_keys _ Hcomp).
Qed.

Section run.
Context (r : Reconciler) (ni : NodeIntent).
Context (Htype : ni_NodeType ni = rc_nodeType r) (Hstale : stale r ni = false).
Context (Hrender : render_intent (ni_Intent ni) = Ok des).

Lemma Plan_ok d : dp_ok d → ∃ C, Plan r d ni = Ok (C, des) ∧ keyed (dp_view d) C.
Proof.
  intros Hok. destruct (dp_observe d Hok) as (f & rs & Hf & Hrs & Hv).
  exists (foldl put ∅ rs). split; [|apply keyed_puts; [intros k r0; by apply dp_view_kid|exact Hv]].
  unfold Plan. rewrite bool_decide_eq_true_2 by done. simpl. rewrite Hstale, Hf. cbn [mbind result_bind].
  by rewrite (RenderFIB_ok f rs), Hrender.
Qed.

Definition run_good (oc : run_outcome) (passes : nat) : Prop :=
  oc_converged oc = true ∧ oc_err oc = None ∧ oc_passes oc = passes.

Lemma loop_step n p d oc C d' :
  Plan r d ni = Ok (C, des) → Apply d (Diff C des) = (d', Ok tt) →
  (d_Add (Diff C des) = [] ∧ d_Remove (Diff C des) = [] ∧
   ∃ oc', reconcile_loop (S n) p r d ni oc = (d, oc') ∧ run_good oc' (S p)) ∨
  ∃ oc', reconcile_loop (S n) p r d ni oc = reconcile_loop n (S p) r d' ni oc'.
Proof.
  intros HP HA. cbn [reconcile_loop]. rewrite HP. destruct (d_Add (Diff C des)) eqn:HAdd; [destruct (d_Remove (Diff C des)) eqn:HRem|].
  - left. split_and!; [done..|]. eexists. split; [reflexivity|done].
  - right. rewrite HA. by eexists.
  - right. rewrite HA. by eexists.
Qed.

(** A dataplane that shows what is wanted and whose queue is that of a pass is
    settled. *)
Lemma matches_settled d0 d C :
  dp_ok d0 → keyed (dp_view d0) C → compatible (dp_view d0) → dp_queue d = class_queue C →
  matches (dp_view d) → settled d.
Proof.
  intros Hok HC Hcomp Hq [Honly Hall] k. rewrite Hq.
  destruct k as [| | | | | |c]; try (apply play_other; by intros [? ?]).
  apply (class_stable (dp_view d0)); [done|done|by eexists|apply Honly|].
  intros w Hw Hk. rewrite <-Hk. by apply Hall.
Qed.

(** The first pass: everything there is wanted or an old classification. *)
Lemma pass_compatible d d' :
  dp_ok d → dp_ok d' → compatible (dp_view d) → (∀ k, class_kid k → dp_view d' k = dp_view d k) →
  (∀ k r', ¬ class_kid k → dp_view d' k = Some r' → ∃ w, wanted w ∧ rkid w = k ∧ shows w r') →
  compatible (dp_view d').
Proof.
  intros Hok Hok' Hcomp Hsame Honly.
  apply (compatible_after (dp_view d)); [done|intros k r0; by apply dp_view_kid|]. intros k r0 Hr0.
  pose proof (dp_view_kid _ _ _ Hok' Hr0) as <-. destruct (decide (is_class r0 = true)) as [Hcl|Hcl].
  - right. rewrite <-Hsame; [done|]. by apply class_kid_of.
  - left. apply Honly; [|done]. by rewrite class_kid_of.
Qed.

(** The second pass: no link is removed any more and the queued classifications
    are in place. *)
Lemma second_pass_matches d d1 d2 C C1 :
  dp_ok d → dp_ok d1 → keyed (dp_view d) C → compatible (dp_view d) → keyed (dp_view d1) C1 →
  (∀ k, class_kid k → dp_view d1 k = dp_view d k) →
  (∀ k r', ¬ class_kid k → dp_view d1 k = Some r' → ∃ w, wanted w ∧ rkid w = k ∧ shows w r') →
  (∀ k, class_kid k → dp_view d2 k = play (class_queue C) (dp_view d1) k) →
  (∀ k r', ¬ class_kid k → dp_view d2 k = Some r' → ∃ w, wanted w ∧ rkid w = k ∧ shows w r') →
  (∀ w, wanted w → is_class w = false →
     (∃ r', dp_view d2 (rkid w) = Some r' ∧ shows w r') ∨ (∃ r, r ∈ d_Remove (Diff C1 des) ∧ is_link r = true)) →
  matches (dp_view d2).
Proof.
  intros Hok Hok1 HC Hcomp HC1 Hsame Honly1 Hcls Honly Hall.
  assert (∀ k, class_kid k → dp_view d2 k = play (class_queue C) (dp_view d) k) as Hcls'.
  { intros k Hk. rewrite Hcls by done. by apply play_ext, Hsame. }
  pose proof (λ k, class_aligned (dp_view d) C k (λ k r, dp_view_kid d k r Hok) HC Hcomp) as Hal.
  split.
  - intros k r' Hr'. destruct k as [| | | | | |c]; try (apply Honly; [by intros [? ?]|done]).
    rewrite Hcls' in Hr' by (by eexists). by apply (Hal (KClass c)); [eexists|].
  - intros w Hw. destruct (is_class w) eqn:Hc.
    + rewrite Hcls' by (by apply class_kid_of). apply Hal; [by apply class_kid_of|done|done].
    + destruct (Hall w Hw Hc) as [?|(r0 & Hr0 & Hlk)]; [done|exfalso].
      apply elem_of_Remove in Hr0 as [Hr0 Hn]; [|apply (C_key _ _ HC1)]. destruct (ky_in _ _ HC1 _ _ Hr0) as [HV _].
      destruct (Honly1 (rkid r0) r0) as (w0 & Hw0 & _ & (Hk0 & _)); [rewrite class_kid_of; by destruct r0|done|].
      unfold wanted in Hw0. congruence.
Qed.

Lemma loop_converges d oc :
  dp_ok d → settled d → compatible (dp_view d) →
  ∃ d' oc' p, reconcile_loop 3 0 r d ni oc = (d', oc') ∧ run_good oc' p ∧ (p ≤ 3)%nat ∧
    dp_ok d' ∧ matches (dp_view d') ∧ settled d'.
Proof.
  intros Hok0 Hset0 Hc0. destruct (Plan_ok d Hok0) as (C0 & HP0 & HC0).
  destruct (pass d C0 Hok0 HC0 Hc0) as (d1 & HA0 & Hok1 & Hq1 & Hcls1 & Honly1 & Hall1).
  destruct (loop_step 2 0 d oc C0 d1 HP0 HA0) as [(HAdd & HRem & oc' & -> & Hg)|[oc1 ->]].
  { exists d, oc', 1%nat. split_and!; [done|done|lia|done| |done].
    eapply no_diff_matches; [intros k r0; by apply dp_view_kid|done..]. }
  assert (∀ k, class_kid k → dp_view d1 k = dp_view d k) as Hsame by (intros k Hk; by rewrite Hcls1, Hset0).
  pose proof (pass_compatible d d1 Hok0 Hok1 Hc0 Hsame Honly1) as Hc1.
  destruct (Plan_ok d1 Hok1) as (C1 & HP1 & HC1).
  destruct (pass d1 C1 Hok1 HC1 Hc1) as (d2 & HA1 & Hok2 & Hq2 & Hcls2 & Honly2 & Hall2).
  destruct (loop_step 1 1 d1 oc1 C1 d2 HP1 HA1) as [(HAdd & HRem & oc' & -> & Hg)|[oc2 ->]].
  { exists d1, oc', 2%nat. assert (matches (dp_view d1)) by (eapply no_diff_matches; [intros k r0; by apply dp_view_kid|done..]).
    split_and!; [done|done|lia|done|done|]. by apply (matches_settled d d1 C0). }
  rewrite Hq1 in Hcls2.
  pose proof (second_pass_matches d d1 d2 C0 C1 Hok0 Hok1 HC0 Hc0 HC1 Hsame Honly1 Hcls2 Honly2 Hall2) as Hm2.
  destruct (Plan_ok d2 Hok2) as (C2 & HP2 & HC2). destruct (matches_no_diff _ _ HC2 Hm2) as [HA2 HR2].
  cbn [reconcile_loop]. rewrite HP2, HA2, HR2. do 3 eexists. split; [reflexivity|].
  split_and!; [split_and!; reflexivity|done|done|done|]. by apply (matches_settled d1 d2 C1).
Qed.
End run.
End desired.
End contract.

(** ** Versions *)

(** The order in which intents supersede each other. *)
Definition not_before (a b : NodeIntent) : Prop :=
  ni_Version a < ni_Version b ∨ ni_Version a = ni_Version b ∧ ni_Generation a ≤ ni_Generation b.

Lemma not_before_trans a b c : not_before a b → not_before b c → not_before a c.
Proof. unfold not_before. lia. Qed.

Lemma stale_spec r ni c : rc_current r = Some c → stale r ni = false → not_before c ni.
Proof.
  intros Hc. unfold stale, not_before. rewrite Hc, orb_false_iff, andb_false_iff, !Z.ltb_ge, Z.eqb_neq. lia.
Qed.

Section versions.
Context `{RangeOrder} {D : Type} `{Dataplane D}.

(** Planning refuses what the reconciler must not run. *)
Lemma loop_converged_admits n p r (d : D) ni oc d' oc' :
  reconcile_loop n p r d ni oc = (d', oc') → oc_converged oc' = true →
  ni_NodeType ni = rc_nodeType r ∧ stale r ni = false.
Proof.
  destruct n as [|n]; cbn [reconcile_loop]; [by intros [= <- <-]|].
  destruct (Plan r d ni) as [[C des]|e] eqn:HP; [|by intros [= <- <-]]. intros _ _. unfold Plan in HP.
  destruct (bool_decide (ni_NodeType ni = rc_nodeType r)) eqn:Ht; [|done]. apply bool_decide_eq_true in Ht.
  split; [done|]. by destruct (stale r ni).
Qed.

Lemma report_current r rep ni oc now : rc_current (report r rep ni oc now).1 = rc_current r.
Proof. unfold report. destruct rep, (oc_current oc); done. Qed.

Lemma Reconcile_current r (d : D) ni rep now c :
  rc_current r = Some c →
  ∃ c', rc_current (Reconcile r d ni rep now).1.1.1 = Some c' ∧ not_before c c'.
Proof.
  intros Hc. unfold Reconcile. destruct (reconcile_loop _ _ _ _ _ _) as [d' oc] eqn:Hl.
  destruct (report _ rep ni oc now) as [r' st] eqn:Hr. simpl.
  assert (rc_current r' = if oc_converged oc then Some ni else rc_current r) as ->.
  { rewrite <-(f_equal fst Hr : _ = r'), report_current. by destruct (oc_converged oc). }
  destruct (oc_converged oc) eqn:Hconv.
  - exists ni. split; [done|]. destruct (loop_converged_admits _ _ _ _ _ _ _ _ Hl Hconv) as [_ Hs].
    by eapply stale_spec.
  - exists c. split; [done|]. right. lia.
Qed.
End versions.

(** ** What a rendering gives the reconciler *)

Lemma puts_NoDup rs r :
  NoDup (rkey <$> rs) → foldl put ∅ rs !! rkey r = Some r ↔ r ∈ rs.
Proof.
  intros Hnd. split; [by intros [[? _]|?%lookup_empty_Some]%puts_lookup|]. intros Hr.
  destruct (puts_is_Some rs ∅ (rkey r)) as [r' Hr']; [right; eauto|]. rewrite Hr'. f_equal.
  apply puts_lookup in Hr' as [[Hin Hk]|?%lookup_empty_Some]; [|done].
  apply list_elem_of_lookup in Hr as [i Hi]. apply list_elem_of_lookup in Hin as [j Hj].
  assert (i = j) as ->; [|congruence].
  eapply NoDup_lookup; [exact Hnd|rewrite list_lookup_fmap, Hi; done|rewrite list_lookup_fmap, Hj; simpl; by rewrite Hk].
Qed.

(** Resources with different keys and identities that are ready among
    themselves are what a kernel can hold. *)
Lemma desired_ok_puts rs :
  NoDup (rkey <$> rs) → NoDup (rkid <$> rs) →
  (∀ V : view, (∀ r, r ∈ rs → V (rkid r) = Some r) → (∀ k r, V k = Some r → r ∈ rs) → ∀ r, r ∈ rs → ready V r) →
  desired_ok (foldl put ∅ rs).
Proof.
  intros Hkey Hkid Hready.
  assert (∀ key r, foldl put ∅ rs !! key = Some r → rkey r = key ∧ r ∈ rs) as Hin.
  { intros key r [[? ?]|?%lookup_empty_Some]%puts_lookup; done. }
  assert (∀ r1 r2, r1 ∈ rs → r2 ∈ rs → rkid r1 = rkid r2 → r1 = r2) as Hinj.
  { intros r1 r2 [i Hi]%list_elem_of_lookup [j Hj]%list_elem_of_lookup He.
    assert (i = j) as ->; [|congruence].
    eapply NoDup_lookup; [exact Hkid|rewrite list_lookup_fmap, Hi; done|rewrite list_lookup_fmap, Hj; simpl; by rewrite He]. }
  assert (∀ k r, des_view (foldl put ∅ rs) k = Some r ↔ r ∈ rs ∧ rkid r = k) as Hview.
  { intros k r. unfold wanted in *. rewrite des_view_iff by naive_solver. unfold wanted. by rewrite puts_NoDup. }
  split.
  - intros key r Hr. by apply Hin in Hr as [? _].
  - intros r1 r2 [_ H1]%Hin [_ H2]%Hin. by apply Hinj.
  - intros r [_ Hr]%Hin. apply Hready; [..|done]; intros; by apply Hview || (by eapply Hview).
Qed.

(** A portal's rendering is such a set once its site prefix has no host bits. *)
Lemma RenderCPE_desired_ok cpe des :
  canonical (cpe_SitePrefix cpe) → RenderCPEIntent cpe = Ok des → desired_ok des.
Proof.
  intros Hc. unfold RenderCPEIntent.
  destruct (cpe_TunnelInterfaceID cpe =? 0); [intros [= <-]; split; unfold wanted; by intros *; rewrite ?lookup_empty|].
  destruct (negb _); [done|]. intros [= <-].
  match goal with |- desired_ok (put (put (put _ ?a) ?b) ?c) => apply (desired_ok_puts [a; b; c]) end.
  - repeat constructor; intros Hin; repeat (apply elem_of_cons in Hin as [Hin|Hin]); try done; by apply not_elem_of_nil in Hin.
  - repeat constructor; intros Hin; repeat (apply elem_of_cons in Hin as [Hin|Hin]); try done; by apply not_elem_of_nil in Hin.
  - intros V Hall Honly r Hr. repeat (apply elem_of_cons in Hr as [->|Hr]); [..|by apply not_elem_of_nil in Hr]; simpl.
    + by left.
    + split; [by split|]. right. eexists. split; [exact (Hall _ (list_elem_of_here _ _))|].
      intros k v Hv. apply Honly in Hv. repeat (apply elem_of_cons in Hv as [?|Hv]; [done|]). by apply not_elem_of_nil in Hv.
    + done.
Qed.

(** A whole run, from a state that nothing contradicts. *)
Lemma reconcile_run `{RangeOrder} {D : Type} `{DataplaneContract D} des r (d : D) ni rep now :
  ni_NodeType ni = rc_nodeType r → stale r ni = false →
  render_intent (ni_Intent ni) = Ok des → desired_ok des →
  dp_ok d → settled d → compatible des (dp_view d) →
  let '(r', d', oc, _) := Reconcile r d ni rep now in
  oc_converged oc = true ∧ oc_err oc = None ∧ (oc_passes oc ≤ maxPasses)%nat ∧
  rc_current r' = Some ni ∧ dp_ok d' ∧ settled d' ∧
  ∀ key, is_Some (des !! key) ↔ ∃ k res, dp_view d' k = Some res ∧ rkey res = key.
Proof.
  intros Ht Hs Hr Hdes Hok Hset Hcomp. unfold Reconcile, maxPasses.
  destruct (loop_converges des Hdes r ni Ht Hs Hr d outcome_start Hok Hset Hcomp)
    as (d' & oc & p & -> & (Hconv & Herr & Hp) & Hp3 & Hok' & Hm & Hset').
  rewrite Hconv. destruct (report _ rep ni oc now) as [r' st] eqn:Hrep.
  split_and!; [done|done|lia| |done|done|].
  - by rewrite <-(f_equal fst Hrep : _ = r'), report_current.
  - intros key. split.
    + intros [w Hw]. pose proof (de_key _ Hdes _ _ Hw) as Hk. rewrite <-Hk in Hw.
      destruct (mt_all _ _ Hm w Hw) as (res & Hres & (Hkr & _)). exists (rkid w), res. split; [done|congruence].
    + intros (k & res & Hres & <-). destruct (mt_only _ _ Hm _ _ Hres) as (w & Hw & _ & (-> & _)). by exists w.
Qed.

(** ** Properties *)


(** A portal's intent for the witnesses, of a given version and generation. *)
Definition demo_cpe : CPEIntent :=
  {| cpe_PortalID := "portal-1"; cpe_TunnelInterfaceID := 7; cpe_TunnelPE := "pe-1"; cpe_TunnelPEEndpointAddr := AddrZero;
     cpe_TenantID := "1"; cpe_TenantPrefix := prefix_zero; cpe_SitePrefix := MkPrefix (Addr6 (Z.shiftl 64768 112)) 48 |}.
Definition demo_intent (version generation : Z) : NodeIntent :=
  {| ni_ID := "portal-1"; ni_NodeType := NodeTypeCPE; ni_Intent := IntentCPE demo_cpe; ni_Timestamp := 0;
     ni_Generation := generation; ni_Version := version |}.
Definition demo_resources : resources := match RenderCPEIntent demo_cpe with Ok rs => rs | Err _ => ∅ end.
Definition demo_run : Reconciler * mem * run_outcome * option NodeState :=
  @Reconcile canonical_order mem _ (NewReconciler NodeTypeCPE) mem_empty (demo_intent 1 1) true 0.


(** C25: a node never goes back.  Over any dataplane and any sequence of
    intents, the intent a node last converged on is never replaced by one with
    a lower version, or the same version and a lower generation; and a run on
    an intent that is stale, or meant for the other kind of node, fails at once
    without a call that changes the dataplane. *)
Theorem intents_never_regress `{RangeOrder} {D : Type} `{Dataplane D} r (d : D) rep now feed c ni :
  rc_current r = Some c →
  (∃ c', rc_current (foldl (start_step rep now) (r, d) feed).1 = Some c' ∧ not_before c c') ∧
  (stale r ni = true ∨ ni_NodeType ni ≠ rc_nodeType r →
   let '(r', d', oc, _) := Reconcile r d ni rep now in
   d' = d ∧ rc_current r' = Some c ∧ oc_converged oc = false ∧
   (oc_err oc = Some StaleIntent ∨ oc_err oc = Some WrongNodeType)).
Proof.
  intros Hc. split.
  - apply (foldl_ind _ (λ _ s, ∃ c', rc_current s.1 = Some c' ∧ not_before c c')).
    { exists c. split; [done|]. right. lia. }
    intros _ i [r0 d0] (c0 & Hc0 & Hb) _. unfold start_step. simpl.
    destruct (Reconcile_current r0 d0 i rep now c0 Hc0) as (c' & Hc' & Hb').
    destruct (Reconcile r0 d0 i rep now) as [[[r1 d1] oc] st]. simpl in *. exists c'. split; [done|].
    by eapply not_before_trans.
  - intros Hbad. unfold Reconcile, maxPasses. cbn [reconcile_loop].
    assert (∃ e, Plan r d ni = Err e ∧ (e = StaleIntent ∨ e = WrongNodeType)) as (e & -> & He).
    { unfold Plan. case_bool_decide as Ht; simpl; [|eauto]. destruct Hbad as [->|?]; [eauto|done]. }
    cbn [oc_converged]. destruct (report r rep ni _ now) as [r' st] eqn:Hr.
    rewrite <-(f_equal fst Hr : _ = r'), report_current. destruct He as [-> | ->]; simpl; auto.
Qed.

(** C25, instantiated: version 2 stays in force when version 1 comes after it. *)
Example intents_never_regress_witness :
  let r := {| rc_nodeType := NodeTypeCPE; rc_current := Some (demo_intent 2 5); rc_lastCurrent := None; rc_lastDesired := None |} in
  let '(r', d', oc, _) := @Reconcile canonical_order mem _ r mem_empty (demo_intent 1 9) true 0 in
  d' = mem_empty ∧ rc_current r' = Some (demo_intent 2 5) ∧ oc_converged oc = false ∧
  (oc_err oc = Some StaleIntent ∨ oc_err oc = Some WrongNodeType).
Proof.
  intros r.
  apply (@intents_never_regress canonical_order mem _ r mem_empty true 0 [] (demo_intent 2 5) (demo_intent 1 9));
    [reflexivity|left; vm_compute; reflexivity].
Defined.
