(* ===== verification/RenderCorrect.v ===== *)
(** What the rendering of a PE's intent gives: exactly the resources the
    intent asks for, routing tables that belong to one tenant each, table
    numbers in their ranges, and, for a consistent intent, a set the
    reconciler can reach. *)

From S2P Require Import Prelude Netip Topology Sid Registry Resource Reconcile Contract MemDataplane ReconcileCorrect.

#[local] Opaque StringToID ColorTableID u32 u64 i64.

(** ** What an intent asks for *)

Definition vrf_of (tid : string) : VRF :=
  {| vrf_Name := vrf_name tid; vrf_TableID := StringToID tid; vrf_Index := 0 |}.
Definition sid_of (tid : string) (sid : Addr) : SID :=
  {| sid_SIDType := EncapTypeDT46; sid_SID := sid; sid_TableID := StringToID tid; sid_Metric := 0; sid_VrfTableID := 0 |}.
Definition xfrm_of (tid : string) (p : PE_PortalIntent) : XFRM :=
  {| xfrm_Name := tun_name tid (po_TunnelInterfaceID p); xfrm_IfID := po_TunnelInterfaceID p;
     xfrm_Parent := po_HostFacingInterface p; xfrm_MasterVRF := vrf_name tid; xfrm_Index := 0 |}.
Definition route_of (tid : string) (p : PE_PortalIntent) : Route :=
  {| rt_Table := StringToID tid; rt_Dst := po_SitePrefix p; rt_Dev := tun_name tid (po_TunnelInterfaceID p);
     rt_Via := AddrZero; rt_Metric := 0 |}.
Definition sr_of (tid : string) (path : PESIDInstallIntent) (prefix : Prefix) : SRRoute :=
  {| sr_Prefix := prefix; sr_Segments := rev (ii_Segments path); sr_Table := ColorTableID (StringToID tid) (ii_Color path);
     sr_Color := ii_Color path |}.
Definition class_of (color dscp : Z) : Classification := {| cl_Classifier := u32 dscp; cl_Mark := u32 color |}.

(** The resources of a PE, read off its intent. *)
Inductive asked (pe : PEIntent) : Resource → Prop :=
  | asked_class c dscp : c ∈ pei_TrafficClassIntent pe → dscp ∈ tci_DSCP c → asked pe (RClassification (class_of (tci_Color c) dscp))
  | asked_vrf tid t : pei_Tenants pe !! tid = Some t → asked pe (RVRF (vrf_of tid))
  | asked_sid tid t : pei_Tenants pe !! tid = Some t → addr_is_valid (ti_DT46SID t) = true → asked pe (RSID (sid_of tid (ti_DT46SID t)))
  | asked_xfrm tid t id p : pei_Tenants pe !! tid = Some t → ti_PortalIntents t !! id = Some p → asked pe (RXFRM (xfrm_of tid p))
  | asked_route tid t id p : pei_Tenants pe !! tid = Some t → ti_PortalIntents t !! id = Some p → asked pe (RRoute (route_of tid p))
  | asked_sr tid t path prefix : pei_Tenants pe !! tid = Some t → path ∈ ti_InstallPaths t → prefix ∈ ii_PrefixRoutes path →
      asked pe (RSRRoute (sr_of tid path prefix))
  | asked_rule tid t path prefix : pei_Tenants pe !! tid = Some t → path ∈ ti_InstallPaths t → prefix ∈ ii_PrefixRoutes path →
      asked pe (color_rule tid (ii_Color path)).

(** Tenants do not share a routing table. *)
Definition tables_apart (pe : PEIntent) : Prop :=
  ∀ tid1 t1 p1 tid2 t2 p2,
    pei_Tenants pe !! tid1 = Some t1 → p1 ∈ ti_InstallPaths t1 → pei_Tenants pe !! tid2 = Some t2 → p2 ∈ ti_InstallPaths t2 →
    ColorTableID (StringToID tid1) (ii_Color p1) = ColorTableID (StringToID tid2) (ii_Color p2) →
    ii_TenantID p1 = ii_TenantID p2.

(** ** Sets of resources by key *)

(** Every entry is under its key and satisfies [P]. *)
Definition only (P : Resource → Prop) (rs : resources) : Prop := ∀ key r, rs !! key = Some r → rkey r = key ∧ P r.
(** The keys of [rs] are kept. *)
Definition grows (rs rs' : resources) : Prop := ∀ key, is_Some (rs !! key) → is_Some (rs' !! key).
Definition has (rs : resources) (r : Resource) : Prop := is_Some (rs !! rkey r).

Lemma only_empty P : only P ∅.
Proof. intros key r. by rewrite lookup_empty. Qed.
Lemma only_put P rs r : only P rs → P r → only P (put rs r).
Proof. intros Hrs Hr key r'. unfold put. rewrite lookup_insert_Some. intros [[<- <-]|[_ ?]]; auto. Qed.

#[export] Instance grows_preorder : PreOrder grows.
Proof. split; unfold grows; [intros rs|intros rs1 rs2 rs3]; auto. Qed.
Lemma grows_put rs r : grows rs (put rs r).
Proof. intros key [r' Hr']. unfold put. destruct (decide (rkey r = key)) as [<-|]; [rewrite lookup_insert_eq|rewrite lookup_insert_ne by done]; eauto. Qed.
Lemma has_put rs r : has (put rs r) r.
Proof. unfold has, put. rewrite lookup_insert_eq. eauto. Qed.
Lemma has_grows rs rs' r : grows rs rs' → has rs r → has rs' r.
Proof. unfold grows, has. auto. Qed.

#[export] Hint Resolve only_empty only_put grows_put has_put has_grows : maeto.

(** A loop whose steps only extend the state extends it. *)
Lemma foldl_extends {S A} (R : relation S) `{!PreOrder R} (f : S → A → S) l s :
  (∀ s a, R s (f s a)) → R s (foldl f s l).
Proof. intros Hf. revert s. induction l as [|a l IH]; intros s; simpl; [reflexivity|]. etransitivity; [apply Hf|apply IH]. Qed.

Lemma foldl_has {A} (f : resources → A → resources) l rs a r :
  (∀ rs a, grows rs (f rs a)) → a ∈ l → (∀ rs, has (f rs a) r) → has (foldl f rs l) r.
Proof.
  intros Hf Ha Hr. revert rs. induction l as [|b l IH]; intros rs; [by apply not_elem_of_nil in Ha|]. simpl.
  apply elem_of_cons in Ha as [<-|Ha]; [|by apply IH]. eapply has_grows; [|apply Hr]. by apply (foldl_extends grows).
Qed.

(** ** The loops *)

Section pe.
Context (pe : PEIntent).

(** Where a table's owner and an SR route come from. *)
Definition table_of (tbl : Z) (owner : string) : Prop :=
  ∃ tid t path, pei_Tenants pe !! tid = Some t ∧ path ∈ ti_InstallPaths t ∧
    tbl = ColorTableID (StringToID tid) (ii_Color path) ∧ owner = ii_TenantID path.

Definition owned (owner : gmap Z string) (r : Resource) : Prop :=
  asked pe r ∧ ∀ s, r = RSRRoute s →
    ∃ tid t path prefix, pei_Tenants pe !! tid = Some t ∧ path ∈ ti_InstallPaths t ∧ prefix ∈ ii_PrefixRoutes path ∧
      s = sr_of tid path prefix ∧ owner !! sr_Table s = Some (ii_TenantID path).

Record tables_ok (rs : resources) (owner : gmap Z string) : Prop := {
  to_only : only (owned owner) rs;
  to_from : ∀ tbl id, owner !! tbl = Some id → table_of tbl id;
}.

Lemma owned_weaken owner owner' r : owner ⊆ owner' → owned owner r → owned owner' r.
Proof.
  intros Hs [Ha Ho]. split; [done|]. intros s Hr. destruct (Ho s Hr) as (tid & t & path & prefix & ? & ? & ? & ? & ?).
  exists tid, t, path, prefix. split_and!; try done. by eapply lookup_weaken.
Qed.

Lemma only_weaken (P Q : Resource → Prop) rs : (∀ r, P r → Q r) → only P rs → only Q rs.
Proof. intros HPQ Hrs key r Hr. destruct (Hrs key r Hr). auto. Qed.

Lemma owned_asked owner r : asked pe r → (∀ s, r ≠ RSRRoute s) → owned owner r.
Proof. intros Ha Hn. split; [done|]. intros s ->. by destruct (Hn s). Qed.

Section tenant.
Context (tid : string) (t : TenantIntent) (Ht : pei_Tenants pe !! tid = Some t).

Lemma portal_render_ok owner rs id p :
  ti_PortalIntents t !! id = Some p → only (owned owner) rs → only (owned owner) (portal_render tid (StringToID tid) rs p).
Proof.
  intros Hp Hrs. apply only_put; [apply only_put; [done|]|]; (apply owned_asked; [|done]).
  - by eapply (asked_xfrm pe tid t id p).
  - by eapply (asked_route pe tid t id p).
Qed.

Lemma portal_render_grows rs p : grows rs (portal_render tid (StringToID tid) rs p).
Proof. unfold portal_render. etransitivity; apply grows_put. Qed.

(** The loop over the install paths. *)
Record sr_ok (s : sr_state) : Prop := {
  so_tables : tables_ok (ss_resources s) (ss_owner s);
  so_colors : ∀ c, c ∈ ss_colors s → ∃ path prefix, path ∈ ti_InstallPaths t ∧ prefix ∈ ii_PrefixRoutes path ∧ c = ii_Color path;
}.

Definition sr_grows (s s' : sr_state) : Prop :=
  grows (ss_resources s) (ss_resources s') ∧ ss_colors s ⊆ ss_colors s'.
#[local] Instance sr_grows_preorder : PreOrder sr_grows.
Proof. split; unfold sr_grows; [intros s; by split|]. intros s1 s2 s3 [? ?] [? ?]. split; etransitivity; eauto. Qed.

Lemma sr_prefix_render_grows path s prefix : sr_grows s (sr_prefix_render (StringToID tid) path s prefix).
Proof. clear dependent t. unfold sr_prefix_render. destruct (table_collision _ _ _); split; cbn [ss_resources ss_colors]; [reflexivity|set_solver|apply grows_put|set_solver]. Qed.

Lemma sr_prefix_render_ok path s prefix :
  path ∈ ti_InstallPaths t → prefix ∈ ii_PrefixRoutes path → sr_ok s → sr_ok (sr_prefix_render (StringToID tid) path s prefix).
Proof.
  intros Hp Hx [[Ho Hf] Hc].
  assert (∀ c, c ∈ {[ii_Color path]} ∪ ss_colors s → ∃ path prefix, path ∈ ti_InstallPaths t ∧ prefix ∈ ii_PrefixRoutes path ∧ c = ii_Color path) as Hc'.
  { intros c. rewrite elem_of_union, elem_of_singleton. intros [->|?]; eauto. }
  unfold sr_prefix_render. destruct (table_collision _ _ _) eqn:Hcol; [by split|]. split; [|done]. cbn [ss_resources ss_owner].
  assert (ss_owner s ⊆ <[ColorTableID (StringToID tid) (ii_Color path) := ii_TenantID path]> (ss_owner s)) as Hsub.
  { apply map_subseteq_spec. intros tbl id Hid. apply lookup_insert_Some. destruct (decide (ColorTableID (StringToID tid) (ii_Color path) = tbl)) as [<-|]; [|by right].
    left. split; [done|]. unfold table_collision in Hcol. rewrite Hid in Hcol. apply negb_false_iff, String.eqb_eq in Hcol. done. }
  split.
  - apply only_put; [eapply only_weaken; [|exact Ho]; intros r; by apply owned_weaken|].
    split; [by eapply (asked_sr pe tid t path prefix)|]. intros s' [= <-]. exists tid, t, path, prefix. split_and!; try done.
    apply lookup_insert_eq.
  - intros tbl id [[<- <-]|[_ ?]]%lookup_insert_Some; [|auto]. by exists tid, t, path.
Qed.

Lemma sr_path_render_ok path s :
  path ∈ ti_InstallPaths t → sr_ok s → sr_ok (sr_path_render (StringToID tid) s path).
Proof.
  intros Hp Hs. unfold sr_path_render. apply (foldl_ind _ (λ _ s, sr_ok s)); [done|].
  intros _ prefix s' Hs' Hin. by apply sr_prefix_render_ok.
Qed.

Lemma sr_path_render_grows path s : sr_grows s (sr_path_render (StringToID tid) s path).
Proof.
  apply (foldl_extends sr_grows). intros. apply sr_prefix_render_grows.
Qed.

Lemma sr_paths_render_grows l s : sr_grows s (foldl (sr_path_render (StringToID tid)) s l).
Proof.
  apply (foldl_extends sr_grows). intros. apply sr_path_render_grows.
Qed.

Lemma sr_paths_render_ok s : sr_ok s → sr_ok (foldl (sr_path_render (StringToID tid)) s (ti_InstallPaths t)).
Proof.
  intros Hs. apply (foldl_ind _ (λ _ s, sr_ok s)); [done|]. intros _ path s' Hs' Hin. by apply sr_path_render_ok.
Qed.

(** Without a shared table, each prefix of a path gets its route and its color. *)
Lemma sr_prefix_render_has path s prefix :
  tables_apart pe → path ∈ ti_InstallPaths t → sr_ok s →
  let s' := sr_prefix_render (StringToID tid) path s prefix in
  has (ss_resources s') (RSRRoute (sr_of tid path prefix)) ∧ ii_Color path ∈ ss_colors s'.
Proof.
  intros Hap Hp [[_ Hf] _]. unfold sr_prefix_render.
  assert (table_collision (ss_owner s) (ColorTableID (StringToID tid) (ii_Color path)) (ii_TenantID path) = false) as ->.
  { unfold table_collision. destruct (ss_owner s !! _) as [id|] eqn:Hid; [|done]. destruct (Hf _ _ Hid) as (tid' & t' & path' & Ht' & Hp' & Htbl & ->).
    apply negb_false_iff, String.eqb_eq. symmetry. by eapply (Hap tid t path tid' t' path'). }
  cbn [ss_resources ss_colors]. split; [apply (has_put _ (RSRRoute (sr_of tid path prefix)))|set_solver].
Qed.

Lemma sr_paths_render_has path prefix s :
  tables_apart pe → path ∈ ti_InstallPaths t → prefix ∈ ii_PrefixRoutes path → sr_ok s →
  let s' := foldl (sr_path_render (StringToID tid)) s (ti_InstallPaths t) in
  has (ss_resources s') (RSRRoute (sr_of tid path prefix)) ∧ ii_Color path ∈ ss_colors s'.
Proof.
  intros Hap Hp Hx Hs. apply list_elem_of_split in Hp as Hsp. destruct Hsp as (l1 & l2 & Hl).
  rewrite Hl, foldl_app. cbn [foldl]. set (s1 := foldl _ s l1).
  assert (sr_ok s1) as Hs1.
  { apply (foldl_ind _ (λ _ s, sr_ok s)); [done|]. intros _ p s' Hs' Hin. apply sr_path_render_ok; [|done].
    rewrite Hl. apply elem_of_app. by left. }
  destruct (sr_paths_render_grows l2 (sr_path_render (StringToID tid) s1 path)) as [Hg Hc].
  enough (has (ss_resources (sr_path_render (StringToID tid) s1 path)) (RSRRoute (sr_of tid path prefix)) ∧
          ii_Color path ∈ ss_colors (sr_path_render (StringToID tid) s1 path)) as [? ?] by (split; [by eapply has_grows|by apply Hc]).
  clearbody s1. clear Hg Hc. unfold sr_path_render. apply list_elem_of_split in Hx as Hsp. destruct Hsp as (x1 & x2 & Hxl).
  rewrite Hxl, foldl_app. cbn [foldl]. set (s2 := foldl _ s1 x1).
  assert (sr_ok s2) as Hs2.
  { apply (foldl_ind _ (λ _ s, sr_ok s)); [done|]. intros _ x s' Hs' Hin. apply sr_prefix_render_ok; [done| |done].
    rewrite Hxl. apply elem_of_app. by left. }
  destruct (sr_prefix_render_has path s2 prefix Hap Hp Hs2) as [Hh Hcol].
  destruct (foldl_extends sr_grows (sr_prefix_render (StringToID tid) path) x2 (sr_prefix_render (StringToID tid) path s2 prefix)) as [Hg Hc];
    [intros; apply sr_prefix_render_grows|].
  split; [by eapply has_grows|by apply Hc].
Qed.
End tenant.

(** ** A tenant *)

Section tenants.
Context `{RangeOrder}.

Lemma elem_of_color_range (cs : gset Z) c :
  c ∈ (range_map (set_to_map (λ c, (c, tt)) cs : gmap Z unit)).*1 ↔ c ∈ cs.
Proof.
  rewrite list_elem_of_fmap. split.
  - intros ([c' []] & -> & Hc). simpl in Hc. apply elem_of_range_map in Hc.
    rewrite lookup_set_to_map in Hc by done. naive_solver.
  - intros Hc. exists (c, tt). split; [done|]. apply elem_of_range_map. rewrite lookup_set_to_map by done. eauto.
Qed.

Definition tenant_start (rs : resources) (tid : string) (t : TenantIntent) : resources :=
  let rs := put rs (RVRF (vrf_of tid)) in
  let rs := if addr_is_valid (ti_DT46SID t) then put rs (RSID (sid_of tid (ti_DT46SID t))) else rs in
  foldl (portal_render tid (StringToID tid)) rs (range_map (ti_PortalIntents t)).*2.

Definition tenant_paths (rs : resources) (owner : gmap Z string) (tid : string) (t : TenantIntent) : sr_state :=
  foldl (sr_path_render (StringToID tid)) {| ss_resources := tenant_start rs tid t; ss_owner := owner; ss_colors := ∅ |}
    (ti_InstallPaths t).

Lemma tenant_render_eq rs owner tid t :
  tenant_render (rs, owner) (tid, t) =
  (let s := tenant_paths rs owner tid t in
   (foldl (λ rs color, put rs (color_rule tid color)) (ss_resources s)
      (range_map (set_to_map (λ c, (c, tt)) (ss_colors s) : gmap Z unit)).*1, ss_owner s)).
Proof. reflexivity. Qed.

Lemma tenant_start_grows rs tid t : grows rs (tenant_start rs tid t).
Proof.
  unfold tenant_start. etransitivity; [apply grows_put|]. etransitivity; [|apply (foldl_extends grows); intros; apply portal_render_grows].
  destruct (addr_is_valid _); [apply grows_put|reflexivity].
Qed.

Lemma tenant_start_ok rs owner tid t :
  pei_Tenants pe !! tid = Some t → only (owned owner) rs → only (owned owner) (tenant_start rs tid t).
Proof.
  intros Ht Hrs. unfold tenant_start. apply (foldl_ind _ (λ _ rs, only (owned owner) rs)).
  - assert (only (owned owner) (put rs (RVRF (vrf_of tid)))) by (apply only_put; [done|apply owned_asked; [by eapply asked_vrf|done]]).
    destruct (addr_is_valid _) eqn:Hv; [|done]. apply only_put; [done|]. apply owned_asked; [by eapply asked_sid|done].
  - intros _ p rs' Hrs' ([id p'] & -> & Hp)%list_elem_of_fmap. apply elem_of_range_map in Hp. by eapply portal_render_ok.
Qed.

Lemma tenant_paths_ok rs owner tid t :
  pei_Tenants pe !! tid = Some t → tables_ok rs owner → sr_ok t (tenant_paths rs owner tid t).
Proof.
  intros Ht [Ho Hf]. apply sr_paths_render_ok; [done|]. split; [|cbn [ss_colors]; set_solver].
  split; [by apply tenant_start_ok|done].
Qed.

Lemma tenant_render_ok s kt :
  pei_Tenants pe !! kt.1 = Some kt.2 → tables_ok s.1 s.2 → tables_ok (tenant_render s kt).1 (tenant_render s kt).2.
Proof.
  destruct s as [rs owner], kt as [tid t]. intros Ht Hs. simpl in Ht, Hs. rewrite tenant_render_eq.
  destruct (tenant_paths_ok rs owner tid t Ht Hs) as [[Ho Hf] Hc]. split; [|done]. simpl.
  apply (foldl_ind _ (λ _ rs, only (owned _) rs)); [done|].
  intros _ c rs' Hrs' (path & prefix & Hp & Hx & ->)%elem_of_color_range%Hc. apply only_put; [done|].
  apply owned_asked; [|done]. by eapply asked_rule.
Qed.

Lemma tenant_render_grows s kt : grows s.1 (tenant_render s kt).1.
Proof.
  destruct s as [rs owner], kt as [tid t]. rewrite tenant_render_eq. simpl.
  etransitivity; [apply (tenant_start_grows rs tid t)|].
  etransitivity; [|apply (foldl_extends grows); intros; apply grows_put].
  exact (proj1 (sr_paths_render_grows tid (ti_InstallPaths t)
    {| ss_resources := tenant_start rs tid t; ss_owner := owner; ss_colors := ∅ |})).
Qed.

(** What a tenant asks for is there after its turn. *)
Lemma tenant_start_has rs tid t :
  has (tenant_start rs tid t) (RVRF (vrf_of tid)) ∧
  (addr_is_valid (ti_DT46SID t) = true → has (tenant_start rs tid t) (RSID (sid_of tid (ti_DT46SID t)))) ∧
  ∀ id p, ti_PortalIntents t !! id = Some p →
    has (tenant_start rs tid t) (RXFRM (xfrm_of tid p)) ∧ has (tenant_start rs tid t) (RRoute (route_of tid p)).
Proof.
  unfold tenant_start. set (rs1 := put rs _). set (rs2 := if addr_is_valid _ then _ else _).
  assert (grows rs1 rs2) as H12 by (unfold rs2; destruct (addr_is_valid _); [apply grows_put|reflexivity]).
  assert (∀ l rs, grows rs (foldl (portal_render tid (StringToID tid)) rs l)) as Hg
    by (intros; apply (foldl_extends grows); intros; apply portal_render_grows).
  split_and!.
  - eapply has_grows; [apply Hg|]. eapply has_grows; [exact H12|apply has_put].
  - intros Hv. eapply has_grows; [apply Hg|]. unfold rs2. rewrite Hv. apply has_put.
  - intros id p Hp. assert (p ∈ (range_map (ti_PortalIntents t)).*2) as Hin.
    { apply list_elem_of_fmap. exists (id, p). split; [done|]. by apply elem_of_range_map. }
    split; (eapply foldl_has; [intros; apply portal_render_grows|exact Hin|]); intros rs3.
    + eapply has_grows; [apply grows_put|]. apply (has_put rs3 (RXFRM (xfrm_of tid p))).
    + apply (has_put _ (RRoute (route_of tid p))).
Qed.

Lemma tenant_render_has rs owner tid t r :
  tables_apart pe → tables_ok rs owner → pei_Tenants pe !! tid = Some t →
  (r = RVRF (vrf_of tid) ∨
   (addr_is_valid (ti_DT46SID t) = true ∧ r = RSID (sid_of tid (ti_DT46SID t))) ∨
   (∃ id p, ti_PortalIntents t !! id = Some p ∧ (r = RXFRM (xfrm_of tid p) ∨ r = RRoute (route_of tid p))) ∨
   (∃ path prefix, path ∈ ti_InstallPaths t ∧ prefix ∈ ii_PrefixRoutes path ∧
      (r = RSRRoute (sr_of tid path prefix) ∨ r = color_rule tid (ii_Color path)))) →
  has (tenant_render (rs, owner) (tid, t)).1 r.
Proof.
  intros Hap Hok Ht Hr. rewrite tenant_render_eq. simpl. set (s := tenant_paths rs owner tid t).
  assert (grows (ss_resources s) (foldl (λ rs color, put rs (color_rule tid color)) (ss_resources s)
            (range_map (set_to_map (λ c, (c, tt)) (ss_colors s) : gmap Z unit)).*1)) as Hg
    by (apply (foldl_extends grows); intros; apply grows_put).
  assert (grows (tenant_start rs tid t) (ss_resources s)) as Hs
    by exact (proj1 (sr_paths_render_grows tid (ti_InstallPaths t) {| ss_resources := tenant_start rs tid t; ss_owner := owner; ss_colors := ∅ |})).
  destruct (tenant_start_has rs tid t) as (Hv & Hi & Hp).
  destruct Hr as [->|[[Hva ->]|[(id & p & Hpp & Hr)|(path & prefix & Hpath & Hx & Hr)]]].
  - by eapply has_grows, has_grows.
  - eapply has_grows, has_grows; eauto.
  - destruct (Hp id p Hpp). eapply has_grows, has_grows; [done|done|]. by destruct Hr as [-> | ->].
  - destruct (sr_paths_render_has tid t Ht path prefix
      {| ss_resources := tenant_start rs tid t; ss_owner := owner; ss_colors := ∅ |} Hap Hpath Hx) as [Hh Hc].
    { destruct Hok. split; [|cbn [ss_colors]; set_solver]. split; [by apply tenant_start_ok|done]. }
    destruct Hr as [-> | ->]; [by eapply has_grows|].
    eapply foldl_has; [intros; apply grows_put|by apply elem_of_color_range|]. intros. apply has_put.
Qed.

(** ** The whole intent *)

Lemma class_render_spec color rs dscp :
  class_render color rs dscp = (if dscp >=? 255 then Err (DSCPTooBig dscp) else Ok (put rs (RClassification (class_of color dscp)))).
Proof. reflexivity. Qed.

Lemma classes_render_ok rs c rs' :
  c ∈ pei_TrafficClassIntent pe → classes_render rs c = Ok rs' → only (owned ∅) rs →
  only (owned ∅) rs' ∧ grows rs rs' ∧ ∀ dscp, dscp ∈ tci_DSCP c → dscp < 255 ∧ has rs' (RClassification (class_of (tci_Color c) dscp)).
Proof.
  intros Hc Hr Hrs. unfold classes_render in Hr.
  revert Hr. apply (foldM_ind _ (λ done rs', only (owned ∅) rs' ∧ grows rs rs' ∧
    ∀ dscp, dscp ∈ done → dscp < 255 ∧ has rs' (RClassification (class_of (tci_Color c) dscp)))).
  - split_and!; [exact Hrs|reflexivity|]. by intros dscp ?%not_elem_of_nil.
  - intros done dscp rs1 rs2 (Ho & Hg & Hh) Hin. rewrite class_render_spec. destruct (Z.geb_spec dscp 255); [done|].
    intros Heq. injection Heq as <-. split_and!.
    + apply only_put; [exact Ho|]. apply owned_asked; [|done]. exact (asked_class pe c dscp Hc Hin).
    + etransitivity; [exact Hg|apply grows_put].
    + intros d Hd. apply elem_of_app in Hd as [Hd|Hd%list_elem_of_singleton].
      * destruct (Hh d Hd) as [? Hhd]. split; [done|]. exact (has_grows _ _ _ (grows_put _ _) Hhd).
      * subst d. split; [lia|]. apply has_put.
Qed.

Lemma class_err_spec color l rs e :
  foldM (class_render color) rs l = Err e → ∃ dscp, dscp ∈ l ∧ 255 ≤ dscp ∧ e = DSCPTooBig dscp.
Proof.
  revert rs. induction l as [|d l IH]; intros rs; simpl; [done|]. unfold class_render at 1.
  destruct (Z.geb_spec d 255) as [Hd|Hd].
  - intros [= <-]. exists d. split_and!; [by left|lia|done].
  - intros (dscp & ? & ? & ?)%IH. exists dscp. split_and!; [by right|done|done].
Qed.

Lemma classes_err_spec l rs e :
  foldM classes_render rs l = Err e → ∃ c dscp, c ∈ l ∧ dscp ∈ tci_DSCP c ∧ 255 ≤ dscp ∧ e = DSCPTooBig dscp.
Proof.
  revert rs. induction l as [|c l IH]; intros rs; simpl; [done|].
  destruct (classes_render rs c) as [rs'|e'] eqn:Hc.
  - intros (c' & dscp & ? & ?)%IH. exists c', dscp. split; [by right|done].
  - intros Heq. injection Heq as <-. unfold classes_render in Hc. destruct (class_err_spec _ _ _ _ Hc) as (dscp & ?). exists c, dscp. split; [by left|done].
Qed.

Lemma classes_all_ok rs :
  foldM classes_render ∅ (pei_TrafficClassIntent pe) = Ok rs →
  only (owned ∅) rs ∧ ∀ c dscp, c ∈ pei_TrafficClassIntent pe → dscp ∈ tci_DSCP c →
    dscp < 255 ∧ has rs (RClassification (class_of (tci_Color c) dscp)).
Proof.
  apply (foldM_ind _ (λ done rs, only (owned ∅) rs ∧ ∀ c dscp, c ∈ done → dscp ∈ tci_DSCP c →
    dscp < 255 ∧ has rs (RClassification (class_of (tci_Color c) dscp)))).
  - split; [apply only_empty|]. by intros c dscp ?%not_elem_of_nil.
  - intros done c rs1 rs2 [Ho Hh] Hc Hr. destruct (classes_render_ok rs1 c rs2 Hc Hr Ho) as (Ho2 & Hg & Hn).
    split; [exact Ho2|]. intros c' dscp Hc' Hd. apply elem_of_app in Hc' as [Hc'|Hc'%list_elem_of_singleton].
    + destruct (Hh c' dscp Hc' Hd). split; [done|]. by eapply has_grows.
    + subst c'. by apply Hn.
Qed.

Lemma tenants_ok rs :
  only (owned ∅) rs →
  tables_ok (foldl tenant_render (rs, ∅) (range_map (pei_Tenants pe))).1
            (foldl tenant_render (rs, ∅) (range_map (pei_Tenants pe))).2.
Proof.
  intros Hrs. apply (foldl_ind _ (λ _ s, tables_ok s.1 s.2)).
  - split; [done|]. intros tbl id. simpl. by rewrite lookup_empty.
  - intros _ [tid t] s Hs Hin%elem_of_range_map. by apply tenant_render_ok.
Qed.

Lemma tenants_grow rs l owner : grows rs (foldl tenant_render (rs, owner) l).1.
Proof.
  change (grows (rs, owner).1 (foldl tenant_render (rs, owner) l).1). generalize (rs, owner) as s.
  induction l as [|kt l IH]; intros s; simpl; [reflexivity|]. etransitivity; [apply tenant_render_grows|apply IH].
Qed.

Lemma asked_cases r :
  asked pe r →
  (∃ c dscp, c ∈ pei_TrafficClassIntent pe ∧ dscp ∈ tci_DSCP c ∧ r = RClassification (class_of (tci_Color c) dscp)) ∨
  ∃ tid t, pei_Tenants pe !! tid = Some t ∧
  (r = RVRF (vrf_of tid) ∨
   (addr_is_valid (ti_DT46SID t) = true ∧ r = RSID (sid_of tid (ti_DT46SID t))) ∨
   (∃ id p, ti_PortalIntents t !! id = Some p ∧ (r = RXFRM (xfrm_of tid p) ∨ r = RRoute (route_of tid p))) ∨
   (∃ path prefix, path ∈ ti_InstallPaths t ∧ prefix ∈ ii_PrefixRoutes path ∧
      (r = RSRRoute (sr_of tid path prefix) ∨ r = color_rule tid (ii_Color path)))).
Proof.
  destruct 1 as [c dscp Hc Hd|tid t Ht|tid t Ht Hv|tid t id p Ht Hp|tid t id p Ht Hp|tid t path x Ht Hp Hx|tid t path x Ht Hp Hx];
    [left; by exists c, dscp|right; exists tid, t; split; [exact Ht|]..].
  - by left.
  - right; left. by split.
  - right; right; left. exists id, p. split; [exact Hp|by left].
  - right; right; left. exists id, p. split; [exact Hp|by right].
  - right; right; right. exists path, x. split_and!; [exact Hp|exact Hx|by left].
  - right; right; right. exists path, x. split_and!; [exact Hp|exact Hx|by right].
Qed.

Lemma tenants_have rs r :
  tables_apart pe → only (owned ∅) rs → asked pe r →
  (∀ c dscp, c ∈ pei_TrafficClassIntent pe → dscp ∈ tci_DSCP c → has rs (RClassification (class_of (tci_Color c) dscp))) →
  has (foldl tenant_render (rs, ∅) (range_map (pei_Tenants pe))).1 r.
Proof.
  intros Hap Hrs Ha Hcls. destruct (asked_cases r Ha) as [(c & dscp & Hc & Hd & ->)|(tid & t & Ht & Hr)].
  { eapply has_grows; [apply tenants_grow|auto]. }
  pose proof Ht as Hin%elem_of_range_map. apply list_elem_of_split in Hin as (l1 & l2 & Hl). rewrite Hl, foldl_app. simpl.
  destruct (foldl tenant_render (rs, ∅) l1) as [rs1 owner1] eqn:H1.
  destruct (tenant_render (rs1, owner1) (tid, t)) as [rs2 owner2] eqn:H2.
  eapply has_grows; [apply tenants_grow|]. change rs2 with (rs2, owner2).1. rewrite <-H2.
  apply tenant_render_has; [done| |done|done].
  change rs1 with (rs1, owner1).1. change owner1 with (rs1, owner1).2 at 2. rewrite <-H1.
  apply (foldl_ind _ (λ _ s, tables_ok s.1 s.2)); [split; [done|]; intros tbl id; simpl; by rewrite lookup_empty|].
  intros _ [tid' t'] s Hs Hin. apply tenant_render_ok; [|done]. simpl. apply elem_of_range_map.
  rewrite Hl. apply elem_of_app. by left.
Qed.
End tenants.
End pe.

Lemma RenderPE_ok `{RangeOrder} pe rs :
  RenderPEIntent pe = Ok rs →
  only (asked pe) rs ∧ (∀ c dscp, c ∈ pei_TrafficClassIntent pe → dscp ∈ tci_DSCP c → dscp < 255) ∧
  (tables_apart pe → ∀ r, asked pe r → has rs r).
Proof.
  unfold RenderPEIntent. intros (rs0 & Hc & [= <-])%result_bind_Ok. destruct (classes_all_ok pe rs0 Hc) as [Ho Hh]. split_and!.
  - eapply only_weaken; [|exact (to_only _ _ _ (tenants_ok pe rs0 Ho))]. by intros r [? _].
  - intros c dscp Hin Hd. by apply (Hh c dscp).
  - intros Hap r Ha. apply (tenants_have pe rs0 r Hap Ho Ha). intros c dscp Hin Hd. by apply (Hh c dscp).
Qed.

(** ** Table numbers *)

Lemma StringToID_range s : 300 ≤ StringToID s < 2 ^ vrfTableBits.
Proof.
  unfold vrfTableBits. with_strategy transparent [StringToID] unfold StringToID. unfold vrfTableBits.
  change (Z.shiftl 1 24 - 300) with 16776916.
  pose proof (Z.mod_pos_bound (fnv64a s) 16776916 ltac:(lia)). rewrite u32_id by lia. lia.
Qed.

(** The color and the VRF's table number side by side. *)
Lemma ColorTableID_sum t c :
  0 ≤ t < 2 ^ vrfTableBits → 0 ≤ c < 2 ^ 39 → ColorTableID t c = c * 2 ^ vrfTableBits + t.
Proof.
  unfold vrfTableBits. intros Ht Hc. with_strategy transparent [ColorTableID] unfold ColorTableID. unfold vrfTableBits.
  rewrite (i64_id c), Z.shiftl_mul_pow2, i64_id by lia.
  symmetry. apply Z.add_nocarry_lor. apply Z.bits_inj'. intros n Hn. rewrite Z.land_spec, Z.bits_0.
  destruct (Z.lt_ge_cases n 24).
  - rewrite Z.mul_pow2_bits_low by lia. done.
  - rewrite <-(Z.mod_small t (2 ^ 24)), Z.mod_pow2_bits_high by lia. by rewrite andb_false_r.
Qed.

(** ** Consistent intents *)

(** What makes an intent one a kernel can hold: tenants with tables and SIDs of
    their own, one tunnel per portal, prefixes without host bits, one segment
    list per destination and color, one color per DSCP. *)
Record pe_consistent (pe : PEIntent) : Prop := {
  pc_tables : ∀ tid1 t1 tid2 t2, pei_Tenants pe !! tid1 = Some t1 → pei_Tenants pe !! tid2 = Some t2 →
    StringToID tid1 = StringToID tid2 → tid1 = tid2;
  pc_sids : ∀ tid1 t1 tid2 t2, pei_Tenants pe !! tid1 = Some t1 → pei_Tenants pe !! tid2 = Some t2 →
    ti_DT46SID t1 = ti_DT46SID t2 → addr_is_valid (ti_DT46SID t1) = true → tid1 = tid2;
  pc_portal : ∀ tid t id p, pei_Tenants pe !! tid = Some t → ti_PortalIntents t !! id = Some p →
    0 ≤ po_TunnelInterfaceID p < 2 ^ 32 ∧ canonical (po_SitePrefix p);
  pc_portals : ∀ tid t id1 p1 id2 p2, pei_Tenants pe !! tid = Some t →
    ti_PortalIntents t !! id1 = Some p1 → ti_PortalIntents t !! id2 = Some p2 →
    po_TunnelInterfaceID p1 = po_TunnelInterfaceID p2 ∨ po_SitePrefix p1 = po_SitePrefix p2 → id1 = id2;
  pc_path : ∀ tid t path, pei_Tenants pe !! tid = Some t → path ∈ ti_InstallPaths t →
    ii_TenantID path = tid ∧ 0 ≤ ii_Color path < 2 ^ colorBits ∧ ii_Segments path ≠ [] ∧
    (∀ a, a ∈ ii_Segments path → ∃ v, a = Addr6 v) ∧ (∀ x, x ∈ ii_PrefixRoutes path → canonical x);
  pc_paths : ∀ tid t p1 p2 x, pei_Tenants pe !! tid = Some t → p1 ∈ ti_InstallPaths t → p2 ∈ ti_InstallPaths t →
    x ∈ ii_PrefixRoutes p1 → x ∈ ii_PrefixRoutes p2 → ii_Color p1 = ii_Color p2 → ii_Segments p1 = ii_Segments p2;
  pc_classes : ∀ c1 d1 c2 d2, c1 ∈ pei_TrafficClassIntent pe → d1 ∈ tci_DSCP c1 →
    c2 ∈ pei_TrafficClassIntent pe → d2 ∈ tci_DSCP c2 → u32 d1 = u32 d2 → u32 (tci_Color c1) = u32 (tci_Color c2);
}.

Lemma vrf_name_inj tid1 tid2 : vrf_name tid1 = vrf_name tid2 → tid1 = tid2.
Proof. unfold vrf_name, cat. cbn [foldr]. intros H%append_inj_r. by apply append_inj_l in H. Qed.

Lemma tun_name_inj tid1 i1 tid2 i2 :
  0 ≤ i1 < 2 ^ 32 → 0 ≤ i2 < 2 ^ 32 → tun_name tid1 i1 = tun_name tid2 i2 → tid1 = tid2 ∧ i1 = i2.
Proof.
  intros H1 H2. unfold tun_name, cat. cbn [foldr]. rewrite !append_empty. intros He.
  apply append_inj_r in He. simpl in He. apply split_at_digits in He as [-> He]; [|done|apply dec_digits; lia..].
  split; [done|]. apply dec_inj; [lia..|done].
Qed.

Section consistent.
Context (pe : PEIntent) (Hpe : pe_consistent pe).

Lemma color_table_inj tid1 t1 p1 tid2 t2 p2 :
  pei_Tenants pe !! tid1 = Some t1 → p1 ∈ ti_InstallPaths t1 → pei_Tenants pe !! tid2 = Some t2 → p2 ∈ ti_InstallPaths t2 →
  ColorTableID (StringToID tid1) (ii_Color p1) = ColorTableID (StringToID tid2) (ii_Color p2) →
  tid1 = tid2 ∧ ii_Color p1 = ii_Color p2.
Proof.
  intros Ht1 Hp1 Ht2 Hp2. destruct (pc_path _ Hpe _ _ _ Ht1 Hp1) as (_ & Hc1 & _), (pc_path _ Hpe _ _ _ Ht2 Hp2) as (_ & Hc2 & _).
  pose proof (StringToID_range tid1). pose proof (StringToID_range tid2). unfold colorBits in *.
  rewrite !ColorTableID_sum by lia. unfold vrfTableBits in *. intros He.
  split; [|lia]. eapply (pc_tables _ Hpe); eauto. lia.
Qed.

Lemma consistent_apart : tables_apart pe.
Proof.
  intros tid1 t1 p1 tid2 t2 p2 Ht1 Hp1 Ht2 Hp2 He. destruct (color_table_inj _ _ _ _ _ _ Ht1 Hp1 Ht2 Hp2 He) as [<- _].
  destruct (pc_path _ Hpe _ _ _ Ht1 Hp1) as [-> _], (pc_path _ Hpe _ _ _ Ht2 Hp2) as [-> _]. done.
Qed.

(** One resource per kernel identity. *)
Lemma asked_kid_inj r1 r2 : asked pe r1 → asked pe r2 → rkid r1 = rkid r2 → r1 = r2.
Proof.
  intros H1 H2.
  destruct H1 as [c dscp Hc Hd|tid t Ht|tid t Ht Hv|tid t id p Ht Hp|tid t id p Ht Hp|tid t path x Ht Hp Hx|tid t path x Ht Hp Hx],
    H2 as [c' dscp' Hc' Hd'|tid' t' Ht'|tid' t' Ht' Hv'|tid' t' id' p' Ht' Hp'|tid' t' id' p' Ht' Hp'|tid' t' path' x' Ht' Hp' Hx'|tid' t' path' x' Ht' Hp' Hx'];
    try done; cbn [rkid]; intros He.
  - cbn [class_of cl_Classifier] in He. injection He as He. unfold class_of. by rewrite He, (pc_classes _ Hpe c dscp c' dscp').
  - apply (f_equal (λ k, match k with KVrf n => n | _ => EmptyString end)), vrf_name_inj in He. by subst.
  - cbn [sid_of sid_SID] in He. injection He as He. rewrite (pc_sids _ Hpe tid t tid' t') by done. by rewrite He.
  - apply (f_equal (λ k, match k with KXfrm n => n | _ => EmptyString end)) in He.
    destruct (tun_name_inj tid (po_TunnelInterfaceID p) tid' (po_TunnelInterfaceID p')) as [<- Hi]; 
      [exact (proj1 (pc_portal _ Hpe _ _ _ _ Ht Hp))|exact (proj1 (pc_portal _ Hpe _ _ _ _ Ht' Hp'))|exact He|].
    simplify_eq. rewrite (pc_portals _ Hpe tid t id p id' p') in Hp by eauto. by simplify_eq.
  - cbn [route_of rt_Table rt_Dst] in He. injection He as Ht0 Hdst.
    assert (tid = tid') as <- by (by eapply (pc_tables _ Hpe)). simplify_eq.
    rewrite (pc_portals _ Hpe tid t id p id' p') in Hp by eauto. by simplify_eq.
  - cbn [sr_of sr_Prefix sr_Table] in He. injection He as -> Htab.
    destruct (color_table_inj _ _ _ _ _ _ Ht Hp Ht' Hp' Htab) as [<- Hcol]. simplify_eq.
    assert (ii_Segments path = ii_Segments path') as Hseg by (eapply (pc_paths _ Hpe); [exact Ht|..]; eauto).
    unfold sr_of. by rewrite Hcol, Hseg.
  - exact (f_equal (λ k, match k with KRule r => RRule r | _ => RVRF (vrf_of tid) end) He).
Qed.

(** A tenant's links are found under their own keys. *)
Lemma vrf_key_inj tid r : asked pe r → rkey r = rkey (RVRF (vrf_of tid)) → r = RVRF (vrf_of tid).
Proof.
  destruct 1; try done. unfold rkey. simpl. unfold cat. cbn [foldr]. intros He.
  apply append_inj_r, append_inj_r, append_inj_l, vrf_name_inj in He. by subst.
Qed.

Lemma xfrm_key_inj tid t id p r :
  pei_Tenants pe !! tid = Some t → ti_PortalIntents t !! id = Some p →
  asked pe r → rkey r = rkey (RXFRM (xfrm_of tid p)) → r = RXFRM (xfrm_of tid p).
Proof.
  intros Ht Hp Ha. pose proof Ha as Ha'. destruct Ha as [| | |tid' t' id' p' Ht' Hp'| | |]; try done. intros He.
  apply asked_kid_inj; [done|by eapply asked_xfrm|]. cbn [rkid]. f_equal.
  unfold rkey in He. cbn [resource_ID XFRM_ID id_Key] in He. unfold cat in He. cbn [foldr] in He.
  rewrite !append_empty in He. apply append_inj_r, append_inj_r in He. simpl in He.
  apply split_at_digits in He as [He _]; [done|done|apply dec_digits..].
  - exact (proj1 (proj1 (pc_portal _ Hpe _ _ _ _ Ht' Hp'))).
  - exact (proj1 (proj1 (pc_portal _ Hpe _ _ _ _ Ht Hp))).
Qed.

Section rendered.
Context (rs : resources) (Honly : only (asked pe) rs) (Hall : ∀ r, asked pe r → has rs r).

Lemma wanted_asked r : wanted rs r → asked pe r.
Proof. intros Hw. by destruct (Honly _ _ Hw). Qed.

Lemma rendered_view k r : des_view rs k = Some r ↔ wanted rs r ∧ rkid r = k.
Proof.
  apply des_view_iff; [intros key r' Hr'; by destruct (Honly _ _ Hr')|].
  intros r1 r2 H1%wanted_asked H2%wanted_asked. by apply asked_kid_inj.
Qed.

Lemma vrf_wanted tid t : pei_Tenants pe !! tid = Some t → des_view rs (KVrf (vrf_name tid)) = Some (RVRF (vrf_of tid)).
Proof.
  intros Ht. destruct (Hall _ (asked_vrf pe tid t Ht)) as [r Hr]. destruct (Honly _ _ Hr) as [Hk Ha].
  pose proof (vrf_key_inj tid r Ha Hk) as ->. by apply rendered_view.
Qed.

Lemma xfrm_wanted tid t id p :
  pei_Tenants pe !! tid = Some t → ti_PortalIntents t !! id = Some p →
  des_view rs (KXfrm (tun_name tid (po_TunnelInterfaceID p))) = Some (RXFRM (xfrm_of tid p)).
Proof.
  intros Ht Hp. destruct (Hall _ (asked_xfrm pe tid t id p Ht Hp)) as [r Hr]. destruct (Honly _ _ Hr) as [Hk Ha].
  pose proof (xfrm_key_inj tid t id p r Ht Hp Ha Hk) as ->. by apply rendered_view.
Qed.

Lemma asked_ready r : asked pe r → ready (des_view rs) r.
Proof.
  intros Ha. destruct Ha as [c dscp Hc Hd|tid t Ht|tid t Ht Hv|tid t id p Ht Hp|tid t id p Ht Hp|tid t path x Ht Hp Hx|tid t path x Ht Hp Hx];
    cbn [ready]; [done|..].
  - cbn [vrf_of vrf_TableID]. pose proof (StringToID_range tid). unfold vrfTableBits in *. lia.
  - split_and!; [done..|]. exists (KVrf (vrf_name tid)), (vrf_of tid). split; [by eapply vrf_wanted|done].
  - right. exists (RVRF (vrf_of tid)). by eapply vrf_wanted.
  - split; [exact (proj2 (pc_portal _ Hpe _ _ _ _ Ht Hp))|]. right. exists (xfrm_of tid p). split; [by eapply xfrm_wanted|].
    intros k v [Hw _]%rendered_view Htab. apply wanted_asked in Hw. inversion Hw as [|tid' t' Ht' Heq| | | | |]. subst v.
    cbn [vrf_of vrf_TableID route_of rt_Table] in Htab. by rewrite (pc_tables _ Hpe tid' t' tid t).
  - destruct (pc_path _ Hpe _ _ _ Ht Hp) as (_ & _ & Hne & Hseg & Hcan). cbn [sr_of sr_Prefix sr_Segments]. split_and!; [by apply Hcan| |].
    + intros He. apply Hne. by rewrite <-(rev_involutive (ii_Segments path)), He.
    + intros a Ha. apply Hseg. by apply list_elem_of_In, in_rev, list_elem_of_In.
  - done.
Qed.

Lemma rendered_desired_ok : desired_ok rs.
Proof.
  split; [intros key r' Hr'; by destruct (Honly _ _ Hr')| |].
  - intros r1 r2 H1%wanted_asked H2%wanted_asked. by apply asked_kid_inj.
  - intros r Hw%wanted_asked. by apply asked_ready.
Qed.
End rendered.
End consistent.

(** ** Properties *)

(** C26: rendering a PE's intent is exact.  It fails exactly on a DSCP of 255
    or more; otherwise every resource it returns is under its key and one the
    intent asks for and, unless two tenants' routes fall into one table, every
    resource the intent asks for has its key in the result, in whatever order
    Go ranges over the maps. *)
Theorem RenderPEIntent_exact `{RangeOrder} pe :
  match RenderPEIntent pe with
  | Err e => ∃ c dscp, c ∈ pei_TrafficClassIntent pe ∧ dscp ∈ tci_DSCP c ∧ 255 ≤ dscp ∧ e = DSCPTooBig dscp
  | Ok rs =>
      (∀ c dscp, c ∈ pei_TrafficClassIntent pe → dscp ∈ tci_DSCP c → dscp < 255) ∧
      (∀ key r, rs !! key = Some r → rkey r = key ∧ asked pe r) ∧
      (tables_apart pe → ∀ r, asked pe r → is_Some (rs !! rkey r))
  end.
Proof.
  destruct (RenderPEIntent pe) as [rs|e] eqn:Hr.
  - destruct (RenderPE_ok pe rs Hr) as (Ho & Hd & Ha). split_and!; [exact Hd|exact Ho|exact Ha].
  - unfold RenderPEIntent in Hr. destruct (foldM classes_render ∅ (pei_TrafficClassIntent pe)) as [rs|e'] eqn:Hc; [done|].
    cbn [mbind result_bind] in Hr. injection Hr as ->. by apply classes_err_spec in Hc.
Qed.

(** C27: a routing table belongs to one tenant.  Whatever the intent and the
    order of iteration, two SR routes rendered into one table come from install
    paths of one tenant: when tables collide, the later tenant's paths are
    left out rather than mixed in. *)
Theorem sr_tables_isolated `{RangeOrder} pe rs k1 s1 k2 s2 :
  RenderPEIntent pe = Ok rs → rs !! k1 = Some (RSRRoute s1) → rs !! k2 = Some (RSRRoute s2) → sr_Table s1 = sr_Table s2 →
  ∃ tid1 t1 path1 x1 tid2 t2 path2 x2,
    pei_Tenants pe !! tid1 = Some t1 ∧ path1 ∈ ti_InstallPaths t1 ∧ x1 ∈ ii_PrefixRoutes path1 ∧ s1 = sr_of tid1 path1 x1 ∧
    pei_Tenants pe !! tid2 = Some t2 ∧ path2 ∈ ti_InstallPaths t2 ∧ x2 ∈ ii_PrefixRoutes path2 ∧ s2 = sr_of tid2 path2 x2 ∧
    ii_TenantID path1 = ii_TenantID path2.
Proof.
  unfold RenderPEIntent. intros (rs0 & Hc & [= <-])%result_bind_Ok H1 H2 Ht.
  destruct (classes_all_ok pe rs0 Hc) as [Ho _]. destruct (tenants_ok pe rs0 Ho) as [Hall _].
  destruct (Hall _ _ H1) as [_ [_ Hs1]], (Hall _ _ H2) as [_ [_ Hs2]].
  destruct (Hs1 s1 eq_refl) as (tid1 & t1 & path1 & x1 & ? & ? & ? & ? & Ho1).
  destruct (Hs2 s2 eq_refl) as (tid2 & t2 & path2 & x2 & ? & ? & ? & ? & Ho2).
  exists tid1, t1, path1, x1, tid2, t2, path2, x2. split_and!; try done. rewrite Ht, Ho2 in Ho1. by injection Ho1.
Qed.

(** C33, instantiated: the routes of a tenant's path to two sites. *)
Definition demo_path : PESIDInstallIntent :=
  {| ii_TenantID := "1"; ii_PrefixRoutes := [MkPrefix (Addr6 (Z.shiftl 1 112)) 48; MkPrefix (Addr6 (Z.shiftl 2 112)) 48];
     ii_Segments := [Addr6 1; Addr6 2]; ii_Color := 3 |}.
Definition demo_portal : PE_PortalIntent :=
  {| po_HostFacingInterface := "eth1"; po_TunnelInterfaceID := 7; po_SitePrefix := MkPrefix (Addr6 (Z.shiftl 9 112)) 48;
     po_TenantPrefix := prefix_zero |}.
Definition demo_pe : PEIntent :=
  {| pei_NodeID := "pe-1"; pei_Peers := ∅; pei_TrafficClassIntent := [{| tci_Color := 3; tci_DSCP := [46; 34] |}];
     pei_Tenants := {["1"%string := {| ti_PortalIntents := {["portal-1"%string := demo_portal]}; ti_DT46SID := Addr6 5;
                                       ti_InstallPaths := [demo_path] |}]} |}.
Definition demo_pe_resources : resources :=
  match @RenderPEIntent canonical_order demo_pe with Ok rs => rs | Err _ => ∅ end.
Definition demo_sr (prefix : Prefix) : SRRoute := sr_of "1" demo_path prefix.

Example sr_tables_isolated_witness :
  let s1 := demo_sr (MkPrefix (Addr6 (Z.shiftl 1 112)) 48) in
  let s2 := demo_sr (MkPrefix (Addr6 (Z.shiftl 2 112)) 48) in
  ∃ tid1 t1 path1 x1 tid2 t2 path2 x2,
    pei_Tenants demo_pe !! tid1 = Some t1 ∧ path1 ∈ ti_InstallPaths t1 ∧ x1 ∈ ii_PrefixRoutes path1 ∧ s1 = sr_of tid1 path1 x1 ∧
    pei_Tenants demo_pe !! tid2 = Some t2 ∧ path2 ∈ ti_InstallPaths t2 ∧ x2 ∈ ii_PrefixRoutes path2 ∧ s2 = sr_of tid2 path2 x2 ∧
    ii_TenantID path1 = ii_TenantID path2.
Proof.
  intros s1 s2. apply (@sr_tables_isolated canonical_order demo_pe demo_pe_resources (rkey (RSRRoute s1)) s1 (rkey (RSRRoute s2)) s2);
    vm_compute; reflexivity.
Defined.

(** Table numbers stay in their ranges.  A tenant's table avoids the
    numbers below 300, which the system and the portals use, and fits its 24
    bits; a color's table determines the tenant's table and the color, is never
    a tenant's own table unless the color is 0, and fits the 32 bits of a
    kernel table exactly for the colors that fit in 8 bits. *)
Theorem table_numbers s color s' color' :
  0 ≤ color < 2 ^ 39 → 0 ≤ color' < 2 ^ 39 →
  300 ≤ StringToID s < 2 ^ vrfTableBits ∧
  (ColorTableID (StringToID s) color = ColorTableID (StringToID s') color' → StringToID s = StringToID s' ∧ color = color') ∧
  (ColorTableID (StringToID s) color = StringToID s' → color = 0) ∧
  (0 ≤ ColorTableID (StringToID s) color < 2 ^ 32 ↔ color < 2 ^ colorBits).
Proof.
  intros Hc Hc'. pose proof (StringToID_range s) as Hs. pose proof (StringToID_range s') as Hs'.
  rewrite !ColorTableID_sum by lia. unfold vrfTableBits, colorBits in *. split_and!; lia.
Qed.

Example table_numbers_witness :
  300 ≤ StringToID "1" < 2 ^ vrfTableBits ∧
  (ColorTableID (StringToID "1") 3 = ColorTableID (StringToID "2") 3 → StringToID "1" = StringToID "2" ∧ 3 = 3) ∧
  (ColorTableID (StringToID "1") 3 = StringToID "2" → 3 = 0) ∧
  (0 ≤ ColorTableID (StringToID "1") 3 < 2 ^ 32 ↔ 3 < 2 ^ colorBits).
Proof. apply (table_numbers "1" 3 "2" 3); lia. Defined.

(** Rendering and reconciling compose.  For a PE whose intent is
    consistent and within the DSCP range, over any dataplane that keeps the
    contract and starts empty, one run ends within three passes and leaves the
    dataplane with exactly the resources the intent asks for, by key. *)
Theorem pe_intent_realized `{RangeOrder} {D : Type} `{DataplaneContract D} pe r (d : D) ni rep now :
  ni_Intent ni = IntentPE pe → ni_NodeType ni = rc_nodeType r → stale r ni = false →
  pe_consistent pe → (∀ c dscp, c ∈ pei_TrafficClassIntent pe → dscp ∈ tci_DSCP c → dscp < 255) →
  dp_ok d → dp_queue d = [] → (∀ k, dp_view d k = None) →
  let '(r', d', oc, _) := Reconcile r d ni rep now in
  oc_converged oc = true ∧ (oc_passes oc ≤ maxPasses)%nat ∧ rc_current r' = Some ni ∧
  ∀ key, (∃ res, asked pe res ∧ rkey res = key) ↔ ∃ k res, dp_view d' k = Some res ∧ rkey res = key.
Proof.
  intros Hi Ht Hs Hpe Hdscp Hok Hq Hv. destruct (RenderPEIntent pe) as [rs|e] eqn:Hr.
  2: { exfalso. unfold RenderPEIntent in Hr. destruct (foldM classes_render ∅ _) as [|e'] eqn:Hc; [done|].
       apply classes_err_spec in Hc as (c & dscp & Hc & Hd & Hbig & _). pose proof (Hdscp c dscp Hc Hd). lia. }
  destruct (RenderPE_ok pe rs Hr) as (Honly & _ & Hall). specialize (Hall (consistent_apart pe Hpe)).
  destruct (Reconcile r d ni rep now) as [[[r' d'] oc] st] eqn:Hrun.
  pose proof (reconcile_run rs r d ni rep now Ht Hs) as Hc. rewrite Hi in Hc. cbn [render_intent] in Hc.
  specialize (Hc Hr (rendered_desired_ok pe Hpe rs Honly Hall) Hok). rewrite Hrun in Hc.
  destruct Hc as (Hconv & _ & Hp & Hcur & _ & _ & Hkeys).
  - intros k. by rewrite Hq.
  - split; intros *; by rewrite Hv.
  - split_and!; [done..|]. intros key. rewrite <-Hkeys. split.
    + intros (res & Ha & <-). by apply Hall.
    + intros [res Hres]. destruct (Honly _ _ Hres) as [? ?]. eauto.
Qed.

Lemma demo_pe_consistent : pe_consistent demo_pe.
Proof.
  split; unfold demo_pe; cbn [pei_Tenants pei_TrafficClassIntent];
    repeat (intros *; rewrite ?lookup_singleton_Some, ?list_elem_of_singleton); intros; destruct_and?; subst;
    cbn [ti_PortalIntents ti_InstallPaths] in *; try done.
  - rewrite lookup_singleton_Some in *. destruct_and?; subst. vm_compute. repeat split; done.
  - rewrite !lookup_singleton_Some in *. destruct_and?. congruence.
  - rewrite list_elem_of_singleton in *. subst. vm_compute. split_and!; try done.
    + intros a [->|[->|[]%not_elem_of_nil]%elem_of_cons]%elem_of_cons; eauto.
    + intros x [->|[->|[]%not_elem_of_nil]%elem_of_cons]%elem_of_cons; done.
  - rewrite !list_elem_of_singleton in *. by subst.
Qed.

(** Instantiated: a fresh PE in memory takes up a tenant with a portal and
    a path. *)
Example pe_intent_realized_witness :
  let ni := {| ni_ID := "pe-1"; ni_NodeType := NodeTypePE; ni_Intent := IntentPE demo_pe; ni_Timestamp := 0;
               ni_Generation := 1; ni_Version := 1 |} in
  let '(r', d', oc, _) := @Reconcile canonical_order mem _ (NewReconciler NodeTypePE) mem_empty ni true 0 in
  oc_converged oc = true ∧ (oc_passes oc ≤ maxPasses)%nat ∧ rc_current r' = Some ni ∧
  ∀ key, (∃ res, asked demo_pe res ∧ rkey res = key) ↔ ∃ k res, dp_view d' k = Some res ∧ rkey res = key.
Proof.
  intros ni. apply (@pe_intent_realized canonical_order mem _ mem_contract).
  - reflexivity.
  - reflexivity.
  - reflexivity.
  - exact demo_pe_consistent.
  - intros c dscp Hc Hd. apply list_elem_of_singleton in Hc as ->.
    cbn in Hd. apply elem_of_cons in Hd as [->|Hd%list_elem_of_singleton]; lia.
  - split; [constructor|]. intros r Hr. by apply not_elem_of_nil in Hr.
  - reflexivity.
  - intros k. reflexivity.
Defined.
