(* ===== verification/Netlink.v ===== *)
(** The Linux dataplane (libs/dataplane/dataplane_netlink.go): what it asks of
    the kernel through netlink and nftables for every call of the [Dataplane]
    interface, over any kernel, with a log of its requests. *)

From S2P Require Import Prelude Netip Topology Sid Registry Resource Reconcile.

(** ** What netlink speaks of *)

Definition MaetoLinkGroup : Z := 211.
Definition MaetoRouteProto : Z := 211.
Definition MaetoSIDProto : Z := 212.
Definition MaetoSIDSegsProto : Z := 213.
Definition vrfUnreachableMetricValue : Z := 4278198272.
Definition vrfStrictModePath : string := "/proc/sys/net/vrf/strict_mode".
Definition seg6LocalActionEndDT46 : Z := 16.
Definition NftablesClassificationTable : string := "maeto_class".
Definition NftablesClassificationChain : string := "classification".
Definition NftablesDSCPMarkMap : string := "dscpmark".

(** Kernel constants. *)
Definition RT_TABLE_UNSPEC : Z := 0.
Definition RT_TABLE_MAIN : Z := 254.
Definition RTN_UNREACHABLE : Z := 7.
Definition SEG6_LOCAL_ACTION_END : Z := 1.
Definition SEG6_LOCAL_ACTION_END_X : Z := 2.
Definition SEG6_LOCAL_ACTION_END_DT6 : Z := 7.
Definition SEG6_LOCAL_ACTION_END_DT4 : Z := 8.
Definition SEG6_LOCAL_ACTION_END_B6 : Z := 9.

(** [netlink.Link] by its implementation. *)
Inductive link_kind := LkVrf (table : Z) | LkXfrmi (ifid : Z) | LkGeneric (type : string).

Record NlLink := {
  lk_Index : Z;
  lk_Name : string;
  lk_Group : Z;
  lk_ParentIndex : Z;
  lk_MasterIndex : Z;
  lk_kind : link_kind;
}.

Definition link_type (l : NlLink) : string :=
  match lk_kind l with LkVrf _ => "vrf" | LkXfrmi _ => "xfrm" | LkGeneric t => t end.

Inductive nl_encap :=
  | SEG6Encap (segments : list Addr)
  | SEG6LocalEncap (action vrfTable : Z)
  | OtherEncap.

Record NlRoute := {
  nr_LinkIndex : Z;
  nr_Dst : option IPNet;
  nr_Table : Z;
  nr_Type : Z;
  nr_Priority : Z;
  nr_Protocol : Z;
  nr_Gw : option Addr;
  nr_Via : option Addr;
  nr_Encap : option nl_encap;
}.

Record NlRule := {
  nu_Priority : Z;
  nu_Table : Z;
  nu_Protocol : Z;
  nu_IifName : string;
  nu_Mark : Z;
  nu_Src : option IPNet;
}.

Inductive nl_errno := ENODEV | EEXIST | ESRCH | ENOENT | LinkNotFound | EOther (s : string).

(** The expressions of the classification rule. *)
Inductive nft_expr :=
  | MetaLoadNfproto
  | CmpEq (data : list Z)
  | PayloadLoadNetwork (offset len : Z)
  | BitwiseMask (len : Z) (mask xor : list Z)
  | ByteorderNtoh (len size : Z)
  | BitwiseRshift (len : Z) (amount : Z)
  | LookupMap (set : string)
  | MetaSetMark.

(** Commands that wait in the connection until it is flushed. *)
Inductive nft_op :=
  | NftAddTable (table : string)
  | NftAddChain (table chain : string)
  | NftAddSet (table set : string)
  | NftFlushChain (table chain : string)
  | NftAddRule (table chain : string) (exprs : list nft_expr)
  | NftAddElement (table set : string) (key val : list Z)
  | NftDelElement (table set : string) (key : list Z).

(** Requests that change the kernel. *)
Inductive nl_req :=
  | LinkAdd (l : NlLink)
  | LinkDel (l : NlLink)
  | LinkSetUp (l : NlLink)
  | LinkSetMaster (l master : NlLink)
  | RouteReplace (r : NlRoute)
  | RouteDel (r : NlRoute)
  | RuleAdd (r : NlRule)
  | RuleDel (r : NlRule)
  | WriteFile (path content : string)
  | NftFlush (batch : list nft_op)
  | ExecCommand (name : string) (args : list string).

(** A kernel: its answers to queries, and the outcome of a request. *)
Class Kernel (K : Type) := {
  k_LinkByIndex : K → Z → result nl_errno NlLink;
  k_LinkByName : K → string → result nl_errno NlLink;
  k_LinkList : K → result nl_errno (list NlLink);
  k_RouteList : K → Z → result nl_errno (list NlRoute);
  k_DefaultRoutes : K → result nl_errno (list NlRoute);
  k_RuleList : K → result nl_errno (list NlRule);
  k_nftSet : K → string → string → result nl_errno unit;
  k_nftElements : K → string → string → result nl_errno (list (list Z * list Z));
  k_nftAddSet : K → result nl_errno unit;
  k_do : K → nl_req → K * option nl_errno;
}.

(** The dataplane: the kernel, the commands buffered in the nftables
    connection, and the requests made so far. *)
Record LinuxNetlink (K : Type) := { ln_kernel : K; ln_nft : list nft_op; ln_log : list nl_req }.
Arguments ln_kernel {K}. Arguments ln_nft {K}. Arguments ln_log {K}.

(** ** A monad of calls *)

Definition nl (K A : Type) : Type := LinuxNetlink K → LinuxNetlink K * result dp_error A.

Section monad.
Context {K : Type} `{Kernel K}.

#[export] Instance nl_ret : MRet (nl K) := λ A a s, (s, Ok a).
#[export] Instance nl_bind : MBind (nl K) := λ A B f m s,
  match m s with (s, Ok a) => f a s | (s, Err e) => (s, Err e) end.

Definition fail {A} (e : string) : nl K A := λ s, (s, Err e).

(** A query, with its error left to the caller. *)
Definition ask {A} (q : K → result nl_errno A) : nl K (result nl_errno A) := λ s, (s, Ok (q (ln_kernel s))).

(** A query whose error ends the call. *)
Definition query {A} (q : K → result nl_errno A) (what : string) : nl K A :=
  r ← ask q; match r with Ok a => mret a | Err _ => fail what end.

(** A request, with its outcome. *)
Definition request (r : nl_req) : nl K (option nl_errno) := λ s,
  let '(k, e) := k_do (ln_kernel s) r in
  ({| ln_kernel := k; ln_nft := ln_nft s; ln_log := ln_log s ++ [r] |}, Ok e).

Definition buffer (op : nft_op) : nl K unit := λ s,
  ({| ln_kernel := ln_kernel s; ln_nft := ln_nft s ++ [op]; ln_log := ln_log s |}, Ok tt).

(** [Flush] sends the buffered commands as one batch and empties the buffer. *)
Definition flush : nl K (option nl_errno) := λ s,
  let '(k, e) := k_do (ln_kernel s) (NftFlush (ln_nft s)) in
  ({| ln_kernel := k; ln_nft := []; ln_log := ln_log s ++ [NftFlush (ln_nft s)] |}, Ok e).

(** A request whose error ends the call unless it is one that means the work
    is done. *)
Definition must (r : nl_req) (done : nl_errno → bool) (what : string) : nl K unit :=
  e ← request r;
  match e with Some e => if done e then mret tt else fail what | None => mret tt end.

Definition never (e : nl_errno) : bool := false.
Definition is_ENODEV (e : nl_errno) : bool := match e with ENODEV => true | _ => false end.
Definition is_ESRCH (e : nl_errno) : bool := match e with ESRCH => true | _ => false end.
Definition is_EEXIST (e : nl_errno) : bool := match e with EEXIST => true | _ => false end.
Definition is_ENOENT (e : nl_errno) : bool := match e with ENOENT => true | _ => false end.
Definition isLinkNotFound (e : nl_errno) : bool := match e with LinkNotFound => true | _ => false end.
End monad.

(** ** Building requests *)

(** [Prefix.Masked]: the address without its host bits. *)
Definition masked (p : Prefix) : Addr :=
  if prefix_is_valid p then
    match pfx_addr p with
    | Addr4 v => Addr4 (Z.shiftl (Z.shiftr v (32 - pfx_bits p)) (32 - pfx_bits p))
    | Addr6 v => Addr6 (Z.shiftl (Z.shiftr v (128 - pfx_bits p)) (128 - pfx_bits p))
    | AddrZero => AddrZero
    end
  else AddrZero.

Definition prefixToIPNet (p : Prefix) : IPNet := {| ipn_IP := masked p; ipn_Ones := pfx_bits p |}.

Definition host_net (a : Addr) : IPNet := {| ipn_IP := a; ipn_Ones := 128 |}.

(** A route to delete or to complete: its destination, table and protocol. *)
Definition route_of_proto (dst : IPNet) (table proto : Z) : NlRoute :=
  {| nr_LinkIndex := 0; nr_Dst := Some dst; nr_Table := table; nr_Type := 0; nr_Priority := 0; nr_Protocol := proto;
     nr_Gw := None; nr_Via := None; nr_Encap := None |}.

Definition with_link (r : NlRoute) (index : Z) : NlRoute :=
  {| nr_LinkIndex := index; nr_Dst := nr_Dst r; nr_Table := nr_Table r; nr_Type := nr_Type r; nr_Priority := nr_Priority r;
     nr_Protocol := nr_Protocol r; nr_Gw := nr_Gw r; nr_Via := nr_Via r; nr_Encap := nr_Encap r |}.
Definition with_gw (r : NlRoute) (gw : Addr) : NlRoute :=
  {| nr_LinkIndex := nr_LinkIndex r; nr_Dst := nr_Dst r; nr_Table := nr_Table r; nr_Type := nr_Type r; nr_Priority := nr_Priority r;
     nr_Protocol := nr_Protocol r; nr_Gw := Some gw; nr_Via := nr_Via r; nr_Encap := nr_Encap r |}.
Definition with_encap (r : NlRoute) (e : nl_encap) : NlRoute :=
  {| nr_LinkIndex := nr_LinkIndex r; nr_Dst := nr_Dst r; nr_Table := nr_Table r; nr_Type := nr_Type r; nr_Priority := nr_Priority r;
     nr_Protocol := nr_Protocol r; nr_Gw := nr_Gw r; nr_Via := nr_Via r; nr_Encap := Some e |}.

Definition vrfCatchAll (tableID : Z) : NlRoute :=
  {| nr_LinkIndex := 0; nr_Dst := Some {| ipn_IP := Addr6 0; ipn_Ones := 0 |}; nr_Table := tableID; nr_Type := RTN_UNREACHABLE;
     nr_Priority := vrfUnreachableMetricValue; nr_Protocol := MaetoRouteProto; nr_Gw := None; nr_Via := None; nr_Encap := None |}.

Definition maetoRule (priority : Z) (src : option Prefix) (tableID mark : Z) (iifName : string) : NlRule :=
  {| nu_Priority := priority; nu_Table := tableID; nu_Protocol := MaetoRouteProto; nu_IifName := iifName; nu_Mark := u32 mark;
     nu_Src := prefixToIPNet <$> src |}.

Definition le32 (v : Z) : list Z := [u8 v; u8 (Z.shiftr v 8); u8 (Z.shiftr v 16); u8 (Z.shiftr v 24)].
Definition of_le32 (b : list Z) : Z :=
  Z.lor (nth 0 b 0) (Z.lor (Z.shiftl (nth 1 b 0) 8) (Z.lor (Z.shiftl (nth 2 b 0) 16) (Z.shiftl (nth 3 b 0) 24))).

(** ** Links *)

Section calls.
Context {K : Type} `{Kernel K}.

Definition is_vrf_of (tableID : Z) (l : NlLink) : bool :=
  match lk_kind l with LkVrf table => table =? tableID | _ => false end.

Definition vrfByTable (tableID : Z) : nl K NlLink :=
  links ← query k_LinkList "list links";
  match List.find (is_vrf_of tableID) links with
  | Some vrf => mret vrf
  | None => fail "no vrf device owns table"
  end.

(** [nil] when the table is not a VRF's or the lookup fails. *)
Definition vrfByTableOrNil (tableID : Z) : nl K (option NlLink) :=
  if (tableID =? RT_TABLE_MAIN) || (tableID =? 0) then mret None
  else λ s, match vrfByTable tableID s with (s, Ok v) => (s, Ok (Some v)) | (s, Err _) => (s, Ok None) end.

Definition linkNames (links : list NlLink) : gmap Z string :=
  foldl (λ m l, <[lk_Index l := lk_Name l]> m) ∅ links.

Definition nl_UpsertVRF (tableName : string) (tableId : Z) : nl K unit :=
  let vrf := {| lk_Index := 0; lk_Name := tableName; lk_Group := MaetoLinkGroup; lk_ParentIndex := 0; lk_MasterIndex := 0;
                lk_kind := LkVrf (u32 tableId) |} in
  e ← request (LinkAdd vrf);
  vrf ← match e with
        | None => mret vrf
        | Some EEXIST =>
            existing ← query (λ k, k_LinkByName k tableName) "lookup existing vrf";
            match lk_kind existing with
            | LkVrf table => if table =? u32 tableId then mret existing else fail "vrf exists with another table"
            | _ => fail "not a vrf"
            end
        | Some _ => fail "create vrf device"
        end;
  _ ← must (LinkSetUp vrf) never "bring up vrf device";
  _ ← must (RouteReplace (vrfCatchAll tableId)) never "install vrf catch-all";
  must (WriteFile vrfStrictModePath "1") never "enable vrf strict mode".

(** The link to remove, [None] when it is gone. *)
Definition link_to_remove (linkIndex : Z) : nl K (option NlLink) :=
  r ← ask (λ k, k_LinkByIndex k linkIndex);
  match r with
  | Ok link => mret (Some link)
  | Err e => if is_ENODEV e || isLinkNotFound e then mret None else fail "lookup link"
  end.

Definition nl_RemoveVRF (linkIndex : Z) : nl K unit :=
  link ← link_to_remove linkIndex;
  match link with
  | None => mret tt
  | Some link =>
      match lk_kind link with
      | LkVrf table =>
          if negb (lk_Group link =? MaetoLinkGroup) then fail "vrf is not maeto owned"
          else _ ← must (RouteDel (vrfCatchAll table)) is_ESRCH "remove vrf catch-all";
               must (LinkDel link) is_ENODEV "delete vrf device"
      | _ => fail "not a vrf"
      end
  end.

Definition nl_InsertXFRMInterface (interfaceName underLayIface : string) (ifID : Z) (masterVRFName : option string) : nl K unit :=
  underlay ← query (λ k, k_LinkByName k underLayIface) "lookup underlay interface";
  let xfrm := {| lk_Index := 0; lk_Name := interfaceName; lk_Group := MaetoLinkGroup; lk_ParentIndex := lk_Index underlay;
                 lk_MasterIndex := 0; lk_kind := LkXfrmi ifID |} in
  _ ← must (LinkAdd xfrm) never "create xfrm device";
  _ ← match masterVRFName with
      | Some name => vrf ← query (λ k, k_LinkByName k name) "lookup vrf"; must (LinkSetMaster xfrm vrf) never "enslave"
      | None => mret tt
      end;
  must (LinkSetUp xfrm) never "bring up xfrm device".

Definition nl_RemoveXFRMInterface (linkIndex : Z) : nl K unit :=
  link ← link_to_remove linkIndex;
  match link with
  | None => mret tt
  | Some link =>
      match lk_kind link with
      | LkXfrmi _ =>
          if negb (lk_Group link =? MaetoLinkGroup) then fail "xfrm interface is not maeto owned"
          else must (LinkDel link) is_ENODEV "delete xfrm interface"
      | _ => fail "not an xfrm interface"
      end
  end.

(** ** Rules and routes *)

Definition nl_UpsertRule (priority : Z) (src : option Prefix) (tableID mark : Z) (iifName : string) : nl K unit :=
  must (RuleAdd (maetoRule priority src tableID mark iifName)) is_EEXIST "add rule".

Definition nl_RemoveRule (priority : Z) (src : option Prefix) (tableID mark : Z) (iifName : string) : nl K unit :=
  must (RuleDel (maetoRule priority src tableID mark iifName)) is_ENOENT "delete rule".

Definition nl_InsertPrefixRoute (tunnelIface : string) (tableID : Z) (prefix : Prefix) (via : Addr) : nl K unit :=
  let route := route_of_proto (prefixToIPNet prefix) tableID MaetoRouteProto in
  route ← (if addr_is_valid via then mret (with_gw route via)
           else iface ← query (λ k, k_LinkByName k tunnelIface) "lookup tunnel interface";
                vrf ← vrfByTableOrNil tableID;
                _ ← match vrf with
                    | Some vrf => if lk_MasterIndex iface =? lk_Index vrf then mret tt else fail "not enslaved"
                    | None => mret tt
                    end;
                mret (with_link route (lk_Index iface)));
  must (RouteReplace route) never "insert prefix route".

Definition nl_RemovePrefixRoute (prefix : Prefix) (tableID : Z) : nl K unit :=
  must (RouteDel (route_of_proto (prefixToIPNet prefix) tableID MaetoRouteProto)) is_ESRCH "delete prefix route".

Definition nl_InsertSRRouteForPrefix (prefix : Prefix) (tableID : Z) (segs : list Addr) : nl K unit :=
  match segs with
  | [] => fail "no segments given"
  | _ =>
      if existsb (λ s, match s with Addr6 _ => false | _ => true end) segs then fail "segment is not IPv6"
      else iface ← query (λ k, k_LinkByName k "sr0"%string) "lookup tunnel interface sr0";
           let route := with_encap (with_link (route_of_proto (prefixToIPNet prefix) tableID MaetoSIDSegsProto) (lk_Index iface))
                          (SEG6Encap segs) in
           must (RouteReplace route) never "insert srv6 encap route"
  end.

Definition nl_RemoveSRRouteForPrefix (prefix : Prefix) (tableID : Z) : nl K unit :=
  must (RouteDel (route_of_proto (prefixToIPNet prefix) tableID MaetoSIDSegsProto)) is_ESRCH "delete sr prefix route".

Definition nl_UpsertDT46SID (sid : Addr) (vrfTableID : Z) : nl K unit :=
  vrf ← vrfByTable vrfTableID;
  let route := with_encap (with_link (route_of_proto (host_net sid) RT_TABLE_MAIN MaetoSIDProto) (lk_Index vrf))
                 (SEG6LocalEncap seg6LocalActionEndDT46 vrfTableID) in
  must (RouteReplace route) never "upsert DT46 sid".

Definition nl_RemoveSID (sid : Addr) : nl K unit :=
  must (RouteDel (route_of_proto (host_net sid) RT_TABLE_MAIN MaetoSIDProto)) never "remove sid".

Definition nl_UpsertPolicy (nhid dtsid : string) (sids : list string) : nl K unit :=
  must (ExecCommand "ip" ["-6"; "nexthop"; "replace"; "id"; nhid; "encap"; "seg6"; "mode"; "encap";
                          "segs"; join "," (sids ++ [dtsid]); "dev"; "sr0"]%string) never "upsert seg6 nexthop".

Definition nl_UpsertRouteToPolicy (dest vrfTableId nhid : string) : nl K unit :=
  must (ExecCommand "ip" ["-6"; "route"; "replace"; dest; "table"; vrfTableId; "nhid"; nhid]%string) never "upsert route".

(** ** Classification *)

Definition classification_rule : list nft_expr :=
  [MetaLoadNfproto; CmpEq [10]; PayloadLoadNetwork 0 2; BitwiseMask 2 [0x0f; 0xc0] [0; 0]; ByteorderNtoh 2 2; BitwiseRshift 2 6;
   LookupMap NftablesDSCPMarkMap; MetaSetMark].

Definition nl_EnsureClassificationBase : nl K unit :=
  _ ← buffer (NftAddTable NftablesClassificationTable);
  _ ← buffer (NftAddChain NftablesClassificationTable NftablesClassificationChain);
  r ← ask k_nftAddSet;
  match r with
  | Err _ => fail "add set"
  | Ok _ =>
      _ ← buffer (NftAddSet NftablesClassificationTable NftablesDSCPMarkMap);
      _ ← buffer (NftFlushChain NftablesClassificationTable NftablesClassificationChain);
      _ ← buffer (NftAddRule NftablesClassificationTable NftablesClassificationChain classification_rule);
      e ← flush;
      match e with Some _ => fail "flush table" | None => mret tt end
  end.

Definition classification_set : nl K unit :=
  query (λ k, k_nftSet k NftablesClassificationTable NftablesDSCPMarkMap) "set".

Definition nl_InsertClassification (classifier mark : Z) : nl K unit :=
  _ ← classification_set;
  buffer (NftAddElement NftablesClassificationTable NftablesDSCPMarkMap [u8 classifier] (le32 mark)).

Definition nl_RemoveClassification (classifier : Z) : nl K unit :=
  _ ← classification_set;
  buffer (NftDelElement NftablesClassificationTable NftablesDSCPMarkMap (le32 classifier)).

(** ** Reads *)

Definition name_of (names : gmap Z string) (index : Z) : string := default ""%string (names !! index).

Definition linkNamesOf : nl K (gmap Z string) := links ← query k_LinkList "list links"; mret (linkNames links).

(** The link as the dataplane reports it; [None] for a type it does not keep. *)
Definition report_link (names : gmap Z string) (l : NlLink) : result dp_error (option DataplaneLink) :=
  let attrs_parent := name_of names (lk_ParentIndex l) in
  let attrs_master := name_of names (lk_MasterIndex l) in
  if (link_type l =? "xfrm")%string then
    match lk_kind l with
    | LkXfrmi ifid => Ok (Some (LinkXFRM {| dx_Name := lk_Name l; dx_Index := lk_Index l; dx_IfID := ifid;
                                            dx_ParentName := attrs_parent; dx_MasterName := attrs_master |}))
    | _ => Err "couldn't parse to Xfrmi"%string
    end
  else if (link_type l =? "vrf")%string then
    match lk_kind l with
    | LkVrf table => Ok (Some (LinkVRF {| dv_Name := lk_Name l; dv_Index := lk_Index l; dv_TableID := table |}))
    | _ => Err "couldn't parse to Vrf"%string
    end
  else Ok None.

Definition report_owned_link (names : gmap Z string) (ifaceType : string) (acc : list DataplaneLink) (l : NlLink) :
    result dp_error (list DataplaneLink) :=
  if (lk_Group l =? MaetoLinkGroup) && (link_type l =? ifaceType)%string
  then r ← report_link names l; mret (acc ++ option_list r)
  else mret acc.

Definition lift {A} (r : result dp_error A) : nl K A := λ s, (s, r).

Definition nl_GetLinksByType (ifaceType : string) : nl K (list DataplaneLink) :=
  links ← query k_LinkList "list links";
  lift (foldM (report_owned_link (linkNames links) ifaceType) [] links).

Definition report_route (names : gmap Z string) (r : NlRoute) : DataplaneRoute :=
  {| dr_Dev := name_of names (nr_LinkIndex r); dr_Dst := nr_Dst r; dr_Table := nr_Table r;
     dr_Via := default AddrZero (nr_Via r) |}.

Definition nl_GetPrefixRoutes : nl K (list DataplaneRoute) :=
  routes ← query (λ k, k_RouteList k MaetoRouteProto) "list maeto routes";
  names ← linkNamesOf;
  mret (report_route names <$> routes).

(** [None] for a rule that is not maeto's or whose source is no address. *)
Definition report_rule (r : NlRule) : option DataplaneRule :=
  if negb (nu_Protocol r =? MaetoRouteProto) then None
  else
    let rule src := {| du_Priority := nu_Priority r; du_Src := src; du_Table := nu_Table r; du_Mark := nu_Mark r;
                       du_Iif := nu_IifName r |} in
    match nu_Src r with
    | None => Some (rule None)
    | Some net => if addr_is_valid (ipn_IP net) then Some (rule (Some (PrefixFrom (ipn_IP net) (ipn_Ones net)))) else None
    end.

Definition nl_GetRules : nl K (list DataplaneRule) :=
  rules ← query k_RuleList "list rules";
  mret (omap report_rule rules).

Definition encap_type (action : Z) : option string :=
  if action =? SEG6_LOCAL_ACTION_END_DT4 then Some "dt4"%string
  else if action =? SEG6_LOCAL_ACTION_END_DT6 then Some "dt6"%string
  else if action =? seg6LocalActionEndDT46 then Some "dt46"%string
  else if action =? SEG6_LOCAL_ACTION_END_B6 then Some "b6"%string
  else if action =? SEG6_LOCAL_ACTION_END_X then Some "endX"%string
  else if action =? SEG6_LOCAL_ACTION_END then Some "end"%string
  else None.

(** One route of the listing: a route that is no SID is an error among maeto's
    own and skipped among another protocol's.  A SID is listed with the name of
    its device. *)
Definition report_sid (names : gmap Z string) (filterBy : option string) (ownedByMaeto : bool)
    (acc : list (string * DataplaneSID)) (r : NlRoute) : result dp_error (list (string * DataplaneSID)) :=
  match nr_Encap r with
  | Some (SEG6LocalEncap action vrfTable) =>
      match encap_type action with
      | None => if ownedByMaeto then Err "unknown encap action type"%string else Ok acc
      | Some t =>
          match filterBy with
          | Some t' => if (t' =? t)%string
                       then Ok (acc ++ [(name_of names (nr_LinkIndex r),
                                         {| di_Dst := nr_Dst r; di_VrfTableID := vrfTable; di_EncapType := t |})])
                       else Ok acc
          | None => Ok (acc ++ [(name_of names (nr_LinkIndex r),
                                 {| di_Dst := nr_Dst r; di_VrfTableID := vrfTable; di_EncapType := t |})])
          end
      end
  | _ => if ownedByMaeto then Err "failed to parse sid encap type as seg6localencap"%string else Ok acc
  end.

Definition nl_GetSIDs (filterBy : option string) (groupingKey : option Z) : nl K (list (string * DataplaneSID)) :=
  let proto := default MaetoSIDProto groupingKey in
  routes ← query (λ k, k_RouteList k (if 0 <? proto then proto else 0)) "list maeto sids";
  names ← linkNamesOf;
  lift (foldM (report_sid names filterBy (proto =? MaetoSIDProto)) [] routes).

(** [netip.AddrFrom16] of the sixteen octets of [To16]; a segment that is no
    address panics. *)
Definition segment_of (a : Addr) : result dp_error Addr :=
  match a with
  | Addr6 v => Ok (Addr6 v)
  | Addr4 v => Ok (Addr6 (Z.lor (Z.shiftl 0xffff 32) v))
  | AddrZero => Err "slice of the wrong length"%string
  end.

Definition report_srRoute (acc : list DataplaneSRRoute) (r : NlRoute) : result dp_error (list DataplaneSRRoute) :=
  match nr_Encap r with
  | Some (SEG6Encap segments) =>
      segs ← foldM (λ segs a, a ← segment_of a; mret (segs ++ [a])) [] segments;
      mret (acc ++ [{| ds_Dst := nr_Dst r; ds_Table := nr_Table r; ds_Color := 0; ds_Segments := segs |}])
  | _ => mret acc
  end.

Definition nl_GetSRRoutes : nl K (list DataplaneSRRoute) :=
  routes ← query (λ k, k_RouteList k MaetoSIDSegsProto) "list maeto SR routes";
  lift (foldM report_srRoute [] routes).

(** A key without an octet or a value of fewer than four panics. *)
Definition report_element (acc : list DataplaneClassification) (e : list Z * list Z) :
    result dp_error (list DataplaneClassification) :=
  match e.1, e.2 with
  | key :: _, _ :: _ :: _ :: _ :: _ => mret (acc ++ [{| dc_Classifier := key; dc_Mark := of_le32 e.2 |}])
  | _, _ => Err "index out of range"%string
  end.

Definition nl_GetClassifications : nl K (list DataplaneClassification) :=
  _ ← classification_set;
  elements ← query (λ k, k_nftElements k NftablesClassificationTable NftablesDSCPMarkMap) "elements";
  lift (foldM report_element [] elements).

(** The default route of the lowest metric, among those with a gateway and a
    device; the first of equals. *)
Definition better_default (best : option NlRoute) (r : NlRoute) : option NlRoute :=
  match nr_Gw r with
  | None => best
  | Some _ =>
      if nr_LinkIndex r =? 0 then best
      else match best with
           | None => Some r
           | Some b => if nr_Priority r <? nr_Priority b then Some r else best
           end
  end.

Definition nl_GetDefaultRouteAndDev : nl K (string * string) :=
  routes ← query k_DefaultRoutes "list ipv6 default routes";
  match foldl better_default None routes with
  | None => fail "no ipv6 default route with a gateway"
  | Some r =>
      link ← query (λ k, k_LinkByIndex k (nr_LinkIndex r)) "resolve link index";
      mret (match nr_Gw r with Some gw => addr_string gw | None => ""%string end, lk_Name link)
  end.

(** ** The interface *)

Definition nl_do (op : dp_op) : nl K unit :=
  match op with
  | EnsureClassificationBase => nl_EnsureClassificationBase
  | UpsertVRF name table => nl_UpsertVRF name table
  | RemoveVRF index => nl_RemoveVRF index
  | InsertXFRMInterface name underlay ifid master => nl_InsertXFRMInterface name underlay ifid master
  | RemoveXFRMInterface index => nl_RemoveXFRMInterface index
  | UpsertRule priority src table mark iif => nl_UpsertRule priority src table mark iif
  | RemoveRule priority src table mark iif => nl_RemoveRule priority src table mark iif
  | InsertPrefixRoute dev table prefix via => nl_InsertPrefixRoute dev table prefix via
  | RemovePrefixRoute prefix table => nl_RemovePrefixRoute prefix table
  | InsertSRRouteForPrefix prefix table segs => nl_InsertSRRouteForPrefix prefix table segs
  | RemoveSRRouteForPrefix prefix table => nl_RemoveSRRouteForPrefix prefix table
  | UpsertDT46SID sid table => nl_UpsertDT46SID sid table
  | RemoveSID sid => nl_RemoveSID sid
  | InsertClassification classifier mark => nl_InsertClassification classifier mark
  | RemoveClassification classifier => nl_RemoveClassification classifier
  end.

#[export] Instance netlink_dataplane : Dataplane (LinuxNetlink K) := {|
  GetLinksByType d t := (nl_GetLinksByType t d).2;
  GetPrefixRoutes d := (nl_GetPrefixRoutes d).2;
  GetRules d := (nl_GetRules d).2;
  GetSIDs d := match (nl_GetSIDs None None d).2 with Ok l => Ok l.*2 | Err e => Err e end;
  GetSRRoutes d := (nl_GetSRRoutes d).2;
  GetClassifications d := (nl_GetClassifications d).2;
  dp_do d op := match nl_do op d with (d, Ok _) => (d, None) | (d, Err e) => (d, Some e) end;
|}.
End calls.

(** [NewLinuxNetlink]: an open connection with nothing buffered. *)
Definition NewLinuxNetlink {K} (k : K) : LinuxNetlink K := {| ln_kernel := k; ln_nft := []; ln_log := [] |}.
