(* ===== verification/NetlinkCorrect.v ===== *)
(** The Linux dataplane touches only what maeto owns: whatever the kernel
    answers, every request of a reconciler's run is tagged as maeto's. *)

From S2P Require Import Prelude Netip Topology Sid Registry Resource Reconcile ReconcileCorrect Netlink.

(** ** What maeto owns *)

Definition nft_table (op : nft_op) : string :=
  match op with
  | NftAddTable t | NftAddChain t _ | NftAddSet t _ | NftFlushChain t _ | NftAddRule t _ _ | NftAddElement t _ _ _
  | NftDelElement t _ _ => t
  end.

Definition nft_owned (op : nft_op) : Prop := nft_table op = NftablesClassificationTable.

Definition maeto_protocols : list Z := [MaetoRouteProto; MaetoSIDProto; MaetoSIDSegsProto].

(** A link is created and deleted only in maeto's group, and enslaved only when
    it is in that group; a VRF may be brought up; routes and rules carry maeto's
    protocols; only maeto's nftables table and the strict-mode switch are
    written; no command is run. *)
Definition owned (r : nl_req) : Prop :=
  match r with
  | LinkAdd l | LinkDel l | LinkSetMaster l _ => lk_Group l = MaetoLinkGroup
  | LinkSetUp l => lk_Group l = MaetoLinkGroup ∨ link_type l = "vrf"%string
  | RouteReplace r | RouteDel r => nr_Protocol r ∈ maeto_protocols
  | RuleAdd r | RuleDel r => nu_Protocol r = MaetoRouteProto
  | WriteFile path _ => path = vrfStrictModePath
  | NftFlush batch => Forall nft_owned batch
  | ExecCommand _ _ => False
  end.

Create HintDb netlink.

Section safety.
Context {K : Type} `{Kernel K}.

(** What a request leaves of the kernel. *)
Definition kernel_step (k : K) (r : nl_req) : K := (k_do k r).1.

(** From [s] to [s'] only owned requests were made, and only owned commands
    wait in the connection; the kernel is the one those requests lead to. *)
Definition safe (s s' : LinuxNetlink K) : Prop :=
  Forall nft_owned (ln_nft s) →
  Forall nft_owned (ln_nft s') ∧
  ∃ made, ln_log s' = ln_log s ++ made ∧ Forall owned made ∧ ln_kernel s' = foldl kernel_step (ln_kernel s) made.

#[export] Instance safe_preorder : PreOrder safe.
Proof.
  split.
  - intros s Hs. split; [done|]. exists []. by rewrite app_nil_r.
  - intros s1 s2 s3 H12 H23 Hs. destruct (H12 Hs) as [Hs2 (m1 & E1 & F1 & K1)].
    destruct (H23 Hs2) as [Hs3 (m2 & E2 & F2 & K2)].
    split; [done|]. exists (m1 ++ m2). rewrite E2, E1, <- app_assoc, foldl_app, K2, K1. split_and!; [done| |done].
    by apply Forall_app.
Qed.

(** A call that is safe and whose result satisfies [Q]. *)
Definition safe_call {A} (m : nl K A) (Q : A → Prop) : Prop :=
  ∀ s, safe s (m s).1 ∧ ∀ a, (m s).2 = Ok a → Q a.

Lemma safe_call_ret {A} (a : A) (Q : A → Prop) : Q a → safe_call (mret a) Q.
Proof. intros HQ s. split; [done|]. intros a' [= <-]. done. Qed.

Lemma safe_call_fail {A} e (Q : A → Prop) : safe_call (fail e) Q.
Proof. intros s. split; [done|]. intros a [=]. Qed.

Lemma safe_call_bind {A B} (m : nl K A) (f : A → nl K B) P Q :
  safe_call m P → (∀ a, P a → safe_call (f a) Q) → safe_call (m ≫= f) Q.
Proof.
  intros Hm Hf s. destruct (Hm s) as [Hs HP].
  unfold mbind, nl_bind. destruct (m s) as [s1 [a|e]]; simpl in *.
  - destruct (Hf a (HP a eq_refl) s1) as [Hs1 HQ]. split; [by etrans|done].
  - split; [done|]. intros ? [=].
Qed.

Lemma safe_call_weaken {A} (m : nl K A) (P Q : A → Prop) : safe_call m P → (∀ a, P a → Q a) → safe_call m Q.
Proof. intros Hm HPQ s. destruct (Hm s) as [Hs HP]. split; [done|]. naive_solver. Qed.

Lemma safe_call_ask {A} (q : K → result nl_errno A) : safe_call (ask q) (λ _, True).
Proof. intros s. by split. Qed.

Lemma safe_call_query {A} (q : K → result nl_errno A) what : safe_call (query q what) (λ _, True).
Proof.
  eapply safe_call_bind; [apply safe_call_ask|]. intros [a|e] _; [by apply safe_call_ret|apply safe_call_fail].
Qed.

Lemma safe_call_request r : owned r → safe_call (request r) (λ _, True).
Proof.
  intros Hr s. unfold request. destruct (k_do (ln_kernel s) r) as [k e] eqn:E. split; [|done].
  intros Hs. split; [done|]. exists [r]. simpl. unfold kernel_step. rewrite E. split_and!; [done|by constructor|done].
Qed.

Lemma safe_call_must r done what : owned r → safe_call (must r done what) (λ _, True).
Proof.
  intros Hr. eapply safe_call_bind; [by apply safe_call_request|].
  intros [e|] _; [destruct (done e)|]; first [by apply safe_call_ret | apply safe_call_fail].
Qed.

Lemma safe_call_buffer op : nft_owned op → safe_call (buffer op) (λ _, True).
Proof.
  intros Hop s. split; [|done]. intros Hs. simpl. split; [apply Forall_app; by repeat constructor|].
  exists []. by rewrite app_nil_r.
Qed.

Lemma safe_call_flush : safe_call flush (λ _, True).
Proof.
  intros s. unfold flush. destruct (k_do (ln_kernel s) _) as [k e] eqn:E. split; [|done].
  intros Hs. split; [constructor|]. exists [NftFlush (ln_nft s)]. simpl. unfold kernel_step. rewrite E.
  split_and!; [done|by constructor|done].
Qed.

#[local] Hint Resolve safe_call_ask safe_call_query safe_call_request safe_call_must safe_call_buffer safe_call_flush
  safe_call_fail : netlink.
#[local] Hint Extern 1 (owned _) => first [done | simpl; set_solver | simpl; by left] : netlink.
#[local] Hint Extern 1 (nft_owned _) => done : netlink.
#[local] Hint Extern 1 (safe_call (mret _) _) => by apply safe_call_ret : netlink.

(** Steps through a call: a bind, a case of the program, or a leaf. *)
Ltac call_step :=
  lazymatch goal with
  | |- safe_call (_ ≫= _) _ => apply (safe_call_bind _ _ (λ _, True)); [|intros ? ?]
  | |- safe_call (match ?x with _ => _ end) _ => destruct x eqn:?
  | |- _ => solve [eauto with netlink]
  end.
Ltac call_steps := repeat call_step.

Lemma vrfByTable_safe table : safe_call (vrfByTable table) (λ _, True).
Proof. unfold vrfByTable. call_steps. Qed.

Lemma vrfByTableOrNil_safe table : safe_call (vrfByTableOrNil table) (λ _, True).
Proof.
  unfold vrfByTableOrNil. call_step; [by apply safe_call_ret|]. intros s. split; [|done].
  destruct (vrfByTable_safe table s) as [Hs _]. by destruct (vrfByTable table s) as [s' [v|e]].
Qed.

Lemma link_to_remove_safe index : safe_call (link_to_remove index) (λ _, True).
Proof. unfold link_to_remove. call_steps. Qed.
#[local] Hint Resolve vrfByTable_safe vrfByTableOrNil_safe link_to_remove_safe : netlink.

Lemma classification_set_safe : safe_call classification_set (λ _, True).
Proof. apply safe_call_query. Qed.
#[local] Hint Resolve classification_set_safe : netlink.

Lemma UpsertVRF_safe name table : safe_call (nl_UpsertVRF name table) (λ _, True).
Proof.
  unfold nl_UpsertVRF. call_step; [call_steps|].
  eapply (safe_call_bind _ _ (λ l, lk_Group l = MaetoLinkGroup ∨ link_type l = "vrf"%string)).
  - call_steps. all: apply safe_call_ret; first [by left | right; unfold link_type; by case_match].
  - intros vrf ?. call_steps.
Qed.

Lemma RemoveVRF_safe index : safe_call (nl_RemoveVRF index) (λ _, True).
Proof.
  unfold nl_RemoveVRF. call_steps. apply safe_call_must. simpl.
  by match goal with H : negb _ = false |- _ => apply negb_false_iff, Z.eqb_eq in H end.
Qed.

Lemma RemoveXFRMInterface_safe index : safe_call (nl_RemoveXFRMInterface index) (λ _, True).
Proof.
  unfold nl_RemoveXFRMInterface. call_steps. apply safe_call_must. simpl.
  by match goal with H : negb _ = false |- _ => apply negb_false_iff, Z.eqb_eq in H end.
Qed.

Lemma InsertXFRMInterface_safe name underlay ifid master :
  safe_call (nl_InsertXFRMInterface name underlay ifid master) (λ _, True).
Proof. unfold nl_InsertXFRMInterface. call_steps. Qed.

Lemma InsertPrefixRoute_safe dev table prefix via : safe_call (nl_InsertPrefixRoute dev table prefix via) (λ _, True).
Proof.
  unfold nl_InsertPrefixRoute. eapply (safe_call_bind _ _ (λ r, nr_Protocol r = MaetoRouteProto)).
  - call_steps. all: by apply safe_call_ret.
  - intros r Hr. apply safe_call_must. simpl. rewrite Hr. set_solver.
Qed.

Lemma InsertSRRoute_safe prefix table segs : safe_call (nl_InsertSRRouteForPrefix prefix table segs) (λ _, True).
Proof. unfold nl_InsertSRRouteForPrefix. call_steps. Qed.

Lemma nl_do_safe op : safe_call (nl_do op) (λ _, True).
Proof.
  destruct op; simpl; first [ apply UpsertVRF_safe | apply RemoveVRF_safe | apply InsertXFRMInterface_safe
    | apply RemoveXFRMInterface_safe | apply InsertPrefixRoute_safe | apply InsertSRRoute_safe | idtac ];
    unfold nl_EnsureClassificationBase, nl_UpsertRule, nl_RemoveRule, nl_RemovePrefixRoute, nl_RemoveSRRouteForPrefix,
      nl_UpsertDT46SID, nl_RemoveSID, nl_InsertClassification, nl_RemoveClassification; call_steps.
Qed.

Lemma dp_do_safe d op : safe d (dp_do d op).1.
Proof. destruct (nl_do_safe op d) as [Hs _]. simpl. by destruct (nl_do op d) as [d' [u|e]]. Qed.

(** ** The reconciler over it *)

Context `{RangeOrder}.

Lemma Apply_safe d diff : safe d (Apply d diff).1.
Proof.
  unfold Apply. pose proof (dp_do_safe d EnsureClassificationBase) as Hb.
  destruct (dp_do d EnsureClassificationBase) as [d1 [e|]]; [done|]. simpl in *.
  etrans; [exact Hb|]. generalize (apply_ops diff). intros ops. clear. revert d1.
  induction ops as [|op ops IH]; intros d; simpl; [done|]. etrans; [apply dp_do_safe|apply IH].
Qed.

Lemma reconcile_loop_safe n pass r d ni oc : safe d (reconcile_loop n pass r d ni oc).1.
Proof.
  revert pass d oc. induction n as [|n IH]; intros pass d oc; cbn [reconcile_loop]; [done|].
  destruct (Plan r d ni) as [[current desired]|e]; [|done].
  pose proof (Apply_safe d (Diff current desired)) as Ha.
  destruct (Apply d (Diff current desired)) as [d1 [u|e]]; simpl in Ha;
    destruct (d_Add (Diff current desired)), (d_Remove (Diff current desired)); done || by etrans.
Qed.

Lemma start_step_dataplane rep now s ni :
  (start_step rep now s ni).2 = (reconcile_loop maxPasses 0 s.1 s.2 ni outcome_start).1.
Proof.
  unfold start_step, Reconcile. destruct (reconcile_loop maxPasses 0 s.1 s.2 ni outcome_start) as [d1 oc].
  unfold report. by destruct rep.
Qed.

Lemma start_step_safe rep now s ni : safe s.2 (start_step rep now s ni).2.
Proof. rewrite start_step_dataplane. apply reconcile_loop_safe. Qed.

Lemma feed_safe rep now feed s : safe s.2 (foldl (start_step rep now) s feed).2.
Proof.
  revert s. induction feed as [|ni feed IH]; intros s; simpl; [done|]. etrans; [apply start_step_safe|apply IH].
Qed.
End safety.


(** A kernel of lists, that starts with an underlay link, a VRF and a route of
    someone else. *)
Record demo_kernel := {
  dk_links : list NlLink;
  dk_routes : list NlRoute;
  dk_rules : list NlRule;
}.

Definition foreign_vrf : NlLink :=
  {| lk_Index := 7; lk_Name := "mgmt"; lk_Group := 0; lk_ParentIndex := 0; lk_MasterIndex := 0; lk_kind := LkVrf 500 |}.
Definition foreign_route : NlRoute := route_of_proto {| ipn_IP := Addr6 0; ipn_Ones := 0 |} 254 9.

Definition demo_kernel_start : demo_kernel :=
  {| dk_links := [{| lk_Index := 1; lk_Name := "lo"; lk_Group := 0; lk_ParentIndex := 0; lk_MasterIndex := 0;
                     lk_kind := LkGeneric "device" |};
                  {| lk_Index := 2; lk_Name := "eth0"; lk_Group := 0; lk_ParentIndex := 0; lk_MasterIndex := 0;
                     lk_kind := LkGeneric "device" |}; foreign_vrf];
     dk_routes := [foreign_route]; dk_rules := [] |}.

Definition found (l : option NlLink) : result nl_errno NlLink := match l with Some l => Ok l | None => Err LinkNotFound end.

Definition demo_kernel_do (k : demo_kernel) (r : nl_req) : demo_kernel * option nl_errno :=
  match r with
  | LinkAdd l =>
      ({| dk_links := dk_links k ++ [{| lk_Index := 10 + Z.of_nat (length (dk_links k)); lk_Name := lk_Name l;
                                        lk_Group := lk_Group l; lk_ParentIndex := lk_ParentIndex l;
                                        lk_MasterIndex := lk_MasterIndex l; lk_kind := lk_kind l |}];
          dk_routes := dk_routes k; dk_rules := dk_rules k |}, None)
  | LinkDel l =>
      ({| dk_links := filter (λ l', lk_Index l' ≠ lk_Index l) (dk_links k); dk_routes := dk_routes k; dk_rules := dk_rules k |}, None)
  | RouteReplace r => ({| dk_links := dk_links k; dk_routes := dk_routes k ++ [r]; dk_rules := dk_rules k |}, None)
  | RouteDel r =>
      ({| dk_links := dk_links k; dk_routes := filter (λ r', nr_Protocol r' ≠ nr_Protocol r) (dk_routes k);
          dk_rules := dk_rules k |}, None)
  | RuleAdd r => ({| dk_links := dk_links k; dk_routes := dk_routes k; dk_rules := dk_rules k ++ [r] |}, None)
  | _ => (k, None)
  end.

#[export] Instance demo_kernel_ops : Kernel demo_kernel := {|
  k_LinkByIndex k i := found (List.find (λ l, lk_Index l =? i) (dk_links k));
  k_LinkByName k n := found (List.find (λ l, (lk_Name l =? n)%string) (dk_links k));
  k_LinkList k := Ok (dk_links k);
  k_RouteList k p := Ok (List.filter (λ r, nr_Protocol r =? p) (dk_routes k));
  k_DefaultRoutes k := Ok [];
  k_RuleList k := Ok (dk_rules k);
  k_nftSet k t s := Ok tt;
  k_nftElements k t s := Ok [];
  k_nftAddSet k := Ok tt;
  k_do := demo_kernel_do;
|}.

Definition demo_feed_result : Reconciler * LinuxNetlink demo_kernel :=
  match @Start canonical_order _ netlink_dataplane (NewReconciler NodeTypeCPE) (NewLinuxNetlink demo_kernel_start) true 0
          [demo_intent 1 1; demo_intent 1 2] with
  | Ok s => s
  | Err _ => (NewReconciler NodeTypeCPE, NewLinuxNetlink demo_kernel_start)
  end.


(** The classification map's elements only wait in the connection: the call
    that adds one makes no request. *)
Lemma InsertClassification_not_sent {K : Type} `{Kernel K} (s : LinuxNetlink K) classifier mark :
  ln_log (nl_InsertClassification classifier mark s).1 = ln_log s ∧
  ln_kernel (nl_InsertClassification classifier mark s).1 = ln_kernel s.
Proof.
  unfold nl_InsertClassification, classification_set, query, ask, mbind, nl_bind. by destruct (k_nftSet _ _ _).
Qed.
