(* ===== verification/Probe.v ===== *)
(** Probes on a node (libs/probe): their configurations and identities, the
    results they publish, the STAMP sender and reflector around [Stamp], and
    the supervisor that keeps the running probes in line with an intent. *)

From S2P Require Import Prelude Netip Topology Sid Registry Stamp Resource.

(** ** Results *)

Notation ProbeType := string (only parsing).
Definition ProbeTypeSTAMP : ProbeType := "PROBE_STAMP".
Definition ProbeTypeNetStat : ProbeType := "PROBE_NET_STAT".

Record STAMPResult := {
  sr_IsSender : bool;
  sr_Sequence : Z;
  sr_Peer : Addr;
  sr_SenderSequence : option Z;
  sr_SenderTimestamp : option Time;
  sr_ReceiveTimestamp : option Time;
}.

Record NetStatResult := { nr_Stats : gmap string (gmap string Z) }.

(** [json.RawMessage]: what decoding it as either result gives. *)
Record RawData := { rd_stamp : option STAMPResult; rd_netstat : option NetStatResult }.

Definition stamp_json (r : STAMPResult) : RawData := {| rd_stamp := Some r; rd_netstat := Some {| nr_Stats := ∅ |} |}.
Definition netstat_json (r : NetStatResult) : RawData :=
  {| rd_stamp := Some {| sr_IsSender := false; sr_Sequence := 0; sr_Peer := AddrZero; sr_SenderSequence := None;
                         sr_SenderTimestamp := None; sr_ReceiveTimestamp := None |};
     rd_netstat := Some r |}.

Record ResultPacket := {
  rp_ProbeType : ProbeType;
  rp_TelemetryKey : string;
  rp_SentAt : Time;
  rp_Data : RawData;
}.

(** ** Dispatching *)

Definition ProbeResultStream : string := "PROBES".
Definition ProbeResultSubjectPrefix : string := "maeto.probe.result".
Definition defaultPublishTimeout : Duration := 5 * Second.

Record NATSDispatcherConfig := { nd_SubjectPrefix : string; nd_PublishTimeout : Duration }.

Definition NewNATSDispatcher (cfg : NATSDispatcherConfig) : NATSDispatcherConfig :=
  {| nd_SubjectPrefix := if (nd_SubjectPrefix cfg =? "")%string then ProbeResultSubjectPrefix else nd_SubjectPrefix cfg;
     nd_PublishTimeout := if nd_PublishTimeout cfg <=? 0 then defaultPublishTimeout else nd_PublishTimeout cfg |}.

Definition Subject (d : NATSDispatcherConfig) (result : ResultPacket) : string :=
  cat [nd_SubjectPrefix d; "."; rp_ProbeType result; "."; rp_TelemetryKey result].

(** A message of the stream: its subject and what its payload decodes to. *)
Record Msg := { msg_Subject : string; msg_Data : option ResultPacket }.

Definition Dispatch (d : NATSDispatcherConfig) (result : ResultPacket) (publish_ok : bool) : option Msg :=
  if publish_ok then Some {| msg_Subject := Subject d result; msg_Data := Some result |} else None.

(** ** Configurations *)

Definition DefaultSTAMPPort : Z := 862.

Record ProbeConfigSTAMP := {
  ps_ProbeType : ProbeType;
  ps_LocalLoopback : option Prefix;
  ps_PeerDestination : Addr;
  ps_TelemetryKey : string;
  ps_IsSender : bool;
  ps_NoReply : bool;
  ps_DestPort : Z;
  ps_EgressInterface : string;
  ps_EncapSegments : list Addr;
  ps_ProbeInterval : Duration;
}.

Record ProbeConfigNetStat := { pn_Devs : list string; pn_StatItems : list string; pn_ProbeInterval : Duration }.

Inductive ProbeConfig :=
  | ConfigSTAMP (p : ProbeConfigSTAMP)
  | ConfigNetStat (p : ProbeConfigNetStat).

Definition stampPort (cfg : ProbeConfigSTAMP) : Z := if ps_DestPort cfg =? 0 then DefaultSTAMPPort else ps_DestPort cfg.

(** [Duration.String]: the digits of a fraction of [prec] places, without
    trailing zeros and with the point if any are left. *)
Fixpoint frac_digits (prec : nat) (v : Z) (acc : string) (print : bool) : string * Z :=
  match prec with
  | O => (if print then String "." acc else acc, v)
  | S prec =>
      let digit := v mod 10 in
      let print := print || negb (digit =? 0) in
      frac_digits prec (v / 10) (if print then String.append (dec digit) acc else acc) print
  end.

Definition micro_sign : string := String (ascii_of_N 194) (String (ascii_of_N 181) EmptyString).

Definition duration_string (d : Duration) : string :=
  let u := Z.abs d in
  let body :=
    if u =? 0 then "0s"%string
    else if u <? Second then
      let '(prec, unit) := if u <? Microsecond then (0%nat, "ns"%string)
                           else if u <? Millisecond then (3%nat, String.append micro_sign "s") else (6%nat, "ms"%string) in
      let '(frac, whole) := frac_digits prec u "" false in
      cat [dec whole; frac; unit]
    else
      let '(frac, s) := frac_digits 9 u "" false in
      let secs := cat [dec (s mod 60); frac; "s"] in
      let m := s / 60 in
      if m =? 0 then secs
      else let mins := cat [dec (m mod 60); "m"; secs] in
           let h := m / 60 in
           if h =? 0 then mins else cat [dec h; "h"; mins] in
  if d <? 0 then String "-" body else body.

Definition stamp_GetID (p : ProbeConfigSTAMP) : string :=
  let role := (if ps_IsSender p then if ps_NoReply p then "sender-noreply" else "sender" else "reflector")%string in
  cat [ps_ProbeType p; "."; role; "."; addr_string (ps_PeerDestination p); "."; dec (stampPort p); ".";
       ps_EgressInterface p; "."; ps_TelemetryKey p; "."; duration_string (ps_ProbeInterval p)].

Inductive probe_error :=
  | WrongProbeType (t : string)
  | InvalidPeer (a : Addr)
  | ErrReflectedUnsupported
  | NonPositiveInterval (d : Duration)
  | DialFailed
  | StampFailed (e : stamp_err)
  | RunnerFailed (what : string).

Definition Validate (p : ProbeConfigSTAMP) : option probe_error :=
  if negb (ps_ProbeType p =? ProbeTypeSTAMP)%string then Some (WrongProbeType (ps_ProbeType p))
  else if ps_IsSender p && negb (addr_is_valid (ps_PeerDestination p)) then Some (InvalidPeer (ps_PeerDestination p))
  else if negb (ps_IsSender p) then None
  else if negb (ps_NoReply p) then Some ErrReflectedUnsupported
  else if ps_ProbeInterval p <=? 0 then Some (NonPositiveInterval (ps_ProbeInterval p))
  else None.

(** [slices.Compact]: runs of equal elements become one. *)
Fixpoint compact (l : list string) : list string :=
  match l with
  | a :: (b :: _) as l' => if (a =? b)%string then compact l' else a :: compact l'
  | _ => l
  end.

Definition chr (n : N) : string := String (ascii_of_N n) EmptyString.

Definition netstat_material (p : ProbeConfigNetStat) : string :=
  cat [join (chr 0) (compact (sort_strings (pn_Devs p))); chr 1; join (chr 0) (compact (sort_strings (pn_StatItems p)))].

Section identity.
(** [hex.EncodeToString(sha256.Sum256(_)[:8])] *)
Context (sha256_8 : string → string).

Definition netstat_GetID (p : ProbeConfigNetStat) : string := sha256_8 (netstat_material p).

Definition GetID (c : ProbeConfig) : string :=
  match c with ConfigSTAMP p => stamp_GetID p | ConfigNetStat p => netstat_GetID p end.
End identity.

(** ** The STAMP probe *)

Definition stampConfig : Config :=
  {| cfg_ErrorEstimate := {| ec_Scale := 22; ec_Multiplier := 1; ec_ClockFormat := ClockFormatNTP; ec_Synchronized := false |} |}.

Definition srExtensions (cfg : ProbeConfigSTAMP) : option SRExtensions :=
  if (ps_TelemetryKey cfg =? "")%string then None
  else Some {| sx_MaetoContainer := Some {| mc_TelemetryKey := Some {| tk_Key := ps_TelemetryKey cfg |} |};
               sx_ReturnPath := Some {| rp_ControlCode := Some {| cc_RequestReply := negb (ps_NoReply cfg) |} |} |}.

Definition stamp_sender_config (cfg : ProbeConfigSTAMP) : SenderConfig :=
  {| sc_HMACKey := None; sc_Timeout := 0; sc_Config := stampConfig; sc_SRExtensions := srExtensions cfg |}.

(** A tick of [runSTAMPSender] once the socket is open: the sender afterwards
    ([None]: closed, to be opened again), what was put on the wire and what is
    dispatched. *)
Definition send_tick (cfg : ProbeConfigSTAMP) (sender : Sender) (sent_at now : Time) (write_ok : bool) :
    option Sender * list (list Z) * option ResultPacket :=
  let data := {| sr_IsSender := true; sr_Sequence := snd_seq sender; sr_Peer := ps_PeerDestination cfg;
                 sr_SenderSequence := None; sr_SenderTimestamp := None; sr_ReceiveTimestamp := None |} in
  let result := {| rp_ProbeType := ProbeTypeSTAMP; rp_TelemetryKey := ps_TelemetryKey cfg; rp_SentAt := sent_at;
                   rp_Data := stamp_json data |} in
  match SendOnly sender now write_ok with
  | (sender, wire, Ok _) => (Some sender, wire, Some result)
  | (_, wire, Err _) => (None, wire, None)
  end.

(** The whole tick; a failed dial ends the probe, a failed open waits for the
    next tick. *)
Definition sender_tick (cfg : ProbeConfigSTAMP) (sender : option Sender) (dial_ok : bool) (sent_at now : Time)
    (write_ok : bool) : result probe_error (option Sender * list (list Z) * option ResultPacket) :=
  match sender with
  | Some sender => Ok (send_tick cfg sender sent_at now write_ok)
  | None =>
      if negb dial_ok then Err DialFailed
      else match NewSenderFromConn (stamp_sender_config cfg) true with
           | Err _ => Ok (None, [], None)
           | Ok sender => Ok (send_tick cfg sender sent_at now write_ok)
           end
  end.

Definition telemetryKey (cfg : ProbeConfigSTAMP) (ext : option SRExtensions) : string :=
  match ext with
  | Some {| sx_MaetoContainer := Some {| mc_TelemetryKey := Some k |} |} =>
      if (tk_Key k =? "")%string then ps_TelemetryKey cfg else tk_Key k
  | _ => ps_TelemetryKey cfg
  end.

Definition reflectorResult (cfg : ProbeConfigSTAMP) (pkt : ReflectorPacket) : result stamp_err ResultPacket :=
  let clockFormat := ec_ClockFormat (cfg_ErrorEstimate stampConfig) in
  senderTimestamp ← ToTime (rf_SenderTimestamp pkt) clockFormat;
  receiveTimestamp ← ToTime (rf_ReceiveTimestamp pkt) clockFormat;
  mret {| rp_ProbeType := ProbeTypeSTAMP; rp_TelemetryKey := telemetryKey cfg (rf_SRExtensions pkt);
          rp_SentAt := senderTimestamp;
          rp_Data := stamp_json {| sr_IsSender := false; sr_Sequence := rf_SequenceNumber pkt;
                                   sr_Peer := ps_PeerDestination cfg;
                                   sr_SenderSequence := Some (rf_SenderSequenceNumber pkt);
                                   sr_SenderTimestamp := Some senderTimestamp;
                                   sr_ReceiveTimestamp := Some receiveTimestamp |} |}.

(** What [runSTAMPReflector] dispatches for a packet of the control channel. *)
Definition reflector_dispatch (cfg : ProbeConfigSTAMP) (p : ProbePacket) : option ResultPacket :=
  match p with
  | ProbeSender _ => None
  | ProbeReflector pkt => match reflectorResult cfg pkt with Ok r => Some r | Err _ => None end
  end.

(** ** The interface counters *)

(** [unicode.IsSpace] on the octets of an ASCII file. *)
Definition is_space (c : ascii) : bool :=
  let n := N_of_ascii c in ((9 <=? n)%N && (n <=? 13)%N) || (n =? 32)%N.

Fixpoint trim_left (l : list ascii) : list ascii :=
  match l with c :: l' => if is_space c then trim_left l' else l | [] => [] end.

Definition TrimSpace (s : string) : list ascii :=
  rev (trim_left (rev (trim_left (String.list_ascii_of_string s)))).

(** [strconv.ParseUint(_, 10, 64)]: [None] on a syntax or a range error. *)
Definition ParseUint (l : list ascii) : option Z :=
  match l with
  | [] => None
  | _ => foldl (λ v c, v ← v; if digit c then let v := 10 * v + (Z.of_N (N_of_ascii c) - 48) in
                              if v <? 2 ^ 64 then Some v else None else None) (Some 0) l
  end.

Definition net_stat_buf : nat := 32.

(** The readings of one round: each file's contents, [None] if it cannot be
    read; a failed reading leaves its entry out. *)
Definition netstat_read (file : string → string → option string) (dev : string) (res : gmap string (gmap string Z))
    (stat : string) : gmap string (gmap string Z) :=
  match file dev stat with
  | Some content =>
      match ParseUint (TrimSpace (String.substring 0 net_stat_buf content)) with
      | Some v => <[dev := <[stat := v]> (map_get ∅ res dev)]> res
      | None => res
      end
  | None => res
  end.

Definition netstat_tick (cfg : ProbeConfigNetStat) (file : string → string → option string) (now : Time) : ResultPacket :=
  let stats := foldl (λ res dev, foldl (netstat_read file dev) res (pn_StatItems cfg)) ∅ (pn_Devs cfg) in
  {| rp_ProbeType := ProbeTypeNetStat; rp_TelemetryKey := "net_stat"; rp_SentAt := now;
     rp_Data := netstat_json {| nr_Stats := stats |} |}.

(** ** The supervisor *)

Definition TrackedStats : list string :=
  ["rx_bytes"; "rx_packets"; "rx_dropped"; "tx_bytes"; "tx_packets"; "tx_dropped"]%string.

Record ProbeRun := {
  pb_Config : ProbeConfig;
  pb_Generation : Z;
  (** Closed [done] channel, with the error the runner returned. *)
  pb_exited : option (option probe_error);
}.

Record Supervisor := {
  sv_started : bool;
  sv_probes : gmap string ProbeRun;
  sv_generation : Z;
  sv_closed : bool;
}.

Definition NewSupervisor : Supervisor :=
  {| sv_started := false; sv_probes := ∅; sv_generation := 0; sv_closed := false |}.

(** What the supervisor does to the probes: a probe is known by its identity
    and the generation that started it. *)
Inductive probe_event :=
  | ProbeStarted (id : string) (generation : Z)
  | ProbeCancelled (id : string) (generation : Z).

Inductive supervisor_error :=
  | NotStarted
  | ContextDone
  | ShutDown
  | NilConfig (id : string)
  | ProbeFailed (id : string) (e : probe_error).

Section supervisor.
Context `{RangeOrder} (sha256_8 : string → string).

(** The sender for a peer; a peer without a link address is not probed. *)
Definition peer_config (p : PeerIntent) : ProbeConfigSTAMP :=
  {| ps_ProbeType := ProbeTypeSTAMP; ps_LocalLoopback := None; ps_PeerDestination := pi_PeerAddress p;
     ps_TelemetryKey := pi_TelemetryKey p; ps_IsSender := true; ps_NoReply := true; ps_DestPort := DefaultSTAMPPort;
     ps_EgressInterface := pi_LocalInterface p; ps_EncapSegments := []; ps_ProbeInterval := 500 * Millisecond |}.

Definition reflector_config : ProbeConfigSTAMP :=
  {| ps_ProbeType := ProbeTypeSTAMP; ps_LocalLoopback := None; ps_PeerDestination := AddrZero; ps_TelemetryKey := "";
     ps_IsSender := false; ps_NoReply := true; ps_DestPort := 862; ps_EgressInterface := ""; ps_EncapSegments := [];
     ps_ProbeInterval := 0 |}.

Definition add_peer_probe (cfgMap : gmap string (option ProbeConfig)) (p : PeerIntent) : gmap string (option ProbeConfig) :=
  if negb (addr_is_valid (pi_PeerAddress p)) then cfgMap
  else <[stamp_GetID (peer_config p) := Some (ConfigSTAMP (peer_config p))]> cfgMap.

(** The devices whose counters are read: VRFs, tunnels, links to peers and
    host-facing interfaces. *)
Definition tenant_devs (kt : string * TenantIntent) : list string :=
  vrf_name kt.1 :: ((λ p, tun_name kt.1 (po_TunnelInterfaceID p)) <$> (range_map (ti_PortalIntents kt.2)).*2).

Definition host_facing (tenants : list (string * TenantIntent)) : gmap string unit :=
  foldl (λ m kt, foldl (λ m p, <[po_HostFacingInterface p := tt]> m) m (range_map (ti_PortalIntents kt.2)).*2) ∅ tenants.

Definition netstat_config (intent : PEIntent) : ProbeConfigNetStat :=
  {| pn_Devs := (range_map (pei_Tenants intent) ≫= tenant_devs) ++
                (pi_LocalInterface <$> (range_map (pei_Peers intent)).*2) ++
                (range_map (host_facing (range_map (pei_Tenants intent)))).*1;
     pn_StatItems := TrackedStats; pn_ProbeInterval := 10 * Second |}.

Definition probe_target (intent : PEIntent) : gmap string (option ProbeConfig) :=
  let cfgMap := foldl add_peer_probe ∅ (range_map (pei_Peers intent)).*2 in
  let cfgMap := <[stamp_GetID reflector_config := Some (ConfigSTAMP reflector_config)]> cfgMap in
  <[netstat_GetID sha256_8 (netstat_config intent) := Some (ConfigNetStat (netstat_config intent))]> cfgMap.

(** A running probe is kept when the target has it under the same identity. *)
Definition keep_probe (target : gmap string (option ProbeConfig)) (id : string) (p : ProbeRun) : bool :=
  match target !! id with
  | Some (Some desired) =>
      match pb_exited p with
      | None => (GetID sha256_8 (pb_Config p) =? GetID sha256_8 desired)%string
      | Some _ => false
      end
  | _ => false
  end.

Definition start_probe (generation : Z) (s : gmap string ProbeRun * list probe_event * list supervisor_error)
    (kc : string * option ProbeConfig) : gmap string ProbeRun * list probe_event * list supervisor_error :=
  let '(probes, log, errs) := s in
  match probes !! kc.1 with
  | Some _ => s
  | None =>
      match kc.2 with
      | None => (probes, log, errs ++ [NilConfig kc.1])
      | Some cfg => (<[kc.1 := {| pb_Config := cfg; pb_Generation := generation; pb_exited := None |}]> probes,
                     log ++ [ProbeStarted kc.1 generation], errs)
      end
  end.

(** Cancelling: every stopped probe's context, then a wait that the deadline
    bounds. *)
Definition cancel_events (stopped : list (string * ProbeRun)) : list probe_event :=
  (λ kp, ProbeCancelled kp.1 (pb_Generation kp.2)) <$> stopped.

Definition reconcileWithTarget (ctx_done : bool) (s : Supervisor) (target : gmap string (option ProbeConfig)) :
    Supervisor * list probe_event * list supervisor_error :=
  if negb (sv_started s) then (s, [], [NotStarted])
  else if ctx_done then (s, [], [ContextDone])
  else if sv_closed s then (s, [], [ShutDown])
  else
    let generation := u64 (sv_generation s + 1) in
    let stopped := filter (λ kp, keep_probe target kp.1 kp.2 = false) (range_map (sv_probes s)) in
    let kept := foldl (λ m kp, delete kp.1 m) (sv_probes s) stopped in
    let '(probes, log, errs) := foldl (start_probe generation) (kept, [], []) (range_map target) in
    ({| sv_started := sv_started s; sv_probes := probes; sv_generation := generation; sv_closed := false |},
     cancel_events stopped ++ log, errs).

Definition Shutdown (s : Supervisor) : Supervisor * list probe_event * list supervisor_error :=
  if sv_closed s then (s, [], [])
  else
    let stopped := range_map (sv_probes s) in
    ({| sv_started := sv_started s; sv_probes := ∅; sv_generation := u64 (sv_generation s + 1); sv_closed := true |},
     cancel_events stopped,
     omap (λ kp, match pb_exited kp.2 with Some (Some e) => Some (ProbeFailed kp.1 e) | _ => None end) stopped).

Definition Running (s : Supervisor) : gmap string ProbeConfig := pb_Config <$> sv_probes s.

Definition markStarted (s : Supervisor) : Supervisor :=
  {| sv_started := true; sv_probes := sv_probes s; sv_generation := sv_generation s; sv_closed := sv_closed s |}.

(** A goroutine of a probe returns. *)
Definition probe_exits (s : Supervisor) (id : string) (err : option probe_error) : Supervisor :=
  {| sv_started := sv_started s;
     sv_probes := alter (λ p, {| pb_Config := pb_Config p; pb_Generation := pb_Generation p; pb_exited := Some err |}) id (sv_probes s);
     sv_generation := sv_generation s; sv_closed := sv_closed s |}.

(** An intent of the feed in [Start]: [None] is the panic on a portal's. *)
Definition on_intent (ctx_done : bool) (s : Supervisor) (i : Intent) :
    option (Supervisor * list probe_event * list supervisor_error) :=
  match i with
  | IntentCPE _ => None
  | IntentPE intent =>
      if bool_decide (pei_Peers intent = ∅) then Some (s, [], [])
      else Some (reconcileWithTarget ctx_done s (probe_target intent))
  end.
End supervisor.
