(* ===== verification/ProbeCorrect.v ===== *)
(** Correctness of the probe supervisor of [Probe]: the probes it has started
    and not cancelled are exactly those it lists, reconciling reaches the
    target, and an unchanged intent restarts nothing whatever the order in
    which Go ranges over its maps. *)

From S2P Require Import Prelude Netip Topology Sid Registry Stamp Resource Probe.

#[local] Opaque stamp_GetID netstat_material u64.

(** ** Live probes *)

(** Started and not cancelled, from the events alone. *)
Definition live_step (l : gset (string * Z)) (e : probe_event) : gset (string * Z) :=
  match e with
  | ProbeStarted id g => {[(id, g)]} ∪ l
  | ProbeCancelled id g => l ∖ {[(id, g)]}
  end.
Definition live (log : list probe_event) : gset (string * Z) := foldl live_step ∅ log.

(** The live probes are the listed ones. *)
Definition accounted (probes : gmap string ProbeRun) (l : gset (string * Z)) : Prop :=
  ∀ id g, (id, g) ∈ l ↔ ∃ p, probes !! id = Some p ∧ pb_Generation p = g.

Lemma accounted_cancel stopped probes l :
  (∀ kp, kp ∈ stopped → probes !! kp.1 = Some kp.2) → NoDup stopped.*1 → accounted probes l →
  accounted (foldl (λ m kp, delete kp.1 m) probes stopped) (foldl live_step l (cancel_events stopped)).
Proof.
  revert probes l. induction stopped as [|[id p] stopped IH]; intros probes l Hin Hnd Hacc; [done|].
  simpl in Hnd. apply list.NoDup_cons in Hnd as [Hid Hnd]. simpl. apply IH; [|done|].
  - intros kp Hkp. rewrite lookup_delete_ne; [apply Hin; by right|]. intros ->. apply Hid. by apply list_elem_of_fmap_2.
  - pose proof (Hin (id, p) (list_elem_of_here _ _)) as Hp. simpl in Hp.
    intros id' g. rewrite elem_of_difference, elem_of_singleton, (Hacc id' g). destruct (decide (id' = id)) as [->|Hne].
    + rewrite lookup_delete_eq. split; [|by intros (? & ? & _)]. intros [(p' & Hp' & <-) Hn]. simplify_eq.
    + rewrite lookup_delete_ne by done. naive_solver.
Qed.

Lemma lookup_deletes {A} (m : gmap string A) l id :
  foldl (λ m (kp : string * A), delete kp.1 m) m l !! id = if decide (id ∈ l.*1) then None else m !! id.
Proof.
  revert m. induction l as [|[k a] l IH]; intros m; [done|]. cbn [foldl]. rewrite IH. simpl.
  destruct (decide (id ∈ l.*1)) as [Hin|Hnin].
  - by rewrite decide_True by (by right).
  - destruct (decide (id = k)) as [->|Hne].
    + by rewrite lookup_delete_eq, decide_True by (by left).
    + rewrite lookup_delete_ne, decide_False by (done || by rewrite elem_of_cons; intros [?|?]). done.
Qed.

Section supervisor.
Context `{RangeOrder} (sha256_8 : string → string).

(** ** Starting *)

Lemma accounted_start g s kc :
  let s' := start_probe g s kc in
  ∀ l, accounted s.1.1 (foldl live_step l s.1.2) → accounted s'.1.1 (foldl live_step l s'.1.2).
Proof.
  destruct s as [[probes log] errs], kc as [id c]. cbn [start_probe fst snd]. intros l Hacc.
  destruct (probes !! id) as [p|] eqn:Hp; [done|]. destruct c as [cfg|]; [|done]. simpl.
  rewrite foldl_app. simpl. intros id' g'. rewrite elem_of_union, elem_of_singleton, (Hacc id' g').
  destruct (decide (id' = id)) as [->|Hne].
  - rewrite lookup_insert_eq, Hp. naive_solver.
  - rewrite lookup_insert_ne by done. naive_solver.
Qed.

Lemma start_probes_spec g l probes log errs :
  let s' := foldl (start_probe g) (probes, log, errs) l in
  NoDup l.*1 →
  (∀ id, s'.1.1 !! id = match probes !! id with
                         | Some p => Some p
                         | None => match list_to_map (M := gmap string (option ProbeConfig)) l !! id with
                                   | Some (Some cfg) => Some {| pb_Config := cfg; pb_Generation := g; pb_exited := None |}
                                   | _ => None
                                   end
                         end) ∧
  ((∀ kc, kc ∈ l → kc.2 ≠ None) → s'.2 = errs).
Proof.
  revert probes log errs. induction l as [|[k c] l IH]; intros probes log errs; simpl.
  { intros _. split; [|done]. intros id. rewrite lookup_empty. by destruct (probes !! id). }
  intros [Hk Hnd]%list.NoDup_cons.
  assert (list_to_map (M := gmap string (option ProbeConfig)) l !! k = None) as Hnk by (by apply not_elem_of_list_to_map).
  destruct (probes !! k) as [p|] eqn:Hp.
  - destruct (IH probes log errs Hnd) as [Hl He].
    split; [|intros Hsome; apply He; intros kc Hkc; apply Hsome; by right]. intros id. rewrite Hl.
    destruct (decide (id = k)) as [->|Hne]; [by rewrite Hp|]. by rewrite lookup_insert_ne.
  - destruct c as [cfg|].
    + destruct (IH (<[k := {| pb_Config := cfg; pb_Generation := g; pb_exited := None |}]> probes) (log ++ [ProbeStarted k g]) errs Hnd)
        as [Hl He]. split.
      * intros id. rewrite Hl. destruct (decide (id = k)) as [->|Hne].
        -- by rewrite !lookup_insert_eq, Hp.
        -- by rewrite !lookup_insert_ne.
      * intros Hsome. apply He. intros kc Hkc. apply Hsome. by right.
    + destruct (IH probes log (errs ++ [NilConfig k]) Hnd) as [Hl He]. split.
      * intros id. rewrite Hl. destruct (decide (id = k)) as [->|Hne]; [by rewrite Hp, Hnk, lookup_insert_eq|]. by rewrite lookup_insert_ne.
      * intros Hsome. by destruct (Hsome (k, None) (list_elem_of_here _ _)).
Qed.

(** ** Reconciling *)

Lemma list_to_range_map {A} (m : gmap string A) : list_to_map (range_map m) = m.
Proof.
  rewrite <-(list_to_map_to_list m) at 2. apply list_to_map_proper; [apply NoDup_range_map_fst|apply range_map_perm].
Qed.

(** The probe that runs under an identity after reconciling. *)
Definition next_probe (target : gmap string (option ProbeConfig)) (g : Z) (id : string) (p : option ProbeRun) : option ProbeRun :=
  match p with
  | Some p => if keep_probe sha256_8 target id p then Some p
              else match target !! id with
                   | Some (Some cfg) => Some {| pb_Config := cfg; pb_Generation := g; pb_exited := None |}
                   | _ => None
                   end
  | None => match target !! id with
            | Some (Some cfg) => Some {| pb_Config := cfg; pb_Generation := g; pb_exited := None |}
            | _ => None
            end
  end.

Lemma reconcile_spec s target :
  sv_started s = true → sv_closed s = false →
  let '(s', ev, errs) := reconcileWithTarget sha256_8 false s target in
  (∀ id, sv_probes s' !! id = next_probe target (u64 (sv_generation s + 1)) id (sv_probes s !! id)) ∧
  (∀ l, accounted (sv_probes s) l → accounted (sv_probes s') (foldl live_step l ev)) ∧
  ((∀ id, target !! id ≠ Some None) → errs = []) ∧ sv_started s' = true ∧ sv_closed s' = false.
Proof.
  intros Hst Hcl. unfold reconcileWithTarget. rewrite Hst, Hcl. cbn [negb].
  set (stopped := filter (λ kp, keep_probe sha256_8 target kp.1 kp.2 = false) (range_map (sv_probes s))).
  set (kept := foldl (λ m (kp : string * ProbeRun), delete kp.1 m) (sv_probes s) stopped).
  set (g := u64 (sv_generation s + 1)).
  assert (∀ kp, kp ∈ stopped ↔ keep_probe sha256_8 target kp.1 kp.2 = false ∧ sv_probes s !! kp.1 = Some kp.2) as Hstop.
  { intros [id p]. unfold stopped. rewrite list_elem_of_filter. by rewrite elem_of_range_map. }
  assert (NoDup stopped.*1) as Hnd.
  { unfold stopped. eapply sublist_NoDup; [apply (NoDup_range_map_fst (sv_probes s))|]. apply fmap_sublist, sublist_filter. }
  pose proof (start_probes_spec g (range_map target) kept [] [] (NoDup_range_map_fst target)) as [Hl He].
  assert (∀ l rest, accounted kept l → accounted (foldl (start_probe g) (kept, [], []) rest).1.1
    (foldl live_step l (foldl (start_probe g) (kept, [], []) rest).1.2)) as Hacc.
  { intros l rest Hk. apply (foldl_ind _ (λ _ s, accounted s.1.1 (foldl live_step l s.1.2))); [done|].
    intros _ kc t Ht _. by apply accounted_start. }
  rewrite list_to_range_map in Hl. specialize (Hacc) as Hacc'.
  destruct (foldl (start_probe g) (kept, [], []) (range_map target)) as [[probes log] errs] eqn:Hf. cbn [fst snd] in *.
  split_and!; [|intros l Hacc0| |done|done]; cbn [sv_probes].
  - intros id. rewrite Hl. unfold kept. rewrite lookup_deletes. destruct (decide (id ∈ stopped.*1)) as [Hin|Hnin].
    + apply list_elem_of_fmap in Hin as ([id' p] & -> & [Hk Hp]%Hstop). simpl in *. unfold next_probe. by rewrite Hp, Hk.
    + destruct (sv_probes s !! id) as [p|] eqn:Hp; [|done]. unfold next_probe.
      destruct (keep_probe sha256_8 target id p) eqn:Hk; [done|]. exfalso. apply Hnin.
      apply list_elem_of_fmap. exists (id, p). split; [done|]. by apply Hstop.
  - rewrite foldl_app. pose proof (Hacc (foldl live_step l (cancel_events stopped)) (range_map target)) as Hend. rewrite Hf in Hend.
    apply Hend, accounted_cancel; [|done|done]. intros kp Hkp. by apply Hstop.
  - intros Hnil. apply He. intros [id c] Hin%elem_of_range_map Hc. simpl in Hc. subst c. by apply (Hnil id).
Qed.
End supervisor.

(** Every configuration of a target is under its identity. *)
Definition keyed_target (sha256_8 : string → string) (target : gmap string (option ProbeConfig)) : Prop :=
  ∀ id c, target !! id = Some c → ∃ cfg, c = Some cfg ∧ GetID sha256_8 cfg = id.

(** What runs after reconciling is of the target and has not exited. *)
Lemma next_probe_known sha256_8 target g id p0 p :
  keyed_target sha256_8 target → next_probe sha256_8 target g id p0 = Some p →
  is_Some (target !! id) ∧ GetID sha256_8 (pb_Config p) = id ∧ pb_exited p = None.
Proof.
  intros Hkt Hn. unfold next_probe in Hn.
  assert (match target !! id with Some (Some cfg) => Some {| pb_Config := cfg; pb_Generation := g; pb_exited := None |} | _ => None end = Some p →
    is_Some (target !! id) ∧ GetID sha256_8 (pb_Config p) = id ∧ pb_exited p = None) as Hfresh.
  { destruct (target !! id) as [[cfg|]|] eqn:Ht; try done. intros [= <-]. split_and!; [eauto| |done].
    by destruct (Hkt id _ Ht) as (cfg' & [= <-] & <-). }
  destruct p0 as [p0|]; [|auto]. destruct (keep_probe sha256_8 target id p0) eqn:Hk; [|auto]. injection Hn as <-.
  unfold keep_probe in Hk. destruct (target !! id) as [[cfg|]|] eqn:Ht; try done. destruct (pb_exited p0); [done|].
  apply String.eqb_eq in Hk. split_and!; [eauto| |done]. by destruct (Hkt id _ Ht) as (cfg' & [= <-] & <-).
Qed.

(** ** Every reachable supervisor *)

Inductive reached (sha256_8 : string → string) : Supervisor → list probe_event → Prop :=
  | reach_new : reached sha256_8 NewSupervisor []
  | reach_started s log : reached sha256_8 s log → reached sha256_8 (markStarted s) log
  | reach_reconcile (order : RangeOrder) ctx_done s log target s' ev errs :
      reached sha256_8 s log → reconcileWithTarget sha256_8 ctx_done s target = (s', ev, errs) → reached sha256_8 s' (log ++ ev)
  | reach_exit s log id err : reached sha256_8 s log → reached sha256_8 (probe_exits s id err) log
  | reach_shutdown (order : RangeOrder) s log s' ev errs :
      reached sha256_8 s log → Shutdown s = (s', ev, errs) → reached sha256_8 s' (log ++ ev).

Lemma accounted_exits probes l id err :
  accounted probes l →
  accounted (alter (λ p, {| pb_Config := pb_Config p; pb_Generation := pb_Generation p; pb_exited := Some err |}) id probes) l.
Proof.
  intros Hacc id' g. rewrite (Hacc id' g). destruct (decide (id = id')) as [->|Hne].
  - rewrite lookup_alter_eq. destruct (probes !! id') as [p|]; [|naive_solver]. simpl. split.
    + intros (p' & [= <-] & <-). eexists. split; [done|done].
    + intros (p' & [= <-] & <-). by exists p.
  - by rewrite lookup_alter_ne.
Qed.

Lemma accounted_shutdown `{RangeOrder} probes l :
  accounted probes l → accounted ∅ (foldl live_step l (cancel_events (range_map probes))).
Proof.
  intros Hacc. pose proof (accounted_cancel (range_map probes) probes l) as Hc.
  replace (foldl (λ m (kp : string * ProbeRun), delete kp.1 m) probes (range_map probes)) with (∅ : gmap string ProbeRun) in Hc.
  - apply Hc; [|apply NoDup_range_map_fst|done]. intros [id p] Hin. by apply elem_of_range_map.
  - symmetry. apply map_empty. intros id. rewrite lookup_deletes. destruct (decide _) as [Hin|Hnin]; [done|].
    destruct (probes !! id) as [p|] eqn:Hp; [|done]. exfalso. apply Hnin. apply list_elem_of_fmap. exists (id, p).
    split; [done|]. by apply elem_of_range_map.
Qed.

(** ** Targets *)

Definition probed (intent : PEIntent) (id : string) : Prop :=
  ∃ k p, pei_Peers intent !! k = Some p ∧ addr_is_valid (pi_PeerAddress p) = true ∧ id = stamp_GetID (peer_config p).

Section target.
Context `{RangeOrder} (sha256_8 : string → string) (intent : PEIntent).

Lemma peers_target id :
  let m := foldl add_peer_probe ∅ (range_map (pei_Peers intent)).*2 in
  (is_Some (m !! id) ↔ probed intent id) ∧ ∀ c, m !! id = Some c → ∃ cfg, c = Some cfg ∧ GetID sha256_8 cfg = id.
Proof.
  assert (∀ l m, (∀ id c, m !! id = Some c → ∃ cfg, c = Some cfg ∧ GetID sha256_8 cfg = id) →
    ∀ id, let m' := foldl add_peer_probe m l in
    (is_Some (m' !! id) ↔ is_Some (m !! id) ∨ ∃ p, p ∈ l ∧ addr_is_valid (pi_PeerAddress p) = true ∧ id = stamp_GetID (peer_config p)) ∧
    ∀ c, m' !! id = Some c → ∃ cfg, c = Some cfg ∧ GetID sha256_8 cfg = id) as Hgen.
  { induction l as [|p l IH]; intros m Hm id'; simpl.
    { split; [|apply Hm]. split; [by left|]. intros [?|(p & Hp%not_elem_of_nil & _)]; done. }
    unfold add_peer_probe at 2 4. destruct (addr_is_valid (pi_PeerAddress p)) eqn:Hv; simpl.
    - destruct (IH (<[stamp_GetID (peer_config p) := Some (ConfigSTAMP (peer_config p))]> m)) with (id := id') as [Hiff Hkey].
      { intros id0 c [[<- <-]|[_ ?]]%lookup_insert_Some; [|eauto]. by eexists. }
      split; [|exact Hkey]. rewrite Hiff.
      destruct (decide (stamp_GetID (peer_config p) = id')) as [<-|Hne].
      + rewrite lookup_insert_eq. split; [|eauto]. intros _. right. exists p. split_and!; [by left|done|done].
      + rewrite lookup_insert_ne by done. split.
        * intros [?|(p' & ? & ?)]; [by left|]. right. exists p'. split; [by right|done].
        * intros [?|(p' & [->|?]%elem_of_cons & ? & ?)]; [by left|congruence|]. right. by exists p'.
    - destruct (IH m Hm id') as [Hiff Hkey]. split; [|exact Hkey]. rewrite Hiff. split.
      + intros [?|(p' & ? & ?)]; [by left|]. right. exists p'. split; [by right|done].
      + intros [?|(p' & [->|?]%elem_of_cons & Hv' & ?)]; [by left|congruence|]. right. by exists p'. }
  destruct (Hgen (range_map (pei_Peers intent)).*2 ∅) with (id := id) as [Hiff Hkey]; [by intros id0 c; rewrite lookup_empty|].
  split; [|exact Hkey]. rewrite Hiff, lookup_empty. unfold probed. split.
  - intros [[? ?]|(p & ([k p'] & -> & Hk%elem_of_range_map)%list_elem_of_fmap & ? & ?)]; [done|]. eauto.
  - intros (k & p & Hk & ? & ?). right. exists p. split; [|done]. apply list_elem_of_fmap. exists (k, p).
    split; [done|]. by apply elem_of_range_map.
Qed.

Lemma probe_target_keyed : keyed_target sha256_8 (probe_target sha256_8 intent).
Proof.
  intros id c. unfold probe_target. cbv zeta. intros [[<- <-]|[_ Hc]]%lookup_insert_Some; [by eexists|].
  apply lookup_insert_Some in Hc as [[<- <-]|[_ Hc]]; [by eexists|]. by apply (peers_target id).
Qed.

Lemma probe_target_dom id :
  is_Some (probe_target sha256_8 intent !! id) ↔
  probed intent id ∨ id = stamp_GetID reflector_config ∨ id = netstat_GetID sha256_8 (netstat_config intent).
Proof.
  unfold probe_target. cbv zeta. destruct (peers_target id) as [Hiff _]. rewrite !lookup_insert_is_Some'. rewrite Hiff. naive_solver.
Qed.

Lemma elem_of_host_facing l dev :
  host_facing l !! dev = Some tt ↔ ∃ kt id p, kt ∈ l ∧ ti_PortalIntents kt.2 !! id = Some p ∧ dev = po_HostFacingInterface p.
Proof.
  unfold host_facing.
  assert (∀ (ps : list PE_PortalIntent) (m : gmap string unit), foldl (λ m p, <[po_HostFacingInterface p := tt]> m) m ps !! dev = Some tt ↔
    m !! dev = Some tt ∨ ∃ p, p ∈ ps ∧ dev = po_HostFacingInterface p) as Hin.
  { induction ps as [|p ps IH]; intros m; simpl; [split; [by left|]; intros [?|(p & ?%not_elem_of_nil & _)]; done|].
    rewrite IH, lookup_insert_Some. split.
    - intros [[[<- _]|[_ ?]]|(p' & ? & ?)]; [right; exists p; split; [by left|done]|by left|].
      right. exists p'. split; [by right|done].
    - destruct (decide (po_HostFacingInterface p = dev)) as [<-|Hne]; [by left; left|].
      intros [?|(p' & [->|?]%elem_of_cons & ?)]; [by left; right|congruence|]. right. by exists p'. }
  assert (∀ m : gmap string unit, foldl (λ m (kt : string * TenantIntent), foldl (λ m p, <[po_HostFacingInterface p := tt]> m) m (range_map (ti_PortalIntents kt.2)).*2) m l !! dev = Some tt ↔
    m !! dev = Some tt ∨ ∃ kt p, kt ∈ l ∧ p ∈ (range_map (ti_PortalIntents kt.2)).*2 ∧ dev = po_HostFacingInterface p) as Hout.
  { induction l as [|kt l IH]; intros m; simpl; [split; [by left|]; intros [?|(kt & p & ?%not_elem_of_nil & _)]; done|].
    rewrite IH, Hin. split.
    - intros [[?|(p & ? & ?)]|(kt' & p & ? & ? & ?)]; [by left| |].
      + right. exists kt, p. split; [by left|done].
      + right. exists kt', p. split; [by right|done].
    - intros [?|(kt' & p & [->|?]%elem_of_cons & ? & ?)]; [by left; left|left; right; by exists p|right; by exists kt', p]. }
  rewrite Hout, lookup_empty. setoid_rewrite list_elem_of_fmap. split.
  - intros [?|(kt & p & Hkt & ([id p'] & -> & Hp%elem_of_range_map) & ->)]; [done|]. eauto 10.
  - intros (kt & id & p & Hkt & Hp%elem_of_range_map & ->). right. exists kt, p. split_and!; [done| |done]. exists (id, p). done.
Qed.
End target.

(** ** The order of iteration *)

Lemma range_map_perms (o1 o2 : RangeOrder) {A} (m : gmap string A) : @range_map o1 _ _ _ _ m ≡ₚ @range_map o2 _ _ _ _ m.
Proof. by rewrite !range_map_perm. Qed.

Lemma netstat_devs_perm (o1 o2 : RangeOrder) intent :
  pn_Devs (@netstat_config o1 intent) ≡ₚ pn_Devs (@netstat_config o2 intent).
Proof.
  unfold netstat_config. cbn [pn_Devs]. f_equiv; [|f_equiv].
  - etransitivity; [apply (bind_Permutation _ _ _ (range_map_perms o1 o2 _))|].
    induction (@range_map o2 _ _ _ _ (pei_Tenants intent)) as [|kt l IH]; [done|]. cbn [mbind list_bind]. apply Permutation_app; [|exact IH].
    unfold tenant_devs. apply Permutation_skip. apply fmap_Permutation, fmap_Permutation, range_map_perms.
  - apply fmap_Permutation, fmap_Permutation, range_map_perms.
  - replace (@host_facing o1 (@range_map o1 _ _ _ _ (pei_Tenants intent)))
      with (@host_facing o2 (@range_map o2 _ _ _ _ (pei_Tenants intent))).
    + apply fmap_Permutation, range_map_perms.
    + apply map_eq. intros dev. apply option_eq. intros []. rewrite !elem_of_host_facing.
      setoid_rewrite (range_map_perms o1 o2 (pei_Tenants intent)). done.
Qed.

Lemma netstat_id_order (o1 o2 : RangeOrder) sha256_8 intent :
  netstat_GetID sha256_8 (@netstat_config o1 intent) = netstat_GetID sha256_8 (@netstat_config o2 intent).
Proof.
  with_strategy transparent [netstat_material] unfold netstat_GetID, netstat_material.
  assert (sort_strings (pn_Devs (@netstat_config o1 intent)) = sort_strings (pn_Devs (@netstat_config o2 intent))) as Hs.
  { unfold sort_strings. apply (merge_sort_unique str_le _ _ (netstat_devs_perm o1 o2 intent)). intros x y _ _ ? ?. by apply (anti_symm str_le). }
  by rewrite Hs.
Qed.

Lemma probe_target_order (o1 o2 : RangeOrder) sha256_8 intent id :
  is_Some (@probe_target o1 sha256_8 intent !! id) ↔ is_Some (@probe_target o2 sha256_8 intent !! id).
Proof. rewrite !probe_target_dom. by rewrite (netstat_id_order o1 o2). Qed.

(** ** Properties *)


(** A target with a reflector. *)
Definition demo_target : gmap string (option ProbeConfig) :=
  {[stamp_GetID reflector_config := Some (ConfigSTAMP reflector_config)]}.
Definition demo_sha (s : string) : string := s.
Definition demo_reconciled : Supervisor * list probe_event * list supervisor_error :=
  @reconcileWithTarget canonical_order demo_sha false (markStarted NewSupervisor) demo_target.


(** Reconciling reaches its target and disturbs nothing else.  Once
    started and not shut down, on a target whose configurations are under their
    identities: no error, the running probes are exactly the target's, none of
    them exited, each with the target's identity; a probe that runs under an
    identity of the target is left as it is. *)
Theorem reconcile_reaches_target `{RangeOrder} sha256_8 s target :
  sv_started s = true → sv_closed s = false → keyed_target sha256_8 target →
  let '(s', ev, errs) := reconcileWithTarget sha256_8 false s target in
  errs = [] ∧
  (∀ id, is_Some (sv_probes s' !! id) ↔ is_Some (target !! id)) ∧
  (∀ id p, sv_probes s' !! id = Some p → GetID sha256_8 (pb_Config p) = id ∧ pb_exited p = None) ∧
  (∀ id p, sv_probes s !! id = Some p → is_Some (target !! id) → GetID sha256_8 (pb_Config p) = id → pb_exited p = None →
     sv_probes s' !! id = Some p).
Proof.
  intros Hst Hcl Hkt. pose proof (reconcile_spec sha256_8 s target Hst Hcl) as Hspec.
  destruct (reconcileWithTarget sha256_8 false s target) as [[s' ev] errs]. destruct Hspec as (Hp & _ & He & _ & _).
  split; [apply He; intros id Hn; destruct (Hkt id None Hn) as (? & ? & _); done|].
  split_and!.
  - intros id. rewrite Hp. split; [intros [p Hn]; by apply next_probe_known in Hn as [? _]|]. intros [c Ht].
    destruct (Hkt id c Ht) as (cfg & -> & _). unfold next_probe. rewrite Ht.
    destruct (sv_probes s !! id) as [p0|]; [destruct (keep_probe _ _ _ _)|]; eauto.
  - intros id p. rewrite Hp. intros Hn. by apply next_probe_known in Hn as [_ ?].
  - intros id p Hs [c Ht] Hid Hex. rewrite Hp, Hs. unfold next_probe, keep_probe. destruct (Hkt id c Ht) as (cfg & -> & Hc).
    by rewrite Ht, Hex, Hid, Hc, String.eqb_refl.
Qed.

Example reconcile_reaches_target_witness :
  let s := markStarted NewSupervisor in
  let '(s', ev, errs) := @reconcileWithTarget canonical_order demo_sha false s demo_target in
  errs = [] ∧
  (∀ id, is_Some (sv_probes s' !! id) ↔ is_Some (demo_target !! id)) ∧
  (∀ id p, sv_probes s' !! id = Some p → GetID demo_sha (pb_Config p) = id ∧ pb_exited p = None) ∧
  (∀ id p, sv_probes s !! id = Some p → is_Some (demo_target !! id) → GetID demo_sha (pb_Config p) = id → pb_exited p = None →
     sv_probes s' !! id = Some p).
Proof.
  intros s. apply (@reconcile_reaches_target canonical_order demo_sha s demo_target); [reflexivity|reflexivity|].
  unfold demo_target. intros id c [<- <-]%lookup_singleton_Some. by eexists.
Defined.

Section unchanged.
Context `{RangeOrder} (sha256_8 : string → string).

(** Nothing to cancel and nothing to start. *)
Lemma reconcile_noop s target :
  sv_started s = true → sv_closed s = false → keyed_target sha256_8 target →
  (∀ id p, sv_probes s !! id = Some p → keep_probe sha256_8 target id p = true) →
  (∀ id, is_Some (target !! id) → is_Some (sv_probes s !! id)) →
  ∃ s', reconcileWithTarget sha256_8 false s target = (s', [], []) ∧ sv_probes s' = sv_probes s.
Proof.
  intros Hst Hcl Hkt Hkeep Hall. unfold reconcileWithTarget. rewrite Hst, Hcl. cbn [negb].
  assert (filter (λ kp, keep_probe sha256_8 target kp.1 kp.2 = false) (range_map (sv_probes s)) = []) as ->.
  { apply elem_of_nil_inv. intros [id p] [Hk Hp]%list_elem_of_filter. apply elem_of_range_map, Hkeep in Hp. simpl in Hk. congruence. }
  cbn [foldl cancel_events fmap list_fmap app].
  assert (∀ l, (∀ kc, kc ∈ l → is_Some (sv_probes s !! kc.1)) →
    foldl (start_probe (u64 (sv_generation s + 1))) (sv_probes s, [], []) l = (sv_probes s, [], [])) as Hnone.
  { induction l as [|[id c] l IH]; intros Hl; [done|]. simpl.
    destruct (Hl (id, c) (list_elem_of_here _ _)) as [p Hp]. simpl in Hp. rewrite Hp. apply IH. intros kc Hkc. apply Hl. by right. }
  rewrite Hnone; [by eexists|]. intros [id c] Hin%elem_of_range_map. apply Hall. by exists c.
Qed.
End unchanged.

(** An unchanged intent restarts nothing.  When an intent comes again, in
    whatever order Go ranges over its maps each time, and no probe has exited,
    the supervisor cancels and starts no probe and lists the same ones. *)
Theorem unchanged_intent_restarts_nothing (o1 o2 : RangeOrder) sha256_8 s intent :
  sv_started s = true → sv_closed s = false →
  let '(s1, _, _) := @reconcileWithTarget o1 sha256_8 false s (@probe_target o1 sha256_8 intent) in
  let '(s2, ev, errs) := @reconcileWithTarget o2 sha256_8 false s1 (@probe_target o2 sha256_8 intent) in
  sv_probes s2 = sv_probes s1 ∧ ev = [] ∧ errs = [].
Proof.
  intros Hst Hcl.
  pose proof (@reconcile_spec o1 sha256_8 s (@probe_target o1 sha256_8 intent) Hst Hcl) as Hspec.
  destruct (reconcileWithTarget _ _ s _) as [[s1 ev1] errs1]. destruct Hspec as (Hp & _ & _ & Hst1 & Hcl1).
  pose proof (@probe_target_keyed o1 sha256_8 intent) as Hk1. pose proof (@probe_target_keyed o2 sha256_8 intent) as Hk2.
  pose proof (probe_target_order o1 o2 sha256_8 intent) as Hdom.
  destruct (@reconcile_noop o2 sha256_8 s1 (@probe_target o2 sha256_8 intent) Hst1 Hcl1 Hk2) as (s2 & -> & Hs2); [..|done].
  - intros id p Hs1. rewrite Hp in Hs1. apply next_probe_known in Hs1 as (Ht & Hid & Hex); [|exact Hk1].
    apply Hdom in Ht as [c Ht]. destruct (Hk2 id c Ht) as (cfg & -> & Hc). unfold keep_probe. by rewrite Ht, Hex, Hid, Hc, String.eqb_refl.
  - intros id [c Ht]%Hdom. rewrite Hp. destruct (Hk1 id c Ht) as (cfg & -> & _). unfold next_probe. rewrite Ht.
    destruct (sv_probes s !! id) as [p0|]; [destruct (keep_probe _ _ _ _)|]; eauto.
Qed.

Example unchanged_intent_restarts_nothing_witness :
  let pe := {| pei_NodeID := "pe-1"; pei_Tenants := ∅; pei_Peers := ∅; pei_TrafficClassIntent := [] |} in
  let '(s1, _, _) := @reconcileWithTarget canonical_order demo_sha false (markStarted NewSupervisor) (@probe_target canonical_order demo_sha pe) in
  let '(s2, ev, errs) := @reconcileWithTarget reversed_order demo_sha false s1 (@probe_target reversed_order demo_sha pe) in
  sv_probes s2 = sv_probes s1 ∧ ev = [] ∧ errs = [].
Proof. intros pe. apply (unchanged_intent_restarts_nothing canonical_order reversed_order demo_sha (markStarted NewSupervisor) pe); reflexivity. Defined.
