(* ===== verification/Telemetry.v ===== *)
(** Telemetry in the control plane: exponentially weighted averages (ewma.go)
    and the collector that turns probe results into link costs and counters
    (telemetry_collector*.go). *)

From Stdlib Require Import SpecFloat.
From S2P Require Import Prelude Float64 FloatBounds Netip Topology CostGraph Stamp Resource Probe.

(** ** Averages *)

Record EwmaConfig := { ewc_Alpha : f64; ewc_Epsilon : f64 }.

Record Ewma := {
  ew_config : EwmaConfig;
  ew_mean : f64;
  ew_variance : f64;
  ew_n : Z;
  ew_lastSeen : Time;
}.

Record EwmaSnapshot := {
  es_Mean : f64;
  es_Variance : f64;
  es_Stddev : f64;
  es_N : Z;
  es_LastSeen : Time;
}.

Definition defaultEwmaAlpha : f64 := f_ratio 2 10.
Definition defaultEwmaEpsilon : f64 := f_ratio 1 1000000000.

Definition empty_ewma (config : EwmaConfig) : Ewma :=
  {| ew_config := config; ew_mean := f_zero; ew_variance := f_zero; ew_n := 0; ew_lastSeen := zero_time |}.

Definition NewEwma (config : EwmaConfig) : Ewma :=
  let alpha := if f_leb (ewc_Alpha config) f_zero || f_ltb f_one (ewc_Alpha config) then defaultEwmaAlpha else ewc_Alpha config in
  let epsilon := if f_leb (ewc_Epsilon config) f_zero then defaultEwmaEpsilon else ewc_Epsilon config in
  empty_ewma {| ewc_Alpha := alpha; ewc_Epsilon := epsilon |}.

Definition Observe (e : Ewma) (ts : Time) (value : f64) : Ewma :=
  if ew_n e =? 0 then
    {| ew_config := ew_config e; ew_mean := value; ew_variance := f_zero; ew_n := 1; ew_lastSeen := ts |}
  else
    let alpha := ewc_Alpha (ew_config e) in
    let delta := (value - ew_mean e)%f64 in
    {| ew_config := ew_config e;
       ew_mean := (ew_mean e + alpha * delta)%f64;
       ew_variance := ((f_one - alpha) * (ew_variance e + alpha * delta * delta))%f64;
       ew_n := i64 (ew_n e + 1);
       ew_lastSeen := ts |}.

Definition Ewma_Snapshot (e : Ewma) : EwmaSnapshot :=
  {| es_Mean := ew_mean e; es_Variance := ew_variance e;
     es_Stddev := f_sqrt (ew_variance e + ewc_Epsilon (ew_config e))%f64; es_N := ew_n e; es_LastSeen := ew_lastSeen e |}.

Definition Mean (e : Ewma) : f64 := es_Mean (Ewma_Snapshot e).
Definition Variance (e : Ewma) : f64 := es_Variance (Ewma_Snapshot e).
Definition Stddev (e : Ewma) : f64 := es_Stddev (Ewma_Snapshot e).

(** ** The collector *)

(** The two averages of a link, [ewmas[COSTDIM_LATENCY]] and
    [ewmas[COSTDIM_LOSS]]. *)
Record LinkEwmas := { le_latency : Ewma; le_loss : Ewma }.

Record TelemetryCollector := {
  tc_SubjectPrefix : string;
  tc_ForNode : NodeID;
  tc_ewmas : gmap EdgeID LinkEwmas;
  tc_stampLastSeq : gmap EdgeID Z;
}.

Definition NewTelemetryCollector (forNode : NodeID) (subjectPrefix : string) : TelemetryCollector :=
  {| tc_SubjectPrefix := subjectPrefix; tc_ForNode := forNode; tc_ewmas := ∅; tc_stampLastSeq := ∅ |}.

Definition stampReorderTolerance : Z := 64.
Definition stampMaxLostPerSample : Z := 200.
Definition ewmaWarmupSamples : Z := 120.
Definition costJitterReferenceMs : f64 := f_of_Z 5.
Definition costLossReference : f64 := f_ratio 1 100.

Definition new_link_ewmas : LinkEwmas :=
  {| le_latency := empty_ewma {| ewc_Alpha := f_ratio 3 10; ewc_Epsilon := f_ratio 1 1000000 |};
     le_loss := empty_ewma {| ewc_Alpha := f_ratio 5 100; ewc_Epsilon := f_ratio 1 1000000 |} |}.

(** The sequence accounting: the newest sequence number seen on a link and its
    loss average, after a probe with number [seq]. *)
Definition loss_step (ts : Time) (st : option Z * Ewma) (seq : Z) : option Z * Ewma :=
  let '(last, loss) := st in
  match last with
  | None => (Some seq, Observe loss ts f_zero)
  | Some lastSeq =>
      if lastSeq <? seq then
        let lost := Z.min (u32 (seq - lastSeq - 1)) stampMaxLostPerSample in
        let loss := Nat.iter (Z.to_nat lost) (λ e, Observe e ts f_one) loss in
        (Some seq, Observe loss ts f_zero)
      else if stampReorderTolerance <? u32 (lastSeq - seq) then (Some seq, Observe loss ts f_zero)
      else (last, loss)
  end.

Inductive telemetry_error :=
  | BadPayload
  | BadSubject (s : string)
  | KeyMismatch
  | MissingFields
  | NegativeDuration
  | StoreFailed
  | UnknownProbeType (t : string).

Record InsertLinkSampleParams := { ls_Time : Time; ls_TelemetryKey : string; ls_Sequence : Z; ls_LatencyMs : f64 }.
Record InsertIfaceCountersParams := {
  ic_Time : Time;
  ic_NodeID : string;
  ic_Iface : string;
  ic_RxBytes : Z; ic_TxBytes : Z; ic_RxPackets : Z; ic_TxPackets : Z; ic_RxDropped : Z; ic_TxDropped : Z;
}.

Section collector.
(** [math.Log1p]. *)
Context `{RangeOrder} (Log1p : f64 → f64).

Definition NormalizeDelayJitterLoss (delayMs jitterVarianceMs2 loss delayReferenceMs jitterReferenceMs lossReference : f64) :
    f64 * f64 * f64 :=
  let lossRefLog := f_opp (Log1p (f_opp lossReference)) in
  let delayNormalized := (delayMs / delayReferenceMs)%f64 in
  let jitterNormalized := (jitterVarianceMs2 / (jitterReferenceMs * jitterReferenceMs))%f64 in
  let lossNormalized := (f_opp (Log1p (f_opp (f_min loss (f_ratio 999999 1000000)))) / lossRefLog)%f64 in
  (delayNormalized, jitterNormalized, lossNormalized).

(** The averages of a link after a sample, and the state they are kept in. *)
Definition observe_stamp (t : TelemetryCollector) (edgeID : EdgeID) (observationTime : Time) (durationMs : f64) (seq : Z) :
    TelemetryCollector * LinkEwmas :=
  let ewmas := default new_link_ewmas (tc_ewmas t !! edgeID) in
  let latency := Observe (le_latency ewmas) observationTime durationMs in
  let '(last, loss) := loss_step observationTime (tc_stampLastSeq t !! edgeID, le_loss ewmas) seq in
  let ewmas := {| le_latency := latency; le_loss := loss |} in
  ({| tc_SubjectPrefix := tc_SubjectPrefix t; tc_ForNode := tc_ForNode t; tc_ewmas := <[edgeID := ewmas]> (tc_ewmas t);
      tc_stampLastSeq := match last with Some s => <[edgeID := s]> (tc_stampLastSeq t) | None => tc_stampLastSeq t end |}, ewmas).

(** The costs of a link from its averages. *)
Definition update_link (cg : CostGraph) (edgeID : EdgeID) (ewmas : LinkEwmas) (now : Time) : CostGraph :=
  let latency := Ewma_Snapshot (le_latency ewmas) in
  let '(delayNormalized, jitterNormalized, lossNormalized) :=
    NormalizeDelayJitterLoss (es_Mean latency) (es_Variance latency) (Mean (le_loss ewmas)) (f_of_Z costDelayReferenceMs)
      costJitterReferenceMs costLossReference in
  let cg := if ewmaWarmupSamples <? es_N latency then MarkEdgeConverged cg edgeID else cg in
  let cg := UpdateCost cg edgeID COSTDIM_LATENCY delayNormalized in
  let cg := UpdateCost cg edgeID COSTDIM_JITTER jitterNormalized in
  let cg := UpdateCost cg edgeID COSTDIM_LOSS lossNormalized in
  MarkSeen cg edgeID now.

Definition duration_ms (d : Duration) : f64 := (f_of_Z (microseconds d) / f_of_Z 1000)%f64.

(** [handleSTAMP]: the collector, the cost graph, the row handed to the
    database and the error.  [db_ok]: whether the transaction commits. *)
Definition handleSTAMP (t : TelemetryCollector) (cg : CostGraph) (db_ok : bool) (observationTime now : Time)
    (data : RawData) (key : string) : TelemetryCollector * CostGraph * list InsertLinkSampleParams * option telemetry_error :=
  match rd_stamp data with
  | None => (t, cg, [], Some BadPayload)
  | Some p =>
      if sr_IsSender p then (t, cg, [], None)
      else match sr_SenderSequence p, sr_SenderTimestamp p, sr_ReceiveTimestamp p with
           | Some seq, Some sent, Some received =>
               let duration := time_sub received sent in
               if duration <? 0 then (t, cg, [], Some NegativeDuration)
               else
                 let durationMs := duration_ms duration in
                 let '(t, ewmas) := observe_stamp t key observationTime durationMs seq in
                 if negb db_ok then (t, cg, [], Some StoreFailed)
                 else (t, update_link cg key ewmas now,
                       [{| ls_Time := observationTime; ls_TelemetryKey := key; ls_Sequence := seq; ls_LatencyMs := durationMs |}],
                       None)
           | _, _, _ => (t, cg, [], Some MissingFields)
           end
  end.

Definition iface_row (sampledAt : Time) (node iface : string) (stats : gmap string Z) : InsertIfaceCountersParams :=
  {| ic_Time := sampledAt; ic_NodeID := node; ic_Iface := iface;
     ic_RxBytes := i64 (map_get 0 stats "rx_bytes"%string); ic_TxBytes := i64 (map_get 0 stats "tx_bytes"%string);
     ic_RxPackets := i64 (map_get 0 stats "rx_packets"%string); ic_TxPackets := i64 (map_get 0 stats "tx_packets"%string);
     ic_RxDropped := i64 (map_get 0 stats "rx_dropped"%string); ic_TxDropped := i64 (map_get 0 stats "tx_dropped"%string) |}.

(** One transaction with a row per interface: all of them or, when an insert
    or the commit fails, none. *)
Definition handleNetStat (db_ok : bool) (payload : ResultPacket) (publisherNode : string) :
    list InsertIfaceCountersParams * option telemetry_error :=
  match rd_netstat (rp_Data payload) with
  | None => ([], Some BadPayload)
  | Some p =>
      if db_ok then ((λ kv, iface_row (rp_SentAt payload) publisherNode kv.1 kv.2) <$> range_map (nr_Stats p), None)
      else ([], Some StoreFailed)
  end.

(** ** Messages *)

(** [strings.Split] at a single octet. *)
Fixpoint split_at (sep : ascii) (s : string) : list string :=
  match s with
  | EmptyString => [EmptyString]
  | String c s =>
      if Ascii.eqb c sep then EmptyString :: split_at sep s
      else match split_at sep s with
           | tok :: toks => String c tok :: toks
           | [] => [String c EmptyString]
           end
  end.

Definition dot : ascii := ascii_of_N 46.

(** Subject and prefix apart: the publisher and the telemetry key. *)
Definition parse_subject (prefix subject : string) : option (string * string) :=
  let subjectTokens := split_at dot subject in
  let prefixTokens := split_at dot prefix in
  if (length subjectTokens <? length prefixTokens + 2)%nat then None
  else Some (nth (length prefixTokens - 1) subjectTokens ""%string, join "." (skipn (length prefixTokens + 1) subjectTokens)).

Record collector_out := {
  co_link : list InsertLinkSampleParams;
  co_iface : list InsertIfaceCountersParams;
  co_err : option telemetry_error;
}.

Definition handleTelemetryConsume (t : TelemetryCollector) (cg : CostGraph) (db_ok : bool) (observationTime now : Time) (msg : Msg) :
    TelemetryCollector * CostGraph * collector_out :=
  let fail e := (t, cg, {| co_link := []; co_iface := []; co_err := Some e |}) in
  match msg_Data msg with
  | None => fail BadPayload
  | Some payload =>
      match parse_subject (tc_SubjectPrefix t) (msg_Subject msg) with
      | None => fail (BadSubject (msg_Subject msg))
      | Some (publisherNode, key) =>
          if negb (key =? rp_TelemetryKey payload)%string then fail KeyMismatch
          else if (rp_ProbeType payload =? ProbeTypeSTAMP)%string then
            let '(t, cg, rows, err) := handleSTAMP t cg db_ok observationTime now (rp_Data payload) key in
            (t, cg, {| co_link := rows; co_iface := []; co_err := err |})
          else if (rp_ProbeType payload =? ProbeTypeNetStat)%string then
            let '(rows, err) := handleNetStat db_ok payload publisherNode in
            (t, cg, {| co_link := []; co_iface := rows; co_err := err |})
          else fail (UnknownProbeType (rp_ProbeType payload))
      end
  end.

(** A message of the consumer: acknowledged, or refused to be delivered again. *)
Definition consume (s : TelemetryCollector * CostGraph) (m : bool * Time * Time * Msg) : TelemetryCollector * CostGraph :=
  let '(db_ok, observationTime, now, msg) := m in
  (handleTelemetryConsume s.1 s.2 db_ok observationTime now msg).1.
End collector.
