(* ===== verification/TelemetryCorrect.v ===== *)
(** Correctness of telemetry: the averages stay in range, so that every cost
    the collector writes is one the path computation accepts; the loss average
    is that of the delivery record; published results reach their collector. *)

From Stdlib Require Import SpecFloat.
From S2P Require Import Prelude Float64 FloatBounds Netip Topology CostGraph PceGraph Demo Stamp Resource Probe Telemetry.

(** ** Averages in range *)

Definition ewma_in (K : Z) (alpha : f64) (e : Ewma) : Prop :=
  ewc_Alpha (ew_config e) = alpha ∧ nn (ew_mean e) ∧ val (ew_mean e) ≤ 2 ^ K ∧ nn (ew_variance e).

Lemma ewma_in_empty K alpha eps : 0 ≤ K → ewma_in K alpha (empty_ewma {| ewc_Alpha := alpha; ewc_Epsilon := eps |}).
Proof. intros HK. split_and!; try done. simpl. apply Z.pow_nonneg. lia. Qed.

Lemma Observe_in K alpha M half e ts v :
  53 ≤ K → 2 ^ K < INF → nn alpha → val alpha ≤ 2 ^ 1073 → pos_finite (f_sub f_one alpha) →
  nn M → val M = 2 ^ K → nn half → val half = 2 ^ (K - 1) →
  ewma_in K alpha e → nn v → val v ≤ 2 ^ K → ewma_in K alpha (Observe e ts v).
Proof.
  intros HK HKf Ha Ha2 H1a HM HMv Hh Hhv (<- & Hm & Hmb & Hvar) Hv Hvb. unfold Observe. destruct (ew_n e =? 0).
  { split_and!; try done. }
  destruct (step_bounded K (ewc_Alpha (ew_config e)) M half HK HKf Ha Ha2 HM HMv Hh Hhv (ew_mean e) v Hm Hv Hmb Hvb) as (Hn & Hb & Hsq).
  split_and!; [done|exact Hn|exact Hb|]. cbn [ew_variance]. apply f_mul_nn; [done|]. by apply f_add_nn.
Qed.

Definition latency_in : Ewma → Prop := ewma_in 1138 (f_ratio 3 10).
Definition loss_in : Ewma → Prop := ewma_in 1074 (f_ratio 5 100).

Lemma Observe_latency e ts v : latency_in e → nn v → val v ≤ 2 ^ 1138 → latency_in (Observe e ts v).
Proof.
  apply (Observe_in 1138 _ (f_of_Z (2 ^ 64)) (f_of_Z (2 ^ 63)));
    try (vm_compute; reflexivity); try (vm_compute; discriminate); try (vm_compute; by split).
Qed.

Lemma Observe_loss e ts v : loss_in e → nn v → val v ≤ 2 ^ 1074 → loss_in (Observe e ts v).
Proof.
  apply (Observe_in 1074 _ f_one (f_ratio 1 2));
    try (vm_compute; reflexivity); try (vm_compute; discriminate); try (vm_compute; by split).
Qed.

(** A duration in milliseconds stays below the bound of the latency average. *)
Lemma f_of_Z_spec n : 0 ≤ n → nn (f_of_Z n) ∧ val (f_of_Z n) = RND (n * 2 ^ 1074).
Proof.
  intros Hn. destruct n as [|p|p]; [done| |lia]. unfold f_of_Z. cbn [binary_normalize].
  destruct (binary_round_spec p 0) as [Hnn Hv]; [unfold unit_exp; lia|]. done.
Qed.

Lemma duration_ms_in d : 0 ≤ d ≤ max_duration → nn (duration_ms d) ∧ val (duration_ms d) ≤ 2 ^ 1138.
Proof.
  intros Hd. unfold duration_ms, microseconds.
  assert (0 ≤ Z.quot d 1000 ≤ 2 ^ 54) as Hq.
  { rewrite Z.quot_div_nonneg by lia. unfold max_duration in Hd. split; [apply Z.div_pos; lia|].
    apply Z.div_le_upper_bound; lia. }
  destruct (f_of_Z_spec (Z.quot d 1000)) as [Hn Hv]; [lia|].
  assert (val (f_of_Z (Z.quot d 1000)) ≤ 2 ^ 1128) as Hb.
  { rewrite Hv. change (2 ^ 1128) with (RND (2 ^ 54 * 2 ^ 1074)). apply RND_mono; [lia|]. apply Z.mul_le_mono_nonneg_r; lia. }
  assert (2 ^ 1128 < INF) as Hinf by reflexivity.
  assert (f_of_Z 1000 = S754_finite false 8796093022208000 (-43)) as -> by reflexivity.
  split; [apply f_div_nn; [done|]; by split|].
  etransitivity; [apply f_div_le_double; [done|reflexivity|lia|vm_compute; discriminate|lia]|].
  assert (2 * 2 ^ 1128 + 1 ≤ 2 ^ 1138) by (vm_compute; discriminate). lia.
Qed.

(** ** The collector's state *)

Definition link_in (l : LinkEwmas) : Prop := latency_in (le_latency l) ∧ loss_in (le_loss l).
Definition collector_ok (t : TelemetryCollector) : Prop := ∀ id l, tc_ewmas t !! id = Some l → link_in l.

Lemma new_link_in : link_in new_link_ewmas.
Proof. split; apply ewma_in_empty; lia. Qed.

Lemma iter_loss n e ts : loss_in e → loss_in (Nat.iter n (λ e, Observe e ts f_one) e).
Proof. intros He. induction n as [|n IH]; simpl; [done|]. apply Observe_loss; [done|done|vm_compute; discriminate]. Qed.

Lemma loss_step_in ts st seq : loss_in st.2 → loss_in (loss_step ts st seq).2.
Proof.
  destruct st as [[last|] e]; simpl; intros He; [|by apply Observe_loss; [..|vm_compute]].
  destruct (last <? seq); [apply Observe_loss; [by apply iter_loss|done|vm_compute; discriminate]|].
  destruct (stampReorderTolerance <? _); [|done]. by apply Observe_loss; [..|vm_compute].
Qed.

Lemma observe_stamp_in t id ts ms seq :
  collector_ok t → nn ms → val ms ≤ 2 ^ 1138 →
  collector_ok (observe_stamp t id ts ms seq).1 ∧ link_in (observe_stamp t id ts ms seq).2.
Proof.
  intros Ht Hn Hb. unfold observe_stamp.
  assert (link_in (default new_link_ewmas (tc_ewmas t !! id))) as [Hlat Hloss].
  { destruct (tc_ewmas t !! id) as [l|] eqn:Hl; [by eapply Ht|apply new_link_in]. }
  pose proof (loss_step_in ts (tc_stampLastSeq t !! id, le_loss (default new_link_ewmas (tc_ewmas t !! id))) seq Hloss) as Hs.
  destruct (loss_step _ _ _) as [last loss]. simpl in *.
  assert (link_in {| le_latency := Observe (le_latency (default new_link_ewmas (tc_ewmas t !! id))) ts ms; le_loss := loss |}) as Hin.
  { split; [by apply Observe_latency|done]. }
  split; [|done]. intros id' l. cbn [tc_ewmas]. intros [[<- <-]|[_ ?]]%lookup_insert_Some; [done|by eapply Ht].
Qed.

(** What [math.Log1p] is relied on for: the logarithm of a number in (0, 1) is
    negative and finite, and that of one is zero. *)
Class Log1pSpec (Log1p : f64 → f64) : Prop := {
  log1p_neg : ∀ x, pos_finite x → val x < val f_one → pos_finite (f_opp (Log1p (f_opp x)));
  log1p_zero : ∀ s, ∃ s', Log1p (S754_zero s) = S754_zero s';
}.

Section costs.
Context `{RangeOrder} (Log1p : f64 → f64) `{!Log1pSpec Log1p}.

Lemma log1p_nn x : nn x → val x < val f_one → nn (f_opp (Log1p (f_opp x))).
Proof.
  intros Hx Hlt. destruct x as [s|s| |s m e]; [|unfold val in Hlt at 1; vm_compute in Hlt; done|done|].
  - simpl. destruct (log1p_zero (negb s)) as [s' ->]. done.
  - by apply pos_finite_nn, log1p_neg.
Qed.

(** The three costs of a link whose averages are in range. *)
Lemma normalize_nn l :
  link_in l →
  let '(delay, jitter, loss) := NormalizeDelayJitterLoss Log1p (ew_mean (le_latency l)) (ew_variance (le_latency l))
    (ew_mean (le_loss l)) (f_of_Z costDelayReferenceMs) costJitterReferenceMs costLossReference in
  nn delay ∧ nn jitter ∧ nn loss.
Proof.
  intros [(_ & Hm & _ & Hv) (_ & Hlm & _ & _)]. unfold NormalizeDelayJitterLoss. split_and!.
  - apply f_div_nn; [done|]. vm_compute. by split.
  - apply f_div_nn; [done|]. vm_compute. by split.
  - destruct (f_min_nn (ew_mean (le_loss l)) (f_ratio 999999 1000000) Hlm) as [Hn Hval]; [vm_compute; by split|].
    apply f_div_nn; [|apply log1p_neg; [vm_compute; by split|vm_compute; done]].
    apply log1p_nn; [done|]. rewrite Hval. eapply Z.le_lt_trans; [apply Z.le_min_r|vm_compute; done].
Qed.

Lemma update_link_nn cg id l now :
  link_in l → costs_nn (CostsSnapshot cg) → costs_nn (CostsSnapshot (update_link Log1p cg id l now)).
Proof.
  intros Hl Hcg. unfold update_link. cbn [Ewma_Snapshot Mean es_Mean es_Variance].
  pose proof (normalize_nn l Hl) as Hn. unfold Mean. cbn [Ewma_Snapshot es_Mean].
  destruct (NormalizeDelayJitterLoss _ _ _ _ _ _ _) as [[delay jitter] loss]. destruct Hn as (? & ? & ?).
  change (costs_nn (CostsSnapshot (UpdateCost (UpdateCost (UpdateCost
    (if ewmaWarmupSamples <? es_N (Ewma_Snapshot (le_latency l)) then MarkEdgeConverged cg id else cg) id COSTDIM_LATENCY delay) id
    COSTDIM_JITTER jitter) id COSTDIM_LOSS loss))).
  do 3 (apply UpdateCost_nn; [done|]). by destruct (_ <? _).
Qed.

Lemma consume_ok s m :
  collector_ok s.1 ∧ costs_nn (CostsSnapshot s.2) → collector_ok (consume Log1p s m).1 ∧ costs_nn (CostsSnapshot (consume Log1p s m).2).
Proof.
  destruct s as [t cg], m as [[[db_ok ts] now] msg]. simpl. intros [Ht Hcg]. unfold handleTelemetryConsume.
  destruct (msg_Data msg) as [payload|]; [|done]. destruct (parse_subject _ _) as [[node key]|]; [|done].
  destruct (negb _); [done|]. destruct (rp_ProbeType payload =? ProbeTypeSTAMP)%string.
  2: { destruct (rp_ProbeType payload =? ProbeTypeNetStat)%string; [|done]. by destruct (handleNetStat _ _ _). }
  unfold handleSTAMP. destruct (rd_stamp (rp_Data payload)) as [p|]; [|done]. destruct (sr_IsSender p); [done|].
  destruct (sr_SenderSequence p) as [seq|], (sr_SenderTimestamp p) as [sent|], (sr_ReceiveTimestamp p) as [received|]; try done.
  destruct (Z.ltb_spec (time_sub received sent) 0) as [|Hd]; [done|].
  destruct (duration_ms_in (time_sub received sent)) as [Hn Hb]; [split; [done|]; unfold time_sub, max_duration, min_duration; lia|].
  pose proof (observe_stamp_in t key ts (duration_ms (time_sub received sent)) seq Ht Hn Hb) as [Ht' Hl].
  destruct (observe_stamp _ _ _ _ _) as [t' l]. simpl in *. destruct db_ok; simpl; [|done]. split; [done|]. exact (update_link_nn cg key l now Hl Hcg).
Qed.
End costs.

(** ** Sequence accounting *)

(** What the averages depend on. *)
Definition stats (e : Ewma) : f64 * f64 * f64 * Z := (ewc_Alpha (ew_config e), ew_mean e, ew_variance e, ew_n e).

Lemma Observe_stats e e' ts ts' v : stats e = stats e' → stats (Observe e ts v) = stats (Observe e' ts' v).
Proof.
  unfold stats. intros [= Ha Hm Hv Hn]. unfold Observe. rewrite Hn. destruct (ew_n e' =? 0); simpl; by rewrite Ha, ?Hm, ?Hv, ?Hn.
Qed.

(** An average over a list of samples. *)
Definition average (e : Ewma) (samples : list f64) : Ewma := foldl (λ e v, Observe e 0 v) e samples.

Lemma average_stats e e' l : stats e = stats e' → stats (average e l) = stats (average e' l).
Proof. unfold average. revert e e'. induction l as [|v l IH]; intros e e' He; [done|]. simpl. by apply IH, Observe_stats. Qed.

Lemma iter_stats n e e' ts :
  stats e = stats e' → stats (Nat.iter n (λ e, Observe e ts f_one) e) = stats (average e' (replicate n f_one)).
Proof.
  revert e e'. induction n as [|n IH]; intros e e' He; [done|]. rewrite Nat.iter_succ_r. simpl. by apply IH, Observe_stats.
Qed.

(** The probes that were the newest when they came. *)
Fixpoint newest (last : option Z) (seqs : list Z) : list Z :=
  match seqs with
  | [] => []
  | s :: seqs =>
      match last with
      | Some l => if s <=? l then newest last seqs else s :: newest (Some s) seqs
      | None => s :: newest (Some s) seqs
      end
  end.

(** Gaps of at most [stampMaxLostPerSample] and lateness within
    [stampReorderTolerance]: the sender did not restart and the link was not
    down for long. *)
Fixpoint steady (last : option Z) (seqs : list Z) : Prop :=
  match seqs with
  | [] => True
  | s :: seqs =>
      0 ≤ s < 2 ^ 32 ∧
      match last with
      | Some l => (l - stampReorderTolerance ≤ s ≤ l ∧ steady last seqs) ∨
                  (l < s ≤ l + stampMaxLostPerSample + 1 ∧ steady (Some s) seqs)
      | None => steady (Some s) seqs
      end
  end.

(** The delivery record of the numbers in a range: 0 for a probe that came in
    time, 1 for one that did not. *)
Definition record (got : list Z) (from count : Z) : list f64 :=
  (λ i, if decide (i ∈ got) then f_zero else f_one) <$> seqZ from count.

Definition newest_of (l : Z) (got : list Z) : Z := default l (list.last got).

Lemma newest_above l seqs s : s ∈ newest (Some l) seqs → l < s.
Proof.
  revert l. induction seqs as [|s0 seqs IH]; intros l; simpl; [by intros ?%not_elem_of_nil|].
  destruct (Z.leb_spec s0 l) as [Hle|Hlt]; [apply IH|]. intros [->|Hs%IH]%elem_of_cons; lia.
Qed.

Lemma last_cons_default (l s : Z) got : newest_of l (s :: got) = newest_of s got.
Proof. unfold newest_of. destruct got as [|x got]; [done|]. simpl. by destruct (list.last (x :: got)) eqn:E; [|apply list.last_None in E]. Qed.

Lemma newest_of_ge l seqs : l ≤ newest_of l (newest (Some l) seqs).
Proof.
  revert l. induction seqs as [|s seqs IH]; intros l; simpl; [unfold newest_of; simpl; lia|].
  destruct (Z.leb_spec s l); [apply IH|]. rewrite last_cons_default. specialize (IH s). lia.
Qed.

(** The record of one more newest probe: the gap, the probe, the rest. *)
Lemma record_cons l s got n :
  l < s → (∀ x, x ∈ got → s < x) → 0 ≤ n →
  record (s :: got) (l + 1) (s - l + n) = replicate (Z.to_nat (s - l - 1)) f_one ++ f_zero :: record got (s + 1) n.
Proof.
  intros Hl Hgot Hn. unfold record.
  replace (s - l + n) with ((s - l - 1) + (1 + n)) by lia. rewrite seqZ_app, fmap_app by lia. f_equal.
  - rewrite <-(length_seqZ (l + 1) (s - l - 1)), <-(const_fmap (λ _, f_one) (seqZ (l + 1) (s - l - 1)) f_one) by done.
    apply list_fmap_ext. intros i x Hi%list_elem_of_lookup_2%elem_of_seqZ. rewrite decide_False; [done|].
    intros [->|Hx%Hgot]%elem_of_cons; lia.
  - rewrite seqZ_cons by lia. simpl. replace (l + 1 + (s - l - 1)) with s by lia. rewrite decide_True by (by left). f_equal.
    replace (Z.pred (1 + n)) with n by lia. apply list_fmap_ext. intros i x Hi%list_elem_of_lookup_2%elem_of_seqZ.
    assert (x ∈ s :: got ↔ x ∈ got) as Hiff by (rewrite elem_of_cons; split; [intros [?|?]; [lia|done]|by right]).
    destruct (decide (x ∈ s :: got)), (decide (x ∈ got)); naive_solver.
Qed.

(** The accounting from a known newest number on. *)
Definition account (st : option Z * Ewma) (probes : list (Time * Z)) : option Z * Ewma :=
  foldl (λ st p, loss_step p.1 st p.2) st probes.

Lemma account_steady l e e' probes :
  0 ≤ l < 2 ^ 32 → steady (Some l) probes.*2 → stats e = stats e' →
  let got := newest (Some l) probes.*2 in
  let '(last, loss) := account (Some l, e) probes in
  last = Some (newest_of l got) ∧ stats loss = stats (average e' (record got (l + 1) (newest_of l got - l))).
Proof.
  revert l e e'. induction probes as [|[ts s] probes IH]; intros l e e' Hl Hst He.
  { simpl. unfold newest_of. simpl. split; [done|]. by rewrite Z.sub_diag. }
  simpl in Hst. destruct Hst as [Hs Hst]. cbn [fmap list_fmap snd newest]. unfold account. cbn [foldl fst snd].
  fold (account (loss_step ts (Some l, e) s) probes). cbn [loss_step].
  destruct Hst as [[Hlate Hst]|[Hnew Hst]].
  - assert ((l <? s) = false) as -> by (apply Z.ltb_ge; lia). assert ((s <=? l) = true) as -> by (apply Z.leb_le; lia).
    unfold stampReorderTolerance in *. rewrite u32_id by lia. assert ((64 <? l - s) = false) as -> by (apply Z.ltb_ge; lia).
    by apply IH.
  - assert ((l <? s) = true) as -> by (apply Z.ltb_lt; lia). assert ((s <=? l) = false) as -> by (apply Z.leb_gt; lia).
    unfold stampMaxLostPerSample in *. rewrite u32_id, Z.min_l by lia. rewrite last_cons_default.
    set (e1 := Observe (Nat.iter _ _ e) ts f_zero).
    assert (stats e1 = stats (average e' (replicate (Z.to_nat (s - l - 1)) f_one ++ [f_zero]))) as He1.
    { unfold e1, average. rewrite foldl_app. simpl. apply Observe_stats. by apply iter_stats. }
    specialize (IH s e1 _ ltac:(lia) Hst He1). simpl in IH.
    set (got := newest (Some s) probes.*2) in *. destruct (account (Some s, e1) probes) as [last loss]. destruct IH as [-> ->].
    split; [done|]. pose proof (newest_of_ge s probes.*2) as Hge. fold got in Hge.
    replace (newest_of s got - l) with (s - l + (newest_of s got - s)) by lia.
    rewrite record_cons; [|lia|intros x; apply newest_above|lia].
    unfold average. rewrite !foldl_app. done.
Qed.

(** ** Subjects *)

Lemma split_at_nonempty sep s : split_at sep s ≠ [].
Proof. destruct s as [|c s]; simpl; [done|]. destruct (Ascii.eqb c sep); [done|]. by destruct (split_at sep s). Qed.

(** Splitting is compatible with a separator between two parts. *)
Lemma split_at_app sep a b : split_at sep (String.append a (String sep b)) = split_at sep a ++ split_at sep b.
Proof.
  induction a as [|c a IH]; simpl.
  - by rewrite Ascii.eqb_refl.
  - destruct (Ascii.eqb c sep); rewrite IH; [done|]. pose proof (split_at_nonempty sep a). by destruct (split_at sep a).
Qed.

Lemma split_at_none sep s : (∀ c, c ∈ String.list_ascii_of_string s → c ≠ sep) → split_at sep s = [s].
Proof.
  induction s as [|c s IH]; simpl; [done|]. intros Hs. destruct (Ascii.eqb_spec c sep) as [->|Hne].
  - by destruct (Hs sep (list_elem_of_here _ _)).
  - rewrite IH; [done|]. intros c' Hc'. apply Hs. by right.
Qed.

Lemma join_cons sep tok toks : toks ≠ [] → join sep (tok :: toks) = String.append tok (String.append sep (join sep toks)).
Proof. destruct toks; [done|]. intros _. unfold join at 1. fold (join sep). unfold cat. cbn [foldr]. by rewrite append_empty. Qed.

(** Joining what was split gives it back. *)
Lemma join_split s : join "." (split_at dot s) = s.
Proof.
  induction s as [|c s IH]; [done|]. cbn [split_at]. pose proof (split_at_nonempty dot s) as Hne.
  destruct (Ascii.eqb_spec c dot) as [->|Hc].
  - rewrite join_cons, IH by done. done.
  - destruct (split_at dot s) as [|tok toks]; [done|]. destruct toks as [|tok2 toks]; [simpl in *; by rewrite IH|].
    rewrite join_cons in * by done. exact (f_equal (String c) IH).
Qed.

Definition no_dot (s : string) : Prop := ∀ c, c ∈ String.list_ascii_of_string s → c ≠ dot.

(** The publisher is the last token of the prefix, the key all that follows the
    probe type. *)
Lemma parse_subject_spec base node ptype key :
  no_dot node → no_dot ptype →
  let prefix := cat [base; "."; node] in
  parse_subject prefix (cat [prefix; "."; ptype; "."; key]) = Some (node, key).
Proof.
  intros Hn Hp prefix. assert (split_at dot prefix = split_at dot base ++ [node]) as Hprefix.
  { unfold prefix, cat. cbn [foldr]. rewrite append_empty. change (String.append "." node) with (String dot node).
    rewrite split_at_app, (split_at_none _ node) by done. done. }
  unfold parse_subject. rewrite Hprefix.
  assert (split_at dot (cat [prefix; "."; ptype; "."; key]) = (split_at dot base ++ [node]) ++ [ptype] ++ split_at dot key) as ->.
  { unfold cat. cbn [foldr]. rewrite append_empty.
    change (String.append "." (String.append ptype (String.append "." key))) with (String dot (String.append ptype (String dot key))).
    rewrite !split_at_app, (split_at_none _ ptype), Hprefix by done. done. }
  pose proof (split_at_nonempty dot key) as Hk. rewrite !length_app. simpl.
  destruct (Nat.ltb_spec (length (split_at dot base) + 1 + S (length (split_at dot key))) (length (split_at dot base) + 1 + 2)) as [Hlt|_].
  { destruct (split_at dot key); [done|]. simpl in Hlt. lia. }
  f_equal. f_equal.
  - rewrite app_nth1 by (rewrite length_app; simpl; lia). rewrite app_nth2 by lia.
    by replace (length (split_at dot base) + 1 - 1 - length (split_at dot base))%nat with 0%nat by lia.
  - rewrite skipn_app, skipn_all2 by (rewrite length_app; simpl; lia). rewrite length_app. simpl.
    replace (length (split_at dot base) + 1 + 1 - (length (split_at dot base) + 1))%nat with 1%nat by lia. simpl. apply join_split.
Qed.

(** ** Properties *)

(** C30: telemetry keeps the costs valid.  Whatever messages arrive, in
    whatever order, with whatever failures of the database, every average of
    the collector stays in range (losses in [0, 1], latencies finite and not
    negative) and every cost of the cost graph stays a non-negative number or
    infinity, never a NaN: what the path computation asks of its costs. *)
Theorem telemetry_keeps_costs_valid `{RangeOrder} Log1p `{!Log1pSpec Log1p} forNode prefix cg msgs :
  costs_nn (CostsSnapshot cg) →
  let '(t, cg') := foldl (consume Log1p) (NewTelemetryCollector forNode prefix, cg) msgs in
  costs_nn (CostsSnapshot cg') ∧
  ∀ id l, tc_ewmas t !! id = Some l →
    (nn (Mean (le_loss l)) ∧ f_leb (Mean (le_loss l)) f_one = true) ∧
    (nn (Mean (le_latency l)) ∧ is_inf (Mean (le_latency l)) = false) ∧ nn (Variance (le_latency l)).
Proof.
  intros Hcg.
  assert (∀ s, collector_ok s.1 ∧ costs_nn (CostsSnapshot s.2) →
    collector_ok (foldl (consume Log1p) s msgs).1 ∧ costs_nn (CostsSnapshot (foldl (consume Log1p) s msgs).2)) as Hall.
  { induction msgs as [|m msgs IH]; intros s Hs; [done|]. cbn [foldl]. apply IH. by apply consume_ok. }
  specialize (Hall (NewTelemetryCollector forNode prefix, cg)) as [Ht Hc].
  { split; [|done]. intros id l. cbn. by rewrite lookup_empty. }
  destruct (foldl _ _ _) as [t cg']. split; [done|]. intros id l Hl.
  destruct (Ht id l Hl) as [(_ & Hm & Hb & Hv) (_ & Hlm & Hlb & _)]. split_and!; [done| |done| |done].
  - unfold Mean. cbn [Ewma_Snapshot es_Mean]. rewrite f_leb_val by done. apply Z.leb_le. exact Hlb.
  - apply is_inf_finite; [done|]. eapply Z.le_lt_trans; [exact Hb|reflexivity].
Qed.

(** A stand-in for the logarithm with the properties relied on. *)
Definition demo_log1p (x : f64) : f64 := x.

#[export] Instance demo_log1p_spec : Log1pSpec demo_log1p.
Proof. split; [|by intros s; exists s]. unfold demo_log1p. by intros [| | |[] m e]. Qed.

Definition demo_key : string := edge_id "ams" "eth2" "lon" "eth2".
Definition demo_result : ResultPacket :=
  {| rp_ProbeType := ProbeTypeSTAMP; rp_TelemetryKey := demo_key; rp_SentAt := 0;
     rp_Data := stamp_json {| sr_IsSender := false; sr_Sequence := 4; sr_Peer := AddrZero; sr_SenderSequence := Some 9;
                              sr_SenderTimestamp := Some 0; sr_ReceiveTimestamp := Some (7 * Millisecond) |} |}.
Definition demo_msg : Msg :=
  {| msg_Subject := cat [ProbeResultSubjectPrefix; ".ams."; ProbeTypeSTAMP; "."; demo_key]; msg_Data := Some demo_result |}.
Definition demo_prefix : string := cat [ProbeResultSubjectPrefix; "."; "ams"].
Definition demo_consumed : TelemetryCollector * CostGraph :=
  foldl (@consume canonical_order demo_log1p) (NewTelemetryCollector "ams" demo_prefix, demo_cost_graph) [(true, 1, 2, demo_msg)].

(** The message is accounted for on its link. *)
Example demo_consumed_link :
  match tc_ewmas demo_consumed.1 !! demo_key with Some l => Mean (le_latency l) = f_of_Z 7 | None => False end.
Proof. vm_compute. reflexivity. Qed.

Example telemetry_keeps_costs_valid_witness :
  costs_nn (CostsSnapshot demo_consumed.2) ∧
  ∀ id l, tc_ewmas demo_consumed.1 !! id = Some l →
    (nn (Mean (le_loss l)) ∧ f_leb (Mean (le_loss l)) f_one = true) ∧
    (nn (Mean (le_latency l)) ∧ is_inf (Mean (le_latency l)) = false) ∧ nn (Variance (le_latency l)).
Proof.
  pose proof (@telemetry_keeps_costs_valid canonical_order demo_log1p demo_log1p_spec "ams" demo_prefix demo_cost_graph
    [(true, 1, 2, demo_msg)] demo_costs_nn) as Hw.
  unfold demo_consumed. destruct (foldl _ _ _) as [t cg]. exact Hw.
Defined.

(** C31: the loss average is that of the delivery record.  For a link whose
    sender does not restart, with gaps of up to 200 and lateness of up to 64:
    after any probes, the newest number is the largest seen, and the loss
    average, its variance and its count are those of the samples 0 for every
    number from the first on that arrived as the newest and 1 for every other,
    in order; repeated and late probes change nothing. *)
Theorem loss_follows_delivery_record alpha eps ts first probes :
  0 ≤ first < 2 ^ 32 → steady (Some first) probes.*2 →
  let fresh := empty_ewma {| ewc_Alpha := alpha; ewc_Epsilon := eps |} in
  let got := newest None (first :: probes.*2) in
  let newestSeq := newest_of first (newest (Some first) probes.*2) in
  let '(last, loss) := account (None, fresh) ((ts, first) :: probes) in
  last = Some newestSeq ∧
  stats loss = stats (average fresh (record got first (newestSeq - first + 1))).
Proof.
  intros Hf Hst fresh got newestSeq. unfold account. cbn [foldl fst snd loss_step].
  pose proof (account_steady first (Observe fresh ts f_zero) (average fresh [f_zero]) probes Hf Hst (Observe_stats _ _ _ _ _ eq_refl)) as Hacc.
  cbv zeta in Hacc. unfold account in Hacc. destruct (foldl _ _ _) as [last loss]. destruct Hacc as [-> ->]. split; [done|].
  unfold got, newestSeq. cbn [newest]. set (g := newest (Some first) probes.*2).
  pose proof (newest_of_ge first probes.*2) as Hge. fold g in Hge.
  pose proof (record_cons (first - 1) first g (newest_of first g - first) ltac:(lia) (newest_above first probes.*2) ltac:(lia)) as Hrec.
  replace (first - 1 + 1) with first in Hrec by lia.
  replace (first - (first - 1) + (newest_of first g - first)) with (newest_of first g - first + 1) in Hrec by lia.
  rewrite Hrec. replace (Z.to_nat (first - (first - 1) - 1)) with 0%nat by lia. done.
Qed.

Example loss_follows_delivery_record_witness :
  let probes := [(1, 6); (2, 9); (3, 8); (4, 9); (5, 10)] in
  let fresh := le_loss new_link_ewmas in
  let '(last, loss) := account (None, fresh) ((0, 5) :: probes) in
  last = Some 10 ∧ stats loss = stats (average fresh [f_zero; f_zero; f_one; f_one; f_zero; f_zero]).
Proof.
  apply (loss_follows_delivery_record (f_ratio 5 100) (f_ratio 1 1000000) 0 5 [(1, 6); (2, 9); (3, 8); (4, 9); (5, 10)]);
    [lia|]. simpl. unfold stampReorderTolerance, stampMaxLostPerSample. lia.
Defined.

(** A published result reaches its collector.  What an agent's dispatcher
    publishes for a node without dots in its name, whatever the telemetry key
    and the probe type's payload, passes the subject checks of that node's
    collector and is handled under its key: a STAMP result by the latency and
    loss accounting, counters by one row per interface under the node's name. *)
Theorem result_delivered `{RangeOrder} Log1p d node result t cg db_ok ts now msg :
  no_dot node → nd_SubjectPrefix d = cat [ProbeResultSubjectPrefix; "."; node] →
  tc_SubjectPrefix t = cat [ProbeResultSubjectPrefix; "."; node] →
  Dispatch d result true = Some msg →
  (rp_ProbeType result = ProbeTypeSTAMP →
   handleTelemetryConsume Log1p t cg db_ok ts now msg =
   let '(t, cg, rows, err) := handleSTAMP Log1p t cg db_ok ts now (rp_Data result) (rp_TelemetryKey result) in
   (t, cg, {| co_link := rows; co_iface := []; co_err := err |})) ∧
  (rp_ProbeType result = ProbeTypeNetStat →
   handleTelemetryConsume Log1p t cg db_ok ts now msg =
   let '(rows, err) := handleNetStat db_ok result node in
   (t, cg, {| co_link := []; co_iface := rows; co_err := err |})).
Proof.
  intros Hn Hd Ht Hmsg. unfold Dispatch in Hmsg. injection Hmsg as <-.
  assert (∀ s, s = ProbeTypeSTAMP ∨ s = ProbeTypeNetStat → no_dot s) as Hdot.
  { intros s Hs c Hc ->. destruct Hs as [-> | ->]; cbn in Hc; repeat (apply elem_of_cons in Hc as [Hc|Hc]; [done|]); by apply not_elem_of_nil in Hc. }
  unfold handleTelemetryConsume, Subject. cbn [msg_Data msg_Subject]. rewrite Hd, Ht.
  split; intros Hp; rewrite (parse_subject_spec ProbeResultSubjectPrefix node) by (done || rewrite Hp; auto);
    rewrite String.eqb_refl, Hp; done.
Qed.

Example result_delivered_witness :
  handleTelemetryConsume (H := canonical_order) demo_log1p (NewTelemetryCollector "ams" demo_prefix) demo_cost_graph true 1 2 demo_msg =
  let '(t, cg, rows, err) := handleSTAMP demo_log1p (NewTelemetryCollector "ams" demo_prefix) demo_cost_graph true 1 2
    (rp_Data demo_result) (rp_TelemetryKey demo_result) in
  (t, cg, {| co_link := rows; co_iface := []; co_err := err |}).
Proof.
  refine (proj1 (@result_delivered canonical_order demo_log1p {| nd_SubjectPrefix := demo_prefix; nd_PublishTimeout := 0 |} "ams" demo_result
    (NewTelemetryCollector "ams" demo_prefix) demo_cost_graph true 1 2 demo_msg _ _ _ _) _).
  - intros c Hc ->. cbn in Hc. repeat (apply elem_of_cons in Hc as [Hc|Hc]; [done|]). by apply not_elem_of_nil in Hc.
  - reflexivity.
  - reflexivity.
  - reflexivity.
  - reflexivity.
Defined.
