(* ===== verification/Reports.v ===== *)
(** What nodes report: the agent collects the adjacency SIDs its IGP installed
    (maeto-agent/topology_state_reporter.go), the control plane keeps them on
    the edges of the topology for as long as the node keeps reporting
    (topology_report_collector.go), and records the dataplane reports
    (node_report_recorder.go, general_state_reporter.go). *)

From S2P Require Import Prelude Netip Topology Sid Registry Resource Reconcile Netlink.

(** ** Collecting on the node *)

Record AdjacencyReport := { ar_Interface : string; ar_EndX : Addr }.
Record TopologyReport := { tr_NodeID : string; tr_ReportedAt : Time; tr_Adjacencies : list AdjacencyReport }.

Definition topologyReportInterval : Duration := 10 * Second.
Definition RTPROT_ISIS : Z := 187.

(** [netip.Addr.Unmap] *)
Definition unmap (a : Addr) : Addr :=
  match a with
  | Addr6 v => if Z.shiftr v 32 =? 0xffff then Addr4 (u32 v) else a
  | _ => a
  end.

Definition adjacency (s : string * DataplaneSID) : option AdjacencyReport :=
  match di_Dst s.2 with
  | None => None
  | Some dst => if addr_is_valid (ipn_IP dst) then Some {| ar_Interface := s.1; ar_EndX := unmap (ipn_IP dst) |} else None
  end.

Definition collect {K} `{Kernel K} (nodeID : string) (now : Time) : nl K TopologyReport :=
  sids ← nl_GetSIDs (Some "endX"%string) (Some RTPROT_ISIS);
  mret {| tr_NodeID := nodeID; tr_ReportedAt := now; tr_Adjacencies := omap adjacency sids |}.

(** ** Keeping them on the topology *)

Definition topologyReportStaleAfter : Duration := 30 * Second.
Definition topologyReportSweepInterval : Duration := 10 * Second.

(** The collector with the graph of the topology manager it changes. *)
Record TopologyReportCollector := { tc_graph : Graph; tc_reportedAt : gmap NodeID Time }.

Definition NewTopologyReportCollector (g : Graph) : TopologyReportCollector := {| tc_graph := g; tc_reportedAt := ∅ |}.

(** Of several adjacencies on one interface the last counts. *)
Definition sids_by_iface (report : TopologyReport) : gmap string Addr :=
  foldl (λ m a, <[ar_Interface a := ar_EndX a]> m) ∅ (tr_Adjacencies report).

Section collector.
Context `{RangeOrder}.

Definition apply_report (t : TopologyReportCollector) (report : TopologyReport) : TopologyReportCollector :=
  {| tc_graph := (SetEndXSIDs (tc_graph t) (tr_NodeID report) (sids_by_iface report)).1;
     tc_reportedAt := <[tr_NodeID report := tr_ReportedAt report]> (tc_reportedAt t) |}.

Definition clear_node (now : Time) (t : TopologyReportCollector) (entry : NodeID * Time) : TopologyReportCollector :=
  if time_sub now entry.2 <? topologyReportStaleAfter then t
  else {| tc_graph := (SetEndXSIDs (tc_graph t) entry.1 ∅).1; tc_reportedAt := delete entry.1 (tc_reportedAt t) |}.

Definition clearStale (now : Time) (t : TopologyReportCollector) : TopologyReportCollector :=
  foldl (clear_node now) t (range_map (tc_reportedAt t)).

(** What the select of [Run] receives. *)
Inductive collector_event := ReportArrived (r : TopologyReport) | SweepTick (now : Time).

Definition collector_step (t : TopologyReportCollector) (e : collector_event) : TopologyReportCollector :=
  match e with
  | ReportArrived r => apply_report t r
  | SweepTick now => clearStale now t
  end.

(** ** The specification: reports that are alive *)

(** The newest report of every node that has not been swept since. *)
Definition live_step (live : gmap NodeID TopologyReport) (e : collector_event) : gmap NodeID TopologyReport :=
  match e with
  | ReportArrived r => <[tr_NodeID r := r]> live
  | SweepTick now => filter (λ p, time_sub now (tr_ReportedAt p.2) < topologyReportStaleAfter) live
  end.

Definition live_reports (evs : list collector_event) : gmap NodeID TopologyReport := foldl live_step ∅ evs.

Definition reported_sid (live : gmap NodeID TopologyReport) (e : Edge) : Addr :=
  match live !! Edge_Local e with
  | Some r => map_get AddrZero (sids_by_iface r) (Edge_LocalIface e)
  | None => AddrZero
  end.
End collector.

(** ** Recording dataplane reports *)

(** [stateReporter.Report]: the state the agent publishes; the node of an
    unnamed one is the agent's. *)
Definition agent_report (nodeID : string) (state : NodeState) : NodeState :=
  if (ns_NodeID state =? "")%string then
    {| ns_NodeID := nodeID; ns_NodeType := ns_NodeType state; ns_ReportedAt := ns_ReportedAt state;
       ns_Generation := ns_Generation state; ns_Observed := ns_Observed state; ns_Converged := ns_Converged state;
       ns_Passes := ns_Passes state; ns_Error := ns_Error state; ns_Current := ns_Current state;
       ns_Desired := ns_Desired state; ns_Add := ns_Add state; ns_Remove := ns_Remove state |}
  else state.

Record InsertNodeReportParams := {
  inr_Time : Time;
  inr_NodeID : string;
  inr_NodeType : NodeType;
  inr_Generation : Z;
  inr_Observed : bool;
  inr_Converged : bool;
  inr_Passes : Z;
  inr_Error : option rec_error;
}.

(** The row [record] inserts; a failed insert is logged. *)
Definition record_report (report : NodeState) : option InsertNodeReportParams :=
  if (ns_NodeID report =? "")%string || (ns_ReportedAt report =? zero_time) then None
  else Some {| inr_Time := ns_ReportedAt report; inr_NodeID := ns_NodeID report; inr_NodeType := ns_NodeType report;
               inr_Generation := i64 (ns_Generation report); inr_Observed := ns_Observed report;
               inr_Converged := ns_Converged report; inr_Passes := i32 (Z.of_nat (ns_Passes report));
               inr_Error := ns_Error report |}.
