(* ===== verification/ReportsCorrect.v ===== *)
(** Adjacency SIDs follow the nodes' reports: the collector refines the map of
    live reports, and a SID on an edge is the one in the node's kernel. *)

From S2P Require Import Prelude Float64 Netip Topology CostGraph PceGraph Demo Sid Registry Resource Reconcile ReconcileCorrect Netlink NetlinkCorrect Reports.

(** ** The collector keeps to the specification *)

Section collector_correct.
Context `{RangeOrder}.

(** An edge with the SID of its node set from [f]; nothing else changes. *)
Definition with_sids (f : Edge → Addr) (g g' : Graph) : Prop :=
  g_nodes g' = g_nodes g ∧ g_prefixes g' = g_prefixes g ∧ g_adj g' = g_adj g ∧ g_edges g' = (λ e, Edge_set_EndX (f e) e) <$> g_edges g.

Lemma Edge_set_EndX_same e : Edge_set_EndX (Edge_EndX e) e = e.
Proof. by destruct e. Qed.

Lemma Edge_set_EndX_twice a b e : Edge_set_EndX a (Edge_set_EndX b e) = Edge_set_EndX a e.
Proof. done. Qed.

Lemma set_endx_edge_sid node sids e :
  set_endx_edge node sids e =
  Edge_set_EndX (if decide (Edge_Local e = node) then map_get AddrZero sids (Edge_LocalIface e) else Edge_EndX e) e.
Proof.
  unfold set_endx_edge. case_decide; [|by rewrite Edge_set_EndX_same].
  case_decide as E; [|done]. by rewrite E, Edge_set_EndX_same.
Qed.

(** What the collector's state is while [live] are the live reports. *)
Record tracks (g0 : Graph) (live : gmap NodeID TopologyReport) (t : TopologyReportCollector) : Prop := {
  tk_times : tc_reportedAt t = tr_ReportedAt <$> live;
  tk_edges : with_sids (reported_sid live) g0 (tc_graph t);
}.

Lemma reported_sid_EndX live a e : reported_sid live (Edge_set_EndX a e) = reported_sid live e.
Proof. done. Qed.

(** Setting the SIDs of one node changes the map it is computed from at that
    node alone. *)
Lemma SetEndXSIDs_tracks g0 g live live' node sids :
  with_sids (reported_sid live) g0 g →
  (∀ n, n ≠ node → live' !! n = live !! n) →
  (∀ e, Edge_Local e = node → reported_sid live' e = map_get AddrZero sids (Edge_LocalIface e)) →
  with_sids (reported_sid live') g0 (SetEndXSIDs g node sids).1.
Proof.
  intros (Hn & Hx & Ha & He) Hother Hnode. unfold with_sids. simpl. split_and!; [done|done|done|].
  rewrite He, <-map_fmap_compose. apply map_fmap_ext. intros id e _. unfold compose. rewrite set_endx_edge_sid.
  rewrite Edge_set_EndX_twice. cbn [Edge_Local Edge_LocalIface Edge_EndX Edge_set_EndX].
  case_decide as E; [by rewrite Hnode|]. unfold reported_sid. by rewrite Hother.
Qed.

Lemma apply_report_tracks g0 live t r :
  tracks g0 live t → tracks g0 (<[tr_NodeID r := r]> live) (apply_report t r).
Proof.
  intros [Ht He]. split; simpl.
  - by rewrite fmap_insert, Ht.
  - eapply SetEndXSIDs_tracks; [exact He| |].
    + intros n Hn. by rewrite lookup_insert_ne.
    + intros e <-. unfold reported_sid. by rewrite lookup_insert_eq.
Qed.

(** One entry of the sweep. *)
Lemma clear_node_tracks g0 now live t n r :
  tracks g0 live t → live !! n = Some r →
  tracks g0 (if time_sub now (tr_ReportedAt r) <? topologyReportStaleAfter then live else delete n live)
    (clear_node now t (n, tr_ReportedAt r)).
Proof.
  intros [Ht He] Hn. unfold clear_node. simpl. case_match; [done|]. split; simpl.
  - by rewrite fmap_delete, Ht.
  - eapply SetEndXSIDs_tracks; [exact He| |].
    + intros m Hm. by rewrite lookup_delete_ne.
    + intros e <-. unfold reported_sid, map_get. by rewrite lookup_delete_eq, lookup_empty.
Qed.

Definition fresh (now : Time) (r : TopologyReport) : Prop := time_sub now (tr_ReportedAt r) < topologyReportStaleAfter.

#[local] Instance fresh_dec now r : Decision (fresh now r).
Proof. unfold fresh. apply _. Defined.

Lemma sweep_tracks g0 now l live t :
  tracks g0 live t → NoDup l.*1 → (∀ n a, (n, a) ∈ l → ∃ r, live !! n = Some r ∧ tr_ReportedAt r = a) →
  tracks g0 (filter (λ p, p.1 ∉ l.*1 ∨ fresh now p.2) live) (foldl (clear_node now) t l).
Proof.
  revert live t. induction l as [|[n a] l IH]; intros live t Ht Hnd Hl; simpl.
  { rewrite map_filter_id; [done|]. intros n r _. left. apply not_elem_of_nil. }
  apply list.NoDup_cons in Hnd as [Hn Hnd]. destruct (Hl n a) as (r & Hr & <-); [left|].
  pose proof (clear_node_tracks g0 now live t n r Ht Hr) as Ht'.
  apply IH in Ht'; [|done|].
  - eapply (eq_rect _ (λ m, tracks g0 m _) Ht'). apply map_eq. intros m. apply option_eq. intros r'.
    rewrite !map_lookup_filter_Some. simpl. rewrite not_elem_of_cons. unfold fresh.
    case_match eqn:E; [apply Z.ltb_lt in E|apply Z.ltb_ge in E; rewrite lookup_delete_Some];
      destruct (decide (m = n)) as [->|Hm]; split; intros [H1 H2]; simplify_eq; naive_solver lia.
  - intros m a Hm. destruct (Hl m a) as (r' & Hr' & <-); [by right|]. exists r'. split; [|done].
    case_match; [done|]. rewrite lookup_delete_ne; [done|]. intros ->. apply Hn. by apply (list_elem_of_fmap_2 fst) in Hm.
Qed.

Lemma clearStale_tracks g0 now live t :
  tracks g0 live t → tracks g0 (live_step live (SweepTick now)) (clearStale now t).
Proof.
  intros Ht. unfold clearStale. pose proof (tk_times _ _ _ Ht) as Hat.
  eapply (eq_rect _ (λ m, tracks g0 m _)); [eapply sweep_tracks; [exact Ht|apply NoDup_range_map_fst|]|].
  - intros n a Hin. apply elem_of_range_map in Hin. rewrite Hat, lookup_fmap_Some in Hin. naive_solver.
  - simpl. apply map_filter_ext. intros n r Hr. simpl. unfold fresh. split; [|auto]. intros [Hn|]; [|done].
    destruct Hn. apply list_elem_of_fmap. exists (n, tr_ReportedAt r). split; [done|]. apply elem_of_range_map.
    by rewrite Hat, lookup_fmap, Hr.
Qed.

Lemma tracks_run g0 evs :
  (∀ id e, g_edges g0 !! id = Some e → Edge_EndX e = AddrZero) →
  tracks g0 (live_reports evs) (foldl collector_step (NewTopologyReportCollector g0) evs).
Proof.
  intros Hz. unfold live_reports.
  assert (tracks g0 ∅ (NewTopologyReportCollector g0)) as Ht.
  { split; simpl; [by rewrite fmap_empty|]. unfold with_sids. split_and!; [done|done|done|]. rewrite <-(map_fmap_id (g_edges g0)) at 1.
    apply map_fmap_ext. intros id e He. unfold reported_sid. rewrite lookup_empty, <-(Hz id e He). by rewrite Edge_set_EndX_same. }
  revert Ht. generalize (∅ : gmap NodeID TopologyReport), (NewTopologyReportCollector g0). clear Hz.
  induction evs as [|[r|now] evs IH]; intros live t Ht; simpl; [done| |]; apply IH.
  - by apply apply_report_tracks.
  - by apply clearStale_tracks.
Qed.

Lemma live_reports_in evs n r : live_reports evs !! n = Some r → tr_NodeID r = n ∧ ReportArrived r ∈ evs.
Proof.
  unfold live_reports. revert n r. induction evs as [|ev evs IH] using rev_ind; intros n r.
  { simpl. by rewrite lookup_empty. }
  rewrite foldl_app. simpl. rewrite elem_of_app. destruct ev as [r'|now]; simpl.
  - rewrite lookup_insert_Some. intros [[<- <-]|[Hn Hr]]; [split; [done|right; left]|]. destruct (IH n r Hr). auto.
  - rewrite map_lookup_filter_Some. intros [Hr _]. destruct (IH n r Hr). auto.
Qed.
End collector_correct.

(** C35: the path computation never steers onto an adjacency SID its node no
    longer vouches for.  Over any sequence of reports and sweeps, in any order
    of map iteration, every edge carries exactly the SID that the newest live
    report of its node gives for its interface (none if there is no such
    report), and nothing else of the topology changes; right after a sweep, a
    node whose edges carry a SID has reported within thirty seconds. *)
Theorem endx_follows_live_reports `{RangeOrder} g evs :
  (∀ id e, g_edges g !! id = Some e → Edge_EndX e = AddrZero) →
  let t := foldl collector_step (NewTopologyReportCollector g) evs in
  with_sids (reported_sid (live_reports evs)) g (tc_graph t) ∧
  ∀ now id e, g_edges (tc_graph (clearStale now t)) !! id = Some e → Edge_EndX e ≠ AddrZero →
    ∃ r, ReportArrived r ∈ evs ∧ tr_NodeID r = Edge_Local e ∧ time_sub now (tr_ReportedAt r) < topologyReportStaleAfter ∧
         sids_by_iface r !! Edge_LocalIface e = Some (Edge_EndX e).
Proof.
  intros Hz. cbv zeta. pose proof (tracks_run g evs Hz) as Ht. split; [apply Ht|].
  intros now id e He Hne. destruct (clearStale_tracks g now _ _ Ht) as [_ (_ & _ & _ & Hg)].
  rewrite Hg, lookup_fmap_Some in He. destruct He as (e0 & <- & He0). simpl in *.
  unfold reported_sid in *. simpl in *. destruct (_ !! Edge_Local e0) as [r|] eqn:Hr; [|done].
  apply map_lookup_filter_Some in Hr as [Hr Hfresh]. destruct (live_reports_in _ _ _ Hr) as [Hn Hin].
  exists r. split_and!; [done|done|done|]. unfold map_get in *. by destruct (sids_by_iface r !! Edge_LocalIface e0).
Qed.

Definition demo_report (at_ : Time) : TopologyReport :=
  {| tr_NodeID := "ams"; tr_ReportedAt := at_; tr_Adjacencies := [{| ar_Interface := "eth1"; ar_EndX := Addr6 17 |}] |}.

(** C35, instantiated: a report on an edge of the four-PoP network, kept by a
    sweep nine seconds later. *)
Example endx_follows_live_reports_witness :
  let g := demo_topology in
  let t := foldl (@collector_step canonical_order) (NewTopologyReportCollector g) [ReportArrived (demo_report Second)] in
  (∀ id e, g_edges g !! id = Some e → Edge_EndX e = AddrZero) ∧
  (Edge_EndX <$> g_edges (tc_graph t) !! edge_id "ams" "eth1" "fra" "eth1") = Some (Addr6 17) ∧
  ∃ r, ReportArrived r ∈ [ReportArrived (demo_report Second)] ∧ tr_NodeID r = "ams"%string.
Proof.
  intros g t.
  assert (∀ id e, g_edges g !! id = Some e → Edge_EndX e = AddrZero) as Hz.
  { change (map_Forall (λ _ e, Edge_EndX e = AddrZero) (g_edges g)). apply (bool_decide_unpack _). by vm_compute. }
  split; [exact Hz|]. split; [vm_compute; reflexivity|].
  destruct (g_edges (tc_graph (@clearStale canonical_order (10 * Second) t)) !! edge_id "ams" "eth1" "fra" "eth1") as [e|] eqn:E;
    [|exfalso; vm_compute in E; discriminate E].
  destruct (proj2 (@endx_follows_live_reports canonical_order g [ReportArrived (demo_report Second)] Hz) (10 * Second) _ e E)
    as (r & Hr & Hn & _).
  - vm_compute in E. injection E as <-. discriminate.
  - exists r. split; [exact Hr|]. rewrite Hn. vm_compute in E. injection E as <-. reflexivity.
Defined.

(** ** From the kernel to the edge *)

(** The interface and the SID of a route of the IGP, if it is an End.X one. *)
Definition endx_route (names : gmap Z string) (r : NlRoute) : option (string * Addr) :=
  match nr_Encap r, nr_Dst r with
  | Some (SEG6LocalEncap action _), Some dst =>
      if (action =? SEG6_LOCAL_ACTION_END_X) && addr_is_valid (ipn_IP dst)
      then Some (name_of names (nr_LinkIndex r), unmap (ipn_IP dst)) else None
  | _, _ => None
  end.

(** The last of the routes out of the interface. *)
Definition kernel_endx (names : gmap Z string) (routes : list NlRoute) (iface : string) : Addr :=
  default AddrZero (snd <$> list.last (filter (λ p : string * Addr, p.1 = iface) (omap (endx_route names) routes))).

Lemma encap_type_endx action : encap_type action = Some "endX"%string ↔ action = SEG6_LOCAL_ACTION_END_X.
Proof.
  unfold encap_type, SEG6_LOCAL_ACTION_END_DT4, SEG6_LOCAL_ACTION_END_DT6, seg6LocalActionEndDT46, SEG6_LOCAL_ACTION_END_B6,
    SEG6_LOCAL_ACTION_END_X, SEG6_LOCAL_ACTION_END.
  repeat case_match; split; intros; try done; lia.
Qed.

Lemma report_sid_endx names routes acc :
  ∃ sids, foldM (report_sid names (Some "endX"%string) false) acc routes = Ok (acc ++ sids) ∧
          (λ a, (ar_Interface a, ar_EndX a)) <$> omap adjacency sids = omap (endx_route names) routes.
Proof.
  revert acc. induction routes as [|r routes IH]; intros acc; simpl.
  { exists []. by rewrite app_nil_r. }
  assert (∃ s, report_sid names (Some "endX"%string) false acc r = Ok (acc ++ s) ∧
               (λ a, (ar_Interface a, ar_EndX a)) <$> omap adjacency s = option_list (endx_route names r)) as (s & Hs & Hr).
  { unfold report_sid, endx_route.
    destruct (nr_Encap r) as [[segs|action table|]|]; try (exists []; by rewrite app_nil_r).
    destruct (Z.eqb_spec action SEG6_LOCAL_ACTION_END_X) as [->|Hne].
    - exists [(name_of names (nr_LinkIndex r), {| di_Dst := nr_Dst r; di_VrfTableID := table; di_EncapType := "endX" |})].
      split; [done|]. unfold adjacency. simpl. destruct (nr_Dst r) as [dst|]; [|done]. simpl. by destruct (addr_is_valid _).
    - exists []. rewrite app_nil_r. split; [|by destruct (nr_Dst r)].
      destruct (encap_type action) as [t|] eqn:E; [|done].
      destruct (String.eqb_spec "endX" t) as [<-|]; [|done]. by apply encap_type_endx in E. }
  destruct (IH (acc ++ s)) as (sids & Hf & Ho). exists (s ++ sids). rewrite Hs. simpl. rewrite Hf, <-app_assoc. split; [done|].
  rewrite omap_app, fmap_app, Hr, Ho. by destruct (endx_route names r).
Qed.

Lemma sids_by_iface_last r iface :
  sids_by_iface r !! iface =
  snd <$> list.last (filter (λ p : string * Addr, p.1 = iface) ((λ a, (ar_Interface a, ar_EndX a)) <$> tr_Adjacencies r)).
Proof.
  unfold sids_by_iface. induction (tr_Adjacencies r) as [|a l IH] using rev_ind; simpl; [by rewrite lookup_empty|].
  rewrite foldl_app, fmap_app, list.filter_app. simpl. rewrite filter_cons, filter_nil. simpl. case_decide as E.
  - rewrite list.last_snoc. simpl. by rewrite E, lookup_insert_eq.
  - by rewrite app_nil_r, lookup_insert_ne.
Qed.

(** The SID a path is built with is the one the kernel forwards on.  When
    an agent reports while the kernel lists its routes and links, the report is
    collected whatever else the IGP has installed, and once the control plane
    has applied it every edge of the node carries the End.X SID the IGP
    installed last on the edge's interface, and none where it installed none;
    the other nodes' edges keep theirs. *)
Theorem endx_from_kernel `{RangeOrder} {K} `{Kernel K} (k : K) routes links nodeID now t :
  k_RouteList k RTPROT_ISIS = Ok routes → k_LinkList k = Ok links →
  ∃ report, collect nodeID now (NewLinuxNetlink k) = (NewLinuxNetlink k, Ok report) ∧ tr_ReportedAt report = now ∧
    ∀ id e, g_edges (tc_graph t) !! id = Some e →
      ∃ e', g_edges (tc_graph (apply_report t report)) !! id = Some e' ∧
            Edge_EndX e' = if decide (Edge_Local e = nodeID) then kernel_endx (linkNames links) routes (Edge_LocalIface e)
                           else Edge_EndX e.
Proof.
  intros Hr Hl. destruct (report_sid_endx (linkNames links) routes []) as (sids & Hs & Ho). simpl in Hs.
  exists {| tr_NodeID := nodeID; tr_ReportedAt := now; tr_Adjacencies := omap adjacency sids |}. split_and!; [|done|].
  - unfold collect, nl_GetSIDs, linkNamesOf, query, ask, mbind, nl_bind, lift. simpl.
    change (if 0 <? RTPROT_ISIS then RTPROT_ISIS else 0) with RTPROT_ISIS. rewrite Hr. simpl. rewrite Hl. simpl.
    change (RTPROT_ISIS =? MaetoSIDProto) with false. by rewrite Hs.
  - intros id e He. unfold apply_report. cbn [tc_graph tr_NodeID tr_ReportedAt]. simpl. rewrite lookup_fmap, He. simpl.
    eexists. split; [done|]. rewrite set_endx_edge_sid. simpl. case_decide; [|done].
    unfold map_get, kernel_endx. rewrite sids_by_iface_last. simpl. by rewrite Ho.
Qed.

Definition demo_endx_route : NlRoute :=
  with_encap (with_link (route_of_proto (host_net (Addr6 (Z.shiftl 64512 112 + 5))) 254 RTPROT_ISIS) 2)
    (SEG6LocalEncap SEG6_LOCAL_ACTION_END_X 0).

Definition demo_endx_kernel : demo_kernel :=
  {| dk_links := [{| lk_Index := 2; lk_Name := "eth1"; lk_Group := 0; lk_ParentIndex := 0; lk_MasterIndex := 0;
                     lk_kind := LkGeneric "device" |}];
     dk_routes := [route_of_proto (host_net (Addr6 9)) 254 RTPROT_ISIS; demo_endx_route; foreign_route]; dk_rules := [] |}.

(** Instantiated: the agent of a PoP whose IGP has one adjacency on eth1. *)
Example endx_from_kernel_witness :
  let t := NewTopologyReportCollector demo_topology in
  kernel_endx (linkNames (dk_links demo_endx_kernel)) [route_of_proto (host_net (Addr6 9)) 254 RTPROT_ISIS; demo_endx_route] "eth1" =
    Addr6 (Z.shiftl 64512 112 + 5) ∧
  ∃ report, collect "ams" 7 (NewLinuxNetlink demo_endx_kernel) = (NewLinuxNetlink demo_endx_kernel, Ok report) ∧
    tr_ReportedAt report = 7 ∧
    ∀ id e, g_edges (tc_graph t) !! id = Some e →
      ∃ e', g_edges (tc_graph (@apply_report canonical_order t report)) !! id = Some e' ∧
            Edge_EndX e' =
            if decide (Edge_Local e = "ams"%string)
            then kernel_endx (linkNames (dk_links demo_endx_kernel))
                   [route_of_proto (host_net (Addr6 9)) 254 RTPROT_ISIS; demo_endx_route] (Edge_LocalIface e)
            else Edge_EndX e.
Proof.
  intros t. split; [vm_compute; reflexivity|].
  apply (@endx_from_kernel canonical_order demo_kernel _ demo_endx_kernel
           [route_of_proto (host_net (Addr6 9)) 254 RTPROT_ISIS; demo_endx_route] (dk_links demo_endx_kernel) "ams" 7 t);
    reflexivity.
Defined.
