(* ===== verification/Store.v ===== *)
(** The control plane's database (db/init, libs/store): its tables with their
    constraints, the statements the control plane runs on the tenants and on
    its own state, and transactions. *)

From S2P Require Import Prelude Float64 Netip CostGraph Tenants Sid.

(** ** Tables *)

Record TenantRow := {
  tn_ID : Z;
  tn_Allocation : Prefix;
  tn_Tier : string;
  tn_TierIndex : Z;
  tn_VrfTable : Z;
}.

Record SiteRow := {
  si_PortalID : string;
  si_TenantID : Z;
  si_Cpe : string;
  si_Node : string;
  si_Prefix : Prefix;
  si_Attach : string;
  si_AttachNode : string;
  si_IfID : Z;
  si_Identity : string;
  si_ReservationMbps : f64;
}.

Record ClassRow := { cr_Label : Z; cr_Name : string; cr_ClassIndex : Z }.

Record ControlState := {
  cs_SchemaVersion : Z;
  cs_Fingerprint : string;
  cs_SidCursor : Z;
  cs_BootedAt : Time;
}.

(** Every table by its primary key.  [q_faults] says which of the statements to
    come fail for a reason of their own (a lost connection, say). *)
Record Store := {
  q_tenants : gmap Z TenantRow;
  q_sites : gmap string SiteRow;
  q_classes : gmap Z ClassRow;
  q_dscp : gset (Z * Z);
  q_objectives : gmap (Z * string) f64;
  q_reservations : gmap (string * Z) f64;
  q_control : ControlState;
  q_allocations : list SIDAllocation;
  q_faults : list bool;
}.

Inductive store_error := StatementFailed | NoRows | ConstraintViolated (what : string) | UnknownTenant (portalID : string) (tenant : Z).

Definition tables_equal (s s' : Store) : Prop :=
  q_tenants s = q_tenants s' ∧ q_sites s = q_sites s' ∧ q_classes s = q_classes s' ∧ q_dscp s = q_dscp s' ∧
  q_objectives s = q_objectives s' ∧ q_reservations s = q_reservations s' ∧ q_control s = q_control s' ∧
  q_allocations s = q_allocations s'.

Definition with_tenants (s : Store) t si re : Store :=
  {| q_tenants := t; q_sites := si; q_classes := q_classes s; q_dscp := q_dscp s; q_objectives := q_objectives s;
     q_reservations := re; q_control := q_control s; q_allocations := q_allocations s; q_faults := q_faults s |}.
Definition with_classes (s : Store) c d o re : Store :=
  {| q_tenants := q_tenants s; q_sites := q_sites s; q_classes := c; q_dscp := d; q_objectives := o;
     q_reservations := re; q_control := q_control s; q_allocations := q_allocations s; q_faults := q_faults s |}.
Definition with_control (s : Store) c a : Store :=
  {| q_tenants := q_tenants s; q_sites := q_sites s; q_classes := q_classes s; q_dscp := q_dscp s;
     q_objectives := q_objectives s; q_reservations := q_reservations s; q_control := c; q_allocations := a;
     q_faults := q_faults s |}.
Definition with_faults (s : Store) f : Store :=
  {| q_tenants := q_tenants s; q_sites := q_sites s; q_classes := q_classes s; q_dscp := q_dscp s;
     q_objectives := q_objectives s; q_reservations := q_reservations s; q_control := q_control s;
     q_allocations := q_allocations s; q_faults := f |}.

(** ** Statements *)

(** A statement fails when its turn of [q_faults] says so. *)
Definition stmt (f : Store → result store_error Store) (s : Store) : result store_error Store :=
  match q_faults s with
  | true :: _ => Err StatementFailed
  | fs => f (with_faults s (tail fs))
  end.

(** A query: its rows, and the store after its turn. *)
Definition select {A} (f : Store → A) (s : Store) : result store_error (A * Store) :=
  match q_faults s with
  | true :: _ => Err StatementFailed
  | fs => Ok (f s, with_faults s (tail fs))
  end.

Definition require (ok : bool) (what : string) (s : Store) : result store_error Store :=
  if ok then Ok s else Err (ConstraintViolated what).

(** TEXT holds no NUL character. *)
Definition nul : ascii := ascii_of_N 0.
Fixpoint text_ok (s : string) : bool :=
  match s with EmptyString => true | String c s => negb (Ascii.eqb c nul) && text_ok s end.

(** CIDR holds a valid prefix without host bits. *)
Definition cidr_ok (p : Prefix) : bool :=
  prefix_is_valid p &&
  match pfx_addr p with
  | Addr4 v => v mod 2 ^ (32 - pfx_bits p) =? 0
  | Addr6 v => v mod 2 ^ (128 - pfx_bits p) =? 0
  | AddrZero => false
  end.

(** Deleting from tenants or from traffic_classes deletes what refers to them. *)
Definition DeleteAllTenants : Store → result store_error Store := stmt (λ s, Ok (with_tenants s ∅ ∅ ∅)).
Definition DeleteAllTrafficClasses : Store → result store_error Store := stmt (λ s, Ok (with_classes s ∅ ∅ ∅ ∅)).

Definition CreateTrafficClass (row : ClassRow) : Store → result store_error Store := stmt (λ s,
  s ← require (bool_decide (q_classes s !! cr_Label row = None)) "traffic_classes_pkey" s;
  s ← require (bool_decide (map_Forall (λ _ r, cr_Name r ≠ cr_Name row) (q_classes s))) "traffic_classes_name_key" s;
  s ← require (text_ok (cr_Name row)) "text" s;
  mret (with_classes s (<[cr_Label row := row]> (q_classes s)) (q_dscp s) (q_objectives s) (q_reservations s))).

Definition AddTrafficClassDSCP (label dscp : Z) : Store → result store_error Store := stmt (λ s,
  s ← require (bool_decide (is_Some (q_classes s !! label))) "traffic_class_dscp_label_fkey" s;
  s ← require ((0 <=? dscp) && (dscp <=? 63)) "traffic_class_dscp_dscp_check" s;
  s ← require (bool_decide ((label, dscp) ∉ q_dscp s)) "traffic_class_dscp_pkey" s;
  mret (with_classes s (q_classes s) ({[(label, dscp)]} ∪ q_dscp s) (q_objectives s) (q_reservations s))).

Definition SetTrafficClassObjective (label : Z) (dimension : string) (weight : f64) : Store → result store_error Store := stmt (λ s,
  s ← require (bool_decide (is_Some (q_classes s !! label))) "traffic_class_objectives_label_fkey" s;
  s ← require (text_ok dimension) "text" s;
  mret (with_classes s (q_classes s) (q_dscp s) (<[(label, dimension) := weight]> (q_objectives s)) (q_reservations s))).

Definition CreateTenant (row : TenantRow) : Store → result store_error Store := stmt (λ s,
  s ← require (bool_decide (q_tenants s !! tn_ID row = None)) "tenants_pkey" s;
  s ← require (cidr_ok (tn_Allocation row) && text_ok (tn_Tier row)) "types" s;
  mret (with_tenants s (<[tn_ID row := row]> (q_tenants s)) (q_sites s) (q_reservations s))).

Definition CreateSite (row : SiteRow) : Store → result store_error Store := stmt (λ s,
  s ← require (bool_decide (q_sites s !! si_PortalID row = None)) "sites_pkey" s;
  s ← require (bool_decide (is_Some (q_tenants s !! si_TenantID row))) "sites_tenant_id_fkey" s;
  s ← require (bool_decide (map_Forall (λ _ r, si_Identity r ≠ si_Identity row) (q_sites s))) "sites_identity_key" s;
  s ← require (cidr_ok (si_Prefix row) &&
               forallb text_ok [si_PortalID row; si_Cpe row; si_Node row; si_Attach row; si_AttachNode row; si_Identity row]) "types" s;
  mret (with_tenants s (q_tenants s) (<[si_PortalID row := row]> (q_sites s)) (q_reservations s))).

Definition SetSiteClassReservation (portalID : string) (label : Z) (mbps : f64) : Store → result store_error Store := stmt (λ s,
  s ← require (bool_decide (is_Some (q_sites s !! portalID))) "site_class_reservations_portal_id_fkey" s;
  s ← require (bool_decide (is_Some (q_classes s !! label))) "site_class_reservations_label_fkey" s;
  mret (with_tenants s (q_tenants s) (q_sites s) (<[(portalID, label) := mbps]> (q_reservations s)))).

(** ** Queries *)

Definition tenant_row_le (a b : TenantRow) : Prop := tn_ID a ≤ tn_ID b.
Definition site_row_le (a b : SiteRow) : Prop :=
  si_TenantID a < si_TenantID b ∨ (si_TenantID a = si_TenantID b ∧ si_IfID a ≤ si_IfID b).
Definition class_row_le (a b : ClassRow) : Prop := cr_Label a ≤ cr_Label b.
#[export] Instance tenant_row_le_dec : RelDecision tenant_row_le.
Proof. unfold RelDecision, tenant_row_le. apply _. Defined.
#[export] Instance site_row_le_dec : RelDecision site_row_le.
Proof. unfold RelDecision, site_row_le. apply _. Defined.
#[export] Instance class_row_le_dec : RelDecision class_row_le.
Proof. unfold RelDecision, class_row_le. apply _. Defined.

Section queries.
Context `{RangeOrder}.

(** Rows that tie in an ORDER BY come in any order; the order of the last two
    queries, whose rows are read into maps, is left open. *)
Definition ListTenants : Store → result store_error (list TenantRow * Store) :=
  select (λ s, merge_sort tenant_row_le (range_map (q_tenants s)).*2).
Definition ListSites : Store → result store_error (list SiteRow * Store) :=
  select (λ s, merge_sort site_row_le (range_map (q_sites s)).*2).
Definition ListTrafficClasses : Store → result store_error (list ClassRow * Store) :=
  select (λ s, merge_sort class_row_le (range_map (q_classes s)).*2).
Definition ListTrafficClassDSCP (label : Z) : Store → result store_error (list Z * Store) :=
  select (λ s, merge_sort Z.le (snd <$> filter (λ p, p.1 = label) (elements (q_dscp s)))).
Definition ListTrafficClassObjectives (label : Z) : Store → result store_error (list (string * f64) * Store) :=
  select (λ s, (λ p, (p.1.2, p.2)) <$> filter (λ p, p.1.1 = label) (range_map (q_objectives s))).
Definition ListSiteClassReservations (portalID : string) : Store → result store_error (list (Z * f64) * Store) :=
  select (λ s, (λ p, (p.1.2, p.2)) <$> filter (λ p, p.1.1 = portalID) (range_map (q_reservations s))).
End queries.

(** ** Control state and transactions *)

Definition GetControlState : Store → result store_error (ControlState * Store) := select q_control.

Definition SetFingerprint (fingerprint : string) : Store → result store_error Store := stmt (λ s,
  let c := q_control s in
  s ← require (text_ok fingerprint) "text" s;
  mret (with_control s {| cs_SchemaVersion := cs_SchemaVersion c; cs_Fingerprint := fingerprint;
                          cs_SidCursor := cs_SidCursor c; cs_BootedAt := cs_BootedAt c |} (q_allocations s))).
Definition SetSIDCursor (cursor : Z) : Store → result store_error Store := stmt (λ s,
  let c := q_control s in
  Ok (with_control s {| cs_SchemaVersion := cs_SchemaVersion c; cs_Fingerprint := cs_Fingerprint c;
                        cs_SidCursor := cursor; cs_BootedAt := cs_BootedAt c |} (q_allocations s))).
Definition SetBootedAt (now : Time) : Store → result store_error Store := stmt (λ s,
  let c := q_control s in
  Ok (with_control s {| cs_SchemaVersion := cs_SchemaVersion c; cs_Fingerprint := cs_Fingerprint c;
                        cs_SidCursor := cs_SidCursor c; cs_BootedAt := now |} (q_allocations s))).
Definition DeleteAllSIDAllocations : Store → result store_error Store := stmt (λ s, Ok (with_control s (q_control s) [])).

(** [InTx]: begin, the body, commit; an error of any of them leaves the tables
    as they were. *)
Definition InTx (fn : Store → result store_error Store) (s : Store) : result store_error Store :=
  s ← stmt Ok s;
  s ← fn s;
  stmt Ok s.
