(* ===== verification/TenantStore.v ===== *)
(** The tenant repository in the database (tenant_repository_store.go) and the
    decision at start-up between the file and the database (boot.go). *)

From S2P Require Import Prelude Float64 Netip CostGraph Tenants Sid Store.

(** ** Saving *)

Definition class_row (class : TrafficClass) : ClassRow :=
  {| cr_Label := i64 (tc_Label class); cr_Name := tc_Name class; cr_ClassIndex := i32 (tc_Index class) |}.

Definition tenant_row (tenant : Tenant) : TenantRow :=
  {| tn_ID := i32 (t_ID tenant); tn_Allocation := t_Allocation tenant; tn_Tier := t_Tier tenant;
     tn_TierIndex := i32 (t_TierIndex tenant); tn_VrfTable := i32 (t_VRFTable tenant) |}.

Definition site_row (site : Site) : SiteRow :=
  {| si_PortalID := s_PortalID site; si_TenantID := i32 (s_TenantID site); si_Cpe := s_CPE site; si_Node := s_Node site;
     si_Prefix := s_Prefix site; si_Attach := s_Attach site; si_AttachNode := s_AttachNode site; si_IfID := i64 (s_IfID site);
     si_Identity := s_Identity site; si_ReservationMbps := s_ReservationMbps site |}.

(** [int16] *)
Definition i16 (z : Z) : Z := (z + 2 ^ 15) mod 2 ^ 16 - 2 ^ 15.

Section store.
Context `{RangeOrder}.

Definition save_class (s : Store) (class : TrafficClass) : result store_error Store :=
  s ← CreateTrafficClass (class_row class) s;
  s ← foldM (λ s dscp, AddTrafficClassDSCP (i64 (tc_Label class)) (i16 dscp) s) s (cm_DSCP (tc_Match class));
  foldM (λ s dw, SetTrafficClassObjective (i64 (tc_Label class)) dw.1 dw.2 s) s (range_map (tc_Objective class)).

Definition save_site (s : Store) (site : Site) : result store_error Store :=
  s ← CreateSite (site_row site) s;
  foldM (λ s lm, SetSiteClassReservation (s_PortalID site) (i64 lm.1) lm.2 s) s (range_map (s_ClassMbps site)).

Definition save_tenant (s : Store) (tenant : Tenant) : result store_error Store :=
  s ← CreateTenant (tenant_row tenant) s;
  foldM save_site s (t_Sites tenant).

Definition SaveTo (r : JSONTenantRepository) (s : Store) : result store_error Store :=
  s ← DeleteAllTenants s;
  s ← DeleteAllTrafficClasses s;
  s ← foldM save_class s (range_map (tr_classes r)).*2;
  foldM save_tenant s (range_map (tr_byID r)).*2.

(** ** Loading *)

Definition load_class (acc : gmap Z TrafficClass * Store) (row : ClassRow) : result store_error (gmap Z TrafficClass * Store) :=
  let '(classes, s) := acc in
  '(dscp, s) ← ListTrafficClassDSCP (cr_Label row) s;
  '(objectives, s) ← ListTrafficClassObjectives (cr_Label row) s;
  let objective := foldl (λ m dw, <[dw.1 := dw.2]> m) ∅ objectives in
  mret (<[u64 (cr_Label row) := {| tc_Name := cr_Name row; tc_Label := u64 (cr_Label row); tc_Index := cr_ClassIndex row;
                                   tc_Match := {| cm_DSCP := dscp |}; tc_Objective := objective |}]> classes, s).

Definition loadTrafficClasses (s : Store) : result store_error (gmap Z TrafficClass * Store) :=
  '(rows, s) ← ListTrafficClasses s;
  foldM load_class (∅, s) rows.

Definition tenant_of_row (row : TenantRow) : Tenant :=
  {| t_ID := tn_ID row; t_Allocation := tn_Allocation row; t_Tier := tn_Tier row; t_TierIndex := tn_TierIndex row;
     t_VRFTable := tn_VrfTable row; t_Sites := [] |}.

Definition site_of_row (row : SiteRow) (classMbps : gmap Z f64) : Site :=
  {| s_TenantID := si_TenantID row; s_CPE := si_Cpe row; s_PortalID := si_PortalID row; s_Node := si_Node row;
     s_Prefix := si_Prefix row; s_Attach := si_Attach row; s_AttachNode := si_AttachNode row; s_IfID := u32 (si_IfID row);
     s_Identity := si_Identity row; s_ReservationMbps := si_ReservationMbps row; s_ClassMbps := classMbps |}.

Definition add_tenant_site (t : Tenant) (site : Site) : Tenant :=
  {| t_ID := t_ID t; t_Allocation := t_Allocation t; t_Tier := t_Tier t; t_TierIndex := t_TierIndex t;
     t_VRFTable := t_VRFTable t; t_Sites := t_Sites t ++ [site] |}.

(** The maps of a repository with one more site, under its tenant. *)
Definition index_site (r : JSONTenantRepository) (tenant : Tenant) (site : Site) : JSONTenantRepository :=
  {| tr_classes := tr_classes r;
     tr_byID := <[s_TenantID site := add_tenant_site tenant site]> (tr_byID r);
     tr_byIdentity := <[s_Identity site := site]> (tr_byIdentity r);
     tr_byPortalID := <[s_PortalID site := site]> (tr_byPortalID r);
     tr_byPop := <[s_Attach site := map_get [] (tr_byPop r) (s_Attach site) ++ [site]]> (tr_byPop r) |}.

Definition load_site_row (acc : JSONTenantRepository * Store) (row : SiteRow) :
    result store_error (JSONTenantRepository * Store) :=
  let '(r, s) := acc in
  match tr_byID r !! si_TenantID row with
  | None => Err (UnknownTenant (si_PortalID row) (si_TenantID row))
  | Some tenant =>
      '(reservations, s) ← ListSiteClassReservations (si_PortalID row) s;
      let classMbps := foldl (λ m lm, <[u64 lm.1 := lm.2]> m) ∅ reservations in
      mret (index_site r tenant (site_of_row row classMbps), s)
  end.

(** The repository is replaced only when everything could be read. *)
Definition LoadFrom (s : Store) : result store_error (JSONTenantRepository * Store) :=
  '(classes, s) ← loadTrafficClasses s;
  '(tenantRows, s) ← ListTenants s;
  let byID := foldl (λ m row, <[tn_ID row := tenant_of_row row]> m) ∅ tenantRows in
  '(siteRows, s) ← ListSites s;
  foldM load_site_row
    ({| tr_classes := classes; tr_byID := byID; tr_byIdentity := ∅; tr_byPortalID := ∅; tr_byPop := ∅ |}, s) siteRows.

(** ** Start-up *)

Inductive BootMode := BootCold | BootWarm | BootReset.

Definition SchemaVersion : Z := 1.

Inductive boot_error :=
  | FingerprintUnreadable
  | StoreFailed (e : store_error)
  | SchemaMismatch (version : Z)
  | TenantFileInvalid (e : tenant_error).

Definition boot_mode (state : ControlState) (fingerprint : string) : BootMode :=
  if (cs_Fingerprint state =? "")%string then BootCold
  else if negb (cs_Fingerprint state =? fingerprint)%string then BootReset
  else BootWarm.

(** The transaction of a start from the file. *)
Definition reset_store (r : JSONTenantRepository) (fingerprint : string) (s : Store) : result store_error Store :=
  s ← DeleteAllSIDAllocations s;
  s ← SetSIDCursor 0 s;
  s ← SaveTo r s;
  SetFingerprint fingerprint s.

(** The repository to run with: from the database on a warm start, else from
    the file, which then replaces what the database holds.  With the store as
    it is left, also by a failure. *)
Definition boot_tenants (mode : BootMode) (fingerprint : string) (raw : rawTenantDB) (r : JSONTenantRepository) (s : Store) :
    result boot_error JSONTenantRepository * Store :=
  match mode with
  | BootWarm => match LoadFrom s with Ok (r, s) => (Ok r, s) | Err e => (Err (StoreFailed e), s) end
  | _ =>
      match Load r raw with
      | (_, Some e) => (Err (TenantFileInvalid e), s)
      | (r, None) =>
          match InTx (reset_store r fingerprint) s with
          | Ok s => (Ok r, s)
          | Err e => (Err (StoreFailed e), s)
          end
      end
  end.

(** [fingerprint] is the hash of the two files, [None] when one cannot be read;
    [raw] is the decoded tenant file. *)
Definition bootStore (fingerprint : option string) (raw : rawTenantDB) (now : Time) (r : JSONTenantRepository) (s : Store) :
    result boot_error (BootMode * JSONTenantRepository) * Store :=
  match fingerprint with
  | None => (Err FingerprintUnreadable, s)
  | Some fingerprint =>
      match GetControlState s with
      | Err e => (Err (StoreFailed e), s)
      | Ok (state, s) =>
          if negb (cs_SchemaVersion state =? SchemaVersion) then (Err (SchemaMismatch (cs_SchemaVersion state)), s)
          else
            let mode := boot_mode state fingerprint in
            match boot_tenants mode fingerprint raw r s with
            | (Err e, s) => (Err e, s)
            | (Ok r, s) =>
                match SetBootedAt now s with
                | Err e => (Err (StoreFailed e), s)
                | Ok s => (Ok (mode, r), s)
                end
            end
      end
  end.
End store.
