(* ===== verification/TenantStoreCorrect.v ===== *)
(** Saving and loading the tenant repository, and starting from the database:
    what is saved is what is loaded, and a warm start resumes where the control
    plane stopped. *)

From S2P Require Import Prelude Float64 Netip CostGraph Tenants Demand Sid Store TenantStore.

(** ** Loops that cannot fail *)

Lemma foldM_total {E A S} (f : S → A → result E S) (F : list A → S) l :
  (∀ pre a post, l = pre ++ a :: post → f (F pre) a = Ok (F (pre ++ [a]))) → foldM f (F []) l = Ok (F l).
Proof.
  intros Hf. assert (∀ post pre, l = pre ++ post → foldM f (F pre) post = Ok (F l)) as Hgen; [|by apply (Hgen l [])].
  induction post as [|a post IH]; intros pre Hl; simpl; [by rewrite Hl, app_nil_r|].
  rewrite (Hf pre a post Hl). apply IH. by rewrite <-app_assoc.
Qed.

Lemma NoDup_middle {A B} (f : A → B) pre a post : NoDup (f <$> pre ++ a :: post) → f a ∉ f <$> pre.
Proof.
  rewrite fmap_app, fmap_cons. intros (_ & Hd & _)%list.NoDup_app Hin. apply (Hd _ Hin). left.
Qed.

Lemma NoDup_app_middle {A B C} (g : B → C) (f : A → B) xs pre a post :
  NoDup (g <$> xs ++ (f <$> pre ++ a :: post)) → g (f a) ∉ g <$> xs ++ (f <$> pre).
Proof. rewrite (fmap_app f), fmap_cons, app_assoc. apply NoDup_middle. Qed.

Lemma lookup_foldl_insert {A B K} `{Countable K} (key : A → K) (val : A → B) l k :
  NoDup (key <$> l) →
  foldl (λ m x, <[key x := val x]> m) (∅ : gmap K B) l !! k = (list_to_map ((λ x, (key x, val x)) <$> l) : gmap K B) !! k.
Proof.
  induction l as [|x l IH] using rev_ind; intros Hnd; [done|].
  rewrite foldl_app, fmap_app. simpl. rewrite fmap_app in Hnd. apply list.NoDup_app in Hnd as (Hnd & Hd & _).
  rewrite list_to_map_snoc.
  - destruct (decide (key x = k)) as [<-|Hk]; [by rewrite !lookup_insert_eq|]. rewrite !lookup_insert_ne by done. by apply IH.
  - rewrite <-list_fmap_compose. intros Hin. apply (Hd (key x)); [|left]. exact Hin.
Qed.

(** ** The tables of a list of rows *)

Definition table {A K} `{Countable K} (key : A → K) (rows : list A) : gmap K A :=
  list_to_map ((λ r, (key r, r)) <$> rows).

Lemma keys_table {A K} (key : A → K) (rows : list A) : ((λ r, (key r, r)) <$> rows).*1 = key <$> rows.
Proof. by rewrite <-list_fmap_compose. Qed.

Lemma table_snoc {A K} `{Countable K} (key : A → K) rows r :
  key r ∉ key <$> rows → table key (rows ++ [r]) = <[key r := r]> (table key rows).
Proof. intros Hr. unfold table. rewrite fmap_app. simpl. apply list_to_map_snoc. by rewrite keys_table. Qed.

Lemma lookup_table {A K} `{Countable K} (key : A → K) rows k r :
  NoDup (key <$> rows) → table key rows !! k = Some r ↔ r ∈ rows ∧ key r = k.
Proof.
  intros Hnd. unfold table. rewrite <-elem_of_list_to_map by (by rewrite keys_table). rewrite list_elem_of_fmap. naive_solver.
Qed.

Lemma lookup_table_None {A K} `{Countable K} (key : A → K) rows k : k ∉ key <$> rows → table key rows !! k = None.
Proof. intros Hk. unfold table. apply not_elem_of_list_to_map. by rewrite keys_table. Qed.

Lemma table_is_Some {A K} `{Countable K} (key : A → K) rows k : k ∈ key <$> rows → is_Some (table key rows !! k).
Proof.
  intros Hk. unfold table. destruct (list_to_map _ !! k) eqn:E; [eauto|]. apply not_elem_of_list_to_map in E.
  by rewrite keys_table in E.
Qed.

Lemma range_table `{RangeOrder} {A K} `{Countable K} (key : A → K) rows :
  NoDup (key <$> rows) → (range_map (table key rows)).*2 ≡ₚ rows.
Proof.
  intros Hnd. unfold table. rewrite range_map_perm, map_to_list_to_map by (by rewrite keys_table).
  by rewrite <-list_fmap_compose, list_fmap_id.
Qed.

(** A store that holds the given rows, and no statement of which fails for a
    reason of its own. *)
Definition store_of (s0 : Store) (cs : list ClassRow) (ds : list (Z * Z)) (os : list (Z * string * f64)) (ts : list TenantRow)
    (ss : list SiteRow) (rs : list (string * Z * f64)) : Store :=
  {| q_tenants := table tn_ID ts; q_sites := table si_PortalID ss; q_classes := table cr_Label cs; q_dscp := list_to_set ds;
     q_objectives := list_to_map os; q_reservations := list_to_map rs; q_control := q_control s0;
     q_allocations := q_allocations s0; q_faults := [] |}.

Lemma require_true b what s : b = true → require b what s = Ok s.
Proof. by intros ->. Qed.

Section statements.
Context (s0 : Store) (cs : list ClassRow) (ds : list (Z * Z)) (os : list (Z * string * f64)) (ts : list TenantRow)
  (ss : list SiteRow) (rs : list (string * Z * f64)).

(** Runs a statement, leaving its constraints. *)
Ltac statement := unfold stmt; simpl; repeat (rewrite require_true; [simpl|]).

Lemma unique_in_table {A K B} `{Countable K} `{EqDecision B} (key : A → K) (f : A → B) rows r :
  f r ∉ f <$> rows → bool_decide (map_Forall (λ _ r', f r' ≠ f r) (table key rows)) = true.
Proof.
  intros Hr. apply bool_decide_eq_true. intros k r' Hr' Heq. apply Hr. rewrite <-Heq. apply list_elem_of_fmap_2.
  apply elem_of_list_to_map_2 in Hr'. by apply list_elem_of_fmap in Hr' as (r'' & [= -> ->] & Hr').
Qed.

Lemma fresh_in_table {A K} `{Countable K} (key : A → K) rows k :
  k ∉ key <$> rows → bool_decide (table key rows !! k = None) = true.
Proof. intros Hk. apply bool_decide_eq_true. by apply lookup_table_None. Qed.

Lemma referred_in_table {A K} `{Countable K} (key : A → K) rows k :
  k ∈ key <$> rows → bool_decide (is_Some (table key rows !! k)) = true.
Proof. intros Hk. apply bool_decide_eq_true. by apply table_is_Some. Qed.

Lemma CreateTrafficClass_ok row :
  cr_Label row ∉ cr_Label <$> cs → cr_Name row ∉ cr_Name <$> cs → text_ok (cr_Name row) = true →
  CreateTrafficClass row (store_of s0 cs ds os ts ss rs) = Ok (store_of s0 (cs ++ [row]) ds os ts ss rs).
Proof.
  intros Hl Hn Ht. unfold CreateTrafficClass. statement; [|done|by apply unique_in_table|by apply fresh_in_table].
  unfold store_of. by rewrite table_snoc.
Qed.

Lemma AddTrafficClassDSCP_ok l d :
  l ∈ cr_Label <$> cs → 0 ≤ d ≤ 63 → (l, d) ∉ ds →
  AddTrafficClassDSCP l d (store_of s0 cs ds os ts ss rs) = Ok (store_of s0 cs (ds ++ [(l, d)]) os ts ss rs).
Proof.
  intros Hl Hd Hn. unfold AddTrafficClassDSCP. statement; [| |lia|by apply referred_in_table].
  - unfold store_of, with_classes. simpl.
    assert (list_to_set (ds ++ [(l, d)]) = ({[(l, d)]} ∪ list_to_set ds : gset (Z * Z))) as -> by set_solver. done.
  - apply bool_decide_eq_true. by rewrite elem_of_list_to_set.
Qed.

Lemma SetTrafficClassObjective_ok l d w :
  l ∈ cr_Label <$> cs → text_ok d = true → (l, d) ∉ os.*1 →
  SetTrafficClassObjective l d w (store_of s0 cs ds os ts ss rs) = Ok (store_of s0 cs ds (os ++ [(l, d, w)]) ts ss rs).
Proof.
  intros Hl Hd Hn. unfold SetTrafficClassObjective. statement; [|done|by apply referred_in_table].
  unfold store_of, with_classes. simpl. by rewrite list_to_map_snoc.
Qed.

Lemma CreateTenant_ok row :
  tn_ID row ∉ tn_ID <$> ts → cidr_ok (tn_Allocation row) = true → text_ok (tn_Tier row) = true →
  CreateTenant row (store_of s0 cs ds os ts ss rs) = Ok (store_of s0 cs ds os (ts ++ [row]) ss rs).
Proof.
  intros Hi Hc Ht. unfold CreateTenant. statement; [|by rewrite Hc, Ht|by apply fresh_in_table].
  unfold store_of. by rewrite table_snoc.
Qed.

Definition site_row_ok (row : SiteRow) : bool :=
  cidr_ok (si_Prefix row) &&
  forallb text_ok [si_PortalID row; si_Cpe row; si_Node row; si_Attach row; si_AttachNode row; si_Identity row].

Lemma CreateSite_ok row :
  si_PortalID row ∉ si_PortalID <$> ss → si_TenantID row ∈ tn_ID <$> ts → si_Identity row ∉ si_Identity <$> ss →
  site_row_ok row = true →
  CreateSite row (store_of s0 cs ds os ts ss rs) = Ok (store_of s0 cs ds os ts (ss ++ [row]) rs).
Proof.
  intros Hp Ht Hi Hok. unfold CreateSite.
  statement; [|exact Hok|by apply unique_in_table|by apply referred_in_table|by apply fresh_in_table].
  unfold store_of. by rewrite table_snoc.
Qed.

Lemma SetSiteClassReservation_ok p l w :
  p ∈ si_PortalID <$> ss → l ∈ cr_Label <$> cs → (p, l) ∉ rs.*1 →
  SetSiteClassReservation p l w (store_of s0 cs ds os ts ss rs) = Ok (store_of s0 cs ds os ts ss (rs ++ [(p, l, w)])).
Proof.
  intros Hp Hl Hn. unfold SetSiteClassReservation.
  statement; [|by apply referred_in_table|by apply referred_in_table].
  unfold store_of, with_tenants. simpl. by rewrite list_to_map_snoc.
Qed.
End statements.

(** ** Repositories the database can hold *)

Definition in_int32 (z : Z) : Prop := - 2 ^ 31 ≤ z < 2 ^ 31.

(** A well-formed repository whose numbers fit their columns, whose prefixes
    have no host bits and whose texts no NUL, and in which sites reserve only
    for classes that exist. *)
Record storable (r : JSONTenantRepository) : Prop := {
  so_wf : repo_wf r;
  so_class : ∀ l c, tr_classes r !! l = Some c → 0 ≤ l < 2 ^ 64 ∧ in_int32 (tc_Index c) ∧ text_ok (tc_Name c) = true;
  so_tenant : ∀ t tenant, tr_byID r !! t = Some tenant →
    in_int32 t ∧ in_int32 (t_TierIndex tenant) ∧ in_int32 (t_VRFTable tenant) ∧ cidr_ok (t_Allocation tenant) = true ∧
    text_ok (t_Tier tenant) = true ∧ NoDup (t_Sites tenant);
  so_site : ∀ t tenant x, tr_byID r !! t = Some tenant → x ∈ t_Sites tenant →
    0 ≤ s_IfID x < 2 ^ 32 ∧ site_row_ok (site_row x) = true ∧
    ∀ l, is_Some (s_ClassMbps x !! l) → is_Some (tr_classes r !! l);
}.

Lemma u64_i64 l : 0 ≤ l < 2 ^ 64 → u64 (i64 l) = l.
Proof.
  intros Hl. unfold u64, i64. rewrite Zminus_mod_idemp_l. replace (l + 2 ^ 63 - 2 ^ 63) with l by lia. by apply Z.mod_small.
Qed.
Lemma i32_id z : in_int32 z → i32 z = z.
Proof. unfold in_int32, i32. intros. rewrite Z.mod_small by lia. lia. Qed.
Lemma i16_id z : - 2 ^ 15 ≤ z < 2 ^ 15 → i16 z = z.
Proof. unfold i16. intros. rewrite Z.mod_small by lia. lia. Qed.

Section rows.
Context `{RangeOrder}.

Definition class_dscps (c : TrafficClass) : list (Z * Z) := (λ d, (i64 (tc_Label c), i16 d)) <$> cm_DSCP (tc_Match c).
Definition class_objs (c : TrafficClass) : list (Z * string * f64) :=
  (λ dw, (i64 (tc_Label c), dw.1, dw.2)) <$> range_map (tc_Objective c).
Definition site_res (x : Site) : list (string * Z * f64) :=
  (λ lm, (s_PortalID x, i64 lm.1, lm.2)) <$> range_map (s_ClassMbps x).

Lemma foldM_total_from {E A S} (f : S → A → result E S) (F : list A → S) l s :
  s = F [] → (∀ pre a post, l = pre ++ a :: post → f (F pre) a = Ok (F (pre ++ [a]))) → foldM f s l = Ok (F l).
Proof. intros ->. apply foldM_total. Qed.

Lemma save_class_ok s0 cs ds os ts ss rs c :
  i64 (tc_Label c) ∉ cr_Label <$> cs → tc_Name c ∉ cr_Name <$> cs → text_ok (tc_Name c) = true →
  (∀ d, d ∈ cm_DSCP (tc_Match c) → 0 ≤ d ≤ 63) → (∀ d w, tc_Objective c !! d = Some w → text_ok d = true) →
  NoDup (ds ++ class_dscps c) → NoDup (os ++ class_objs c).*1 →
  save_class (store_of s0 cs ds os ts ss rs) c =
  Ok (store_of s0 (cs ++ [class_row c]) (ds ++ class_dscps c) (os ++ class_objs c) ts ss rs).
Proof.
  intros Hl Hn Ht Hd Ho Nd No. unfold save_class. rewrite CreateTrafficClass_ok by done. simpl.
  assert (i64 (tc_Label c) ∈ cr_Label <$> cs ++ [class_row c]) as Hin by (rewrite fmap_app; apply elem_of_app; right; left).
  rewrite (foldM_total_from _ (λ pre, store_of s0 (cs ++ [class_row c])
    (ds ++ ((λ d, (i64 (tc_Label c), i16 d)) <$> pre)) os ts ss rs)); [simpl|by rewrite app_nil_r|].
  - rewrite (foldM_total_from _ (λ pre, store_of s0 (cs ++ [class_row c]) (ds ++ class_dscps c)
      (os ++ ((λ dw, (i64 (tc_Label c), dw.1, dw.2)) <$> pre)) ts ss rs)); [done|by rewrite app_nil_r|].
    intros pre [d w] post Hsp. simpl. rewrite SetTrafficClassObjective_ok; [by rewrite fmap_app, app_assoc|done| |].
    + apply (Ho d w). apply elem_of_range_map. rewrite Hsp. apply elem_of_app. right. left.
    + unfold class_objs in No. rewrite Hsp in No. by apply NoDup_app_middle in No.
  - intros pre d post Hsp.
    assert (d ∈ cm_DSCP (tc_Match c)) as Hdc by (rewrite Hsp; apply elem_of_app; right; left). pose proof (Hd d Hdc).
    rewrite AddTrafficClassDSCP_ok; [by rewrite fmap_app, app_assoc|done|rewrite i16_id; lia|].
    unfold class_dscps in Nd. rewrite Hsp, <-(list_fmap_id (_ ++ _)) in Nd. apply NoDup_app_middle in Nd.
    by rewrite list_fmap_id in Nd.
Qed.

Lemma save_site_ok s0 cs ds os ts ss rs x :
  s_PortalID x ∉ si_PortalID <$> ss → i32 (s_TenantID x) ∈ tn_ID <$> ts → s_Identity x ∉ si_Identity <$> ss →
  site_row_ok (site_row x) = true → (∀ l, is_Some (s_ClassMbps x !! l) → i64 l ∈ cr_Label <$> cs) →
  NoDup (rs ++ site_res x).*1 →
  save_site (store_of s0 cs ds os ts ss rs) x = Ok (store_of s0 cs ds os ts (ss ++ [site_row x]) (rs ++ site_res x)).
Proof.
  intros Hp Ht Hi Hok Hl Nr. unfold save_site. rewrite CreateSite_ok by done. simpl.
  rewrite (foldM_total_from _ (λ pre, store_of s0 cs ds os ts (ss ++ [site_row x])
    (rs ++ ((λ lm, (s_PortalID x, i64 lm.1, lm.2)) <$> pre)))); [done|by rewrite app_nil_r|].
  intros pre [l w] post Hsp. simpl. rewrite SetSiteClassReservation_ok; [by rewrite fmap_app, app_assoc| | |].
  - rewrite fmap_app. apply elem_of_app. right. left.
  - apply Hl. exists w. apply elem_of_range_map. rewrite Hsp. apply elem_of_app. right. left.
  - unfold site_res in Nr. rewrite Hsp in Nr. by apply NoDup_app_middle in Nr.
Qed.

Lemma fmap_bind {A B C} (g : B → C) (f : A → list B) l : g <$> (l ≫= f) = l ≫= λ x, g <$> f x.
Proof. induction l as [|a l IH]; [done|]. by rewrite !bind_cons, fmap_app, IH. Qed.

(** The part of a loop that is done, and the element that is next. *)
Lemma NoDup_bind_middle {A B} (f : A → list B) pre a post :
  NoDup ((pre ++ a :: post) ≫= f) → NoDup ((pre ≫= f) ++ f a).
Proof. rewrite bind_app, bind_cons, app_assoc. by intros [? _]%list.NoDup_app. Qed.

Lemma save_tenant_ok s0 cs ds os ts ss rs t :
  i32 (t_ID t) ∉ tn_ID <$> ts → cidr_ok (t_Allocation t) = true → text_ok (t_Tier t) = true →
  (∀ x, x ∈ t_Sites t → s_TenantID x = t_ID t ∧ site_row_ok (site_row x) = true ∧
        ∀ l, is_Some (s_ClassMbps x !! l) → i64 l ∈ cr_Label <$> cs) →
  NoDup (si_PortalID <$> ss ++ (site_row <$> t_Sites t)) → NoDup (si_Identity <$> ss ++ (site_row <$> t_Sites t)) →
  NoDup (rs ++ (t_Sites t ≫= site_res)).*1 →
  save_tenant (store_of s0 cs ds os ts ss rs) t =
  Ok (store_of s0 cs ds os (ts ++ [tenant_row t]) (ss ++ (site_row <$> t_Sites t)) (rs ++ (t_Sites t ≫= site_res))).
Proof.
  intros Hi Hc Ht Hx Np Ni Nr. unfold save_tenant. rewrite CreateTenant_ok by done. simpl.
  rewrite (foldM_total_from _ (λ pre, store_of s0 cs ds os (ts ++ [tenant_row t]) (ss ++ (site_row <$> pre))
    (rs ++ (pre ≫= site_res)))); [done|by rewrite !app_nil_r|].
  intros pre x post Hsp. destruct (Hx x) as (Htn & Hok & Hl); [rewrite Hsp; apply elem_of_app; right; left|].
  rewrite save_site_ok; [|rewrite Hsp in Np; by apply NoDup_app_middle in Np| |rewrite Hsp in Ni; by apply NoDup_app_middle in Ni
    |done|done|].
  - rewrite fmap_app, bind_app. simpl. by rewrite app_nil_r, !app_assoc.
  - rewrite Htn, fmap_app. apply elem_of_app. right. left.
  - rewrite Hsp, bind_app, bind_cons, !app_assoc, fmap_app in Nr. by apply list.NoDup_app in Nr as [Nr _].
Qed.
End rows.

(** ** Saving *)

Lemma range_values_keys `{RangeOrder} {K A} `{Countable K} (m : gmap K A) (key : A → K) :
  (∀ k v, m !! k = Some v → key v = k) → key <$> (range_map m).*2 = (range_map m).*1.
Proof.
  intros Hk. rewrite <-list_fmap_compose. apply list_fmap_ext. intros i [k v] Hi. simpl. apply Hk, elem_of_range_map.
  by eapply list_elem_of_lookup_2.
Qed.

Section saved.
Context `{RangeOrder} (r : JSONTenantRepository) (Hr : storable r).

Definition classes_of : list TrafficClass := (range_map (tr_classes r)).*2.
Definition tenants_of : list Tenant := (range_map (tr_byID r)).*2.
Definition sites_of : list Site := tenants_of ≫= t_Sites.

Let Hwf : repo_wf r := so_wf r Hr.

Lemma elem_classes_of c : c ∈ classes_of ↔ tr_classes r !! tc_Label c = Some c.
Proof using Hr.
  unfold classes_of. rewrite list_elem_of_fmap. split.
  - intros ([l c'] & -> & Hl%elem_of_range_map). simpl. by rewrite (cw_label _ (rp_classes _ Hwf) _ _ Hl).
  - intros Hc. exists (tc_Label c, c). split; [done|]. by apply elem_of_range_map.
Qed.

Lemma elem_tenants_of t : t ∈ tenants_of ↔ tr_byID r !! t_ID t = Some t.
Proof using Hr.
  unfold tenants_of. rewrite list_elem_of_fmap. split.
  - intros ([i t'] & -> & Hi%elem_of_range_map). simpl. by rewrite (rp_tenant _ Hwf _ _ Hi).
  - intros Ht. exists (t_ID t, t). split; [done|]. by apply elem_of_range_map.
Qed.

Lemma elem_sites_of x : x ∈ sites_of ↔ ∃ t tenant, tr_byID r !! t = Some tenant ∧ x ∈ t_Sites tenant.
Proof using Hr.
  unfold sites_of. rewrite list_elem_of_bind. split.
  - intros (t & Hx & Ht). apply elem_tenants_of in Ht. eauto.
  - intros (i & t & Ht & Hx). exists t. split; [done|]. apply elem_tenants_of. by rewrite (rp_tenant _ Hwf _ _ Ht).
Qed.

Lemma classes_labels : NoDup (tc_Label <$> classes_of).
Proof using Hr.
  unfold classes_of. rewrite range_values_keys; [apply NoDup_range_map_fst|apply (cw_label _ (rp_classes _ Hwf))].
Qed.
Lemma classes_nodup : NoDup classes_of.
Proof using Hr. eapply NoDup_fmap_1, classes_labels. Qed.

Lemma tenants_ids : NoDup (t_ID <$> tenants_of).
Proof using Hr.
  unfold tenants_of. rewrite range_values_keys; [apply NoDup_range_map_fst|apply (rp_tenant _ Hwf)].
Qed.

Lemma label_inj c c' : c ∈ classes_of → c' ∈ classes_of → i64 (tc_Label c) = i64 (tc_Label c') → c = c'.
Proof using Hr.
  intros H1%elem_classes_of H2%elem_classes_of He.
  destruct (so_class _ Hr _ _ H1) as [R1 _], (so_class _ Hr _ _ H2) as [R2 _].
  apply (f_equal u64) in He. rewrite !u64_i64 in He by done. rewrite He in H1. congruence.
Qed.

Lemma class_rows_labels : NoDup (cr_Label <$> (class_row <$> classes_of)).
Proof using Hr. rewrite <-list_fmap_compose. apply NoDup_fmap_2_strong; [apply label_inj|apply classes_nodup]. Qed.

Lemma class_rows_names : NoDup (cr_Name <$> (class_row <$> classes_of)).
Proof using Hr.
  rewrite <-list_fmap_compose. apply NoDup_fmap_2_strong; [|apply classes_nodup].
  intros c c' H1%elem_classes_of H2%elem_classes_of He. pose proof (cw_name _ (rp_classes _ Hwf) _ _ _ _ H1 H2 He). congruence.
Qed.

(** What the statements on a class need. *)
Lemma class_stored c : c ∈ classes_of →
  text_ok (tc_Name c) = true ∧ NoDup (cm_DSCP (tc_Match c)) ∧ Sorted Z.le (cm_DSCP (tc_Match c)) ∧
  (∀ d, d ∈ cm_DSCP (tc_Match c) → 0 ≤ d ≤ 63) ∧ (∀ d w, tc_Objective c !! d = Some w → text_ok d = true).
Proof using Hr.
  intros Hc%elem_classes_of. destruct (so_class _ Hr _ _ Hc) as (_ & _ & Hn). split; [done|].
  destruct (decide (tc_Label c = DefaultClassLabel)) as [E|Hne].
  - rewrite E, (cw_default _ (rp_classes _ Hwf)) in Hc. injection Hc as <-. simpl. split_and!; [constructor|constructor| |].
    + by intros d ?%not_elem_of_nil.
    + intros d w. by rewrite lookup_empty.
  - destruct (cw_class _ (rp_classes _ Hwf) _ _ Hc Hne) as [_ _ Hw (_ & Hnd & Hs & Hd)]. split_and!; [done|done| |].
    + intros d Hin. specialize (Hd d Hin). unfold DSCPUnmarked, DSCPMax in Hd. lia.
    + intros d w Hdw. destruct (Hw _ _ Hdw) as [Hin _].
      repeat (apply elem_of_cons in Hin as [->|Hin]; [done|]). by apply not_elem_of_nil in Hin.
Qed.

Lemma dscps_nodup : NoDup (classes_of ≫= class_dscps).
Proof using Hr.
  apply NoDup_bind; [| |apply classes_nodup].
  - intros c c' y Hc Hc' (d & -> & _)%list_elem_of_fmap (d' & [= He _] & _)%list_elem_of_fmap. by apply label_inj.
  - intros c Hc. destruct (class_stored c Hc) as (_ & Hnd & _ & Hd & _). apply NoDup_fmap_2_strong; [|done].
    intros d d' H1 H2 [= He]. rewrite !i16_id in He; [done|specialize (Hd d' H2); lia|specialize (Hd d H1); lia].
Qed.

Lemma objs_nodup : NoDup (classes_of ≫= class_objs).*1.
Proof using Hr.
  rewrite fmap_bind. apply NoDup_bind; [| |apply classes_nodup].
  - intros c c' y Hc Hc'. unfold class_objs. rewrite <-!list_fmap_compose.
    intros (d & -> & _)%list_elem_of_fmap (d' & [= He _] & _)%list_elem_of_fmap. by apply label_inj.
  - intros c Hc. unfold class_objs. rewrite <-list_fmap_compose. apply NoDup_fmap_2_strong; [|apply NoDup_range_map].
    intros [d w] [d' w'] H1%elem_of_range_map H2%elem_of_range_map [= ->]. congruence.
Qed.

Lemma save_classes_ok s0 :
  foldM save_class (store_of s0 [] [] [] [] [] []) classes_of =
  Ok (store_of s0 (class_row <$> classes_of) (classes_of ≫= class_dscps) (classes_of ≫= class_objs) [] [] []).
Proof using Hr.
  apply (foldM_total_from _ (λ pre, store_of s0 (class_row <$> pre) (pre ≫= class_dscps) (pre ≫= class_objs) [] [] [])); [done|].
  intros pre c post Hsp.
  assert (c ∈ classes_of) as Hc by (rewrite Hsp; apply elem_of_app; right; left).
  destruct (class_stored c Hc) as (Hn & _ & _ & Hd & Hw).
  pose proof class_rows_labels as N1. pose proof class_rows_names as N2. pose proof dscps_nodup as N3. pose proof objs_nodup as N4.
  rewrite Hsp in N1, N2, N3, N4. rewrite <-list_fmap_compose in N1, N2. apply NoDup_middle in N1, N2. apply NoDup_bind_middle in N3.
  rewrite fmap_bind in N4. apply NoDup_bind_middle in N4. rewrite <-fmap_bind, <-fmap_app in N4.
  rewrite save_class_ok; [|by rewrite <-list_fmap_compose|by rewrite <-list_fmap_compose|done..].
  rewrite fmap_app, !bind_app. simpl. by rewrite !app_nil_r.
Qed.

(** Sites are told apart by portal and by identity. *)
Lemma site_portal_inj x y : x ∈ sites_of → y ∈ sites_of → s_PortalID x = s_PortalID y → x = y.
Proof using Hr.
  intros Hx%elem_sites_of Hy%elem_sites_of He.
  assert (tr_byPortalID r !! s_PortalID x = Some x) as H1 by (by apply (rp_portal _ Hwf)).
  assert (tr_byPortalID r !! s_PortalID y = Some y) as H2 by (by apply (rp_portal _ Hwf)). congruence.
Qed.
Lemma site_identity_inj x y : x ∈ sites_of → y ∈ sites_of → s_Identity x = s_Identity y → x = y.
Proof using Hr.
  intros Hx%elem_sites_of Hy%elem_sites_of He.
  assert (tr_byIdentity r !! s_Identity x = Some x) as H1 by (by apply (rp_identity _ Hwf)).
  assert (tr_byIdentity r !! s_Identity y = Some y) as H2 by (by apply (rp_identity _ Hwf)). congruence.
Qed.

Lemma sites_nodup : NoDup sites_of.
Proof using Hr.
  apply NoDup_bind; [| |eapply NoDup_fmap_1, tenants_ids].
  - intros t t' x Ht%elem_tenants_of Ht'%elem_tenants_of Hx Hx'.
    destruct (rp_site _ Hwf _ _ _ Ht Hx) as [E _], (rp_site _ Hwf _ _ _ Ht' Hx') as [E' _]. rewrite <-E in Ht. rewrite <-E' in Ht'.
    congruence.
  - intros t Ht%elem_tenants_of. by destruct (so_tenant _ Hr _ _ Ht) as (_ & _ & _ & _ & _ & ?).
Qed.

Lemma portals_nodup : NoDup (si_PortalID <$> (site_row <$> sites_of)).
Proof using Hr. rewrite <-list_fmap_compose. apply NoDup_fmap_2_strong; [apply site_portal_inj|apply sites_nodup]. Qed.
Lemma identities_nodup : NoDup (si_Identity <$> (site_row <$> sites_of)).
Proof using Hr. rewrite <-list_fmap_compose. apply NoDup_fmap_2_strong; [apply site_identity_inj|apply sites_nodup]. Qed.

Lemma tenant_rows_ids : NoDup (tn_ID <$> (tenant_row <$> tenants_of)).
Proof using Hr.
  rewrite <-list_fmap_compose. apply NoDup_fmap_2_strong; [|eapply NoDup_fmap_1, tenants_ids].
  intros t t' H1%elem_tenants_of H2%elem_tenants_of He. unfold tenant_row in He. simpl in He.
  destruct (so_tenant _ Hr _ _ H1) as [R1 _], (so_tenant _ Hr _ _ H2) as [R2 _]. rewrite !i32_id in He by done. congruence.
Qed.

Lemma shares_stored x l : x ∈ sites_of → is_Some (s_ClassMbps x !! l) → i64 l ∈ cr_Label <$> (class_row <$> classes_of).
Proof using Hr.
  intros (t & tenant & Ht & Hx)%elem_sites_of Hl. destruct (so_site _ Hr _ _ _ Ht Hx) as (_ & _ & Hc).
  destruct (Hc l Hl) as [c Hcl]. rewrite <-list_fmap_compose. apply list_elem_of_fmap. exists c.
  pose proof (cw_label _ (rp_classes _ Hwf) _ _ Hcl) as <-. split; [done|]. by apply elem_classes_of.
Qed.

Lemma share_label_range x l : x ∈ sites_of → is_Some (s_ClassMbps x !! l) → 0 ≤ l < 2 ^ 64.
Proof using Hr.
  intros (t & tenant & Ht & Hx)%elem_sites_of Hl. destruct (so_site _ Hr _ _ _ Ht Hx) as (_ & _ & Hc).
  destruct (Hc l Hl) as [c Hcl]. by destruct (so_class _ Hr _ _ Hcl).
Qed.

Lemma reservations_nodup : NoDup (sites_of ≫= site_res).*1.
Proof using Hr.
  rewrite fmap_bind. apply NoDup_bind; [| |apply sites_nodup].
  - intros x y p Hx Hy. unfold site_res. rewrite <-!list_fmap_compose.
    intros (d & -> & _)%list_elem_of_fmap (d' & [= He _] & _)%list_elem_of_fmap. by apply site_portal_inj.
  - intros x Hx. unfold site_res. rewrite <-list_fmap_compose. apply NoDup_fmap_2_strong; [|apply NoDup_range_map].
    intros [l w] [l' w'] H1%elem_of_range_map H2%elem_of_range_map [= He]. apply (f_equal u64) in He.
    rewrite !u64_i64 in He by (eapply share_label_range; eauto). congruence.
Qed.

(** Everything the repository holds, as rows. *)
Definition saved_store (s0 : Store) : Store :=
  store_of s0 (class_row <$> classes_of) (classes_of ≫= class_dscps) (classes_of ≫= class_objs)
    (tenant_row <$> tenants_of) (site_row <$> sites_of) (sites_of ≫= site_res).

Lemma SaveTo_ok s0 : q_faults s0 = [] → SaveTo r s0 = Ok (saved_store s0).
Proof using Hr.
  intros Hf. unfold SaveTo, DeleteAllTenants, DeleteAllTrafficClasses, stmt. rewrite Hf. simpl. fold classes_of tenants_of.
  change (with_classes _ _ _ _ _) with (store_of s0 [] [] [] [] [] []). rewrite save_classes_ok. simpl. unfold saved_store, sites_of.
  apply (foldM_total_from _ (λ pre, store_of s0 (class_row <$> classes_of) (classes_of ≫= class_dscps) (classes_of ≫= class_objs)
    (tenant_row <$> pre) (site_row <$> (pre ≫= t_Sites)) ((pre ≫= t_Sites) ≫= site_res))); [done|].
  intros pre t post Hsp. assert (t ∈ tenants_of) as Ht by (rewrite Hsp; apply elem_of_app; right; left).
  pose proof (proj1 (elem_tenants_of t) Ht) as Hl. destruct (so_tenant _ Hr _ _ Hl) as (_ & _ & _ & Hc & Htx & _).
  assert (sites_of = (pre ≫= t_Sites) ++ t_Sites t ++ (post ≫= t_Sites)) as Hss
    by (unfold sites_of; by rewrite Hsp, bind_app, bind_cons).
  pose proof tenant_rows_ids as N1. pose proof portals_nodup as N2. pose proof identities_nodup as N3. pose proof reservations_nodup as N4.
  rewrite Hsp, <-list_fmap_compose in N1. apply NoDup_middle in N1.
  rewrite Hss, app_assoc, (fmap_app site_row), fmap_app in N2, N3. apply list.NoDup_app in N2 as [N2 _], N3 as [N3 _].
  rewrite Hss, app_assoc, bind_app, fmap_app in N4. apply list.NoDup_app in N4 as [N4 _].
  rewrite save_tenant_ok; [|by rewrite <-list_fmap_compose|done|done| |by rewrite <-fmap_app|by rewrite <-fmap_app|by rewrite <-bind_app].
  - rewrite !fmap_app, !bind_app. simpl. by rewrite !app_nil_r, !fmap_app.
  - intros x Hx. destruct (rp_site _ Hwf _ _ _ Hl Hx) as [Hid _]. split; [done|].
    destruct (so_site _ Hr _ _ _ Hl Hx) as (_ & Hok & _). split; [done|]. intros l. apply shares_stored. apply elem_sites_of. eauto.
Qed.
End saved.

(** ** Loading *)

Lemma foldM_fmap {E A B S} (f : S → B → result E S) (g : A → B) s l : foldM f s (g <$> l) = foldM (λ s a, f s (g a)) s l.
Proof. revert s. induction l as [|a l IH]; intros s; simpl; [done|]. by destruct (f s (g a)). Qed.

Lemma table_of_values `{RangeOrder} {K A} `{Countable K} (m : gmap K A) (key : A → K) rows :
  (∀ k v, m !! k = Some v → key v = k) → rows ≡ₚ (range_map m).*2 → table key rows = m.
Proof.
  intros Hk Hp. assert (NoDup (key <$> rows)) as Hnd by (rewrite Hp, range_values_keys by done; apply NoDup_range_map_fst).
  apply map_eq. intros k. apply option_eq. intros v. rewrite lookup_table, Hp, list_elem_of_fmap by done. split.
  - intros [([k' v'] & -> & Hin%elem_of_range_map) <-]. simpl. by rewrite (Hk _ _ Hin).
  - intros Hv. split; [|by apply Hk]. exists (k, v). split; [done|]. by apply elem_of_range_map.
Qed.

(** The rows of a two-column key that share the first column. *)
Lemma sub_rows `{RangeOrder} {K1 K2 A} `{Countable K1} `{Countable K2} (os : list (K1 * K2 * A)) (k1 : K1) :
  NoDup os.*1 →
  let l := (λ p : K1 * K2 * A, (p.1.2, p.2)) <$>
           filter (λ p : K1 * K2 * A, p.1.1 = k1) (range_map (list_to_map os : gmap (K1 * K2) A)) in
  NoDup l.*1 ∧ ∀ k2 a, (k2, a) ∈ l ↔ (k1, k2, a) ∈ os.
Proof.
  intros Hnd. cbv zeta. split.
  - rewrite <-list_fmap_compose. apply NoDup_fmap_2_strong; [|apply list.NoDup_filter, NoDup_range_map].
    intros [[a1 a2] a] [[b1 b2] b] [Ha Hia]%list_elem_of_filter [Hb Hib]%list_elem_of_filter. simpl in *. intros ->. subst.
    apply elem_of_range_map in Hia, Hib. congruence.
  - intros k2 a. rewrite list_elem_of_fmap. split.
    + intros ([[b1 b2] b] & [= -> ->] & [Hb Hi]%list_elem_of_filter). simpl in Hb. subst. apply elem_of_range_map in Hi.
      by apply elem_of_list_to_map in Hi.
    + intros Hi. exists (k1, k2, a). split; [done|]. apply list_elem_of_filter. split; [done|].
      apply elem_of_range_map. by apply elem_of_list_to_map.
Qed.

(** Rebuilding a map from rows that list it. *)
Lemma rebuild_map {K A B} `{Countable K} (m : gmap K B) (key : A → K) (val : A → B) l :
  NoDup (key <$> l) → (∀ k b, (∃ a, a ∈ l ∧ key a = k ∧ val a = b) ↔ m !! k = Some b) →
  foldl (λ m x, <[key x := val x]> m) ∅ l = m.
Proof.
  intros Hnd Hm. apply map_eq. intros k. rewrite lookup_foldl_insert by done. apply option_eq. intros b.
  rewrite <-Hm, <-elem_of_list_to_map by (by rewrite <-list_fmap_compose). rewrite list_elem_of_fmap. naive_solver.
Qed.

#[export] Instance site_row_le_trans : Transitive site_row_le.
Proof. unfold site_row_le. intros x y z. lia. Qed.
#[export] Instance site_row_le_total : Total site_row_le.
Proof. unfold site_row_le. intros x y. lia. Qed.

(** A tenant with its sites in the order of their interface ids. *)
Definition site_ifid_le (x y : Site) : Prop := s_IfID x ≤ s_IfID y.
#[export] Instance site_ifid_le_dec : RelDecision site_ifid_le.
Proof. unfold RelDecision, site_ifid_le. apply _. Defined.
#[export] Instance site_ifid_le_trans : Transitive site_ifid_le.
Proof. unfold site_ifid_le. intros x y z. lia. Qed.
#[export] Instance site_ifid_le_total : Total site_ifid_le.
Proof. unfold site_ifid_le. intros x y. lia. Qed.

Definition with_sites (t : Tenant) (sites : list Site) : Tenant :=
  {| t_ID := t_ID t; t_Allocation := t_Allocation t; t_Tier := t_Tier t; t_TierIndex := t_TierIndex t;
     t_VRFTable := t_VRFTable t; t_Sites := sites |}.
Definition sorted_tenant (t : Tenant) : Tenant := with_sites t (merge_sort site_ifid_le (t_Sites t)).

Section loaded.
Context `{RangeOrder} (r : JSONTenantRepository) (Hr : storable r) (s0 : Store).

Let Hwf : repo_wf r := so_wf r Hr.
Let S := saved_store r s0.

(** What [load_class] reads for a row. *)
Definition loaded_class (row : ClassRow) : TrafficClass :=
  {| tc_Name := cr_Name row; tc_Label := u64 (cr_Label row); tc_Index := cr_ClassIndex row;
     tc_Match := {| cm_DSCP := merge_sort Z.le (snd <$> filter (λ p, p.1 = cr_Label row) (elements (q_dscp S))) |};
     tc_Objective := foldl (λ m (dw : string * f64), <[dw.1 := dw.2]> m) ∅
       ((λ p, (p.1.2, p.2)) <$> filter (λ p, p.1.1 = cr_Label row) (range_map (q_objectives S))) |}.

Lemma load_class_ok m row : load_class (m, S) row = Ok (<[u64 (cr_Label row) := loaded_class row]> m, S).
Proof. done. Qed.

Lemma loaded_dscp c : c ∈ classes_of r →
  merge_sort Z.le (snd <$> filter (λ p, p.1 = i64 (tc_Label c)) (elements (q_dscp S))) = cm_DSCP (tc_Match c).
Proof using Hr.
  intros Hc. destruct (class_stored r Hr c Hc) as (_ & Hnd & Hs & Hd & _).
  apply (Sorted_unique Z.le); [apply Sorted_merge_sort; apply _|done|]. rewrite merge_sort_Permutation.
  apply NoDup_Permutation; [|done|].
  - apply NoDup_fmap_2_strong; [|apply list.NoDup_filter, NoDup_elements].
    intros [a b] [a' b'] [Ha _]%list_elem_of_filter [Ha' _]%list_elem_of_filter. simpl in *. congruence.
  - intros d. rewrite list_elem_of_fmap. split.
    + intros ([l d'] & -> & [Hl Hin]%list_elem_of_filter). simpl in *. subst l.
      rewrite elem_of_elements in Hin. apply elem_of_list_to_set, list_elem_of_bind in Hin as (c' & Hin & Hc').
      apply list_elem_of_fmap in Hin as (d & [= Hl ->] & Hin). apply (label_inj r Hr) in Hl as <-; [|done..].
      rewrite i16_id; [done|]. specialize (Hd _ Hin). lia.
    + intros Hin. exists (i64 (tc_Label c), d). split; [done|]. apply list_elem_of_filter. split; [done|].
      rewrite elem_of_elements. apply elem_of_list_to_set, list_elem_of_bind. exists c. split; [|done].
      apply list_elem_of_fmap. exists d. split; [|done]. rewrite i16_id; [done|]. specialize (Hd _ Hin). lia.
Qed.

Lemma loaded_objective c : c ∈ classes_of r →
  foldl (λ m (dw : string * f64), <[dw.1 := dw.2]> m) ∅
    ((λ p, (p.1.2, p.2)) <$> filter (λ p, p.1.1 = i64 (tc_Label c)) (range_map (q_objectives S))) = tc_Objective c.
Proof using Hr.
  intros Hc. destruct (sub_rows (classes_of r ≫= class_objs) (i64 (tc_Label c)) (objs_nodup r Hr)) as [Hnd Hin].
  apply rebuild_map; [exact Hnd|]. intros d w. split.
  - intros ([d' w'] & Hi & <- & <-). apply Hin, list_elem_of_bind in Hi as (c' & Hi & Hc').
    apply list_elem_of_fmap in Hi as ([d w] & [= Hl -> ->] & Hi). apply (label_inj r Hr) in Hl as <-; [|done..].
    by apply elem_of_range_map in Hi.
  - intros Hw. exists (d, w). split; [|done]. apply Hin, list_elem_of_bind. exists c. split; [|done].
    apply list_elem_of_fmap. exists (d, w). split; [done|]. by apply elem_of_range_map.
Qed.

Lemma loaded_class_row c : c ∈ classes_of r → loaded_class (class_row c) = c.
Proof using Hr.
  intros Hc. unfold loaded_class. simpl. rewrite loaded_dscp, loaded_objective by done.
  apply elem_classes_of in Hc; [|done]. destruct (so_class _ Hr _ _ Hc) as (Hl & Hi & _).
  rewrite u64_i64, i32_id by done. by destruct c as [? ? ? [?] ?].
Qed.

Lemma loadTrafficClasses_ok : loadTrafficClasses S = Ok (tr_classes r, S).
Proof using Hr.
  unfold loadTrafficClasses. change (ListTrafficClasses S) with
    (Ok (merge_sort class_row_le (range_map (q_classes S)).*2, S) : result store_error _). cbn [mbind result_bind].
  pose proof (class_rows_labels r Hr) as Nl. set (rows := merge_sort class_row_le (range_map (q_classes S)).*2).
  assert (rows ≡ₚ class_row <$> classes_of r) as Hp.
  { unfold rows. rewrite merge_sort_Permutation. by apply range_table. }
  rewrite (foldM_total_from _ (λ pre, (foldl (λ m row, <[u64 (cr_Label row) := loaded_class row]> m) ∅ pre, S))); [|done|].
  2: { intros pre row post _. by rewrite load_class_ok, foldl_app. }
  do 2 f_equal. apply rebuild_map.
  - rewrite Hp, <-list_fmap_compose. apply NoDup_fmap_2_strong; [|apply classes_nodup, Hr].
    intros c c' Hc Hc' He. apply (label_inj r Hr); [done..|]. apply (elem_classes_of r Hr) in Hc, Hc'. simpl in He.
    rewrite !u64_i64 in He; [by rewrite He|by destruct (so_class _ Hr _ _ Hc')|by destruct (so_class _ Hr _ _ Hc)].
  - intros l c. setoid_rewrite Hp. split.
    + intros (row & (c' & -> & Hc')%list_elem_of_fmap & <- & <-). rewrite loaded_class_row by done.
      apply (elem_classes_of r Hr) in Hc'. simpl. rewrite u64_i64; [done|]. by destruct (so_class _ Hr _ _ Hc').
    + intros Hc. pose proof (cw_label _ (rp_classes _ Hwf) _ _ Hc) as Hl. subst l.
      assert (c ∈ classes_of r) as Hin by (by apply elem_classes_of). exists (class_row c).
      split; [by apply list_elem_of_fmap_2|]. rewrite loaded_class_row by done. split; [|done]. simpl.
      rewrite u64_i64; [done|]. by destruct (so_class _ Hr _ _ Hc).
Qed.

Lemma loaded_tenants rows : rows ≡ₚ tenant_row <$> tenants_of r →
  foldl (λ m row, <[tn_ID row := tenant_of_row row]> m) ∅ rows = (λ t, with_sites t []) <$> tr_byID r.
Proof using Hr.
  intros Hp. assert (∀ t, t ∈ tenants_of r → tenant_of_row (tenant_row t) = with_sites t [] ∧ i32 (t_ID t) = t_ID t) as Ht.
  { intros t Ht. apply elem_tenants_of in Ht; [|done]. destruct (so_tenant _ Hr _ _ Ht) as (H1 & H2 & H3 & _).
    unfold tenant_of_row, tenant_row, with_sites. simpl. by rewrite !i32_id. }
  apply rebuild_map.
  - rewrite Hp. apply tenant_rows_ids, Hr.
  - intros k t. rewrite lookup_fmap_Some. setoid_rewrite Hp. split.
    + intros (row & (t' & -> & Hin)%list_elem_of_fmap & <- & <-). destruct (Ht t' Hin) as [-> E]. simpl. rewrite E.
      exists t'. split; [done|]. by apply elem_tenants_of.
    + intros (t' & <- & Hl). pose proof (rp_tenant _ Hwf _ _ Hl) as <-.
      assert (t' ∈ tenants_of r) as Hin by (by apply elem_tenants_of). destruct (Ht t' Hin) as [E1 E2].
      exists (tenant_row t'). split; [by apply list_elem_of_fmap_2|]. by rewrite E1.
Qed.

(** The repository after the sites [pre], in that order. *)
Definition index_pops (pre : list Site) : gmap string (list Site) :=
  foldl (λ m x, <[s_Attach x := map_get [] m (s_Attach x) ++ [x]]> m) ∅ pre.

Definition indexed (pre : list Site) : JSONTenantRepository :=
  {| tr_classes := tr_classes r;
     tr_byID := (λ t, with_sites t (filter (λ x, s_TenantID x = t_ID t) pre)) <$> tr_byID r;
     tr_byIdentity := table s_Identity pre; tr_byPortalID := table s_PortalID pre; tr_byPop := index_pops pre |}.

Lemma loaded_site x : x ∈ sites_of r →
  site_of_row (site_row x) (foldl (λ m (lm : Z * f64), <[u64 lm.1 := lm.2]> m) ∅
    ((λ p, (p.1.2, p.2)) <$> filter (λ p, p.1.1 = s_PortalID x) (range_map (q_reservations S)))) = x.
Proof using Hr.
  intros Hx. destruct (sub_rows (sites_of r ≫= site_res) (s_PortalID x) (reservations_nodup r Hr)) as [Hnd Hin].
  assert (∀ k w, (k, w) ∈ ((λ p, (p.1.2, p.2)) <$> filter (λ p : string * Z * f64, p.1.1 = s_PortalID x)
            (range_map (q_reservations S))) ↔ ∃ l, k = i64 l ∧ s_ClassMbps x !! l = Some w) as Hrows.
  { intros k w. etransitivity; [exact (Hin k w)|]. rewrite list_elem_of_bind. split.
    - intros (y & (lm & [= Hp -> ->] & Hl)%list_elem_of_fmap & Hy). apply (site_portal_inj r Hr) in Hp as <-; [|done..].
      destruct lm as [l w']. apply elem_of_range_map in Hl. eauto.
    - intros (l & -> & Hl). exists x. split; [|done]. apply list_elem_of_fmap. exists (l, w). split; [done|]. by apply elem_of_range_map. }
  rewrite (rebuild_map (s_ClassMbps x)).
  - pose proof Hx as (t & tenant & Ht & Hxt)%(elem_sites_of r Hr). destruct (so_site _ Hr _ _ _ Ht Hxt) as (Hif & _ & _).
    destruct (rp_site _ Hwf _ _ _ Ht Hxt) as [Htx _]. destruct (so_tenant _ Hr _ _ Ht) as [Hi _]. rewrite <-Htx in Hi.
    unfold site_of_row, site_row. simpl. rewrite i32_id by done. rewrite i64_id, u32_id by lia. by destruct x.
  - change ((λ lm : Z * f64, u64 lm.1) <$> ?l) with ((u64 ∘ fst) <$> l). rewrite list_fmap_compose.
    apply NoDup_fmap_2_strong; [|exact Hnd].
    intros k k' ([? w] & -> & (l & -> & Hl)%Hrows)%list_elem_of_fmap ([? w'] & -> & (l' & -> & Hl')%Hrows)%list_elem_of_fmap.
    simpl. rewrite !u64_i64 by (eapply (share_label_range r Hr); eauto). by intros ->.
  - intros l w. split.
    + intros ([k w'] & (l' & -> & Hl')%Hrows & <- & <-). simpl. rewrite u64_i64; [done|]. eapply (share_label_range r Hr); eauto.
    + intros Hl. exists (i64 l, w). split; [apply Hrows; eauto|]. split; [|done]. apply u64_i64. eapply (share_label_range r Hr); eauto.
Qed.

Lemma indexed_snoc pre x t : x ∉ pre → x ∈ sites_of r → (∀ y, y ∈ pre → y ∈ sites_of r) →
  tr_byID r !! s_TenantID x = Some t →
  index_site (indexed pre) (with_sites t (filter (λ y, s_TenantID y = t_ID t) pre)) x = indexed (pre ++ [x]).
Proof using Hr.
  intros Hx Hxs Hpre Ht. pose proof (rp_tenant _ Hwf _ _ Ht) as Hid. unfold index_site, indexed. simpl. f_equal.
  - apply map_eq. intros i. rewrite lookup_fmap. destruct (decide (s_TenantID x = i)) as [<-|Hi].
    + rewrite lookup_insert_eq, Ht. simpl. unfold add_tenant_site, with_sites. simpl. do 2 f_equal.
      rewrite list.filter_app, filter_cons_True, filter_nil by done. done.
    + rewrite lookup_insert_ne, lookup_fmap by done. destruct (tr_byID r !! i) as [t'|] eqn:E; simpl; [|done].
      rewrite list.filter_app, filter_cons_False, filter_nil, app_nil_r; [done|]. by rewrite (rp_tenant _ Hwf _ _ E).
  - rewrite table_snoc; [done|]. intros (y & He & Hy)%list_elem_of_fmap. apply Hx.
    by rewrite (site_identity_inj r Hr x y Hxs (Hpre y Hy) He).
  - rewrite table_snoc; [done|]. intros (y & He & Hy)%list_elem_of_fmap. apply Hx.
    by rewrite (site_portal_inj r Hr x y Hxs (Hpre y Hy) He).
  - unfold index_pops. by rewrite foldl_app.
Qed.

Lemma load_site_row_ok pre x : x ∉ pre → x ∈ sites_of r → (∀ y, y ∈ pre → y ∈ sites_of r) →
  load_site_row (indexed pre, S) (site_row x) = Ok (indexed (pre ++ [x]), S).
Proof using Hr.
  intros Hx Hxs Hpre. pose proof Hxs as (i & t & Ht & Hxt)%(elem_sites_of r Hr).
  destruct (rp_site _ Hwf _ _ _ Ht Hxt) as [<- _]. destruct (so_tenant _ Hr _ _ Ht) as [Hi _].
  unfold load_site_row. simpl. rewrite i32_id, lookup_fmap, Ht by done. simpl.
  rewrite <-(indexed_snoc pre x t) by done. do 2 f_equal. f_equal. exact (loaded_site x Hxs).
Qed.

Lemma LoadFrom_ok : ∃ X, X ≡ₚ sites_of r ∧ StronglySorted site_row_le (site_row <$> X) ∧ LoadFrom S = Ok (indexed X, S).
Proof using Hr.
  set (rows := merge_sort site_row_le (range_map (q_sites S)).*2).
  assert (rows ≡ₚ site_row <$> sites_of r) as Hp.
  { unfold rows. rewrite merge_sort_Permutation. apply range_table, (portals_nodup r Hr). }
  apply Permutation_map_inv in Hp as (X & HX & Hperm). symmetry in Hperm. exists X. split; [done|]. split.
  { change (site_row <$> X) with (map site_row X). rewrite <-HX. apply StronglySorted_merge_sort; apply _. }
  unfold LoadFrom. rewrite loadTrafficClasses_ok. cbn [mbind result_bind].
  change (ListTenants S) with (Ok (merge_sort tenant_row_le (range_map (q_tenants S)).*2, S) : result store_error _).
  cbn [mbind result_bind]. rewrite loaded_tenants.
  2: { rewrite merge_sort_Permutation. apply range_table, (tenant_rows_ids r Hr). }
  change (ListSites S) with (Ok (rows, S) : result store_error _). cbn [mbind result_bind]. rewrite HX.
  change (map site_row X) with (site_row <$> X). rewrite foldM_fmap.
  apply (foldM_total_from _ (λ pre, (indexed pre, S))); [done|]. intros pre x post Hsp.
  pose proof (sites_nodup r Hr) as Hnd. rewrite <-Hperm, Hsp in Hnd.
  apply load_site_row_ok.
  - apply list.NoDup_app in Hnd as (_ & Hd & _). intros Hx. apply (Hd x Hx). left.
  - rewrite <-Hperm, Hsp. apply elem_of_app. right. left.
  - intros y Hy. rewrite <-Hperm, Hsp. apply elem_of_app. by left.
Qed.

(** *** The loaded repository is the saved one *)

Lemma indexed_identity X : X ≡ₚ sites_of r → table s_Identity X = tr_byIdentity r.
Proof using Hr.
  intros HX. apply map_eq. intros i. apply option_eq. intros x.
  rewrite lookup_table, HX, (elem_sites_of r Hr), (rp_identity _ Hwf); [naive_solver|].
  rewrite HX. apply NoDup_fmap_2_strong; [apply site_identity_inj, Hr|apply sites_nodup, Hr].
Qed.

Lemma indexed_portal X : X ≡ₚ sites_of r → table s_PortalID X = tr_byPortalID r.
Proof using Hr.
  intros HX. apply map_eq. intros i. apply option_eq. intros x.
  rewrite lookup_table, HX, (elem_sites_of r Hr), (rp_portal _ Hwf); [naive_solver|].
  rewrite HX. apply NoDup_fmap_2_strong; [apply site_portal_inj, Hr|apply sites_nodup, Hr].
Qed.

Lemma indexed_pops X p : X ≡ₚ sites_of r → map_get [] (index_pops X) p = filter (λ x, s_Attach x = p) X.
Proof using Type.
  intros _. unfold index_pops. induction X as [|x X IH] using rev_ind; [done|].
  rewrite foldl_app, list.filter_app. simpl. unfold map_get in *. destruct (decide (s_Attach x = p)) as [<-|Hne].
  - rewrite lookup_insert_eq, filter_cons_True, filter_nil by done. by rewrite IH.
  - rewrite lookup_insert_ne, filter_cons_False, filter_nil, app_nil_r by done. exact IH.
Qed.

Lemma tenant_sites X t : X ≡ₚ sites_of r → StronglySorted site_row_le (site_row <$> X) → tr_byID r !! t_ID t = Some t →
  filter (λ x, s_TenantID x = t_ID t) X = merge_sort site_ifid_le (t_Sites t).
Proof using Hr.
  intros HX Hs Ht. destruct (so_tenant _ Hr _ _ Ht) as (_ & _ & _ & _ & _ & Hnd).
  assert (filter (λ x, s_TenantID x = t_ID t) X ≡ₚ t_Sites t) as Hp.
  { apply NoDup_Permutation; [rewrite HX; apply list.NoDup_filter, (sites_nodup r Hr)|done|]. intros x.
    rewrite list_elem_of_filter, HX, (elem_sites_of r Hr). split.
    - intros [E (i & t' & Ht' & Hx)]. destruct (rp_site _ Hwf _ _ _ Ht' Hx) as [<- _]. rewrite E, Ht in Ht'. by simplify_eq.
    - intros Hx. destruct (rp_site _ Hwf _ _ _ Ht Hx) as [<- _]. eauto. }
  apply (StronglySorted_unique_strong site_ifid_le).
  - intros x y Hx%list_elem_of_filter Hy H1 H2. rewrite merge_sort_Permutation in Hy. unfold site_ifid_le in *.
    destruct Hx as [_ Hx]. rewrite HX in Hx. apply (elem_sites_of r Hr) in Hx.
    eapply (rp_ifid _ Hwf (s_Identity x) (s_Identity y)); [by apply (rp_identity _ Hwf)|apply (rp_identity _ Hwf); eauto|lia].
  - assert (∀ x, x ∈ X → i64 (s_IfID x) = s_IfID x) as Hif.
    { intros x Hx. rewrite HX in Hx. apply (elem_sites_of r Hr) in Hx as (i & t' & Ht' & Hx).
      destruct (so_site _ Hr _ _ _ Ht' Hx) as [? _]. apply i64_id. lia. }
    clear HX Hp. induction X as [|x X IH]; [constructor|]. simpl in Hs. apply StronglySorted_inv in Hs as [Hs Hall].
    rewrite filter_cons. assert (∀ y, y ∈ X → i64 (s_IfID y) = s_IfID y) as Hif' by (intros y Hy; apply Hif; by right).
    case_decide as E; [|by apply IH]. constructor; [by apply IH|].
    apply list.Forall_forall. intros y [Hy Hin]%list_elem_of_filter. rewrite list.Forall_forall in Hall.
    specialize (Hall _ (list_elem_of_fmap_2 site_row _ _ Hin)). unfold site_row_le, site_row in Hall. simpl in Hall.
    rewrite E, Hy, (Hif x), (Hif' y) in Hall; [|done|left]. unfold site_ifid_le. lia.
  - apply StronglySorted_merge_sort; apply _.
  - by rewrite Hp, merge_sort_Permutation.
Qed.
End loaded.

(** ** Any order of iteration *)

Lemma table_perm {A K} `{Countable K} (key : A → K) l k : NoDup (key <$> l) → l ≡ₚ k → table key l = table key k.
Proof. intros Hnd Hp. unfold table. apply list_to_map_proper; [by rewrite keys_table|]. by rewrite Hp. Qed.

Section orders.
Context (o1 o2 : RangeOrder) (r : JSONTenantRepository) (Hr : storable r) (s0 : Store).

Lemma values_order {K A} `{Countable K} (m : gmap K A) : (@range_map o1 _ _ _ _ m).*2 ≡ₚ (@range_map o2 _ _ _ _ m).*2.
Proof. by rewrite (@range_map_perm o1), (@range_map_perm o2). Qed.

Lemma sites_order : @sites_of o1 r ≡ₚ @sites_of o2 r.
Proof. unfold sites_of, tenants_of. by rewrite values_order. Qed.

Lemma bind_perm_ext {A B} (f g : A → list B) l k : l ≡ₚ k → (∀ x, f x ≡ₚ g x) → l ≫= f ≡ₚ k ≫= g.
Proof.
  intros -> Hfg. clear l. induction k as [|a k IH]; [done|]. by rewrite !bind_cons, Hfg, IH.
Qed.

Lemma saved_store_order : @saved_store o1 r s0 = @saved_store o2 r s0.
Proof using Hr.
  unfold saved_store, store_of. f_equal.
  - apply table_perm; [apply tenant_rows_ids, Hr|]. unfold tenants_of. by rewrite values_order.
  - apply table_perm; [apply portals_nodup, Hr|]. by rewrite sites_order.
  - apply table_perm; [apply class_rows_labels, Hr|]. unfold classes_of. by rewrite values_order.
  - apply list_to_set_perm_L. unfold classes_of. by rewrite values_order.
  - apply list_to_map_proper; [apply objs_nodup, Hr|]. apply bind_perm_ext; [apply values_order|]. intros c. unfold class_objs.
    by rewrite (@range_map_perm o1), (@range_map_perm o2).
  - apply list_to_map_proper; [apply reservations_nodup, Hr|]. apply bind_perm_ext; [apply sites_order|]. intros x. unfold site_res.
    by rewrite (@range_map_perm o1), (@range_map_perm o2).
Qed.
End orders.

(** ** The properties *)

(** The same repository, but for the order in which a tenant's and a PoP's
    sites are listed: a tenant's come in the order of their interface ids. *)
Definition same_repository (r r' : JSONTenantRepository) : Prop :=
  tr_classes r' = tr_classes r ∧ tr_byID r' = sorted_tenant <$> tr_byID r ∧ tr_byIdentity r' = tr_byIdentity r ∧
  tr_byPortalID r' = tr_byPortalID r ∧ ∀ p x, x ∈ map_get [] (tr_byPop r') p ↔ x ∈ map_get [] (tr_byPop r) p.

Lemma load_saved (o1 o2 : RangeOrder) r s : storable r →
  ∃ r', @LoadFrom o2 (@saved_store o1 r s) = Ok (r', @saved_store o1 r s) ∧ same_repository r r'.
Proof.
  intros Hr. rewrite (saved_store_order o1 o2) by done. destruct (@LoadFrom_ok o2 r Hr s) as (X & HX & Hs & ->).
  eexists. split; [done|]. pose proof (so_wf _ Hr) as Hwf. unfold same_repository, indexed. simpl. split_and!.
  - done.
  - apply map_fmap_ext. intros t tenant Ht. unfold sorted_tenant. f_equal.
    pose proof (rp_tenant _ Hwf _ _ Ht) as <-. by eapply tenant_sites.
  - by apply indexed_identity.
  - by apply indexed_portal.
  - intros p x. rewrite (indexed_pops r X p HX), list_elem_of_filter, (rp_pop _ Hwf), HX, elem_sites_of by done. done.
Qed.

(** C36: what is saved is what is loaded.  A repository whose values fit the
    columns is saved without error over whatever the database held, and loading
    it back, in any order of map iteration, gives the same classes, tenants and
    sites under the same identities, portals and PoPs; a tenant's sites come
    back in the order of their interface ids. *)
Theorem saved_is_loaded (o1 o2 : RangeOrder) r s :
  storable r → q_faults s = [] →
  ∃ s' r', @SaveTo o1 r s = Ok s' ∧ @LoadFrom o2 s' = Ok (r', s') ∧ same_repository r r' ∧
    q_control s' = q_control s ∧ q_allocations s' = q_allocations s.
Proof.
  intros Hr Hf. exists (@saved_store o1 r s). destruct (load_saved o1 o2 r s Hr) as (r' & Hl & Hsame).
  exists r'. split; [by apply SaveTo_ok|]. done.
Qed.

(** ** Starting up *)

(** From one start to the next the running control plane leaves the tenants,
    the schema and the fingerprint alone; SIDs and their cursor move on. *)
Definition tenants_kept (s s' : Store) : Prop :=
  q_tenants s' = q_tenants s ∧ q_sites s' = q_sites s ∧ q_classes s' = q_classes s ∧ q_dscp s' = q_dscp s ∧
  q_objectives s' = q_objectives s ∧ q_reservations s' = q_reservations s ∧
  cs_SchemaVersion (q_control s') = cs_SchemaVersion (q_control s) ∧
  cs_Fingerprint (q_control s') = cs_Fingerprint (q_control s).

Lemma stmt_no_faults f s : q_faults s = [] → stmt f s = f s.
Proof. intros Hf. unfold stmt. rewrite Hf. f_equal. destruct s; simpl in *; by subst. Qed.

Lemma select_no_faults {A} (f : Store → A) s : q_faults s = [] → select f s = Ok (f s, s).
Proof. intros Hf. unfold select. rewrite Hf. do 2 f_equal. destruct s; simpl in *; by subst. Qed.

(** The store after the transaction of a start from the file. *)
Lemma reset_ok `{RangeOrder} r fp s s' :
  storable r → q_faults s = [] → InTx (reset_store r fp) s = Ok s' →
  ∃ s0, s' = saved_store r s0 ∧ q_allocations s0 = [] ∧
        q_control s0 = {| cs_SchemaVersion := cs_SchemaVersion (q_control s); cs_Fingerprint := fp; cs_SidCursor := 0;
                          cs_BootedAt := cs_BootedAt (q_control s) |}.
Proof.
  intros Hr Hf. unfold InTx. rewrite stmt_no_faults by done. simpl. unfold reset_store, DeleteAllSIDAllocations.
  rewrite stmt_no_faults by done. simpl. unfold SetSIDCursor. rewrite stmt_no_faults by done. simpl. rewrite SaveTo_ok by done.
  simpl. unfold SetFingerprint. rewrite stmt_no_faults by done. destruct (text_ok fp) eqn:Ht; simpl; [|done].
  rewrite stmt_no_faults by done. intros [= <-].
  exists (with_control s {| cs_SchemaVersion := cs_SchemaVersion (q_control s); cs_Fingerprint := fp; cs_SidCursor := 0;
                            cs_BootedAt := cs_BootedAt (q_control s) |} []).
  by split_and!.
Qed.

Lemma kept_saved `{RangeOrder} r s0 s1 s2 :
  q_tenants s1 = q_tenants (saved_store r s0) → q_sites s1 = q_sites (saved_store r s0) → q_classes s1 = q_classes (saved_store r s0) →
  q_dscp s1 = q_dscp (saved_store r s0) → q_objectives s1 = q_objectives (saved_store r s0) →
  q_reservations s1 = q_reservations (saved_store r s0) → tenants_kept s1 s2 → q_faults s2 = [] → s2 = saved_store r s2.
Proof.
  intros E1 E2 E3 E4 E5 E6 (K1 & K2 & K3 & K4 & K5 & K6 & _) Hf. rewrite E1 in K1. rewrite E2 in K2. rewrite E3 in K3.
  rewrite E4 in K4. rewrite E5 in K5. rewrite E6 in K6. destruct s2. simpl in *. by subst.
Qed.


Lemma select_tables {A} (f : Store → A) s a s' : select f s = Ok (a, s') → tables_equal s s'.
Proof. unfold select. destruct (q_faults s) as [|[] fs]; intros [= <- <-]; done. Qed.

#[export] Instance tables_equal_trans : Transitive tables_equal.
Proof. unfold tables_equal. intros x y z. naive_solver congruence. Qed.

Lemma load_class_tables `{RangeOrder} acc row acc' : load_class acc row = Ok acc' → tables_equal acc.2 acc'.2.
Proof.
  destruct acc as [m s]. unfold load_class. intros ([dscp s1] & H1 & Hr)%result_bind_Ok.
  apply result_bind_Ok in Hr as ([objs s2] & H2 & [= <-]). etrans; eapply select_tables; eassumption.
Qed.

Lemma load_site_row_tables `{RangeOrder} acc row acc' : load_site_row acc row = Ok acc' → tables_equal acc.2 acc'.2.
Proof.
  destruct acc as [m s]. unfold load_site_row. destruct (tr_byID m !! si_TenantID row); [|done].
  intros ([rows s1] & H1 & [= <-])%result_bind_Ok. by eapply select_tables.
Qed.

Lemma LoadFrom_tables `{RangeOrder} s r s' : LoadFrom s = Ok (r, s') → tables_equal s s'.
Proof.
  unfold LoadFrom, loadTrafficClasses. intros ([classes s1] & Hc & Hr)%result_bind_Ok.
  apply result_bind_Ok in Hc as ([rows s0] & H0 & Hc). apply select_tables in H0.
  apply (foldM_ind load_class (λ _ acc, tables_equal s acc.2)) in Hc;
    [|exact H0|intros _ row a a' Ha _ Hs; etrans; [exact Ha|by eapply load_class_tables]].
  apply result_bind_Ok in Hr as ([trows s2] & H2 & Hr). apply select_tables in H2.
  apply result_bind_Ok in Hr as ([srows s3] & H3 & Hr). apply select_tables in H3.
  apply (foldM_ind load_site_row (λ _ acc, tables_equal s acc.2)) in Hr; [exact Hr| |].
  - simpl in *. etrans; [exact Hc|]. by etrans.
  - intros _ row a a' Ha _ Hs. etrans; [exact Ha|by eapply load_site_row_tables].
Qed.

Lemma boot_tenants_atomic `{RangeOrder} mode fp raw r s res s' :
  boot_tenants mode fp raw r s = (res, s') →
  tables_equal s s' ∨ ∃ r1, Load r raw = (r1, None) ∧ InTx (reset_store r1 fp) s = Ok s'.
Proof.
  unfold boot_tenants. destruct mode.
  2: { destruct (LoadFrom s) as [[r1 s1]|] eqn:E; intros [= <- <-]; left; [by eapply LoadFrom_tables|done]. }
  all: destruct (Load r raw) as [r1 [e|]]; [by intros [= <- <-]; left|].
  all: destruct (InTx (reset_store r1 fp) s) eqn:E; intros [= <- <-]; [right; eauto|by left].
Qed.


(** ** Witnesses *)

(** The checks of [storable] beyond well-formedness, as a program. *)
Definition int32_b (z : Z) : bool := (- 2 ^ 31 <=? z) && (z <? 2 ^ 31).
Definition storable_b (r : JSONTenantRepository) : bool :=
  bool_decide (map_Forall (λ l c, ((0 <=? l) && (l <? 2 ^ 64) && int32_b (tc_Index c) && text_ok (tc_Name c)) = true) (tr_classes r)) &&
  bool_decide (map_Forall (λ t tenant,
    (int32_b t && int32_b (t_TierIndex tenant) && int32_b (t_VRFTable tenant) && cidr_ok (t_Allocation tenant) &&
     text_ok (t_Tier tenant) && bool_decide (NoDup (s_PortalID <$> t_Sites tenant)) &&
     forallb (λ x, (0 <=? s_IfID x) && (s_IfID x <? 2 ^ 32) && site_row_ok (site_row x) &&
                   bool_decide (map_Forall (λ l _, is_Some (tr_classes r !! l)) (s_ClassMbps x))) (t_Sites tenant)) = true) (tr_byID r)).

Lemma storable_check r : repo_wf r → storable_b r = true → storable r.
Proof.
  intros Hwf [Hc Ht]%andb_prop. apply bool_decide_eq_true in Hc, Ht. unfold int32_b, in_int32 in *. split; [done| | |].
  - intros l c Hl. specialize (Hc l c Hl). simpl in Hc. unfold in_int32. split_and!; lia || by apply andb_prop in Hc as [_ ?].
  - intros t tenant Hl. specialize (Ht t tenant Hl). simpl in Ht. unfold in_int32.
    repeat (apply andb_prop in Ht as [Ht ?]). repeat match goal with H : bool_decide _ = true |- _ => apply bool_decide_eq_true in H end.
    split_and!; try lia; try done. by eapply NoDup_fmap_1.
  - intros t tenant x Hl Hx. specialize (Ht t tenant Hl). simpl in Ht. apply andb_prop in Ht as [_ Ht].
    rewrite forallb_forall in Ht. specialize (Ht x (proj1 (list_elem_of_In _ _) Hx)).
    repeat (apply andb_prop in Ht as [Ht ?]). split_and!; try lia; [done|].
    intros l [w Hw]. match goal with H : bool_decide _ = true |- _ => apply bool_decide_eq_true in H; exact (H l w Hw) end.
Qed.

Lemma demo_repo_storable : storable demo_repo.
Proof. apply storable_check; [apply demo_repo_wf|]. vm_compute. reflexivity. Qed.

(** A database with the schema and nothing in it. *)
Definition demo_store : Store :=
  {| q_tenants := ∅; q_sites := ∅; q_classes := ∅; q_dscp := ∅; q_objectives := ∅; q_reservations := ∅;
     q_control := {| cs_SchemaVersion := 1; cs_Fingerprint := ""; cs_SidCursor := 9; cs_BootedAt := 0 |};
     q_allocations := []; q_faults := [] |}.

(** C36, instantiated: saved in one order of iteration and loaded in the other. *)
Example saved_is_loaded_witness :
  ∃ s' r', @SaveTo canonical_order demo_repo demo_store = Ok s' ∧ @LoadFrom reversed_order s' = Ok (r', s') ∧
    same_repository demo_repo r' ∧ q_control s' = q_control demo_store ∧ q_allocations s' = q_allocations demo_store.
Proof. apply (saved_is_loaded canonical_order reversed_order demo_repo demo_store); [exact demo_repo_storable|reflexivity]. Defined.

Definition demo_boot : result boot_error (BootMode * JSONTenantRepository) * Store :=
  @bootStore canonical_order (Some "f1"%string) demo_db 5 NewJSONTenantRepository demo_store.

Lemma demo_boot_cold : demo_boot.1 = Ok (BootCold, demo_repo).
Proof. vm_compute. reflexivity. Qed.


(** C47, instantiated: the tenth statement of a cold start fails. *)
Definition faulty_store : Store := with_faults demo_store (replicate 9 false ++ [true]).

