(* ===== verification/Swan.v ===== *)
(** The strongSwan client (libs/swan): the security associations vici reports,
    the interface id of a child, the events and lists built from vici messages,
    and the requests that load keys and connections and initiate a tunnel. *)

From S2P Require Import Prelude Netip Topology.

(** ** Strings *)

(** [strings.CutSuffix]. *)
Definition CutSuffix (s suffix : string) : option string :=
  let n := (String.length s - String.length suffix)%nat in
  if decide (String.append (substring 0 n s) suffix = s) then Some (substring 0 n s) else None.

(** [lower(c)] of strconv, and the digit it stands for in base 16. *)
Definition hex_digit_value (c : ascii) : option Z :=
  let n := Z.of_N (N_of_ascii c) in
  let l := Z.lor n 32 in
  if (48 <=? n) && (n <=? 57) then Some (n - 48)
  else if (97 <=? l) && (l <=? 122) then (if l - 97 + 10 <? 16 then Some (l - 97 + 10) else None)
  else None.

(** The loop of [strconv.ParseUint(s, 16, 32)] on the rest of the string, with
    the value so far: a digit that is none, a value that would leave 64 bits,
    or leave 32 bits, ends it. *)
Fixpoint parse_hex32 (s : string) (n : Z) : option Z :=
  match s with
  | EmptyString => Some n
  | String c s =>
      match hex_digit_value c with
      | None => None
      | Some d =>
          if (2 ^ 64 - 1) / 16 + 1 <=? n then None
          else
            let n := u64 (n * 16) in
            let n1 := u64 (n + d) in
            if (n1 <? n) || (2 ^ 32 - 1 <? n1) then None else parse_hex32 s n1
      end
  end.

Definition ParseUint_16_32 (s : string) : option Z :=
  match s with EmptyString => None | _ => parse_hex32 s 0 end.

(** ** Security associations *)

Record ChildSA := {
  ch_Name : string; ch_UniqueID : Z; ch_ReqID : Z; ch_State : string; ch_Mode : string; ch_Protocol : string;
  ch_IfIDIn : string; ch_IfIDOut : string;
  ch_EncrAlg : string; ch_EncrKeysize : Z; ch_IntegAlg : string;
  ch_BytesIn : Z; ch_PacketsIn : Z; ch_BytesOut : Z; ch_PacketsOut : Z;
  ch_RekeyTime : Z; ch_LifeTime : Z; ch_InstallTime : Z;
  ch_LocalTS : list string; ch_RemoteTS : list string;
}.

(** The zero value, which [var childSA swan.ChildSA] starts from. *)
Definition zero_child : ChildSA :=
  {| ch_Name := ""; ch_UniqueID := 0; ch_ReqID := 0; ch_State := ""; ch_Mode := ""; ch_Protocol := "";
     ch_IfIDIn := ""; ch_IfIDOut := ""; ch_EncrAlg := ""; ch_EncrKeysize := 0; ch_IntegAlg := "";
     ch_BytesIn := 0; ch_PacketsIn := 0; ch_BytesOut := 0; ch_PacketsOut := 0;
     ch_RekeyTime := 0; ch_LifeTime := 0; ch_InstallTime := 0; ch_LocalTS := []; ch_RemoteTS := [] |}.

Inductive if_id_error := IfIDsDiffer (i o : string) | IfIDUnparsable (s : string) | IfIDZero.

Definition IfID (c : ChildSA) : result if_id_error Z :=
  if decide (ch_IfIDIn c = ch_IfIDOut c) then
    match ParseUint_16_32 (ch_IfIDIn c) with
    | None => Err (IfIDUnparsable (ch_IfIDIn c))
    | Some id => if id =? 0 then Err IfIDZero else Ok (u32 id)
    end
  else Err (IfIDsDiffer (ch_IfIDIn c) (ch_IfIDOut c)).

Record IKESA := {
  ike_UniqueID : Z; ike_Version : Z; ike_State : string;
  ike_LocalHost : string; ike_LocalPort : Z; ike_LocalID : string; ike_LocalCert : string;
  ike_RemoteHost : string; ike_RemotePort : Z; ike_RemoteID : string; ike_RemoteCert : string;
  ike_InitiatorSPI : string; ike_ResponderSPI : string;
  ike_EncrAlg : string; ike_EncrKeysize : Z; ike_IntegAlg : string; ike_PRFAlg : string; ike_DHGroup : string;
  ike_Established : Z; ike_RekeyTime : Z; ike_ReauthTime : Z;
  ike_TasksActive : list string; ike_TasksPassive : list string;
  ike_ChildSAs : gmap string ChildSA;
}.

Record UpDownEvent := { ev_Event : string; ev_Up : bool; ev_Conn : string; ev_IKE : IKESA }.

(** ** Vici messages *)

(** What [Message.Get] returns, as far as the client looks at it. *)
Inductive vici_any (M : Type) := VNil | VString (s : string) | VStrings (l : list string) | VMessage (m : M).
Arguments VNil {M}.
Arguments VString {M} s.
Arguments VStrings {M} l.
Arguments VMessage {M} m.

(** The govici library, whose messages the client reads. *)
Class Vici := {
  Message : Type;
  Message_Keys : Message → list string;
  Message_Get : Message → string → vici_any Message;
  UnmarshalIKESA : Message → option IKESA;
}.

Section messages.
Context `{Vici}.

Fixpoint conn_section (m : Message) (keys : list string) : option (string * Message) :=
  match keys with
  | [] => None
  | k :: keys => match Message_Get m k with VMessage s => Some (k, s) | _ => conn_section m keys end
  end.

Definition connSection (m : Message) : option (string * Message) := conn_section m (Message_Keys m).

Inductive event_error := NoConnectionSection (name : string) | UnmarshalFailed (conn : string).

Definition ParseUpDownEvent (name : string) (m : Message) : result event_error UpDownEvent :=
  let up := match Message_Get m "up" with VString v => bool_decide (v = "yes"%string) | _ => false end in
  match connSection m with
  | None => Err (NoConnectionSection name)
  | Some (conn, section) =>
      match UnmarshalIKESA section with
      | None => Err (UnmarshalFailed conn)
      | Some ike => Ok {| ev_Event := name; ev_Up := up; ev_Conn := conn; ev_IKE := ike |}
      end
  end.

(** The goroutine of [WatchIKEUpdownEvents]: what it hands on for the vici
    events it takes ([None]: the channel is closed). *)
Definition watch_event (e : option (string * Message)) : option UpDownEvent :=
  match e with
  | None => None
  | Some (name, m) => match ParseUpDownEvent name m with Ok ev => Some ev | Err _ => None end
  end.

Definition watch_events (es : list (option (string * Message))) : list UpDownEvent := omap watch_event es.

(** [GetSAs] on what the streaming call yields: the associations, and whether
    an error is joined. *)
Definition get_sas_step (acc : list IKESA * list string) (m : result string Message) : list IKESA * list string :=
  match m with
  | Err e => (acc.1, acc.2 ++ [e])
  | Ok m =>
      match connSection m with
      | None => acc
      | Some (_, section) => match UnmarshalIKESA section with Some sa => (acc.1 ++ [sa], acc.2) | None => acc end
      end
  end.

Definition GetSAs (stream : list (result string Message)) : list IKESA * list string :=
  foldl get_sas_step ([], []) stream.
End messages.

(** ** Requests *)

Record AuthConf := { au_Auth : string; au_Certs : list string; au_CACerts : list string; au_ID : string }.

Record ChildConf := {
  cc_Mode : string; cc_LocalTS : list string; cc_RemoteTS : list string;
  cc_IfIDIn : string; cc_IfIDOut : string; cc_StartAction : string;
}.

Record ConnConf := {
  co_Version : string; co_LocalAddrs : list string; co_RemoteAddrs : list string; co_KeyingTries : string;
  co_Local : AuthConf; co_Remote : AuthConf; co_Children : gmap string ChildConf;
  co_IfIDIn : string; co_IfIDOut : string;
}.

Notation LoadConnRequest := (gmap string ConnConf).

Record LoadKeyRequest := { lk_Type : string; lk_Data : string }.
Record InitiateRequest := { ir_Child : string; ir_IKE : string; ir_Timeout : string }.

Inductive vici_request :=
  | LoadConn (r : LoadConnRequest)
  | LoadKeyReq (r : LoadKeyRequest)
  | Initiate (r : InitiateRequest).

Definition LoadConnection_request (localAddrs remoteAddrs : list string)
    (localID remoteID childName confName certData caCertData : string) : LoadConnRequest :=
  {[ confName := {|
       co_Version := "2"; co_LocalAddrs := localAddrs; co_RemoteAddrs := remoteAddrs; co_KeyingTries := "0";
       co_Local := {| au_Auth := "pubkey"; au_Certs := [certData]; au_CACerts := []; au_ID := localID |};
       co_Remote := {| au_Auth := "pubkey"; au_Certs := []; au_CACerts := [caCertData]; au_ID := remoteID |};
       co_Children := {[ childName := {| cc_Mode := "tunnel"; cc_LocalTS := ["::/0"%string]; cc_RemoteTS := ["::/0"%string];
                                         cc_IfIDIn := ""; cc_IfIDOut := ""; cc_StartAction := "none" |} ]};
       co_IfIDIn := "%unique"; co_IfIDOut := "%unique" |} ]}.

Definition initiateTimeout : Duration := 10 * Second.
Definition initiateBackoffMin : Duration := 1 * Second.
Definition initiateBackoffMax : Duration := 30 * Second.

Definition InitiateTunnel_request (child : string) : InitiateRequest :=
  {| ir_Child := child; ir_IKE := ""; ir_Timeout := dec (initiateTimeout `quot` Millisecond) |}.

Definition next_backoff (backoff : Duration) : Duration :=
  let backoff := i64 (backoff * 2) in
  if initiateBackoffMax <? backoff then initiateBackoffMax else backoff.

(** What an attempt meets: the daemon's answer, and whether the context ends
    during the wait after a failure. *)
Record attempt := { at_ok : bool; at_done : bool }.

(** [InitiateTunnel] against the attempts to come: the waits it makes and how
    it ends ([None]: it is still trying). *)
Fixpoint initiate_loop (attempts : list attempt) (backoff : Duration) : list Duration * option bool :=
  match attempts with
  | [] => ([], None)
  | a :: attempts =>
      if at_ok a then ([], Some true)
      else if at_done a then ([], Some false)
      else let '(waits, r) := initiate_loop attempts (next_backoff backoff) in (backoff :: waits, r)
  end.

Definition InitiateTunnel (attempts : list attempt) : list Duration * option bool :=
  initiate_loop attempts initiateBackoffMin.

(** ** The interface id *)

(** The value a string of hexadecimal digits stands for. *)
Fixpoint hex_value (s : string) (n : Z) : option Z :=
  match s with
  | EmptyString => Some n
  | String c s => match hex_digit_value c with Some d => hex_value s (n * 16 + d) | None => None end
  end.

Lemma hex_digit_range c d : hex_digit_value c = Some d → 0 ≤ d < 16.
Proof.
  unfold hex_digit_value. repeat case_match; intros [= <-]; try discriminate.
  - apply andb_true_iff in H as [?%Z.leb_le ?%Z.leb_le]. lia.
  - apply andb_true_iff in H0 as [?%Z.leb_le ?%Z.leb_le]. apply Z.ltb_lt in H1. lia.
Qed.

Lemma hex_value_mono s n v : 0 ≤ n → hex_value s n = Some v → n ≤ v.
Proof.
  revert n. induction s as [|c s IH]; intros n Hn; simpl; [intros [= ->]; lia|].
  destruct (hex_digit_value c) as [d|] eqn:Hd; [|done]. apply hex_digit_range in Hd.
  intros Hv. apply IH in Hv; lia.
Qed.

(** The machine loop computes the value when it fits 32 bits and fails
    otherwise: the 64-bit guards never decide. *)
Lemma parse_hex32_spec s n v :
  0 ≤ n < 2 ^ 32 → parse_hex32 s n = Some v ↔ hex_value s n = Some v ∧ v < 2 ^ 32.
Proof.
  revert n. induction s as [|c s IH]; intros n Hn; simpl.
  { split; [intros [= <-]; split; [done|lia]|by intros [[= ->] _]]. }
  destruct (hex_digit_value c) as [d|] eqn:Hd; [|naive_solver]. pose proof (hex_digit_range _ _ Hd) as Hr.
  change ((2 ^ 64 - 1) / 16 + 1) with (2 ^ 60).
  destruct (Z.leb_spec (2 ^ 60) n); [lia|]. rewrite (u64_id (n * 16)), u64_id by lia.
  destruct (Z.ltb_spec (n * 16 + d) (n * 16)); [lia|]. simpl.
  destruct (Z.ltb_spec (2 ^ 32 - 1) (n * 16 + d)) as [Hbig|Hsmall].
  - split; [done|]. intros [Hv%hex_value_mono ?]; lia.
  - apply IH. lia.
Qed.

(** [IfID] succeeds exactly on two equal, non-empty strings of hexadecimal
    digits whose value is neither zero nor beyond 32 bits, and returns it. *)
Lemma IfID_spec c id :
  IfID c = Ok id ↔
  ch_IfIDIn c = ch_IfIDOut c ∧ ch_IfIDIn c ≠ ""%string ∧ hex_value (ch_IfIDIn c) 0 = Some id ∧ 0 < id < 2 ^ 32.
Proof.
  unfold IfID, ParseUint_16_32. case_decide as He; [|naive_solver].
  destruct (ch_IfIDIn c) as [|a s] eqn:Hs; [naive_solver|].
  pose proof (λ v, parse_hex32_spec (String a s) 0 v ltac:(lia)) as Hp.
  destruct (parse_hex32 (String a s) 0) as [v|] eqn:Hv.
  - destruct (proj1 (Hp v) eq_refl) as [Hval Hlt]. pose proof (hex_value_mono (String a s) 0 v ltac:(lia) Hval).
    rewrite Hval. destruct (Z.eqb_spec v 0) as [->|].
    + split; [done|]. intros (_ & _ & [= <-] & ?). lia.
    + rewrite u32_id by lia. split; [intros [= <-]; split_and!; try done; lia|]. by intros (_ & _ & [= <-] & _).
  - split; [done|]. intros (_ & _ & Hval & _ & Hlt). discriminate (proj2 (Hp id) (conj Hval Hlt)).
Qed.

(** The form vici prints an id in: at least eight digits, zeros first. *)
Example if_id_padded :
  ParseUint_16_32 "00000010" = Some 16 ∧ ParseUint_16_32 "FfFfFfFf" = Some (2 ^ 32 - 1) ∧
  ParseUint_16_32 "100000000" = None ∧ ParseUint_16_32 "0x10" = None.
Proof. repeat split. Qed.

(** ** Suffixes *)

Lemma substring_prefix a b : substring 0 (String.length a) (String.append a b) = a.
Proof. induction a as [|c a IH]; simpl; [by destruct b|by rewrite IH]. Qed.

Lemma length_suffix a b : (String.length (String.append a b) - String.length b)%nat = String.length a.
Proof.
  assert (String.length (String.append a b) = String.length a + String.length b)%nat as ->; [|lia].
  induction a as [|c a IH]; simpl; [done|by rewrite IH].
Qed.

Lemma CutSuffix_spec s suffix p : CutSuffix s suffix = Some p ↔ s = String.append p suffix.
Proof.
  unfold CutSuffix. case_decide as Hd; split; try done.
  - by intros [= <-].
  - intros ->. by rewrite length_suffix, substring_prefix.
  - intros ->. destruct Hd. by rewrite length_suffix, substring_prefix.
Qed.

(** ** Initiating a tunnel *)

(** The waits between attempts double from a second up to thirty seconds and
    stay there; the call ends with the first attempt that succeeds. *)
Lemma initiate_loop_waits attempts b :
  initiateBackoffMin ≤ b ≤ initiateBackoffMax →
  Forall (λ w, initiateBackoffMin ≤ w ≤ initiateBackoffMax) (initiate_loop attempts b).1.
Proof.
  revert b. induction attempts as [|a l IH]; intros b Hb; simpl; [constructor|].
  destruct (at_ok a); [constructor|]. destruct (at_done a); [constructor|].
  specialize (IH (next_backoff b)). destruct (initiate_loop l (next_backoff b)) as [ws r]. simpl.
  constructor; [done|]. apply IH. unfold next_backoff, initiateBackoffMin, initiateBackoffMax, Second, Millisecond in *.
  rewrite i64_id by lia. destruct (Z.ltb_spec (30 * (1000 * (1000 * 1000))) (b * 2)); lia.
Qed.

Lemma InitiateTunnel_succeeds fails rest :
  Forall (λ a, at_ok a = false ∧ at_done a = false) fails →
  (InitiateTunnel (fails ++ {| at_ok := true; at_done := false |} :: rest)).2 = Some true ∧
  length (InitiateTunnel (fails ++ {| at_ok := true; at_done := false |} :: rest)).1 = length fails.
Proof.
  unfold InitiateTunnel. generalize initiateBackoffMin.
  induction fails as [|a l IH]; intros b HF; simpl; [done|].
  apply list.Forall_cons in HF as [[-> ->] HF]. specialize (IH (next_backoff b) HF).
  destruct (initiate_loop _ (next_backoff b)) as [ws r]. simpl in *. naive_solver.
Qed.

Example initiate_backoff :
  InitiateTunnel (replicate 7 {| at_ok := false; at_done := false |}) =
  ((λ s, s * Second) <$> [1; 2; 4; 8; 16; 30; 30], None).
Proof. reflexivity. Qed.
