(* ===== verification/Tunnel.v ===== *)
(** Tunnels between portals and PEs: the agent (services/maeto-agent) and the
    portal (services/maeto-portal) watch strongSwan and report tunnels to the
    control plane, whose endpoints (controller_tunnels.go) answer them. *)

From S2P Require Import Prelude Float64 Netip Topology CostGraph PceGraph Cspf Bandwidth Tenants Demand Inventory Sid Registry Resource Controller Swan.

(** ** Messages (libs/controlapi) *)

Record PETunnelUpdateRequest := { pu_PortalID : string; pu_IfID : Z; pu_NodeID : string }.
Record CPETunnelUpdateRequest := { cu_PortalID : string; cu_IfID : Z }.
Record PortalAuthEndpointResponse := {
  pa_LocalSwanIdentity : string; pa_RemoteSwanIdentity : string; pa_AttachNode : string; pa_Prefix : string;
  pa_AttachNodeAddr : string;
}.

(** ** The world an update meets *)

(** [tn_request] and [tn_reply]: whether the request reaches the control plane
    and its reply the caller in time.  The rest is what the control plane's
    database and bucket do, and its clock. *)
Record tunnel_env := {
  tn_request : bool;
  tn_reply : bool;
  tn_db_fails : string → bool;
  tn_upsert_ok : string → bool;
  tn_publish_ok : string → bool;
  tn_now : Time;
}.

Section tunnels.
Context `{RangeOrder} (g : Graph) (inv : JSONNodeInventory) (repo : JSONTenantRepository).

Definition published := list (string * NodeIntent).

(** ** The endpoints of the control plane *)

(** [NodeID] of the request is not read. *)
Definition setupPETunnelUpdate (env : tunnel_env) (r : ServiceRegistry) (req : PETunnelUpdateRequest)
    : ServiceRegistry * published * option bool :=
  let '(r, pub, err) := handlePETunnelUpdate (tn_db_fails env) g (tn_upsert_ok env) (tn_publish_ok env) inv repo r
                          (pu_PortalID req) (pu_IfID req) (tn_now env) in
  (r, pub, Some (match err with None => true | Some _ => false end)).

(** A nil access side ends the process: there is no reply. *)
Definition setupCPETunnelUpdate (env : tunnel_env) (r : ServiceRegistry) (req : CPETunnelUpdateRequest)
    : ServiceRegistry * published * option bool :=
  let key := Key PrefixCPE (cu_PortalID req) LaneIntent in
  let '(r, pub, err) := handleCPETunnelUpdate (tn_upsert_ok env key) (tn_publish_ok env key) inv repo r
                          (cu_PortalID req) (cu_IfID req) (tn_now env) in
  (r, pub, match err with None => Some true | Some NilAccess => None | Some _ => Some false end).

Definition portalAuthResponse (portalID : string) : option PortalAuthEndpointResponse :=
  site ← SiteByPortalID repo portalID;
  attachNode ← InvNode inv (s_Attach site);
  access ← in_Access attachNode;
  Some {| pa_LocalSwanIdentity := s_Identity site;
          pa_RemoteSwanIdentity := cat [in_Name attachNode; ".maeto.net"];
          pa_AttachNode := s_AttachNode site;
          pa_Prefix := prefix_string (s_Prefix site);
          pa_AttachNodeAddr := addr_string (pfx_addr (na_Address access)) |}.

(** The reply, and the registry after it; nothing is registered when the reply
    cannot be sent. *)
Definition setupPortalAuthEndpoint (respond_ok : bool) (r : ServiceRegistry) (portalID : string) (now : Time)
    : ServiceRegistry * option PortalAuthEndpointResponse :=
  match portalAuthResponse portalID with
  | None => (r, None)
  | Some resp => if respond_ok then (portalAuth inv repo r portalID now, Some resp) else (r, None)
  end.

(** A request over NATS: not delivered, delivered with its reply lost, or
    answered. *)
Definition request {Req} (env : tunnel_env)
    (endpoint : ServiceRegistry → Req → ServiceRegistry * published * option bool) (r : ServiceRegistry) (req : Req)
    : ServiceRegistry * published * option bool :=
  if tn_request env then
    let '(r, pub, reply) := endpoint r req in (r, pub, if tn_reply env then reply else None)
  else (r, [], None).

(** ** The agent *)

Inductive agent_error :=
  | InvalidState (ike child : string)
  | InvalidIfID (e : if_id_error)
  | BadRemoteID (id : string)
  | RequestFailed.

(** [range] over the child SAs leaves the last one visited. *)
Definition last_child (ike : IKESA) : ChildSA := default zero_child (list.last (range_map (ike_ChildSAs ike)).*2).

Definition portal_suffix : string := ".cpe.maeto.net".

(** What the agent asks for, given an IKE SA. *)
Definition PETunnelUpdate_of (nodeID : string) (ike : IKESA) : result agent_error PETunnelUpdateRequest :=
  let childSA := last_child ike in
  if decide (ike_State ike ≠ "ESTABLISHED"%string ∨ ch_State childSA ≠ "INSTALLED"%string)
  then Err (InvalidState (ike_State ike) (ch_State childSA)) else
  match IfID childSA with
  | Err e => Err (InvalidIfID e)
  | Ok ifID =>
      match CutSuffix (ike_RemoteID ike) portal_suffix with
      | None => Err (BadRemoteID (ike_RemoteID ike))
      | Some portalID =>
          if decide (portalID = ""%string) then Err (BadRemoteID (ike_RemoteID ike))
          else if negb (str_free "." portalID) then Err (BadRemoteID (ike_RemoteID ike))
          else Ok {| pu_PortalID := portalID; pu_IfID := ifID; pu_NodeID := nodeID |}
      end
  end.

(** A refused update ([Ok] false) returns the nil [err] of the request. *)
Definition sendPETunnelUpdate (nodeID : string) (env : tunnel_env) (r : ServiceRegistry) (ike : IKESA)
    : ServiceRegistry * published * option agent_error :=
  match PETunnelUpdate_of nodeID ike with
  | Err e => (r, [], Some e)
  | Ok req =>
      let '(r, pub, reply) := request env (setupPETunnelUpdate env) r req in
      (r, pub, match reply with None => Some RequestFailed | Some _ => None end)
  end.

(** One event of [watchTunnelUpdates]. *)
Definition agent_event (nodeID : string) (env : tunnel_env) (r : ServiceRegistry) (e : UpDownEvent)
    : ServiceRegistry * published :=
  if decide (ev_Event e = "child-updown"%string) then
    if decide (size (ike_ChildSAs (ev_IKE e)) = 1%nat)
    then (sendPETunnelUpdate nodeID env r (ev_IKE e)).1
    else (r, [])
  else (r, []).

(** The resync callback over the SAs the daemon lists; every update meets its
    own world. *)
Fixpoint agent_resync (nodeID : string) (r : ServiceRegistry) (sas : list (tunnel_env * IKESA))
    : ServiceRegistry * published :=
  match sas with
  | [] => (r, [])
  | (env, sa) :: sas =>
      let '(r, pub, _) := sendPETunnelUpdate nodeID env r sa in
      let '(r, pub') := agent_resync nodeID r sas in (r, pub ++ pub')
  end.

(** ** The portal *)

Definition sendCPETunnelUpdate (portalID : string) (env : tunnel_env) (r : ServiceRegistry) (ifID : Z)
    : ServiceRegistry * published * option agent_error :=
  let '(r, pub, reply) := request env (setupCPETunnelUpdate env) r {| cu_PortalID := portalID; cu_IfID := ifID |} in
  (r, pub, match reply with None => Some RequestFailed | Some _ => None end).

(** The event loop of [Run]: a state other than established and installed is
    logged, and the update sent all the same. *)
Definition portal_event (portalID : string) (env : tunnel_env) (r : ServiceRegistry) (e : UpDownEvent)
    : ServiceRegistry * published :=
  if decide (size (ike_ChildSAs (ev_IKE e)) = 1%nat) then
    match IfID (last_child (ev_IKE e)) with
    | Err _ => (r, [])
    | Ok ifID => (sendCPETunnelUpdate portalID env r ifID).1
    end
  else (r, []).

(** The id the resync callback takes from the children of an IKE SA; 0 is none. *)
Definition resync_child (ike : IKESA) (ifID : Z) (c : ChildSA) : Z :=
  if decide (ike_State ike ≠ "ESTABLISHED"%string ∨ ch_State c ≠ "INSTALLED"%string) then ifID
  else match IfID c with Err _ => ifID | Ok id => id end.

Definition resync_if_id (ike : IKESA) : Z := foldl (resync_child ike) 0 (range_map (ike_ChildSAs ike)).*2.

Fixpoint portal_resync (portalID : string) (r : ServiceRegistry) (sas : list (tunnel_env * IKESA))
    : ServiceRegistry * published :=
  match sas with
  | [] => (r, [])
  | (env, sa) :: sas =>
      if resync_if_id sa =? 0 then portal_resync portalID r sas
      else
        let '(r, pub, _) := sendCPETunnelUpdate portalID env r (resync_if_id sa) in
        let '(r, pub') := portal_resync portalID r sas in (r, pub ++ pub')
  end.

(** ** The resync request of the control plane *)

(** The loop takes replies until it has [expected] or the wait ends; [arrivals]
    is how many arrive before that. *)
Fixpoint resync_replies (expected : nat) (arrivals : nat) (replies : Z) : Z :=
  match expected, arrivals with
  | S expected, S arrivals => resync_replies expected arrivals (replies + 1)
  | _, _ => replies
  end.

Inductive resync_error := SubscribeFailed | PublishPEFailed | PublishCPEFailed.

Definition sendTunnelResyncRequest (subscribe_ok publish_pe_ok publish_cpe_ok : bool) (arrivals : nat)
    : result resync_error Z :=
  if negb subscribe_ok then Err SubscribeFailed
  else if negb publish_pe_ok then Err PublishPEFailed
  else if negb publish_cpe_ok then Err PublishCPEFailed
  else Ok (resync_replies (Z.to_nat (expectedResyncReplies inv repo)) arrivals 0).
End tunnels.

(** ** Waiting for the control plane *)

Definition setupHealthEndpoint (ready : bool) : string := if ready then "true" else "false".

(** One attempt: whether the context has ended, what the request brings (no
    answer, or one with or without a readable [ready]), and whether the context
    ends during the pause. *)
Record ready_attempt := { ra_done : bool; ra_answer : option (option string); ra_done_in_pause : bool }.

Fixpoint ready_loop (attempts : list ready_attempt) : option bool :=
  match attempts with
  | [] => None
  | a :: attempts =>
      if ra_done a then Some false
      else if decide (ra_answer a = Some (Some "true"%string)) then Some true
      else if ra_done_in_pause a then Some false
      else ready_loop attempts
  end.

Definition agent_waitForReady (attempts : list ready_attempt) : option bool := ready_loop attempts.
Definition portal_waitForReady (attempts : list ready_attempt) : option bool := ready_loop attempts.

(** ** Setting strongSwan up *)

(** The agent's view of its own node (node_info.go). *)
Record AgentNodeAccess := { aa_Interface : string; aa_Address : string; aa_Aggregate : string; aa_Nexthop : string }.

Record AgentNode := {
  an_ID : string; an_Name : string; an_Index : Z; an_ISISNet : string; an_Locator : string; an_Loopback : string;
  an_Interfaces : list NodeInterface; an_Access : option AgentNodeAccess; an_Data : gmap string string;
}.

(** [LoadNode] on what the file decodes to, if it does. *)
Definition LoadNode (file : option (option AgentNode)) : option AgentNode :=
  match file with
  | Some (Some node) => if decide (an_ID node = ""%string ∨ an_Name node = ""%string) then None else Some node
  | _ => None
  end.

Definition CoreInterfaces (n : AgentNode) : list NodeInterface :=
  filter (λ i, nif_Role i = "core"%string) (an_Interfaces n).

Definition LocalSwanID (n : AgentNode) : string := cat ["Pop"; an_ID n; ".maeto.net"].
Definition IntentKey (n : AgentNode) : string := cat ["pop."; an_ID n].
Definition ReportSubject (n : AgentNode) : string := cat ["maeto.agent.pop"; an_ID n; ".report"].

Definition private_key_file : string := "/etc/swanctl/private/key.pem".
Definition cert_file : string := "/etc/swanctl/x509/cert.pem".
Definition ca_cert_file : string := "/etc/swanctl/x509ca/ca-cert.pem".

(** The files on disk and the daemon's answers to requests. *)
Section setup.
Context (readFile : string → option string) (call_ok : vici_request → bool).

(** Whether a step succeeded, and the requests made to the daemon. *)
Definition setup := (bool * list vici_request)%type.

Definition call (r : vici_request) : setup := (call_ok r, [r]).

Definition loadCredentials : setup :=
  match readFile private_key_file with
  | None => (false, [])
  | Some key => call (LoadKeyReq {| lk_Type := "any"; lk_Data := key |})
  end.

Definition load_connection (localAddrs remoteAddrs : list string) (localID remoteID childName confName : string) : setup :=
  match readFile cert_file, readFile ca_cert_file with
  | Some cert, Some ca =>
      call (LoadConn (LoadConnection_request localAddrs remoteAddrs localID remoteID childName confName cert ca))
  | _, _ => (false, [])
  end.

Definition agent_loadConnection (node : AgentNode) (access : AgentNodeAccess) : setup :=
  load_connection [aa_Address access] ["%any"%string] (LocalSwanID node) "*.cpe.maeto.net" "cpe" "cpe".

Definition portal_loadConnection (remoteAddr localID remoteID : string) : setup :=
  load_connection ["%any"%string] [remoteAddr] localID remoteID "pop" "pop".

(** The end of the agent's [Run]. *)
Definition agent_setup (node : AgentNode) : setup :=
  match an_Access node with
  | None => (true, [])
  | Some access =>
      let '(ok1, reqs1) := loadCredentials in
      if negb ok1 then (false, reqs1) else
      let '(ok2, reqs2) := agent_loadConnection node access in (ok2, reqs1 ++ reqs2)
  end.

(** The middle of the portal's [Run], from the answer to its authentication
    request to the initiation of the tunnel. *)
Definition portal_setup (auth : option PortalAuthEndpointResponse) (attempts : list attempt) : setup :=
  match auth with
  | None => (false, [])
  | Some resp =>
      let '(ok1, reqs1) := loadCredentials in
      if negb ok1 then (false, reqs1) else
      let '(ok2, reqs2) := portal_loadConnection (pa_AttachNodeAddr resp) (pa_LocalSwanIdentity resp)
                             (pa_RemoteSwanIdentity resp) in
      if negb ok2 then (false, reqs1 ++ reqs2) else
      let '(waits, r) := InitiateTunnel attempts in
      (bool_decide (r = Some true),
       reqs1 ++ reqs2 ++ replicate (length waits + match r with Some _ => 1 | None => 0 end)
                           (Initiate (InitiateTunnel_request "pop")))
  end.
End setup.
