(* ===== verification/TunnelCorrect.v ===== *)
(** Tunnels, from a security association to the intents of the nodes: every
    portal a PE is told about is backed by an established tunnel of that portal,
    and a tunnel that comes up reaches the intent of the site's PE. *)

From S2P Require Import Prelude Float64 Netip Topology CostGraph PceGraph Demo Cspf Bandwidth Tenants Demand Inventory Sid Registry Resource Controller RenderCorrect Swan Tunnel.

(** ** Portals of an intent *)

Definition portals_of (i : Intent) (tenant portal : string) : option PE_PortalIntent :=
  match i with
  | IntentPE pe => pei_Tenants pe !! tenant ≫= λ t, ti_PortalIntents t !! portal
  | IntentCPE _ => None
  end.

Definition portal_at (r : ServiceRegistry) (node tenant portal : string) : option PE_PortalIntent :=
  sr_registry r !! node ≫= λ e, portals_of (ni_Intent e) tenant portal.

(** A mutation leaves the portals as they were, but for the one it stages. *)
Definition stages (m : mutation) (tenant portal : string) (po : PE_PortalIntent) : Prop :=
  ∃ locator, m = StagePortal tenant portal po locator.

Definition portal_step (staged : PE_PortalIntent → Prop) (before after : option PE_PortalIntent) : Prop :=
  after = before ∨ ∃ po, staged po ∧ after = Some po.

Lemma portals_of_set_tenant pe tenant t tenant' portal :
  portals_of (IntentPE (set_tenant pe tenant t)) tenant' portal =
  if decide (tenant' = tenant) then ti_PortalIntents t !! portal else portals_of (IntentPE pe) tenant' portal.
Proof.
  simpl. case_decide as Hd; [subst; by rewrite lookup_insert_eq|by rewrite lookup_insert_ne].
Qed.

(** [getOrCreateTenantIntentForPE] adds at most a tenant without portals. *)
Lemma getOrCreateTenant_portals db_fails sids tenant locator pe sids' pe' t :
  getOrCreateTenantIntentForPE db_fails sids tenant locator pe = (sids', Ok (pe', t)) →
  pei_Tenants pe' !! tenant = Some t ∧
  ∀ tenant' portal, portals_of (IntentPE pe') tenant' portal = portals_of (IntentPE pe) tenant' portal.
Proof.
  unfold getOrCreateTenantIntentForPE. destruct (pei_Tenants pe !! tenant) as [t0|] eqn:Ht; [by intros [= _ <- <-]|].
  destruct (getOrGenerateSID _ _ _ _ sids) as [s [sid|e]]; [|done]. intros [= _ <- <-].
  split; [simpl; by rewrite lookup_insert_eq|]. intros tenant' portal. rewrite portals_of_set_tenant.
  case_decide as Hd; [|done]. subst. simpl. by rewrite Ht, lookup_empty.
Qed.

Lemma mutate_pe_portals db_fails node sids pe m sids' pe' e :
  mutate_pe db_fails node sids pe m = (sids', pe', e) →
  (∀ tenant portal, portal_step (stages m tenant portal) (portals_of (IntentPE pe) tenant portal)
                      (portals_of (IntentPE pe') tenant portal)) ∧
  (∀ tenant portal po, e = None → stages m tenant portal po → portals_of (IntentPE pe') tenant portal = Some po).
Proof.
  destruct m as [tenant locator paths|tenant portal po locator|peers|mapping]; cbn [mutate_pe];
    [| |intros [= <- <- <-]; split; [by left|by intros ? ? ? ? [? ?]]..].
  - destruct (getOrCreateTenantIntentForPE _ sids tenant locator pe) as [s [[pe1 t]|err]] eqn:Hg;
      intros [= <- <- <-]; (split; [|by intros ? ? ? ? [? ?]]); [|by left].
    destruct (getOrCreateTenant_portals _ _ _ _ _ _ _ _ Hg) as [Ht Hp].
    intros tenant' portal. left. rewrite <-Hp, portals_of_set_tenant. case_decide; [subst|done].
    simpl. by rewrite Ht.
  - destruct (getOrCreateTenantIntentForPE _ sids tenant locator pe) as [s [[pe1 t]|err]] eqn:Hg;
      intros [= <- <- <-]; [|by split; [left|]].
    destruct (getOrCreateTenant_portals _ _ _ _ _ _ _ _ Hg) as [Ht Hp]. split.
    + intros tenant' portal'. unfold portal_step. rewrite <-Hp, portals_of_set_tenant. case_decide; [subst|by left].
      simpl. rewrite Ht. simpl. destruct (decide (portal' = portal)) as [->|Hne].
      * rewrite lookup_insert_eq. right. exists po. split; [by exists locator|done].
      * rewrite lookup_insert_ne by done. by left.
    + intros tenant' portal' po' _ [l [= -> -> -> ->]]. rewrite portals_of_set_tenant, decide_True by done.
      simpl. by rewrite lookup_insert_eq.
Qed.

Lemma mutate_steps_portals db_fails node ms sids i errs :
  let '(_, i', _) := foldl (mutate_step db_fails node) (sids, i, errs) ms in
  ∀ tenant portal, portal_step (λ po, ∃ m, m ∈ ms ∧ stages (pm_Mutate m) tenant portal po)
                     (portals_of i tenant portal) (portals_of i' tenant portal).
Proof.
  revert sids i errs. induction ms as [|m ms IH]; intros sids i errs; [by left|]. cbn [foldl].
  destruct (mutate_step db_fails node (sids, i, errs) m) as [[sids1 i1] errs1] eqn:Hm.
  specialize (IH sids1 i1 errs1). destruct (foldl _ _ ms) as [[sids2 i2] errs2]. intros tenant portal.
  assert (portal_step (stages (pm_Mutate m) tenant portal) (portals_of i tenant portal) (portals_of i1 tenant portal)) as H1.
  { unfold mutate_step in Hm. destruct i as [pe|c]; [|injection Hm as _ <- _; by left].
    destruct (mutate_pe db_fails node sids pe (pm_Mutate m)) as [[s pe'] e] eqn:Hp.
    injection Hm as _ <- _. by apply (mutate_pe_portals _ _ _ _ _ _ _ _ Hp). }
  destruct (IH tenant portal) as [->|(po & (m' & ? & ?) & ->)].
  - destruct H1 as [->|(po & ? & ->)]; [by left|]. right. exists po. split; [|done]. exists m. split; [left|done].
  - right. exists po. split; [|done]. exists m'. split; [by right|done].
Qed.

(** ** Portals of the registry *)

Section commit.
Context `{RangeOrder} (db_fails : string → bool).

Lemma portal_at_insert reg sids node e n tenant portal :
  portal_at {| sr_registry := <[node := e]> reg; sr_sids := sids |} n tenant portal =
  if decide (n = node) then portals_of (ni_Intent e) tenant portal
  else reg !! n ≫= λ e, portals_of (ni_Intent e) tenant portal.
Proof.
  unfold portal_at. simpl. case_decide; [subst; by rewrite lookup_insert_eq|by rewrite lookup_insert_ne].
Qed.

(** An entry made anew holds no portal. *)
Lemma tx_entry_portals r node ms now e tenant portal :
  tx_entry (sr_registry r) node ms now = Some e → portals_of (ni_Intent e) tenant portal = portal_at r node tenant portal.
Proof.
  unfold tx_entry, portal_at, getOrCreateRegistryEntryForPE, getOrCreateRegistryEntryForCPE.
  destruct (sr_registry r !! node) as [e0|]; [by intros [= ->]|]. destruct ms as [|m ms]; [done|].
  destruct (pm_NodeType m); [..|done]; intros [= <-]; simpl; [done|by rewrite lookup_empty].
Qed.

Lemma commit_node_portals now st node ms n tenant portal :
  portal_step (λ po, n = node ∧ ∃ m, m ∈ ms ∧ stages (pm_Mutate m) tenant portal po)
    (portal_at (cs_reg st) n tenant portal)
    (portal_at (cs_reg (commit_node db_fails now st (node, ms))) n tenant portal).
Proof.
  unfold commit_node. destruct (tx_entry _ node ms now) as [e|] eqn:He; [|by left].
  pose proof (mutate_steps_portals db_fails node ms (sr_sids (cs_reg st)) (ni_Intent e) (cs_errors st)) as Hs.
  destruct (foldl _ _ ms) as [[sids i] errs].
  assert (portal_step (λ po, n = node ∧ ∃ m, m ∈ ms ∧ stages (pm_Mutate m) tenant portal po)
    (portal_at (cs_reg st) n tenant portal)
    (portal_at {| sr_registry := <[node := bump e i now]> (sr_registry (cs_reg st)); sr_sids := sids |} n tenant portal)) as Hgoal;
    [|by destruct (publish_key _ node)].
  rewrite portal_at_insert. case_decide as Hn; [subst|by left]. cbn [ni_Intent bump].
  destruct (Hs tenant portal) as [->|(po & ? & ->)]; [left; by eapply tx_entry_portals|right; eauto].
Qed.

Lemma Commit_portals upsert_ok publish_ok r tx now n tenant portal :
  portal_step (λ po, ∃ ms m, tx !! n = Some ms ∧ m ∈ ms ∧ stages (pm_Mutate m) tenant portal po)
    (portal_at r n tenant portal) (portal_at (Commit db_fails upsert_ok publish_ok r tx now).1.1 n tenant portal).
Proof.
  unfold Commit. set (st := foldl (commit_node db_fails now) _ (range_map tx)).
  enough (portal_step (λ po, ∃ ms m, tx !! n = Some ms ∧ m ∈ ms ∧ stages (pm_Mutate m) tenant portal po)
    (portal_at r n tenant portal) (portal_at (cs_reg st) n tenant portal)) by (by destruct (foldl (publish_step _ _) _ _)).
  apply (foldl_ind (commit_node db_fails now) (λ _ st, portal_step
    (λ po, ∃ ms m, tx !! n = Some ms ∧ m ∈ ms ∧ stages (pm_Mutate m) tenant portal po)
    (portal_at r n tenant portal) (portal_at (cs_reg st) n tenant portal))); [by left|].
  intros _ [node ms] st' IH Hin%elem_of_range_map.
  destruct (commit_node_portals now st' node ms n tenant portal) as [Heq|(po & (-> & m & ? & ?) & Heq)].
  - unfold portal_step in *. by rewrite Heq.
  - right. exists po. split; [|done]. eauto.
Qed.
End commit.

(** ** The transactions that stage no portal *)

Definition tx_all (P : mutation → Prop) (tx : RegistryTx) : Prop :=
  ∀ id ms m, tx !! id = Some ms → m ∈ ms → P (pm_Mutate m).

Lemma tx_all_BeginTx P : tx_all P BeginTx.
Proof. intros id ms m. unfold BeginTx. by rewrite lookup_empty. Qed.

Lemma tx_all_MutatePE P tx id m : P m → tx_all P tx → tx_all P (MutatePE tx id m).
Proof.
  intros Hm Htx i ms m'. unfold MutatePE. rewrite lookup_insert_Some. intros [[<- <-]|[_ Hms]]; [|by apply (Htx i)].
  intros [Hin| ->%list_elem_of_singleton]%elem_of_app; [|done]. unfold map_get in Hin.
  destruct (tx !! id) as [l|] eqn:He; [by eapply Htx|by apply not_elem_of_nil in Hin].
Qed.
#[export] Hint Resolve tx_all_BeginTx tx_all_MutatePE : maeto.

Definition no_portal (m : mutation) : Prop := match m with StagePortal _ _ _ _ => False | _ => True end.

Section runs.
Context `{RangeOrder} (g : Graph) (inv : JSONNodeInventory) (repo : JSONTenantRepository).

Lemma stage_paths_no_portal db_fails paths sids : tx_all no_portal (stage_paths db_fails g inv repo paths sids).2.
Proof.
  unfold stage_paths. apply (foldl_ind (stage_node db_fails g) (λ _ acc, tx_all no_portal acc.2)); [apply tx_all_BeginTx|].
  intros _ [node m] acc Hacc _. unfold stage_node. cbn [fst snd]. destruct (g_nodes g !! node) as [nd|]; [|done].
  apply (foldl_ind (stage_tenant db_fails g node (Node_Locator nd)) (λ _ acc, tx_all no_portal acc.2)); [done|].
  intros _ [t rs] acc' Hacc' _. unfold stage_tenant. cbn [fst snd].
  destruct (foldl (route_step db_fails g t) (acc'.1, []) rs) as [sids' intents]. by apply tx_all_MutatePE.
Qed.

Lemma static_no_portal : tx_all no_portal (stageTrafficClassMapping g repo (stagePeerIntents g BeginTx)).
Proof.
  unfold stageTrafficClassMapping. apply (foldl_ind _ (λ _ tx, tx_all no_portal tx)); [|intros; by apply tx_all_MutatePE].
  unfold stagePeerIntents. apply (foldl_ind _ (λ _ tx, tx_all no_portal tx)); [apply tx_all_BeginTx|intros; by apply tx_all_MutatePE].
Qed.

Lemma Commit_no_portal db_fails upsert_ok publish_ok r tx now n tenant portal :
  tx_all no_portal tx →
  portal_at (Commit db_fails upsert_ok publish_ok r tx now).1.1 n tenant portal = portal_at r n tenant portal.
Proof.
  intros Htx. destruct (Commit_portals db_fails upsert_ok publish_ok r tx now n tenant portal)
    as [->|(po & (ms & m & Hms & Hm & l & Hl) & _)]; [done|].
  specialize (Htx _ _ _ Hms Hm). by rewrite Hl in Htx.
Qed.

(** ** What happens to the registry *)

(** The endpoints answer agents and portals, the dispatcher hands out paths,
    and the start stages the static intents. *)
Inductive tunnel_op :=
  | AgentEvent (nodeID : string) (env : tunnel_env) (e : UpDownEvent)
  | AgentResync (nodeID : string) (sas : list (tunnel_env * IKESA))
  | PortalEvent (portalID : string) (env : tunnel_env) (e : UpDownEvent)
  | PortalResync (portalID : string) (sas : list (tunnel_env * IKESA))
  | PortalAuth (respond_ok : bool) (portalID : string) (now : Time)
  | DispatchPaths (env : tunnel_env) (paths : PathSet)
  | StageStatic (env : tunnel_env).

Definition run_tunnel_op (r : ServiceRegistry) (op : tunnel_op) : ServiceRegistry :=
  match op with
  | AgentEvent nodeID env e => (agent_event g inv repo nodeID env r e).1
  | AgentResync nodeID sas => (agent_resync g inv repo nodeID r sas).1
  | PortalEvent portalID env e => (portal_event inv repo portalID env r e).1
  | PortalResync portalID sas => (portal_resync inv repo portalID r sas).1
  | PortalAuth respond_ok portalID now => (setupPortalAuthEndpoint inv repo respond_ok r portalID now).1
  | DispatchPaths env paths =>
      (dispatch (tn_db_fails env) g (tn_upsert_ok env) (tn_publish_ok env) inv repo r paths (tn_now env)).1.1
  | StageStatic env =>
      (Commit (tn_db_fails env) (tn_upsert_ok env) (tn_publish_ok env) r
         (stageTrafficClassMapping g repo (stagePeerIntents g BeginTx)) (tn_now env)).1.1
  end.

(** The IKE SAs that strongSwan on the PEs reported in an operation. *)
Definition reported (op : tunnel_op) : list IKESA :=
  match op with
  | AgentEvent _ _ e => [ev_IKE e]
  | AgentResync _ sas => sas.*2
  | _ => []
  end.

(** A portal intent is that of the portal's site, and its interface id is that
    of a child SA installed under an established IKE SA of that portal. *)
Record backed (ikes : list IKESA) (node tenant portal : string) (po : PE_PortalIntent) : Prop := {
  bk_tunnel : ∃ ike key c, ike ∈ ikes ∧ ike_State ike = "ESTABLISHED"%string ∧
    ike_RemoteID ike = String.append portal portal_suffix ∧
    ike_ChildSAs ike !! key = Some c ∧ ch_State c = "INSTALLED"%string ∧ IfID c = Ok (po_TunnelInterfaceID po);
  bk_site : ∃ site t, SiteByPortalID repo portal = Some site ∧ Tenant_ repo (s_TenantID site) = Some t ∧
    node = s_Attach site ∧ tenant = dec (s_TenantID site) ∧
    po_SitePrefix po = s_Prefix site ∧ po_TenantPrefix po = t_Allocation t;
}.

Lemma backed_mono ikes ikes' node tenant portal po :
  ikes ⊆ ikes' → backed ikes node tenant portal po → backed ikes' node tenant portal po.
Proof. intros Hs [(ike & key & c & ? & ?) ?]. split; [|done]. exists ike, key, c. split; [by apply Hs|done]. Qed.

Lemma last_child_in ike :
  ch_State (last_child ike) = "INSTALLED"%string → ∃ key, ike_ChildSAs ike !! key = Some (last_child ike).
Proof.
  unfold last_child. destruct (list.last (range_map (ike_ChildSAs ike)).*2) as [c|] eqn:Hl; [|done]. intros _.
  apply last_Some_elem_of, list_elem_of_fmap in Hl as ([key c'] & -> & Hin%elem_of_range_map). by exists key.
Qed.

Lemma PETunnelUpdate_of_spec nodeID ike req :
  PETunnelUpdate_of nodeID ike = Ok req ↔
  ike_State ike = "ESTABLISHED"%string ∧ ch_State (last_child ike) = "INSTALLED"%string ∧
  IfID (last_child ike) = Ok (pu_IfID req) ∧ ike_RemoteID ike = String.append (pu_PortalID req) portal_suffix ∧
  pu_PortalID req ≠ ""%string ∧ str_free "." (pu_PortalID req) = true ∧ pu_NodeID req = nodeID.
Proof.
  unfold PETunnelUpdate_of. case_decide as Hst; [naive_solver|].
  destruct (decide (ike_State ike = "ESTABLISHED"%string)), (decide (ch_State (last_child ike) = "INSTALLED"%string)); [|tauto..].
  destruct (IfID (last_child ike)) as [id|err]; [|naive_solver].
  destruct (CutSuffix (ike_RemoteID ike) portal_suffix) as [p|] eqn:Hc.
  - apply CutSuffix_spec in Hc. rewrite Hc.
    assert (∀ q, String.append p portal_suffix = String.append q portal_suffix → p = q) as Hinj by (intros q; apply append_inj_l).
    case_decide as Hp; [naive_solver|]. destruct (str_free "." p) eqn:Hf; simpl.
    + split; [by intros [= <-]|]. destruct req. simpl. intros (_ & _ & [= <-] & ->%Hinj & _ & _ & ->). done.
    + split; [done|]. intros (_ & _ & _ & Hq%Hinj & _ & Hff & _). congruence.
  - split; [done|]. intros (_ & _ & _ & Hr & _). apply CutSuffix_spec in Hr. congruence.
Qed.

Context (Hrepo : repo_wf repo) (Hinv : inventory_wf inv).

(** What an update on a PE changes: at most the portal's own entry, at its
    site's node and tenant. *)
Lemma handlePE_portals db_fails upsert_ok publish_ok r portalID ifID now n tenant portal po :
  portal_at (handlePETunnelUpdate db_fails g upsert_ok publish_ok inv repo r portalID ifID now).1.1 n tenant portal = Some po →
  portal_at r n tenant portal = Some po ∨
  (portal = portalID ∧ po_TunnelInterfaceID po = ifID ∧
   ∃ site t, SiteByPortalID repo portal = Some site ∧ Tenant_ repo (s_TenantID site) = Some t ∧
     n = s_Attach site ∧ tenant = dec (s_TenantID site) ∧
     po_SitePrefix po = s_Prefix site ∧ po_TenantPrefix po = t_Allocation t).
Proof.
  unfold handlePETunnelUpdate. destruct (SiteByPortalID repo portalID) as [site|] eqn:Hsite; [|by left].
  destruct (Tenant_ repo (s_TenantID site)) as [t|] eqn:Ht; [|by left].
  destruct (InvNode inv (s_Attach site)) as [node|] eqn:Hnode; [|by left].
  destruct (g_nodes g !! s_Attach site) as [tn|]; [|by left].
  set (po' := {| po_HostFacingInterface := _ |}). set (tx := MutatePE _ _ _).
  pose proof (Commit_portals db_fails upsert_ok publish_ok r tx now n tenant portal) as Hc.
  destruct (Commit db_fails upsert_ok publish_ok r tx now) as [[r' pub] errs]. cbn [fst] in *.
  intros Hpo. destruct Hc as [Heq|(po1 & (ms & m & Hms & Hm & l & Hl) & Heq)]; [left; congruence|right].
  assert (po1 = po) as -> by congruence. unfold tx, MutatePE, BeginTx in Hms.
  apply lookup_insert_Some in Hms as [[<- <-]|[_ Hms]]; [|by rewrite lookup_empty in Hms].
  unfold map_get in Hm. rewrite lookup_empty in Hm. simpl in Hm. apply list_elem_of_singleton in Hm as ->.
  injection Hl as <- <- <- _. split_and!; [done|done|]. exists site, t. split_and!; try done.
  - by apply (iw_id _ Hinv) in Hnode as [? _].
  - unfold Tenant_ in Ht. by rewrite (rp_tenant _ Hrepo _ _ Ht).
Qed.

Lemma sendPE_backed nodeID env r ike n tenant portal po :
  portal_at (sendPETunnelUpdate g inv repo nodeID env r ike).1.1 n tenant portal = Some po →
  portal_at r n tenant portal = Some po ∨ backed [ike] n tenant portal po.
Proof.
  unfold sendPETunnelUpdate. destruct (PETunnelUpdate_of nodeID ike) as [req|e] eqn:Hreq; [|by left].
  unfold request, setupPETunnelUpdate. destruct (tn_request env); [|by left].
  pose proof (handlePE_portals (tn_db_fails env) (tn_upsert_ok env) (tn_publish_ok env) r (pu_PortalID req) (pu_IfID req)
    (tn_now env) n tenant portal po) as Hh.
  destruct (handlePETunnelUpdate _ _ _ _ _ _ _ _ _ _) as [[r' pub] err]. cbn [fst] in *.
  intros [?|(-> & Hid & Hsite)]%Hh; [by left|right]. split; [|done].
  apply PETunnelUpdate_of_spec in Hreq as (? & Hch & Hif & Hrem & _). destruct (last_child_in ike Hch) as [key Hkey].
  exists ike, key, (last_child ike). split_and!; try done; [left|by rewrite Hid].
Qed.

Lemma agent_resync_backed nodeID r sas n tenant portal po :
  portal_at (agent_resync g inv repo nodeID r sas).1 n tenant portal = Some po →
  portal_at r n tenant portal = Some po ∨ backed sas.*2 n tenant portal po.
Proof.
  revert r. induction sas as [|[env sa] sas IH]; intros r; simpl; [by left|].
  pose proof (sendPE_backed nodeID env r sa n tenant portal po) as Hs.
  destruct (sendPETunnelUpdate _ _ _ _ _ _ _) as [[r1 pub] e]. specialize (IH r1).
  destruct (agent_resync _ _ _ _ r1 sas) as [r2 pub2]. cbn [fst] in *.
  intros [[?|Hb]%Hs|Hb]%IH; [by left|right; eapply backed_mono; [|exact Hb]; set_solver..].
Qed.

(** The portals' own updates only touch CPE intents. *)
Lemma sendCPE_portals portalID env r ifID n tenant portal po :
  portal_at (sendCPETunnelUpdate inv repo portalID env r ifID).1.1 n tenant portal = Some po →
  portal_at r n tenant portal = Some po.
Proof.
  unfold sendCPETunnelUpdate, request, setupCPETunnelUpdate. destruct (tn_request env); [|done]. cbn [cu_PortalID cu_IfID].
  set (u := tn_upsert_ok env _). set (q := tn_publish_ok env _).
  enough (portal_at (handleCPETunnelUpdate u q inv repo r portalID ifID (tn_now env)).1.1 n tenant portal = Some po →
    portal_at r n tenant portal = Some po) by (by destruct (handleCPETunnelUpdate _ _ _ _ _ _ _ _) as [[? ?] ?]).
  unfold handleCPETunnelUpdate. destruct (SiteByPortalID repo portalID) as [site|]; [|done].
  destruct (Tenant_ repo (s_TenantID site)) as [t|]; [|done]. destruct (InvNode inv (s_Attach site)) as [node|]; [|done].
  destruct (in_Access node) as [access|]; [|done]. unfold UpsertCPEIntentForSite.
  destruct u; [destruct q|]; cbn [fst]; rewrite portal_at_insert; (case_decide; [done|]); by unfold portal_at.
Qed.

Lemma portal_resync_portals portalID r sas n tenant portal po :
  portal_at (portal_resync inv repo portalID r sas).1 n tenant portal = Some po → portal_at r n tenant portal = Some po.
Proof.
  revert r. induction sas as [|[env sa] sas IH]; intros r; simpl; [done|]. destruct (_ =? 0); [apply IH|].
  pose proof (sendCPE_portals portalID env r (resync_if_id sa) n tenant portal po) as Hs.
  destruct (sendCPETunnelUpdate _ _ _ _ _ _) as [[r1 pub] e]. specialize (IH r1).
  destruct (portal_resync _ _ _ r1 sas) as [r2 pub2]. cbn [fst] in *. auto.
Qed.

Lemma portalAuth_portals r portalID now n tenant portal po :
  portal_at (portalAuth inv repo r portalID now) n tenant portal = Some po → portal_at r n tenant portal = Some po.
Proof.
  unfold portalAuth. destruct (SiteByPortalID repo portalID) as [site|]; [|done].
  destruct (InvNode inv (s_Attach site)) as [node|]; [|done]. destruct (in_Access node) as [access|]; [|done].
  destruct (Tenant_ repo (s_TenantID site)) as [t|]; [|done]. destruct (sr_registry r !! portalID); [done|].
  rewrite portal_at_insert. case_decide; [done|]. by unfold portal_at.
Qed.

Lemma run_op_backed r op n tenant portal po :
  portal_at (run_tunnel_op r op) n tenant portal = Some po →
  portal_at r n tenant portal = Some po ∨ backed (reported op) n tenant portal po.
Proof.
  destruct op as [nodeID env e|nodeID sas|portalID env e|portalID sas|respond_ok portalID now|env paths|env]; simpl.
  - unfold agent_event. case_decide; [|by left]. case_decide; [|by left]. apply sendPE_backed.
  - apply agent_resync_backed.
  - unfold portal_event. case_decide; [|by left]. destruct (IfID _); [|by left]. intros ?%sendCPE_portals. by left.
  - intros ?%portal_resync_portals. by left.
  - unfold setupPortalAuthEndpoint. destruct (portalAuthResponse _ _ _); [|by left]. destruct respond_ok; [|by left].
    intros ?%portalAuth_portals. by left.
  - unfold dispatch. pose proof (stage_paths_no_portal (tn_db_fails env) paths (sr_sids r)) as Hn.
    destruct (stage_paths _ _ _ _ _ _) as [sids tx]. rewrite Commit_no_portal by done. by left.
  - rewrite Commit_no_portal by apply static_no_portal. by left.
Qed.
End runs.

(** After a restart no PE intent holds a portal. *)
Lemma LoadPreviousState_no_portal generations allocations cursor now n tenant portal :
  portal_at (LoadPreviousStateFromDB generations allocations cursor now) n tenant portal = None.
Proof.
  unfold LoadPreviousStateFromDB, portal_at. simpl.
  apply (foldl_ind (load_generation now) (λ _ reg, reg !! n ≫= (λ e, portals_of (ni_Intent e) tenant portal) = None));
    [by rewrite lookup_empty|].
  intros _ gen reg IH _. unfold load_generation.
  destruct (ng_NodeType gen); [..|done]; (destruct (decide (n = ng_NodeID gen)) as [->|];
    [rewrite lookup_insert_eq; simpl; try done; by rewrite lookup_empty|by rewrite lookup_insert_ne]).
Qed.

(** ** A single change *)

Lemma Commit_single `{RangeOrder} db_fails upsert_ok publish_ok r node m now e pe sids' pe' :
  tx_entry (sr_registry r) node [{| pm_NodeType := NodeTypePE; pm_Mutate := m |}] now = Some e →
  ni_Intent e = IntentPE pe → ni_NodeType e = NodeTypePE →
  mutate_pe db_fails node (sr_sids r) pe m = (sids', pe', None) →
  let key := Key PrefixPE node LaneIntent in
  upsert_ok key = true → publish_ok key = true →
  Commit db_fails upsert_ok publish_ok r (MutatePE BeginTx node m) now =
  ({| sr_registry := <[node := bump e (IntentPE pe') now]> (sr_registry r); sr_sids := sids' |},
   [(key, bump e (IntentPE pe') now)], []).
Proof.
  intros He Hi Hty Hm key Hu Hq. unfold Commit, MutatePE, BeginTx, map_get. rewrite lookup_empty, insert_empty, range_map_singleton.
  cbn [default from_option id app foldl].
  assert (commit_node db_fails now {| cs_reg := r; cs_snapshots := ∅; cs_errors := [] |}
    (node, [{| pm_NodeType := NodeTypePE; pm_Mutate := m |}]) =
    {| cs_reg := {| sr_registry := <[node := bump e (IntentPE pe') now]> (sr_registry r); sr_sids := sids' |};
       cs_snapshots := {[key := bump e (IntentPE pe') now]}; cs_errors := [] |}) as ->.
  { unfold commit_node. cbn [cs_reg sr_registry sr_sids cs_errors cs_snapshots]. rewrite He. cbn [foldl]. unfold mutate_step.
    rewrite Hi. cbn [pm_Mutate]. rewrite Hm. unfold publish_key. cbn [ni_NodeType bump]. rewrite Hty, Clone_id, insert_empty. done. }
  cbn [cs_snapshots cs_reg cs_errors]. rewrite range_map_singleton. cbn [foldl]. unfold publish_step. cbn [fst snd].
  by rewrite Hu, Hq.
Qed.

(** The portal intent of a site whose tunnel has the given interface id. *)
Definition site_portal (site : Site) (t : Tenant) (ifID : Z) : PE_PortalIntent :=
  {| po_HostFacingInterface := "eth1"; po_TunnelInterfaceID := ifID; po_SitePrefix := s_Prefix site;
     po_TenantPrefix := t_Allocation t |}.

(** Under the node's id the registry holds a PE, or nothing yet. *)
Definition pe_or_none (r : ServiceRegistry) (node : string) : Prop :=
  ∀ e, sr_registry r !! node = Some e → ni_NodeType e = NodeTypePE ∧ ∃ pe, ni_Intent e = IntentPE pe.

(** An update for a known site succeeds when the database and the bucket accept
    it and a SID can be had for the tenant. *)
Lemma handlePE_succeeds `{RangeOrder} db_fails g upsert_ok publish_ok inv repo r portal ifID now site t node tn sid :
  SiteByPortalID repo portal = Some site → Tenant_ repo (s_TenantID site) = Some t →
  InvNode inv (s_Attach site) = Some node → g_nodes g !! s_Attach site = Some tn →
  pe_or_none r (in_ID node) →
  (getOrGenerateSID (db_fails (tenantMapKey (Node_Locator tn) (dec (t_ID t)) EncapTypeDT46))
     (Node_Locator tn) (dec (t_ID t)) EncapTypeDT46 (sr_sids r)).2 = Ok sid →
  let key := Key PrefixPE (in_ID node) LaneIntent in
  upsert_ok key = true → publish_ok key = true →
  let '(r', pub, err) := handlePETunnelUpdate db_fails g upsert_ok publish_ok inv repo r portal ifID now in
  err = None ∧ ∃ e pe, sr_registry r' !! in_ID node = Some e ∧ ni_Intent e = IntentPE pe ∧ pub = [(key, e)] ∧
    bumped (getOrCreateRegistryEntryForPE (sr_registry r) (in_ID node) now) e now ∧
    portals_of (IntentPE pe) (dec (t_ID t)) portal = Some (site_portal site t ifID).
Proof.
  intros Hs Ht Hn Hg Hpe Hsid key Hu Hq. unfold handlePETunnelUpdate. rewrite Hs, Ht, Hn, Hg.
  fold (site_portal site t ifID).
  set (m := StagePortal _ _ _ _). set (e := getOrCreateRegistryEntryForPE (sr_registry r) (in_ID node) now).
  assert (tx_entry (sr_registry r) (in_ID node) [{| pm_NodeType := NodeTypePE; pm_Mutate := m |}] now = Some e) as He.
  { unfold tx_entry, e, getOrCreateRegistryEntryForPE. by destruct (sr_registry r !! in_ID node). }
  assert (ni_NodeType e = NodeTypePE ∧ ∃ pe, ni_Intent e = IntentPE pe) as (Hty & pe & Hi).
  { unfold e, getOrCreateRegistryEntryForPE. destruct (sr_registry r !! in_ID node) as [e0|] eqn:H0; [by apply Hpe|eauto]. }
  assert (∃ sids' pe', mutate_pe db_fails (in_ID node) (sr_sids r) pe m = (sids', pe', None)) as (sids' & pe' & Hm).
  { unfold m. cbn [mutate_pe]. unfold getOrCreateTenantIntentForPE. destruct (pei_Tenants pe !! dec (t_ID t)); [eauto|].
    destruct (getOrGenerateSID _ _ _ _ _) as [s [sid'|]]; [eauto|done]. }
  rewrite (Commit_single db_fails upsert_ok publish_ok r (in_ID node) m now e pe sids' pe' He Hi Hty Hm Hu Hq).
  split; [done|]. exists (bump e (IntentPE pe') now), pe'. cbn [sr_registry]. rewrite lookup_insert_eq.
  split_and!; [done|done|done|done|].
  eapply (mutate_pe_portals _ _ _ _ _ _ _ _ Hm); [done|]. unfold m. by exists (Node_Locator tn).
Qed.

(** ** Results *)

(** C19: no tunnel is made up.  Since the control plane's last restart, whatever
    agents and portals reported, in any order, with whatever requests and
    replies lost and database or bucket writes failing, between path dispatches:
    every portal in a PE's intent sits at its own site's node, under its own
    tenant and prefixes, and its interface id is that of a child SA installed
    under an established IKE SA with that portal's identity. *)
Theorem portals_backed_by_tunnels `{RangeOrder} g inv repo generations allocations cursor now ops n tenant portal po :
  repo_wf repo → inventory_wf inv →
  portal_at (foldl (run_tunnel_op g inv repo) (LoadPreviousStateFromDB generations allocations cursor now) ops)
    n tenant portal = Some po →
  backed repo (ops ≫= reported) n tenant portal po.
Proof.
  intros Hrepo Hinv. revert n tenant portal po.
  apply (foldl_ind (run_tunnel_op g inv repo) (λ l r, ∀ n tenant portal po,
    portal_at r n tenant portal = Some po → backed repo (l ≫= reported) n tenant portal po)).
  - intros n tenant portal po. by rewrite LoadPreviousState_no_portal.
  - intros l op r IH _ n tenant portal po Hpo. rewrite bind_app. simpl. rewrite app_nil_r.
    destruct (run_op_backed g inv repo Hrepo Hinv r op n tenant portal po Hpo) as [Hr|Hb].
    + eapply backed_mono; [|by apply IH]. set_solver.
    + eapply backed_mono; [|exact Hb]. set_solver.
Qed.

(** A tunnel that comes up reaches its PE.  When strongSwan on a PE reports
    an installed child SA of a known portal, and the request, the database and
    the bucket work, the intent of the site's node goes up by one generation and
    is published, and it asks for the tunnel's XFRM interface, with the child's
    interface id, in the tenant's VRF, and for the route of the site's prefix
    over it. *)
Lemma tunnel_reaches_intent `{RangeOrder} g inv repo nodeID env r portal site t node tn sid ev key c ifID :
  repo_wf repo → inventory_wf inv →
  SiteByPortalID repo portal = Some site → Tenant_ repo (s_TenantID site) = Some t →
  InvNode inv (s_Attach site) = Some node → g_nodes g !! s_Attach site = Some tn →
  portal ≠ ""%string → str_free "." portal = true →
  ev_Event ev = "child-updown"%string → ike_State (ev_IKE ev) = "ESTABLISHED"%string →
  ike_RemoteID (ev_IKE ev) = String.append portal portal_suffix →
  ike_ChildSAs (ev_IKE ev) = {[ key := c ]} → ch_State c = "INSTALLED"%string → IfID c = Ok ifID →
  tn_request env = true → tn_reply env = true → pe_or_none r (s_Attach site) →
  (getOrGenerateSID (tn_db_fails env (tenantMapKey (Node_Locator tn) (dec (s_TenantID site)) EncapTypeDT46))
     (Node_Locator tn) (dec (s_TenantID site)) EncapTypeDT46 (sr_sids r)).2 = Ok sid →
  let intentKey := Key PrefixPE (s_Attach site) LaneIntent in
  tn_upsert_ok env intentKey = true → tn_publish_ok env intentKey = true →
  let '(r', pub) := agent_event g inv repo nodeID env r ev in
  ∃ e pe, sr_registry r' !! s_Attach site = Some e ∧ ni_Intent e = IntentPE pe ∧ pub = [(intentKey, e)] ∧
    bumped (getOrCreateRegistryEntryForPE (sr_registry r) (s_Attach site) (tn_now env)) e (tn_now env) ∧
    asked pe (RXFRM (xfrm_of (dec (s_TenantID site)) (site_portal site t ifID))) ∧
    asked pe (RRoute (RenderCorrect.route_of (dec (s_TenantID site)) (site_portal site t ifID))).
Proof.
  intros Hrepo Hinv Hs Ht Hn Hg Hp Hf Hev Hst Hrem Hch Hcs Hif Hreq Hrep Hpe Hsid intentKey Hu Hq.
  assert (in_ID node = s_Attach site) as Hid by by apply (iw_id _ Hinv) in Hn as [? _].
  assert (t_ID t = s_TenantID site) as Htid by by apply (rp_tenant _ Hrepo).
  assert (last_child (ev_IKE ev) = c) as Hlast by (unfold last_child; by rewrite Hch, range_map_singleton).
  assert (PETunnelUpdate_of nodeID (ev_IKE ev) = Ok {| pu_PortalID := portal; pu_IfID := ifID; pu_NodeID := nodeID |}) as Hreq'.
  { apply PETunnelUpdate_of_spec. rewrite Hlast. done. }
  pose proof (handlePE_succeeds (tn_db_fails env) g (tn_upsert_ok env) (tn_publish_ok env) inv repo r portal ifID
    (tn_now env) site t node tn sid Hs Ht Hn Hg) as Hh. rewrite Hid, Htid in Hh. specialize (Hh Hpe Hsid Hu Hq).
  unfold agent_event. rewrite Hev, Hch, map_size_singleton, !decide_True by done.
  unfold sendPETunnelUpdate. rewrite Hreq'. unfold request. rewrite Hreq, Hrep. unfold setupPETunnelUpdate.
  cbn [pu_PortalID pu_IfID]. destruct (handlePETunnelUpdate _ _ _ _ _ _ _ _ _ _) as [[r' pub] err].
  destruct Hh as (_ & e & pe & He & Hi & Hpub & Hb & Hpo). exists e, pe. cbn [portals_of] in Hpo.
  apply bind_Some in Hpo as (ti & Hti & Hpo). split_and!; [done..| |]; [by eapply asked_xfrm|by eapply asked_route].
Qed.

(** ** Witnesses *)

Lemma demo_inventory_wf : inventory_wf demo_inventory.
Proof.
  pose proof (LoadInventory_wf {| inv_byID := ∅; inv_byName := ∅ |} [demo_pop_entry "ams"; demo_pop_entry "lon"]) as Hl.
  unfold demo_inventory. destruct (LoadInventory _ _) as [i [e|]] eqn:He; [|done].
  exfalso. apply (f_equal snd) in He. revert He. vm_compute. discriminate.
Qed.

Definition demo_child : ChildSA :=
  {| ch_Name := "cpe"; ch_UniqueID := 1; ch_ReqID := 1; ch_State := "INSTALLED"; ch_Mode := "TUNNEL"; ch_Protocol := "ESP";
     ch_IfIDIn := "0000002a"; ch_IfIDOut := "0000002a"; ch_EncrAlg := ""; ch_EncrKeysize := 0; ch_IntegAlg := "";
     ch_BytesIn := 0; ch_PacketsIn := 0; ch_BytesOut := 0; ch_PacketsOut := 0;
     ch_RekeyTime := 0; ch_LifeTime := 0; ch_InstallTime := 0; ch_LocalTS := []; ch_RemoteTS := [] |}.

Definition demo_ike : IKESA :=
  {| ike_UniqueID := 1; ike_Version := 2; ike_State := "ESTABLISHED"; ike_LocalHost := ""; ike_LocalPort := 500;
     ike_LocalID := "Popams.maeto.net"; ike_LocalCert := ""; ike_RemoteHost := ""; ike_RemotePort := 500;
     ike_RemoteID := "cpe1.cpe.maeto.net"; ike_RemoteCert := ""; ike_InitiatorSPI := ""; ike_ResponderSPI := "";
     ike_EncrAlg := ""; ike_EncrKeysize := 0; ike_IntegAlg := ""; ike_PRFAlg := ""; ike_DHGroup := "";
     ike_Established := 0; ike_RekeyTime := 0; ike_ReauthTime := 0; ike_TasksActive := []; ike_TasksPassive := [];
     ike_ChildSAs := {[ "cpe-1" := demo_child ]} |}.

Definition demo_up : UpDownEvent := {| ev_Event := "child-updown"; ev_Up := true; ev_Conn := "cpe"; ev_IKE := demo_ike |}.

Definition demo_works : tunnel_env :=
  {| tn_request := true; tn_reply := true; tn_db_fails := λ _, false; tn_upsert_ok := λ _, true;
     tn_publish_ok := λ _, true; tn_now := 0 |}.

(** The static intents, a portal authenticating, the tunnel's event, and a
    resync whose second reply is lost. *)
Definition demo_tunnel_ops : list tunnel_op :=
  [StageStatic demo_works; PortalAuth true "cpe1" 0; AgentEvent "ams" demo_works demo_up;
   DispatchPaths demo_works demo_paths;
   AgentResync "ams" [({| tn_request := true; tn_reply := false; tn_db_fails := λ _, false; tn_upsert_ok := λ _, false;
                          tn_publish_ok := λ _, true; tn_now := 1 |}, demo_ike)];
   PortalEvent "cpe1" demo_works demo_up].

Definition demo_tunnel_registry : ServiceRegistry :=
  foldl (run_tunnel_op (H := canonical_order) demo_topology demo_inventory demo_repo)
    (LoadPreviousStateFromDB [{| ng_NodeType := NodeTypePE; ng_NodeID := "ams"; ng_Version := 3 |}] [] 0 0) demo_tunnel_ops.

Lemma portals_backed_by_tunnels_witness :
  ∃ po, portal_at demo_tunnel_registry "ams" "7" "cpe1" = Some po ∧ po_TunnelInterfaceID po = 42 ∧
    backed demo_repo (demo_tunnel_ops ≫= reported) "ams" "7" "cpe1" po.
Proof.
  destruct (portal_at demo_tunnel_registry "ams" "7" "cpe1") as [po|] eqn:Hpo; [|exfalso; revert Hpo; vm_compute; discriminate].
  exists po. split_and!.
  - reflexivity.
  - assert (po_TunnelInterfaceID <$> portal_at demo_tunnel_registry "ams" "7" "cpe1" = Some 42) as He by (vm_compute; reflexivity).
    rewrite Hpo in He. injection He as He. exact He.
  - apply (@portals_backed_by_tunnels canonical_order demo_topology demo_inventory demo_repo
      [{| ng_NodeType := NodeTypePE; ng_NodeID := "ams"; ng_Version := 3 |}] [] 0 0 demo_tunnel_ops "ams" "7" "cpe1" po
      demo_repo_wf demo_inventory_wf Hpo).
Defined.

Definition demo_ams : Node :=
  Eval vm_compute in match g_nodes demo_topology !! "ams"%string with Some n => n
    | None => {| Node_ID := ""; Node_Name := ""; Node_ASN := 0; Node_ISISNet := ""; Node_Loopback := prefix_zero;
                 Node_Locator := prefix_zero; Node_Attrs := ∅ |} end.
Definition demo_ams_sid : Addr :=
  Eval vm_compute in match (getOrGenerateSID false (Node_Locator demo_ams) "7" EncapTypeDT46 (sid_fresh 0)).2 with
    | Ok a => a | Err _ => AddrZero end.
