(* ===== verification/Feed.v ===== *)
(** Delivery of intents to a node: the watch of a bucket's key
    (libs/nodesync/watch.go) and the agent's fan-out of what it delivers to the
    reconciler and the probe supervisor (agent_intent.go), with the order and
    the catching up of the two feeds. *)

From S2P Require Import Prelude Netip Topology Sid Registry.

(** ** Watching a key *)

(** What the watcher yields: a closed channel, the mark that the initial replay
    is over, or an entry with its operation and, if it decodes, its value. *)
Inductive kv_operation := KeyValuePut | KeyValueDelete | KeyValuePurge.
#[export] Instance kv_operation_eq_dec : EqDecision kv_operation.
Proof. solve_decision. Defined.

Inductive watcher_update (T : Type) :=
  | WatcherClosed
  | ReplayDone
  | WatcherEntry (operation : kv_operation) (value : option T).
Arguments WatcherClosed {T}.
Arguments ReplayDone {T}.
Arguments WatcherEntry {T} operation value.

Inductive watch_end := WatchContextDone | WatchClosed | OpenFailed | WatchFailed.

(** The loop of [Watch] against the updates to come and the ends of the context: each turn
    has the update taken, whether the context had ended instead, and whether it
    ends while the feed blocks.  The values handed on, and how it ended, if it
    did. *)
Record watch_turn (T : Type) := { wt_done : bool; wt_update : watcher_update T; wt_done_sending : bool }.
Arguments wt_done {T} _.
Arguments wt_update {T} _.
Arguments wt_done_sending {T} _.

Fixpoint watch_loop {T} (turns : list (watch_turn T)) : list T * option watch_end :=
  match turns with
  | [] => ([], None)
  | t :: turns =>
      if wt_done t then ([], Some WatchContextDone)
      else
        match wt_update t with
        | WatcherClosed => ([], Some WatchClosed)
        | ReplayDone => watch_loop turns
        | WatcherEntry op value =>
            if decide (op = KeyValuePut) then
              match value with
              | None => watch_loop turns
              | Some v =>
                  if wt_done_sending t then ([], Some WatchContextDone)
                  else let '(vs, e) := watch_loop turns in (v :: vs, e)
              end
            else watch_loop turns
        end
  end.

(** [Open] asks for the bucket through [retry.Do] of retry-go: [retryDo n
    answers] is whether it succeeds when it may call a function [n] times that
    answers so. *)
Definition openAttempts : nat := 200.

Definition Open (retryDo : nat → list bool → bool) (answers : list bool) : bool := retryDo openAttempts answers.

Definition Watch {T} (retryDo : nat → list bool → bool) (answers : list bool) (watch_ok : bool)
    (turns : list (watch_turn T)) : list T * option watch_end :=
  if negb (Open retryDo answers) then ([], Some OpenFailed)
  else if negb watch_ok then ([], Some WatchFailed)
  else watch_loop turns.

(** ** The agent's feeds *)

Definition feed_capacity : nat := 32.

Record agent_feeds := {
  af_aggregate : list NodeIntent;
  af_last : option NodeIntent;
  af_dataplane : list NodeIntent;
  af_probe : list NodeIntent;
}.

Definition no_feeds : agent_feeds := {| af_aggregate := []; af_last := None; af_dataplane := []; af_probe := [] |}.

(** A send that does not block: a full feed drops the intent. *)
Definition try_send (feed : list NodeIntent) (item : NodeIntent) : list NodeIntent :=
  if (length feed <? feed_capacity)%nat then feed ++ [Clone item] else feed.

Definition fanOutToFeeds (f : agent_feeds) (item : NodeIntent) : agent_feeds :=
  {| af_aggregate := af_aggregate f; af_last := af_last f;
     af_dataplane := try_send (af_dataplane f) item; af_probe := try_send (af_probe f) item |}.

(** The turns of the goroutines: the watch puts an intent on the aggregate feed
    (it waits while that is full), the fan-out takes one, the resync ticker
    fires, and the reconciler and the supervisor each take one. *)
Inductive feed_op := WatchPuts (item : NodeIntent) | FanOut | ResyncTick | ReconcilerTakes | SupervisorTakes.

Definition set_last (f : agent_feeds) (item : NodeIntent) : agent_feeds :=
  {| af_aggregate := af_aggregate f; af_last := Some (Clone item); af_dataplane := af_dataplane f; af_probe := af_probe f |}.

(** The fan-out goroutine's two cases. *)
Definition fan_out_item (f : agent_feeds) : agent_feeds :=
  match af_aggregate f with
  | [] => f
  | item :: rest =>
      set_last (fanOutToFeeds {| af_aggregate := rest; af_last := af_last f; af_dataplane := af_dataplane f;
                                 af_probe := af_probe f |} item) item
  end.

Definition fan_out_resync (f : agent_feeds) : agent_feeds :=
  match af_last f with None => f | Some item => fanOutToFeeds f item end.

(** ** Runs, with what went through *)

Definition first_of {A} (l : list A) : list A := match l with x :: _ => [x] | [] => [] end.

Record feed_run := {
  fr_feeds : agent_feeds;
  fr_watched : list NodeIntent;
  fr_fanned : list NodeIntent;
  fr_reconciled : list NodeIntent;
  fr_supervised : list NodeIntent;
}.

Definition feed_start : feed_run :=
  {| fr_feeds := no_feeds; fr_watched := []; fr_fanned := []; fr_reconciled := []; fr_supervised := [] |}.

Definition run_feed_op (s : feed_run) (op : feed_op) : feed_run :=
  let f := fr_feeds s in
  match op with
  | WatchPuts item =>
      if (length (af_aggregate f) <? feed_capacity)%nat then
        {| fr_feeds := {| af_aggregate := af_aggregate f ++ [item]; af_last := af_last f;
                          af_dataplane := af_dataplane f; af_probe := af_probe f |};
           fr_watched := fr_watched s ++ [item]; fr_fanned := fr_fanned s;
           fr_reconciled := fr_reconciled s; fr_supervised := fr_supervised s |}
      else s
  | FanOut =>
      {| fr_feeds := fan_out_item f; fr_watched := fr_watched s;
         fr_fanned := fr_fanned s ++ first_of (af_aggregate f);
         fr_reconciled := fr_reconciled s; fr_supervised := fr_supervised s |}
  | ResyncTick =>
      {| fr_feeds := fan_out_resync f; fr_watched := fr_watched s; fr_fanned := fr_fanned s;
         fr_reconciled := fr_reconciled s; fr_supervised := fr_supervised s |}
  | ReconcilerTakes =>
      {| fr_feeds := {| af_aggregate := af_aggregate f; af_last := af_last f;
                        af_dataplane := tail (af_dataplane f); af_probe := af_probe f |};
         fr_watched := fr_watched s; fr_fanned := fr_fanned s;
         fr_reconciled := fr_reconciled s ++ first_of (af_dataplane f); fr_supervised := fr_supervised s |}
  | SupervisorTakes =>
      {| fr_feeds := {| af_aggregate := af_aggregate f; af_last := af_last f;
                        af_dataplane := af_dataplane f; af_probe := tail (af_probe f) |};
         fr_watched := fr_watched s; fr_fanned := fr_fanned s;
         fr_reconciled := fr_reconciled s; fr_supervised := fr_supervised s ++ first_of (af_probe f) |}
  end.

(** ** Order *)

(** [got] follows the order of [sent]: items may be missing and repeated, but
    none comes after a later one. *)
Definition in_order (sent got : list NodeIntent) : Prop :=
  ∃ ks : list nat, StronglySorted (≤)%nat ks ∧ Forall2 (λ k i, sent !! k = Some i) ks got.

Lemma in_order_nil sent : in_order sent [].
Proof. exists []. split; constructor. Qed.

Lemma in_order_nil_inv got : in_order [] got → got = [].
Proof. intros (ks & _ & HF). destruct HF as [|k i ks got Hk]; [done|]. by rewrite lookup_nil in Hk. Qed.

Lemma in_order_grows sent sent' got : in_order sent got → in_order (sent ++ sent') got.
Proof.
  intros (ks & Hs & HF). exists ks. split; [done|]. eapply Forall2_impl; [|exact HF].
  intros k i Hk. by apply lookup_app_l_Some.
Qed.

Lemma in_order_prefix sent got got' : in_order sent (got ++ got') → in_order sent got.
Proof.
  intros (ks & Hs & HF). apply Forall2_app_inv_r in HF as (ks1 & ks2 & HF1 & _ & ->).
  exists ks1. split; [|done]. by apply StronglySorted_app_1_l in Hs.
Qed.

(** The newest item can always come next. *)
Lemma in_order_snoc sent got i : list.last sent = Some i → in_order sent got → in_order sent (got ++ [i]).
Proof.
  intros Hl (ks & Hs & HF). rewrite last_lookup in Hl. exists (ks ++ [pred (length sent)]). split.
  - apply StronglySorted_app_2; [|done|by repeat constructor].
    intros x y Hx ->%list_elem_of_singleton.
    destruct (list_elem_of_lookup_1 _ _ Hx) as [j Hj].
    destruct (Forall2_lookup_l _ _ _ _ _ HF Hj) as (i' & _ & Hi'). apply lookup_lt_Some in Hi'. lia.
  - apply Forall2_app; [done|]. by repeat constructor.
Qed.

Lemma try_send_in_order sent got feed i :
  list.last sent = Some i → in_order sent (got ++ feed) → in_order sent (got ++ try_send feed i).
Proof.
  intros Hl Ho. unfold try_send. destruct (_ <? _)%nat; [|done]. rewrite Clone_id, app_assoc. by apply in_order_snoc.
Qed.

Lemma take_head {A} (got feed : list A) : (got ++ first_of feed) ++ tail feed = got ++ feed.
Proof. destruct feed as [|x feed]; simpl; [by rewrite !app_nil_r|by rewrite <-app_assoc]. Qed.

Record feed_inv (s : feed_run) : Prop := {
  fi_watched : fr_watched s = fr_fanned s ++ af_aggregate (fr_feeds s);
  fi_last : af_last (fr_feeds s) = list.last (fr_fanned s);
  fi_dataplane : in_order (fr_fanned s) (fr_reconciled s ++ af_dataplane (fr_feeds s));
  fi_probe : in_order (fr_fanned s) (fr_supervised s ++ af_probe (fr_feeds s));
}.

Lemma run_feed_op_inv s op : feed_inv s → feed_inv (run_feed_op s op).
Proof.
  intros [Hw Hl Hd Hp]. destruct op as [item| | | |]; simpl.
  - destruct (_ <? _)%nat; [|by split]. split; simpl; [by rewrite Hw, app_assoc|done..].
  - unfold fan_out_item. destruct (af_aggregate (fr_feeds s)) as [|item rest] eqn:Ha; simpl.
    { rewrite !app_nil_r. split; simpl; rewrite ?Ha; done. }
    assert (list.last (fr_fanned s ++ [item]) = Some item) as Hlast by apply last_snoc.
    split; simpl; [by rewrite Hw, <-app_assoc|by rewrite Clone_id, Hlast|..];
      (apply try_send_in_order; [done|by apply in_order_grows]).
  - unfold fan_out_resync. destruct (af_last (fr_feeds s)) as [item|] eqn:Ha; [|by split; simpl; rewrite ?Ha].
    split; simpl; [done|congruence|..]; (apply try_send_in_order; [congruence|done]).
  - split; simpl; [done|done| |done]. by rewrite take_head.
  - split; simpl; [done|done|done|]. by rewrite take_head.
Qed.

Lemma run_feed_ops_inv ops : feed_inv (foldl run_feed_op feed_start ops).
Proof.
  apply (foldl_ind run_feed_op (λ _ s, feed_inv s)); [split; simpl; try done; apply in_order_nil|].
  intros _ op s Hs _. by apply run_feed_op_inv.
Qed.

(** ** Room *)

Record feed_bounds (f : agent_feeds) : Prop := {
  fb_aggregate : (length (af_aggregate f) ≤ feed_capacity)%nat;
  fb_dataplane : (length (af_dataplane f) ≤ feed_capacity)%nat;
  fb_probe : (length (af_probe f) ≤ feed_capacity)%nat;
}.

Lemma try_send_bound feed i : (length feed ≤ feed_capacity → length (try_send feed i) ≤ feed_capacity)%nat.
Proof. unfold try_send. destruct (Nat.ltb_spec (length feed) feed_capacity); rewrite ?length_app; simpl; lia. Qed.

Lemma run_feed_op_bounds s op : feed_bounds (fr_feeds s) → feed_bounds (fr_feeds (run_feed_op s op)).
Proof.
  intros [Ha Hd Hp]. pose proof try_send_bound. destruct op as [item| | | |]; simpl.
  - destruct (Nat.ltb_spec (length (af_aggregate (fr_feeds s))) feed_capacity); [|by split].
    split; simpl; rewrite ?length_app; simpl; lia.
  - unfold fan_out_item. destruct (af_aggregate (fr_feeds s)) as [|item rest] eqn:He; [by split; rewrite ?He|].
    simpl in Ha. split; simpl; [lia|auto..].
  - unfold fan_out_resync. destruct (af_last (fr_feeds s)); [split; simpl; auto|by split].
  - split; simpl; [lia| |lia]. destruct (af_dataplane (fr_feeds s)); simpl in *; lia.
  - split; simpl; [lia|lia|]. destruct (af_probe (fr_feeds s)); simpl in *; lia.
Qed.

Lemma run_feed_ops_bounds ops : feed_bounds (fr_feeds (foldl run_feed_op feed_start ops)).
Proof.
  apply (foldl_ind run_feed_op (λ _ s, feed_bounds (fr_feeds s))); [split; simpl; unfold feed_capacity; lia|].
  intros _ op s Hs _. by apply run_feed_op_bounds.
Qed.

Lemma run_repeat_inv n op s :
  feed_inv s → feed_bounds (fr_feeds s) →
  feed_inv (foldl run_feed_op s (replicate n op)) ∧ feed_bounds (fr_feeds (foldl run_feed_op s (replicate n op))).
Proof.
  revert s. induction n as [|n IH]; intros s Hi Hb; [done|]. apply IH; [by apply run_feed_op_inv|by apply run_feed_op_bounds].
Qed.

Lemma fan_out_all n s :
  let s' := foldl run_feed_op s (replicate n FanOut) in
  af_aggregate (fr_feeds s') = skipn n (af_aggregate (fr_feeds s)) ∧ fr_watched s' = fr_watched s.
Proof.
  revert s. induction n as [|n IH]; intros s; cbn [replicate foldl]; [done|].
  destruct (IH (run_feed_op s FanOut)) as [-> ->]. simpl.
  split; [|done]. unfold fan_out_item. destruct (af_aggregate (fr_feeds s)) as [|x rest] eqn:Ha; simpl; [|done].
  rewrite Ha. by destruct n.
Qed.

Lemma skipn_tail {A} n (l : list A) : skipn n (tail l) = skipn (S n) l.
Proof. destruct l; [by destruct n|done]. Qed.

Lemma reconciler_takes_all n s :
  let f := fr_feeds s in let s' := foldl run_feed_op s (replicate n ReconcilerTakes) in
  fr_feeds s' = {| af_aggregate := af_aggregate f; af_last := af_last f;
                   af_dataplane := skipn n (af_dataplane f); af_probe := af_probe f |} ∧
  fr_watched s' = fr_watched s ∧ fr_fanned s' = fr_fanned s.
Proof.
  revert s. induction n as [|n IH]; intros s; cbn [replicate foldl]; [by destruct (fr_feeds s)|].
  destruct (IH (run_feed_op s ReconcilerTakes)) as (-> & -> & ->). cbn [run_feed_op fr_feeds fr_watched fr_fanned af_aggregate af_last af_dataplane af_probe].
  by rewrite skipn_tail.
Qed.

Lemma supervisor_takes_all n s :
  let f := fr_feeds s in let s' := foldl run_feed_op s (replicate n SupervisorTakes) in
  fr_feeds s' = {| af_aggregate := af_aggregate f; af_last := af_last f;
                   af_dataplane := af_dataplane f; af_probe := skipn n (af_probe f) |} ∧
  fr_watched s' = fr_watched s ∧ fr_fanned s' = fr_fanned s.
Proof.
  revert s. induction n as [|n IH]; intros s; cbn [replicate foldl]; [by destruct (fr_feeds s)|].
  destruct (IH (run_feed_op s SupervisorTakes)) as (-> & -> & ->). cbn [run_feed_op fr_feeds fr_watched fr_fanned af_aggregate af_last af_dataplane af_probe].
  by rewrite skipn_tail.
Qed.

(** The goroutines catch up: what is queued is fanned out and taken, the ticker
    fires, and each consumer takes once more. *)
Definition catch_up : list feed_op :=
  (replicate feed_capacity FanOut ++ replicate feed_capacity ReconcilerTakes ++ replicate feed_capacity SupervisorTakes) ++
  [ResyncTick; ReconcilerTakes; SupervisorTakes].

(** After the ticker has fired on empty feeds, each consumer's last intent is
    the newest. *)
Lemma resync_catches_up s :
  feed_inv s → af_aggregate (fr_feeds s) = [] → af_dataplane (fr_feeds s) = [] → af_probe (fr_feeds s) = [] →
  let s' := foldl run_feed_op s [ResyncTick; ReconcilerTakes; SupervisorTakes] in
  fr_watched s' = fr_watched s ∧
  list.last (fr_reconciled s') = list.last (fr_watched s) ∧ list.last (fr_supervised s') = list.last (fr_watched s).
Proof.
  intros [Hw Hl Hd Hp] Ha Hde Hpe. rewrite Ha, app_nil_r in Hw. rewrite Hde, app_nil_r, <-Hw in Hd.
  rewrite Hpe, app_nil_r, <-Hw in Hp. rewrite <-Hw in Hl. cbn [foldl run_feed_op]. unfold fan_out_resync. rewrite Hl.
  destruct (list.last (fr_watched s)) as [i|] eqn:Hlast.
  - cbn. rewrite Hde, Hpe. cbn. by rewrite !last_snoc, Clone_id.
  - apply last_None in Hlast. rewrite Hlast in Hd, Hp. apply in_order_nil_inv in Hd, Hp. cbn. by rewrite Hde, Hpe, Hd, Hp.
Qed.

(** Running the goroutines dry empties the feeds. *)
Lemma run_dry n s :
  (feed_capacity ≤ n)%nat → feed_inv s → feed_bounds (fr_feeds s) →
  let s' := foldl run_feed_op s (replicate n FanOut ++ replicate n ReconcilerTakes ++ replicate n SupervisorTakes) in
  feed_inv s' ∧ fr_watched s' = fr_watched s ∧
  af_aggregate (fr_feeds s') = [] ∧ af_dataplane (fr_feeds s') = [] ∧ af_probe (fr_feeds s') = [].
Proof.
  intros Hn Hinv Hb. cbv zeta. rewrite !foldl_app. set (s1 := foldl run_feed_op s (replicate n FanOut)).
  destruct (run_repeat_inv n FanOut s Hinv Hb) as [Hi1 Hb1]. destruct (fan_out_all n s) as [Ha1 Hw1].
  fold s1 in Hi1, Hb1, Ha1, Hw1. rewrite skipn_all2 in Ha1 by (pose proof (fb_aggregate _ Hb); lia).
  destruct (run_repeat_inv n ReconcilerTakes s1 Hi1 Hb1) as [Hi2 Hb2].
  destruct (reconciler_takes_all n s1) as (Hf2 & Hw2 & _). set (s2 := foldl run_feed_op s1 _) in *.
  destruct (run_repeat_inv n SupervisorTakes s2 Hi2 Hb2) as [Hi3 _].
  destruct (supervisor_takes_all n s2) as (Hf3 & Hw3 & _). set (s3 := foldl run_feed_op s2 _) in *.
  split; [done|]. split; [congruence|]. rewrite Hf3, Hf2. cbn [af_aggregate af_dataplane af_probe].
  split_and!; [done|..]; apply skipn_all2; destruct Hb1; lia.
Qed.

(** After any run and a catch-up: what the reconciler was given follows the
    order of the watch and ends with the newest intent, and so does what the
    supervisor was given. *)
Lemma caught_up ops :
  let s := foldl run_feed_op feed_start ops in
  let s' := foldl run_feed_op s catch_up in
  in_order (fr_watched s) (fr_reconciled s') ∧ fr_watched s' = fr_watched s ∧
  list.last (fr_reconciled s') = list.last (fr_watched s) ∧ list.last (fr_supervised s') = list.last (fr_watched s).
Proof.
  intros s s'. pose proof (run_feed_ops_inv ops) as Hinv. pose proof (run_feed_ops_bounds ops) as Hb. fold s in Hinv, Hb.
  destruct (run_dry feed_capacity s (le_n _) Hinv Hb) as (Hi & Hw & Ha & Hd & Hp).
  assert (s' = foldl run_feed_op feed_start (ops ++ catch_up)) as Hs' by (unfold s', s; by rewrite foldl_app).
  pose proof (run_feed_ops_inv (ops ++ catch_up)) as Hinv'. rewrite <-Hs' in Hinv'.
  assert (fr_watched s' = fr_watched s ∧ list.last (fr_reconciled s') = list.last (fr_watched s) ∧
          list.last (fr_supervised s') = list.last (fr_watched s)) as (Hw' & ? & ?).
  { unfold s', catch_up. rewrite foldl_app. destruct (resync_catches_up _ Hi Ha Hd Hp) as (Hw' & Hr & Hsv).
    by rewrite Hw', Hr, Hsv, Hw. }
  split_and!; [|done..]. rewrite <-Hw', (fi_watched _ Hinv'). by eapply in_order_grows, in_order_prefix, fi_dataplane.
Qed.

(** ** Results *)

(** C29: no consumer is left behind.  Whatever the interleaving of the watch,
    the fan-out, the resync ticker and the two consumers, and however many
    intents full feeds drop: each consumer is given intents in the order in
    which they were watched, never an older one after a newer one; and once the
    goroutines have run dry and the ticker has fired, the last intent each was
    given is the newest one watched. *)
Theorem feeds_catch_up ops :
  let s := foldl run_feed_op feed_start ops in
  let s' := foldl run_feed_op s catch_up in
  in_order (fr_watched s) (fr_reconciled s) ∧ in_order (fr_watched s) (fr_supervised s) ∧
  fr_watched s' = fr_watched s ∧
  list.last (fr_reconciled s') = list.last (fr_watched s) ∧ list.last (fr_supervised s') = list.last (fr_watched s).
Proof.
  intros s s'. pose proof (run_feed_ops_inv ops) as Hinv. fold s in Hinv.
  split; [rewrite (fi_watched _ Hinv); by eapply in_order_grows, in_order_prefix, fi_dataplane|].
  split; [rewrite (fi_watched _ Hinv); by eapply in_order_grows, in_order_prefix, fi_probe|].
  by destruct (caught_up ops) as (_ & ? & ? & ?).
Qed.

(** Forty intents, more than a feed holds, reach the fan-out before any is
    taken; the newest one arrives all the same. *)
Definition demo_intent (n : Z) : NodeIntent :=
  {| ni_ID := "ams"; ni_NodeType := NodeTypePE; ni_Intent := IntentPE (empty_pe "ams"); ni_Timestamp := 0;
     ni_Generation := n; ni_Version := 1 |}.

Example feeds_overflow :
  let ops := mjoin ((λ n, [WatchPuts (demo_intent (Z.of_nat n)); FanOut]) <$> seq 1 40) in
  let s := foldl run_feed_op feed_start ops in
  ni_Generation <$> list.last (af_dataplane (fr_feeds s)) = Some 32 ∧
  ni_Generation <$> list.last (fr_reconciled (foldl run_feed_op s catch_up)) = Some 40.
Proof. vm_compute. done. Qed.

(** Once the bucket is open, the watch hands on the decodable puts, all of them
    and in order. *)
Lemma Watch_all {T} retryDo answers (turns : list (watch_turn T)) :
  Open retryDo answers = true →
  Forall (λ t, wt_done t = false ∧ wt_done_sending t = false ∧ wt_update t ≠ WatcherClosed) turns →
  Watch retryDo answers true turns =
  (omap (λ t, match wt_update t with WatcherEntry KeyValuePut v => v | _ => None end) turns, None).
Proof.
  unfold Watch. intros ->. simpl. induction 1 as [|t turns (Hd & Hs & Hc) _ IH]; [done|]. simpl. rewrite Hd, Hs, IH.
  destruct (wt_update t) as [| |op [v|]]; [done|done|by destruct op..].
Qed.
