(* ===== verification/Snapshot.v ===== *)
(** The control snapshot (snapshot.go): what the control plane publishes of its
    state for the pane, and the publisher. *)

From S2P Require Import Prelude Float64 Netip Topology CostGraph PceGraph Demo Cspf Bandwidth Tenants Demand Pce Inventory Sid Registry Controller Telemetry.

(** ** Shapes *)

Record TopologyNodeSnapshot := {
  tns_ID : string; tns_Name : string; tns_ASN : Z; tns_ISISNet : string; tns_Loopback : string; tns_Locator : string;
  tns_Attrs : gmap string string;
}.

Record TopologyEdgeSnapshot := {
  tes_ID : string; tes_Local : string; tes_Remote : string; tes_Role : string;
  tes_LocalIface : string; tes_RemoteIface : string; tes_LocalAddr : string; tes_RemoteAddr : string;
  tes_Subnet : string; tes_Metric : Z; tes_TEMetric : Z; tes_Bandwidth : f64; tes_DelayMS : f64;
  tes_Costs : gmap CostDimension f64; tes_Up : bool; tes_EndX : string;
}.

Record PCEEdgeSnapshot := {
  pes_ID : PCEEdgeID; pes_Kind : string; pes_From : string; pes_To : string; pes_Members : list string;
  pes_Capacity : f64; pes_Costs : gmap CostDimension f64; pes_Reservation : option BandwidthReservationState;
}.

Record TopologyPrefixSnapshot := { tps_Origin : string; tps_Subnet : string; tps_Attrs : gmap string string }.

Record DomainSnapshot := { ds_LocatorPrefix : string; ds_LinkPrefix : string; ds_EdgePrefix : string }.

Record TopologySnapshot := {
  tos_Nodes : list TopologyNodeSnapshot; tos_Edges : list TopologyEdgeSnapshot; tos_PCEEdges : list PCEEdgeSnapshot;
  tos_Prefixes : list TopologyPrefixSnapshot; tos_Domain : DomainSnapshot;
}.

Record InventoryAccessSnapshot := {
  ias_Interface : string; ias_Address : string; ias_Aggregate : string; ias_Nexthop : string;
}.

Record InventoryNodeSnapshot := {
  ins_ID : string; ins_Name : string; ins_Index : Z; ins_ISISNet : string; ins_Locator : string; ins_Loopback : string;
  ins_Interfaces : list NodeInterface; ins_Access : option InventoryAccessSnapshot;
}.

Record RegistrySnapshot := {
  rgs_Nodes : gmap string NodeIntent; rgs_SIDCursor : Z; rgs_SIDsByTenant : gmap string string;
  rgs_AllocatedSIDs : list string;
}.

Record SiteSnapshot := {
  sis_TenantID : Z; sis_CPE : string; sis_PortalID : string; sis_Node : string; sis_Prefix : string;
  sis_Attach : string; sis_AttachNode : string; sis_IfID : Z; sis_Identity : string;
}.

Record TenantSnapshot := { tss_ID : Z; tss_Allocation : string; tss_VRFTable : Z; tss_Sites : list SiteSnapshot }.

Record ClassSnapshot := {
  cls_Label : Z; cls_Name : string; cls_Index : Z; cls_DSCP : list Z; cls_Objective : gmap CostDimension f64;
}.

Record CostModel := {
  cm_EdgeEpsilon : f64; cm_DelayRefMs : f64; cm_JitterRefMs : f64; cm_LossRef : f64; cm_UtilizationRef : f64;
}.

Definition SnapshotCostModel : CostModel :=
  {| cm_EdgeEpsilon := costEdgeEpsilon; cm_DelayRefMs := f_of_Z costDelayReferenceMs;
     cm_JitterRefMs := costJitterReferenceMs; cm_LossRef := costLossReference; cm_UtilizationRef := staticUtilizationRef |}.

Record PathSnapshot := {
  pas_Tenant : Z; pas_Label : Z; pas_Source : string; pas_Dest : string; pas_Nodes : list string;
  pas_Edges : list string; pas_Cost : f64;
}.

Record ControlSnapshot := {
  cts_PublishedAt : Time;
  cts_Topology : TopologySnapshot;
  cts_Inventory : list InventoryNodeSnapshot;
  cts_Registry : RegistrySnapshot;
  cts_Tenants : list TenantSnapshot;
  cts_Classes : list ClassSnapshot;
  cts_Paths : list PathSnapshot;
  cts_PathChanges : list PCETickReportReroute;
  cts_CostGraph : CostGraphReadiness;
  cts_CostModel : CostModel;
}.

(** ** Views *)

(** Neither infinite nor not a number: what JSON can carry. *)
Definition f_finite (x : f64) : bool := negb (is_inf_any x) && negb (is_nan x).

Definition finiteCosts (costs : gmap CostDimension f64) : gmap CostDimension f64 :=
  filter (λ dv, f_finite dv.2 = true) costs.

Definition prefixString (p : Prefix) : string := if prefix_is_valid p then prefix_string p else "".
Definition endXString (sid : Addr) : string := if addr_is_valid sid then addr_string sid else "".

Definition kindString (k : PCEEdgeKind) : string := match k with PCEEdgeLink => "link" | PCEEdgeBundle => "bundle" end.

(** [sort.Slice] by a string field. *)
Definition by_field {A} (f : A → string) (a b : A) : Prop := str_le (f a) (f b).
#[export] Instance by_field_dec {A} (f : A → string) : RelDecision (by_field f).
Proof. intros a b. unfold by_field. apply _. Defined.
Definition sort_by {A} (f : A → string) : list A → list A := merge_sort (by_field f).

Definition endpoint (node iface : string) : string := String.append node (String.append ":" iface).
Definition local_end (e : Edge) : string := endpoint (Edge_Local e) (Edge_LocalIface e).
Definition remote_end (e : Edge) : string := endpoint (Edge_Remote e) (Edge_RemoteIface e).

(** The key under which the two directions of a link meet. *)
Definition link_key (e : Edge) : string :=
  let local := local_end e in let remote := remote_end e in
  if String.ltb remote local then String.append remote (String.append "|" local)
  else String.append local (String.append "|" remote).

Definition dedupe_step (kept : gmap string Edge) (e : Edge) : gmap string Edge :=
  match kept !! link_key e with
  | None => <[link_key e := e]> kept
  | Some existing => if String.ltb (local_end e) (local_end existing) then <[link_key e := e]> kept else kept
  end.

Section snapshots.
Context `{RangeOrder}.

Definition dedupeEdges (edges : gmap EdgeID Edge) : list Edge :=
  (range_map (foldl dedupe_step ∅ (range_map edges).*2)).*2.

Definition snapshot_edge (costs : gmap CostGraphEdge Cost) (e : Edge) : TopologyEdgeSnapshot :=
  {| tes_ID := Edge_ID e; tes_Local := Edge_Local e; tes_Remote := Edge_Remote e; tes_Role := Edge_Role e;
     tes_LocalIface := Edge_LocalIface e; tes_RemoteIface := Edge_RemoteIface e;
     tes_LocalAddr := Edge_LocalAddr e; tes_RemoteAddr := Edge_RemoteAddr e; tes_Subnet := Edge_Subnet e;
     tes_Metric := Edge_Metric e; tes_TEMetric := Edge_TEMetric e; tes_Bandwidth := Edge_Bandwidth e;
     tes_DelayMS := (f_of_Z (Edge_Delay e) / f_of_Z Millisecond)%f64;
     tes_Costs := match costs !! CostKey e with Some c => finiteCosts (Costs c) | None => ∅ end;
     tes_Up := Edge_Up e; tes_EndX := endXString (Edge_EndX e) |}.

Definition snapshot_node (n : Node) : TopologyNodeSnapshot :=
  {| tns_ID := Node_ID n; tns_Name := Node_Name n; tns_ASN := Node_ASN n; tns_ISISNet := Node_ISISNet n;
     tns_Loopback := prefixString (Node_Loopback n); tns_Locator := prefixString (Node_Locator n);
     tns_Attrs := Node_Attrs n |}.

Definition snapshot_prefix (p : TopologyPrefix) : TopologyPrefixSnapshot :=
  {| tps_Origin := tp_Origin p; tps_Subnet := tp_Subnet p; tps_Attrs := tp_Attrs p |}.

Definition snapshot_pce_edge (costs : gmap CostGraphEdge Cost) (reservations : gmap PCEEdgeID BandwidthReservationState)
    (id : PCEEdgeID) (edge : PCEEdge) : PCEEdgeSnapshot :=
  {| pes_ID := id; pes_Kind := kindString (id_Kind id); pes_From := pe_NodeFrom edge; pes_To := pe_NodeTo edge;
     pes_Members := Edge_ID <$> pe_RealEdges edge; pes_Capacity := Capacity edge;
     pes_Costs := match EdgeCost edge costs with Some c => finiteCosts (Costs c) | None => ∅ end;
     pes_Reservation := reservations !! id |}.

Definition snapshotPCEEdges (g : PCEGraph) (costs : gmap CostGraphEdge Cost)
    (reservations : gmap PCEEdgeID BandwidthReservationState) : list PCEEdgeSnapshot :=
  omap (λ id, snapshot_pce_edge costs reservations id <$> pg_edges g !! id)
    (sort_edge_ids (range_map (pg_edges g)).*1).

Definition SnapshotTopology (graph : option Graph) (domain : SRv6DomainMetadata) (costs : CostGraph)
    (reservations : BandwidthReservationRegistry) : TopologySnapshot :=
  let d := {| ds_LocatorPrefix := prefixString (dm_LocatorPrefix domain); ds_LinkPrefix := prefixString (dm_LinkPrefix domain);
              ds_EdgePrefix := prefixString (dm_EdgePrefix domain) |} in
  match graph with
  | None => {| tos_Nodes := []; tos_Edges := []; tos_PCEEdges := []; tos_Prefixes := []; tos_Domain := d |}
  | Some g =>
      let costSnapshot := CostsSnapshot costs in
      let pceGraph := NewPCEGraph g in
      let reservationSnapshot := Snapshot reservations pceGraph in
      {| tos_Nodes := sort_by tns_ID (snapshot_node <$> (range_map (g_nodes g)).*2);
         tos_Edges := sort_by tes_ID (snapshot_edge costSnapshot <$> dedupeEdges (g_edges g));
         tos_PCEEdges := snapshotPCEEdges pceGraph costSnapshot reservationSnapshot;
         tos_Prefixes := sort_by tps_Subnet (snapshot_prefix <$> (range_map (g_prefixes g)).*2);
         tos_Domain := d |}
  end.

Definition snapshot_access (a : NodeAccess) : InventoryAccessSnapshot :=
  {| ias_Interface := na_Interface a; ias_Address := prefixString (na_Address a);
     ias_Aggregate := prefixString (na_Aggregate a); ias_Nexthop := addr_string (na_Nexthop a) |}.

Definition SnapshotInventory (inv : JSONNodeInventory) : list InventoryNodeSnapshot :=
  (λ n, {| ins_ID := in_ID n; ins_Name := in_Name n; ins_Index := in_Index n; ins_ISISNet := in_ISISNet n;
           ins_Locator := in_Locator n; ins_Loopback := in_Loopback n; ins_Interfaces := in_Interfaces n;
           ins_Access := snapshot_access <$> in_Access n |}) <$> Nodes inv.

Definition ServiceRegistry_Snapshot (r : ServiceRegistry) : RegistrySnapshot :=
  {| rgs_Nodes := Clone <$> sr_registry r; rgs_SIDCursor := sidCursor (sr_sids r);
     rgs_SIDsByTenant := addr_string <$> sidTenantMap (sr_sids r);
     rgs_AllocatedSIDs := sort_strings (addr_string <$> elements (sidAllocationMap (sr_sids r))) |}.

Definition snapshot_site (s : Site) : SiteSnapshot :=
  {| sis_TenantID := s_TenantID s; sis_CPE := s_CPE s; sis_PortalID := s_PortalID s; sis_Node := s_Node s;
     sis_Prefix := prefix_string (s_Prefix s); sis_Attach := s_Attach s; sis_AttachNode := s_AttachNode s;
     sis_IfID := s_IfID s; sis_Identity := s_Identity s |}.

Definition SnapshotTenants (repo : JSONTenantRepository) : list TenantSnapshot :=
  (λ t, {| tss_ID := t_ID t; tss_Allocation := prefix_string (t_Allocation t); tss_VRFTable := t_VRFTable t;
           tss_Sites := sort_by sis_CPE (snapshot_site <$> t_Sites t) |}) <$> Tenants repo.

Definition SnapshotClasses (repo : JSONTenantRepository) : list ClassSnapshot :=
  (λ c, {| cls_Label := tc_Label c; cls_Name := tc_Name c; cls_Index := tc_Index c; cls_DSCP := cm_DSCP (tc_Match c);
           cls_Objective := ClassObjective (Some c) |}) <$> Classes repo.

Definition snapshot_path (key : PathKey) (path : Path) : PathSnapshot :=
  {| pas_Tenant := pk_Tenant key; pas_Label := pk_Label key; pas_Source := pk_From key; pas_Dest := pk_To key;
     pas_Nodes := p_Nodes path; pas_Edges := p_Links path; pas_Cost := p_Cost path |}.

Definition SnapshotPaths (paths : PathSet) : list PathSnapshot :=
  omap (λ key, snapshot_path key <$> paths !! key) (merge_sort PathKey_le (range_map paths).*1).

(** [SnapshotPublisher.Snapshot]; [now] is read for the stamp, [now'] for the
    readiness.  Its inventory, registry and tenants are the controller's, which
    [startSnapshotPublisher] passes and which are never nil. *)
Definition ControlSnapshot_of (graph : option Graph) (domain : SRv6DomainMetadata) (inv : JSONNodeInventory)
    (r : ServiceRegistry) (repo : JSONTenantRepository) (p : PCE) (now now' : Time) : ControlSnapshot :=
  {| cts_PublishedAt := now;
     cts_Topology := SnapshotTopology graph domain (pce_costGraph p) (pce_bandwidthReservationReg p);
     cts_Inventory := SnapshotInventory inv;
     cts_Registry := ServiceRegistry_Snapshot r;
     cts_Tenants := SnapshotTenants repo;
     cts_Classes := SnapshotClasses repo;
     cts_Paths := SnapshotPaths (pce_PathStore p);
     cts_PathChanges := Recent (pce_Changes p);
     cts_CostGraph := Readiness (pce_costGraph p) now';
     cts_CostModel := SnapshotCostModel |}.
End snapshots.

(** ** Publishing *)

(** The numbers of a snapshot that are floating point. *)
Definition map_values {K} `{Countable K} {A} (m : gmap K A) : list A := (map_to_list m).*2.

Definition edge_floats (e : TopologyEdgeSnapshot) : list f64 := tes_Bandwidth e :: tes_DelayMS e :: map_values (tes_Costs e).
Definition pce_edge_floats (e : PCEEdgeSnapshot) : list f64 :=
  pes_Capacity e :: map_values (pes_Costs e) ++
  match pes_Reservation e with Some s => [bst_Bookable s; bst_Booked s; bst_Free s] | None => [] end.
Definition cause_floats (c : PathChangeCause) : list f64 := [pc_Was c; pc_Now c; pc_Delta c; pc_Share c].
Definition change_floats (c : PCETickReportReroute) : list f64 :=
  p_Cost (rr_FromPath c) :: p_Cost (rr_ToPath c) :: (rr_Causes c ≫= cause_floats).
Definition model_floats (m : CostModel) : list f64 :=
  [cm_EdgeEpsilon m; cm_DelayRefMs m; cm_JitterRefMs m; cm_LossRef m; cm_UtilizationRef m].

Definition snapshot_floats (s : ControlSnapshot) : list f64 :=
  (tos_Edges (cts_Topology s) ≫= edge_floats) ++ (tos_PCEEdges (cts_Topology s) ≫= pce_edge_floats) ++
  (cts_Classes s ≫= λ c, map_values (cls_Objective c)) ++ (pas_Cost <$> cts_Paths s) ++
  (cts_PathChanges s ≫= change_floats) ++ model_floats (cts_CostModel s).

(** [publish]: the snapshot reaches the bucket when it can be encoded, which an
    infinity or a NaN prevents, and the put succeeds. *)
Definition publish_snapshot (put_ok : bool) (s : ControlSnapshot) : option ControlSnapshot :=
  if forallb f_finite (snapshot_floats s) && put_ok then Some s else None.
