(* ===== verification/SnapshotCorrect.v ===== *)
(** The control snapshot can always be published: whatever the engine went
    through, every number in the snapshot is finite; and the topology view has
    each physical link once, whatever the order of map iteration. *)

From S2P Require Import Prelude Float64 FloatBounds Netip Topology CostGraph PceGraph Demo Cspf CspfCorrect Bandwidth Tenants Demand Pce PceCorrect Inventory Sid Registry Controller Telemetry TelemetryCorrect Snapshot.

(** ** Finite non-negative numbers *)

Definition fin (x : f64) : Prop := nn x ∧ val x < INF.

Lemma fin_finite x : fin x → f_finite x = true.
Proof. intros [Hn Hv]. destruct x as [| | |]; [done| |done|done]. simpl in Hv. lia. Qed.

Lemma fin_is_inf x : nn x → is_inf x = false → fin x.
Proof.
  intros Hn Hi. split; [done|]. pose proof (val_bound x Hn).
  destruct (decide (val x = INF)) as [He|]; [|lia]. apply is_inf_val in He; [congruence|done].
Qed.

Lemma fin_zero : fin f_zero.
Proof. by split. Qed.

Lemma pos_finite_fin x : pos_finite x → fin x.
Proof. destruct x as [| | |s m e]; try done. intros [-> Hb]. split; [done|]. by apply val_finite_INF. Qed.
#[export] Hint Resolve fin_zero fin_finite pos_finite_fin : maeto.

Lemma f_finite_opp x : f_finite (f_opp x) = f_finite x.
Proof. by destruct x. Qed.

(** The difference of two finite numbers is finite. *)
Lemma f_sub_finite x y : fin x → fin y → f_finite (f_sub x y) = true.
Proof.
  intros [Hx Hxf] [Hy Hyf]. destruct (Z.lt_trichotomy (val x) (val y)) as [Hlt|[He|Hgt]].
  - rewrite f_sub_swap by done. rewrite f_finite_opp. apply fin_finite, pos_finite_fin. by apply f_sub_pos.
  - destruct (f_sub_eq x y) as [Hn Hv]; try done. apply fin_finite. split; [done|]. rewrite Hv. done.
  - apply fin_finite, pos_finite_fin. by apply f_sub_pos.
Qed.

(** A difference that is not at most zero is positive. *)
Lemma f_sub_leb x y : fin x → fin y → f_leb (f_sub x y) f_zero = false → pos_finite (f_sub x y).
Proof.
  intros [Hx Hxf] [Hy Hyf] Hle. destruct (Z.lt_trichotomy (val x) (val y)) as [Hlt|[He|Hgt]].
  - exfalso. rewrite f_sub_swap in Hle by done. pose proof (f_sub_pos y x Hy Hx Hlt Hyf) as Hp.
    destruct (f_sub y x) as [| | |s m e]; try done. destruct Hp as [-> _]. done.
  - exfalso. destruct (f_sub_eq x y) as [Hn Hv]; try done. rewrite f_leb_val in Hle by done.
    apply Z.leb_gt in Hle. rewrite Hv in Hle. simpl in Hle. lia.
  - by apply f_sub_pos.
Qed.

(** A quotient of at most one is finite. *)
Lemma f_div_fin x y : nn x → pos_finite y → val x ≤ val y → fin (f_div x y).
Proof.
  intros Hx Hy Hle. split; [by apply f_div_nn|]. eapply Z.le_lt_trans; [by apply f_div_le_one|]. reflexivity.
Qed.

(** A sum of numbers of at most [2 ^ a], fewer than [2 ^ 53] of them, is at most
    the exact bound. *)
Lemma RND_multiple k a : 0 ≤ k < 2 ^ 53 → 0 ≤ a → RND (k * 2 ^ a) ≤ k * 2 ^ a.
Proof.
  intros Hk Ha. unfold RND. etransitivity; [apply Z.le_min_l|].
  destruct (decide (k = 0)) as [->|]; [by rewrite Z.mul_0_l, rne_0|].
  rewrite (rne_exact k _ a); [done| |done]. split; [apply drop_nonneg|]. unfold drop.
  rewrite Z.log2_mul_pow2 by lia. assert (Z.log2 k < 53) by (apply Z.log2_lt_pow2; lia). unfold prec. lia.
Qed.

Lemma f_sum_bound a (l : list f64) :
  0 ≤ a → Z.of_nat (length l) < 2 ^ 53 → Forall (λ x, nn x ∧ val x ≤ 2 ^ a) l →
  nn (foldl f_add f_zero l) ∧ val (foldl f_add f_zero l) ≤ Z.of_nat (length l) * 2 ^ a.
Proof.
  intros Ha Hlen HF. rewrite list.Forall_forall in HF.
  cut (Z.of_nat (length l) < 2 ^ 53 → nn (foldl f_add f_zero l) ∧ val (foldl f_add f_zero l) ≤ Z.of_nat (length l) * 2 ^ a); [auto|].
  apply (foldl_ind f_add (λ done t, Z.of_nat (length done) < 2 ^ 53 → nn t ∧ val t ≤ Z.of_nat (length done) * 2 ^ a)); [done|].
  intros done x t IH Hx. rewrite length_app. simpl. intros Hl. destruct IH as [Hn Hv]; [lia|]. destruct (HF x Hx) as [Hxn Hxv].
  destruct (f_add_spec t x Hn Hxn) as [Hnn ->]. split; [done|].
  etransitivity; [apply (RND_mono _ (Z.of_nat (length done + 1) * 2 ^ a)); [pose proof (val_nonneg t); pose proof (val_nonneg x); lia|lia]|].
  apply RND_multiple; lia.
Qed.

(** ** Causes *)

Definition latency_of (c : Cost) : f64 := map_get f_zero (Costs c) COSTDIM_LATENCY.
Definition latency_fin (costs : gmap CostGraphEdge Cost) : Prop := ∀ key c, costs !! key = Some c → fin (latency_of c).

Definition all_finite (l : list f64) : Prop := Forall (λ x, f_finite x = true) l.

Record causes_ok (acc : list PathChangeCause * f64) : Prop := {
  ca_total : nn acc.2;
  ca_each : Forall (λ c, fin (pc_Was c) ∧ fin (pc_Now c) ∧ pos_finite (pc_Delta c) ∧ val (pc_Delta c) ≤ val acc.2) acc.1;
}.

Section causes.
Context `{RangeOrder}.

Lemma cause_step_ok now acc kp :
  latency_fin now → fin (latency_of kp.2) → causes_ok acc → causes_ok (cause_step COSTDIM_LATENCY now acc kp).
Proof.
  intros Hnow Hwas [Ht He]. unfold cause_step. destruct (now !! kp.1) as [curr|] eqn:Hc; [|by split].
  fold (latency_of kp.2). fold (latency_of curr). pose proof (Hnow _ _ Hc) as Hcur.
  destruct (f_leb _ f_zero) eqn:Hle; [by split|]. apply f_sub_leb in Hle as Hp; [|done|done].
  pose proof (pos_finite_nn _ Hp) as Hpn. split; [by apply f_add_nn|]. simpl. apply list.Forall_app. split.
  - eapply list.Forall_impl; [exact He|]. intros c (? & ? & ? & Hv). split_and!; try done.
    etransitivity; [exact Hv|]. by apply f_add_inflate_l.
  - repeat constructor; try done; try apply Hwas; try apply Hcur. by apply f_add_inflate_r.
Qed.

Lemma attributeCauses_fin from was now :
  latency_fin was → latency_fin now → all_finite (attributeCauses from COSTDIM_LATENCY was now ≫= cause_floats).
Proof.
  intros Hwas Hnow. unfold attributeCauses. case_decide; [constructor|].
  assert (causes_ok (foldl (λ acc '(a, b), foldl (cause_step COSTDIM_LATENCY now) acc (range_map (CostsBetween was a b)))
    ([], f_zero) (hops (p_Nodes from)))) as Hok.
  { apply (foldl_ind _ (λ _ acc, causes_ok acc)); [by split; [|constructor]|]. intros _ [a b] acc Hacc _.
    apply (foldl_ind _ (λ _ acc, causes_ok acc)); [done|]. intros _ [k c] acc' Hacc' Hin%elem_of_range_map.
    apply cause_step_ok; [done| |done]. unfold CostsBetween in Hin. apply map_lookup_filter_Some in Hin as [Hin _]. by apply (Hwas k). }
  destruct (foldl _ _ _) as [causes total]. destruct Hok as [Ht He]. simpl in Ht, He.
  destruct (f_leb total f_zero) eqn:Hle; [constructor|]. apply list.Forall_forall. intros x.
  rewrite list_elem_of_bind. intros (c & Hx & Hc). rewrite merge_sort_Permutation, list_elem_of_filter, list_elem_of_fmap in Hc.
  destruct Hc as (_ & c' & -> & Hc'). rewrite list.Forall_forall in He. destruct (He c' Hc') as (Hw & Hn & Hp & Hv).
  assert (f_finite (pc_Delta c' / total)%f64 = true) as Hshare.
  { destruct (decide (val total < INF)) as [Hf|Hf].
    - apply fin_finite, f_div_fin; [by apply pos_finite_nn| |done].
      rewrite f_leb_val in Hle by done. apply Z.leb_gt in Hle. apply nn_pos_finite; [done|]. split; [exact Hle|done].
    - pose proof (val_bound _ Ht). assert (total = f_inf) as -> by (apply nn_val_INF; [done|lia]).
      destruct (pc_Delta c') as [| | |s m e]; try done. }
  unfold cause_floats in Hx. simpl in Hx.
  repeat (apply elem_of_cons in Hx as [->|Hx]); [by apply fin_finite..|by apply fin_finite, pos_finite_fin|done|].
  by apply not_elem_of_nil in Hx.
Qed.
End causes.

(** ** Costs of paths *)

Lemma computePath_fin g costs weights src dst p :
  pce_wf g → costs_nn costs → (∀ d w, weights !! d = Some w → pos_finite w) →
  computePath (Some g) costs src dst (Some (WeightedCost weights)) = Ok p → fin (p_Cost p).
Proof.
  intros Hwf Hc Hpos Hp. pose proof (λ id e, weighted_edge_nn g costs weights id e Hc Hpos) as Hnn.
  destruct (computePath_known _ _ _ _ _ _ Hp) as [Hs Hd].
  destruct (compute_in_spec g costs _ src dst Hwf Hnn Hs Hd) as [(es & Hw & _ & He & Hlt & Hopt)|[He _]];
    simpl in Hp; rewrite He in Hp; simplify_eq/=. by destruct (Hopt es Hw).
Qed.

Lemma rescorePath_nn path weights g costs :
  costs_nn costs → (∀ d w, weights !! d = Some w → pos_finite w) → nn (rescorePath path (WeightedCost weights) g costs).
Proof.
  intros Hc Hpos. unfold rescorePath. generalize f_zero (I : nn f_zero). induction (p_Edges path) as [|id ids IH]; intros t Ht; [done|].
  destruct (pg_edges g !! id) as [edge|] eqn:He; [|done]. apply IH, f_add_nn; [done|].
  by apply (weighted_edge_nn g costs weights id edge Hc Hpos He).
Qed.

(** Only the utilization dimension is rewritten by a tick. *)
Lemma UpdateCost_latency cg id x :
  latency_fin (CostsSnapshot cg) → latency_fin (CostsSnapshot (UpdateCost cg id COSTDIM_STATIC_UTILIZATION x)).
Proof.
  intros Hl key c. unfold UpdateCost, CostsSnapshot. destruct (cg_byID cg !! id) as [k|]; [|apply Hl]. simpl.
  rewrite lookup_alter_Some. intros [(-> & c' & Hc' & ->)|[_ Hc]]; [|by apply (Hl key)].
  unfold latency_of, map_get. simpl. rewrite lookup_insert_ne by done. by apply (Hl key).
Qed.

Lemma updateStatic_latency `{RangeOrder} reg g cg :
  latency_fin (CostsSnapshot cg) → latency_fin (CostsSnapshot (updateStaticBandwidthUtilizationCost reg g cg)).
Proof.
  intros Hl. unfold updateStaticBandwidthUtilizationCost.
  apply (foldl_ind _ (λ _ c, latency_fin (CostsSnapshot c))); [done|]. intros _ [id e] c Hc _.
  apply (foldl_ind _ (λ _ c, latency_fin (CostsSnapshot c))); [done|]. intros _ r c' Hc' _. by apply UpdateCost_latency.
Qed.

(** ** What the engine shows of itself *)

Definition paths_fin (paths : PathSet) : Prop := ∀ pk q, paths !! pk = Some q → fin (p_Cost q).
Definition changes_fin (cs : list PCETickReportReroute) : Prop := Forall (λ c, all_finite (change_floats c)) cs.

Lemma paths_fin_insert paths pk q : paths_fin paths → fin (p_Cost q) → paths_fin (<[pk := q]> paths).
Proof. intros Hp Hq pk' q'. rewrite lookup_insert_Some. intros [[_ <-]|[_ ?]]; [done|by eapply Hp]. Qed.

Lemma changes_fin_snoc cs c : changes_fin cs → all_finite (change_floats c) → changes_fin (cs ++ [c]).
Proof. intros Hcs Hc. apply list.Forall_app. split; [done|by apply list.Forall_singleton]. Qed.

Lemma Record_fin store changes : changes_fin store → changes_fin changes → changes_fin (Record_ store changes).
Proof.
  intros Hs Hc. unfold Record_. destruct changes; [done|]. apply Forall_take. by apply list.Forall_app.
Qed.

Lemma reroute_entry_fin env d kind from to causes :
  fin (p_Cost from) → fin (p_Cost to) → all_finite (causes ≫= cause_floats) →
  all_finite (change_floats (reroute_entry env d kind from to causes)).
Proof. intros Hf Ht Hc. unfold change_floats. simpl. constructor; [by apply fin_finite|]. constructor; [by apply fin_finite|done]. Qed.

Section views.
Context `{RangeOrder}.

Record view_ok (st : tick_state) : Prop := {
  vo_paths : paths_fin (ts_paths st);
  vo_reroutes : changes_fin (ts_reroutes st);
  vo_gated : changes_fin (ts_gated st);
  vo_latency : latency_fin (CostsSnapshot (ts_costGraph st));
}.

Context (env : tick_env).
Hypothesis Hcosts : costs_nn (te_costSnapshot env).
Hypothesis Hnow : latency_fin (te_costSnapshot env).
Hypothesis Hwas : latency_fin (te_previousCosts env).
Hypothesis Hprevious : paths_fin (te_previous env).

Lemma install_view d from edges entry stamp computed st :
  view_ok st → fin (p_Cost computed) → all_finite (change_floats entry) →
  view_ok (install env d from edges entry stamp computed st).
Proof.
  intros [Hp Hr Hg Hl] Hc He. unfold install. destruct (Move _ _ _ _ _) as [reg [e|]]; [by split|].
  split; simpl; [by apply paths_fin_insert|by apply changes_fin_snoc|done|by apply updateStatic_latency].
Qed.

Lemma gate_view d pk kind prev computed causes st :
  view_ok st → fin (p_Cost prev) → fin (p_Cost computed) → all_finite (causes ≫= cause_floats) →
  view_ok (set_path pk prev (add_gated (reroute_entry env d kind prev computed causes) st)).
Proof.
  intros [Hp Hr Hg Hl] Hc Hq Hcs. split; simpl; [by apply paths_fin_insert|done| |done].
  apply changes_fin_snoc; [done|by apply reroute_entry_fin].
Qed.

Lemma place_view d computed edges st :
  demand_ok d → fin (p_Cost computed) → view_ok st → view_ok (place env d computed edges st).
Proof.
  intros (_ & _ & Hw) Hc Hst. unfold place. destruct (te_previous env !! PathKey_of d) as [prev|] eqn:Hprev.
  2:{ apply install_view; [done|done|]. apply reroute_entry_fin; [apply fin_zero|done|constructor]. }
  set (cost := rescorePath _ _ _ _). set (prev' := if is_inf cost then prev else Path_set_Cost cost prev).
  assert (fin (p_Cost prev')) as Hp'.
  { unfold prev'. destruct (is_inf cost) eqn:Hi; [by eapply Hprevious|]. simpl. apply fin_is_inf; [by apply rescorePath_nn|done]. }
  assert (all_finite (attributeCauses prev' COSTDIM_LATENCY (te_previousCosts env) (te_costSnapshot env) ≫= cause_floats))
    as Hcs by by apply attributeCauses_fin.
  destruct (Path_Equal prev' computed).
  { destruct Hst. split; simpl; try done. by apply paths_fin_insert. }
  destruct (_ && _); [by apply gate_view|].
  destruct (match ts_lastReroute st !! PathKey_of d with Some _ => _ | None => _ end); [by apply gate_view|].
  apply install_view; [done|done|by apply reroute_entry_fin].
Qed.

Lemma demand_step_view d st :
  pce_wf (te_graph env) → costs_nn (CostsSnapshot (ts_costGraph st)) → demand_ok d → view_ok st →
  view_ok (demand_step env st d).
Proof.
  intros Hwf Hc Hd Hst. unfold demand_step.
  destruct (computePath _ _ _ _ _) as [p|] eqn:Hp; [|done]. destruct (mapM _ _) as [edges|]; [|done].
  apply place_view; [done| |done]. simpl. apply computePath_fin in Hp; [done|by apply PruneGraph_wf|done|].
  by destruct Hd as (_ & _ & ?).
Qed.
End views.

(** The engine from its creation on, as [reachable], with measurements whose
    latencies are finite, which is what telemetry delivers. *)
Inductive observed (holdDown : Duration) : PCE → Prop :=
  | obs_new cg :
      costs_nn (CostsSnapshot cg) → latency_fin (CostsSnapshot cg) → observed holdDown (NewPCE cg holdDown)
  | obs_measured p cg :
      observed holdDown p → costs_nn (CostsSnapshot cg) → latency_fin (CostsSnapshot cg) → observed holdDown (with_costs p cg)
  | obs_tick (o : RangeOrder) p g repo t_ready now t_links :
      observed holdDown p → topology_ok g → repo_ok repo → observed holdDown (tick p g repo t_ready now t_links).1.1.

Lemma observed_reachable holdDown p : observed holdDown p → reachable holdDown p.
Proof. induction 1; by constructor. Qed.

Record view_inv (p : PCE) : Prop := {
  vi_latency : latency_fin (CostsSnapshot (pce_costGraph p));
  vi_previous : latency_fin (pce_previousCosts p);
  vi_paths : paths_fin (pce_PathStore p);
  vi_changes : changes_fin (pce_Changes p);
}.

Lemma tick_view `{RangeOrder} p g repo t_ready now t_links :
  pce_inv p → view_inv p → topology_ok g → repo_ok repo → view_inv (tick p g repo t_ready now t_links).1.1.
Proof.
  intros [Hres Hroutes Hreg Hnn Hcosts _] [Hl Hpl Hp Hc] Hg Hrepo.
  destruct (IsReady (pce_costGraph p) t_ready) eqn:Hr; [|by rewrite tick_skipped].
  rewrite tick_ran by done. simpl.
  assert (graph_usable (tick_graph p g t_links)) as Hus by (by apply topology_usable, updateLinkStates_ok).
  assert (costs_nn (CostsSnapshot (tick_costs p g t_links))) as Htc by by apply updateStatic_nn.
  assert (latency_fin (CostsSnapshot (tick_costs p g t_links))) as Htl by by apply updateStatic_latency.
  assert (loop_ok (end_of_tick p g repo now t_links) ∧ view_ok (end_of_tick p g repo now t_links)) as [_ [H1 H2 H3 H4]].
  { apply (foldl_ind (demand_step (env_of_tick p g now t_links)) (λ _ st, loop_ok st ∧ view_ok st)).
    - split; split; simpl; try done; by constructor.
    - intros _ d st [Hst Hv] Hd. assert (demand_ok d) by by apply (repo_demand_ok repo). split.
      + apply demand_step_ok; try done. apply NewPCEGraph_wf.
      + apply demand_step_view; try done; [apply NewPCEGraph_wf|by destruct Hst]. }
  split; simpl; try done. by apply Record_fin; [apply Record_fin|].
Qed.

Lemma observed_view holdDown p : observed holdDown p → view_inv p.
Proof.
  induction 1 as [cg Hn Hl|p cg Hp [? ? ? ?] Hn Hl|o p g repo t1 t2 t3 Hp IH Hg Hrepo].
  - split; simpl; [done|intros k c; by rewrite lookup_empty|intros k c; by rewrite lookup_empty|constructor].
  - by split.
  - apply tick_view; try done. by apply (reachable_inv holdDown), observed_reachable.
Qed.

(** ** The floats of a snapshot *)

Lemma all_finite_costs costs : all_finite (map_values (finiteCosts costs)).
Proof.
  apply list.Forall_forall. intros x ([d v] & -> & Hin%elem_of_map_to_list)%list_elem_of_fmap.
  unfold finiteCosts in Hin. by apply map_lookup_filter_Some in Hin as [_ ?].
Qed.

Lemma all_finite_bind {A} (f : A → list f64) l : (∀ a, a ∈ l → all_finite (f a)) → all_finite (l ≫= f).
Proof.
  intros Hf. apply list.Forall_forall. intros x (a & Hx & Ha)%list_elem_of_bind.
  pose proof (Hf a Ha) as HF. unfold all_finite in HF. rewrite list.Forall_forall in HF. by apply HF.
Qed.

Record edge_plain (e : Edge) : Prop := {
  ep_bandwidth : fin (Edge_Bandwidth e);
  ep_delay : 0 ≤ Edge_Delay e ≤ max_duration;
}.

Lemma delay_finite d : 0 ≤ d ≤ max_duration → f_finite (f_of_Z d / f_of_Z Millisecond)%f64 = true.
Proof.
  intros Hd. unfold max_duration in Hd. destruct (f_of_Z_spec d) as [Hn Hv]; [lia|].
  assert (val (f_of_Z d) ≤ 2 ^ 1138) as Hb.
  { rewrite Hv. change (2 ^ 1138) with (RND (2 ^ 64 * 2 ^ 1074)). apply RND_mono; [lia|]. apply Z.mul_le_mono_nonneg_r; lia. }
  assert (2 ^ 1138 < INF) as Hinf by reflexivity.
  assert (f_of_Z Millisecond = S754_finite false 8589934592000000 (-33)) as -> by reflexivity.
  apply fin_finite. split; [apply f_div_nn; [done|by split]|].
  eapply Z.le_lt_trans; [apply f_div_le_double; [done|reflexivity|lia|vm_compute; discriminate|lia]|].
  assert (2 * 2 ^ 1138 + 1 < INF) by reflexivity. lia.
Qed.

Lemma snapshot_edge_finite costs e : edge_plain e → all_finite (edge_floats (snapshot_edge costs e)).
Proof.
  intros [Hb Hd]. constructor; [by apply fin_finite|]. constructor; [by apply delay_finite|]. simpl.
  destruct (costs !! CostKey e); [apply all_finite_costs|]. unfold map_values. rewrite map_to_list_empty. constructor.
Qed.

Lemma val_one : val f_one = 2 ^ 1074.
Proof. reflexivity. Qed.

Lemma Capacity_fin e : fin (Edge_Bandwidth e) → fin (Capacity (link_of e)).
Proof.
  intros [Hn Hv]. unfold Capacity, link_of. cbn [pe_RealEdges length foldl].
  change (f_of_Z (Z.of_nat 1)) with f_one. destruct (f_min_nn f_inf (Edge_Bandwidth e)) as [Hm Hmv]; [done|done|].
  assert (val (f_min f_inf (Edge_Bandwidth e)) < INF) as Hlt by (rewrite Hmv; lia).
  destruct (f_mul_le f_one (f_min f_inf (Edge_Bandwidth e)) (f_min f_inf (Edge_Bandwidth e))) as [H1 H2];
    [done|done|done|reflexivity|done|rewrite val_one; lia|]. split; [done|lia].
Qed.

Lemma bookable_fin e : fin (Capacity e) → fin (bookable e).
Proof.
  intros [Hn Hv]. unfold bookable. assert (val one_minus_headroom ≤ 2 ^ 1074) by (vm_compute; discriminate).
  destruct (f_mul_le (Capacity e) one_minus_headroom (Capacity e)) as [H1 H2];
    [done|vm_compute; by split|done|done|vm_compute; reflexivity| |split; [done|lia]].
  apply Z.mul_le_mono_nonneg_l; [apply val_nonneg|done].
Qed.

(** Loads of at most [2 ^ 64] Mbps, and fewer than [2 ^ 53] tenants on an edge. *)
Definition loads_modest `{RangeOrder} (reg : BandwidthReservationRegistry) : Prop :=
  ∀ id e, reg !! id = Some e → Z.of_nat (size (be_Bookings e)) < 2 ^ 53 ∧
    ∀ t entry, be_Bookings e !! t = Some entry → val (CalculateReservedBandwidth entry) ≤ 2 ^ 1138.

Section floats.
Context `{RangeOrder}.

Lemma booked_fin reg id e :
  registry_nn reg → loads_modest reg → reg !! id = Some e →
  fin (foldl (λ b e, (b + CalculateReservedBandwidth e)%f64) f_zero (range_map (be_Bookings e)).*2).
Proof.
  intros Hnn Hm He. destruct (Hm id e He) as [Hsize Hload].
  set (l := CalculateReservedBandwidth <$> (range_map (be_Bookings e)).*2).
  assert (foldl (λ b e, (b + CalculateReservedBandwidth e)%f64) f_zero (range_map (be_Bookings e)).*2 = foldl f_add f_zero l) as ->.
  { unfold l. generalize f_zero. induction (range_map (be_Bookings e)).*2 as [|x xs IH]; intros z; [done|]. apply IH. }
  assert (length l = size (be_Bookings e)) as Hlen by (unfold l; by rewrite !length_fmap, range_map_length).
  destruct (f_sum_bound 1138 l) as [Hn Hv]; [lia|by rewrite Hlen| |].
  - apply list.Forall_forall. intros x (entry & -> & ([t entry'] & -> & Hin%elem_of_range_map)%list_elem_of_fmap)%list_elem_of_fmap.
    simpl. split; [|by eapply Hload]. apply CalculateReservedBandwidth_nn. intros k r Hk.
    apply (Hnn id t k). unfold booking. rewrite He. simpl. by rewrite Hin.
  - split; [done|]. rewrite Hlen in Hv.
    assert (Z.of_nat (size (be_Bookings e)) * 2 ^ 1138 ≤ 2 ^ 53 * 2 ^ 1138) by (apply Z.mul_le_mono_nonneg_r; lia).
    assert (2 ^ 53 * 2 ^ 1138 < INF) by reflexivity. lia.
Qed.

Lemma Snapshot_finite reg g id s :
  registry_nn reg → loads_modest reg → (∀ id e, pg_edges g !! id = Some e → fin (Capacity e)) →
  Snapshot reg g !! id = Some s → all_finite [bst_Bookable s; bst_Booked s; bst_Free s].
Proof.
  intros Hnn Hm Hcap. unfold Snapshot. rewrite map_lookup_imap. destruct (pg_edges g !! id) as [e|] eqn:He; [|done]. simpl.
  pose proof (bookable_fin e (Hcap _ _ He)) as Hb.
  assert (fin (foldl (λ b e, (b + CalculateReservedBandwidth e)%f64) f_zero
    match reg !! id with Some rEdge => (range_map (be_Bookings rEdge)).*2 | None => [] end)) as Hf.
  { destruct (reg !! id) as [re|] eqn:Hre; [by eapply booked_fin|apply fin_zero]. }
  intros [= <-]. simpl. constructor; [by apply fin_finite|]. constructor; [by apply fin_finite|].
  constructor; [by apply f_sub_finite|constructor].
Qed.

Lemma dedupe_from edges e : e ∈ dedupeEdges edges → ∃ id, edges !! id = Some e.
Proof.
  unfold dedupeEdges. intros ([k e'] & -> & Hin%elem_of_range_map)%list_elem_of_fmap. revert Hin. simpl.
  apply (foldl_ind dedupe_step (λ _ kept, kept !! k = Some e' → ∃ id, edges !! id = Some e')); [by rewrite lookup_empty|].
  intros _ x kept IH ([id x'] & -> & Hx%elem_of_range_map)%list_elem_of_fmap. simpl. unfold dedupe_step.
  assert (<[link_key x' := x']> kept !! k = Some e' → ∃ id, edges !! id = Some e') as Hins.
  { rewrite lookup_insert_Some. intros [[_ <-]|[_ ?]]; eauto. }
  destruct (kept !! link_key x'); [|done]. by destruct (String.ltb _ _).
Qed.

Lemma ClassObjective_finite repo c :
  repo_ok repo → c ∈ Classes repo → all_finite (map_values (ClassObjective (Some c))).
Proof.
  intros Hrepo Hc. unfold Classes in Hc. rewrite merge_sort_Permutation, list_elem_of_fmap in Hc.
  destruct Hc as ([l c'] & -> & Hin%elem_of_range_map). apply list.Forall_forall. simpl.
  intros x ([d v] & -> & Hv%elem_of_map_to_list)%list_elem_of_fmap. simpl.
  unfold ClassObjective in Hv. destruct (_ =? _).
  - unfold defaultClassObjective in Hv. apply lookup_singleton_Some in Hv as [_ <-]. done.
  - destruct (rk_weight _ Hrepo _ _ _ _ Hin Hv) as [? ?]. by apply fin_finite, fin_is_inf.
Qed.
End floats.

(** ** Results *)

(** C13: the snapshot can always be published.  An infinity or a NaN anywhere in
    it would make its encoding fail and leave the pane without updates; but in
    whatever state the engine is, with links down or full and paths broken, on a
    topology and with classes of ordinary numbers and loads within reason, every
    number of the control snapshot is finite, in any order of map iteration. *)
Theorem snapshot_publishable `{RangeOrder} holdDown p graph domain inv r repo now now' :
  observed holdDown p → repo_ok repo → loads_modest (pce_bandwidthReservationReg p) →
  (∀ g, graph = Some g → topology_ok g ∧ ∀ id e, g_edges g !! id = Some e → edge_plain e) →
  let s := ControlSnapshot_of graph domain inv r repo p now now' in
  all_finite (snapshot_floats s) ∧ publish_snapshot true s = Some s.
Proof.
  intros Hobs Hrepo Hmod Hgraph s. pose proof (observed_view _ _ Hobs) as [_ _ Hpaths Hchanges].
  pose proof (pi_nn _ (reachable_inv _ _ (observed_reachable _ _ Hobs))) as Hnn.
  assert (all_finite (snapshot_floats s)) as Hall.
  { unfold snapshot_floats, s, ControlSnapshot_of. cbn [cts_Topology cts_Classes cts_Paths cts_PathChanges cts_CostModel].
    repeat (apply list.Forall_app; split).
    - destruct graph as [g|]; [|constructor]. destruct (Hgraph g eq_refl) as [_ He]. apply all_finite_bind. simpl.
      intros a. unfold sort_by. rewrite merge_sort_Permutation, list_elem_of_fmap.
      intros (e & -> & [id Hid]%dedupe_from). apply snapshot_edge_finite. by eapply He.
    - destruct graph as [g|]; [|constructor]. destruct (Hgraph g eq_refl) as [Hg He]. apply all_finite_bind. simpl.
      intros a (id & _ & (edge & Hedge & ->)%fmap_Some_1)%list_elem_of_omap.
      assert (∀ id e, pg_edges (NewPCEGraph g) !! id = Some e → fin (Capacity e)) as Hcap.
      { intros id' pe (i & e & Hi & _ & _ & ->)%NewPCEGraph_edges; [|apply Hg]. apply Capacity_fin. by apply (He i). }
      constructor; [by eapply fin_finite, Hcap|]. apply list.Forall_app. split.
      + simpl. destruct (EdgeCost edge _); [apply all_finite_costs|]. unfold map_values. rewrite map_to_list_empty. constructor.
      + simpl. destruct (Snapshot _ _ !! id) as [st|] eqn:Hst; [|constructor]. by eapply Snapshot_finite.
    - apply all_finite_bind. intros a (c & -> & Hc)%list_elem_of_fmap. by apply (ClassObjective_finite repo).
    - apply list.Forall_forall. intros x (a & -> & (k & _ & (q & Hq & ->)%fmap_Some_1)%list_elem_of_omap)%list_elem_of_fmap.
      apply fin_finite. by eapply Hpaths.
    - apply all_finite_bind. intros c Hc. unfold Recent in Hc. unfold changes_fin in Hchanges.
      rewrite list.Forall_forall in Hchanges. by apply Hchanges.
    - repeat constructor. }
  split; [done|]. unfold publish_snapshot. replace (forallb f_finite (snapshot_floats s)) with true; [done|].
  symmetry. apply Is_true_true, forallb_True. eapply list.Forall_impl; [exact Hall|]. intros x ->. done.
Qed.

(** ** Each link once *)

Lemma ltb_false_le a b : String.ltb a b = false → str_le b a.
Proof.
  unfold str_le, String.ltb, String.leb. rewrite (String.compare_antisym a b).
  destruct (String.compare b a); simpl; done.
Qed.

Lemma ltb_true_le a b : String.ltb a b = true → str_le a b.
Proof. unfold str_le, String.ltb, String.leb. by destruct (String.compare a b). Qed.

(** What is kept of the edges in [l]: per link, the direction from its smaller
    end. *)
Record kept_ok (l : list Edge) (kept : gmap string Edge) : Prop := {
  kp_min : ∀ k e, kept !! k = Some e → e ∈ l ∧ link_key e = k ∧
    ∀ e', e' ∈ l → link_key e' = k → str_le (local_end e) (local_end e');
  kp_all : ∀ e, e ∈ l → is_Some (kept !! link_key e);
}.

Lemma dedupe_step_ok l kept e : kept_ok l kept → kept_ok (l ++ [e]) (dedupe_step kept e).
Proof.
  intros [Hmin Hall]. unfold dedupe_step.
  assert (∀ x, (kept !! link_key e = Some x → str_le (local_end e) (local_end x)) → kept !! link_key e = Some x ∨ kept !! link_key e = None →
    kept_ok (l ++ [e]) (<[link_key e := e]> kept)) as Hins.
  { intros x Hx Hk. split.
    - intros k e0. rewrite lookup_insert_Some. intros [[<- <-]|[Hne H0]].
      + split; [set_solver|]. split; [done|]. intros e' [Hin| ->%list_elem_of_singleton]%elem_of_app Hke; [|reflexivity].
        destruct Hk as [Hk|Hk]; [|destruct (Hall e' Hin) as [y Hy]; rewrite Hke, Hk in Hy; done].
        destruct (Hmin _ _ Hk) as (_ & _ & Hm). etrans; [by apply Hx|by apply Hm].
      + destruct (Hmin _ _ H0) as (? & Hke & Hm). split; [set_solver|]. split; [done|].
        intros e' [Hin| ->%list_elem_of_singleton]%elem_of_app; [by apply Hm|done].
    - intros e' [Hin| ->%list_elem_of_singleton]%elem_of_app.
      + destruct (decide (link_key e = link_key e')) as [<-|]; [rewrite lookup_insert_eq; eauto|rewrite lookup_insert_ne by done; auto].
      + rewrite lookup_insert_eq. eauto. }
  destruct (kept !! link_key e) as [x|] eqn:Hk; [|apply (Hins e); [done|by right]].
  destruct (String.ltb (local_end e) (local_end x)) eqn:Hlt.
  { apply (Hins x); [intros; by apply ltb_true_le|by left]. }
  apply ltb_false_le in Hlt. split.
  - intros k e0 H0. destruct (Hmin _ _ H0) as (? & Hke & Hm). split; [set_solver|]. split; [done|].
    intros e' [Hin| ->%list_elem_of_singleton]%elem_of_app Hke'; [by apply Hm|].
    assert (x = e0) as -> by congruence. done.
  - intros e' [Hin| ->%list_elem_of_singleton]%elem_of_app; [by apply Hall|eauto].
Qed.

(** The topology view shows every link once, in the direction from its smaller
    end, whatever the order of iteration. *)
Theorem dedupeEdges_once `{RangeOrder} edges :
  NoDup (link_key <$> dedupeEdges edges) ∧
  (∀ id e, edges !! id = Some e → ∃ e', e' ∈ dedupeEdges edges ∧ link_key e' = link_key e) ∧
  (∀ e, e ∈ dedupeEdges edges → (∃ id, edges !! id = Some e) ∧
     ∀ id e', edges !! id = Some e' → link_key e' = link_key e → str_le (local_end e) (local_end e')).
Proof.
  set (l := (range_map edges).*2). set (kept := foldl dedupe_step ∅ l).
  assert (kept_ok l kept) as [Hmin Hall].
  { apply (foldl_ind dedupe_step kept_ok); [|intros; by apply dedupe_step_ok].
    split; [intros k e; by rewrite lookup_empty|by intros e ?%not_elem_of_nil]. }
  assert (∀ e, e ∈ l ↔ ∃ id, edges !! id = Some e) as Hl.
  { intros e. unfold l. rewrite list_elem_of_fmap. split.
    - intros ([id e'] & -> & Hin%elem_of_range_map). eauto.
    - intros [id Hid]. exists (id, e). split; [done|]. by apply elem_of_range_map. }
  assert (∀ e, e ∈ dedupeEdges edges ↔ kept !! link_key e = Some e) as Hd.
  { intros e. unfold dedupeEdges. fold l kept. rewrite list_elem_of_fmap. split.
    - intros ([k e'] & -> & Hin%elem_of_range_map). simpl. by destruct (Hmin _ _ Hin) as (_ & -> & _).
    - intros Hk. exists (link_key e, e). split; [done|]. by apply elem_of_range_map. }
  split_and!.
  - unfold dedupeEdges. fold l kept. rewrite <-list_fmap_compose.
    erewrite (list_fmap_ext _ fst); [apply NoDup_range_map_fst|].
    intros i [k e] Hi%list_elem_of_lookup_2. apply elem_of_range_map in Hi. simpl. by destruct (Hmin _ _ Hi) as (_ & ? & _).
  - intros id e He. destruct (Hall e) as [e' He']; [apply Hl; eauto|]. exists e'.
    destruct (Hmin _ _ He') as (_ & Hk & _). rewrite Hd, Hk. done.
  - intros e He%Hd. destruct (Hmin _ _ He) as (Hin & _ & Hm). split; [by apply Hl|].
    intros id e' He' Hk. apply Hm; [apply Hl; eauto|done].
Qed.

(** ** Witnesses *)

Lemma demo_latency_fin : latency_fin (CostsSnapshot demo_cost_graph).
Proof.
  intros k c Hk. assert (map_Forall (λ _ c, nn (latency_of c) ∧ val (latency_of c) < INF) (CostsSnapshot demo_cost_graph)) as HF
    by (apply (bool_decide_unpack _); vm_compute; exact I).
  exact (HF k c Hk).
Qed.

Lemma demo_pce_observed : observed (30 * Second) demo_pce.
Proof.
  apply obs_tick; [|apply demo_topology_ok|apply demo_repo_ok]. apply obs_new; [apply demo_costs_nn|apply demo_latency_fin].
Qed.

(** The tick after the voice path's first link fell silent. *)
Definition demo_broken : PCE :=
  (tick (H := canonical_order) demo_down demo_topology demo_repo demo_later demo_later demo_later).1.1.

Lemma MarkSeen_latency cg id t : latency_fin (CostsSnapshot cg) → latency_fin (CostsSnapshot (MarkSeen cg id t)).
Proof. done. Qed.

Lemma demo_broken_observed : observed (30 * Second) demo_broken.
Proof.
  apply obs_tick; [|apply demo_topology_ok|apply demo_repo_ok]. apply obs_measured; [apply demo_pce_observed| |].
  - apply MarkSeen_nn. apply (pi_costs _ (reachable_inv _ _ demo_pce_reachable)).
  - apply MarkSeen_latency, (vi_latency _ (observed_view _ _ demo_pce_observed)).
Qed.

Lemma demo_loads_modest : loads_modest (H := canonical_order) (pce_bandwidthReservationReg demo_broken).
Proof.
  intros id e He.
  assert (map_Forall (λ _ e, Z.of_nat (size (be_Bookings e)) < 2 ^ 53 ∧
    map_Forall (λ _ en, val (CalculateReservedBandwidth (H := canonical_order) en) ≤ 2 ^ 1138) (be_Bookings e))
    (pce_bandwidthReservationReg demo_broken)) as HF by (apply (bool_decide_unpack _); vm_compute; exact I).
  exact (HF id e He).
Qed.

Lemma demo_edges_plain id e : g_edges demo_topology !! id = Some e → edge_plain e.
Proof.
  intros He. assert (map_Forall (λ _ e, (nn (Edge_Bandwidth e) ∧ val (Edge_Bandwidth e) < INF) ∧
    0 ≤ Edge_Delay e ≤ max_duration) (g_edges demo_topology)) as HF by (apply (bool_decide_unpack _); vm_compute; exact I).
  destruct (HF id e He) as [? ?]. split; [exact H|exact H0].
Qed.

Definition demo_snapshot : ControlSnapshot :=
  ControlSnapshot_of (H := canonical_order) (Some demo_topology)
    {| dm_LocatorPrefix := prefix_zero; dm_LinkPrefix := prefix_zero; dm_EdgePrefix := prefix_zero |}
    demo_inventory demo_registry demo_repo demo_broken demo_later demo_later.

Lemma snapshot_publishable_witness :
  publish_snapshot true demo_snapshot = Some demo_snapshot ∧
  existsb (λ c, match rr_Kind c with PathChangeLinkDown => true | _ => false end) (cts_PathChanges demo_snapshot) = true ∧
  length (tos_Edges (cts_Topology demo_snapshot)) = 3%nat.
Proof.
  split; [|vm_compute; split; reflexivity].
  destruct (@snapshot_publishable canonical_order (30 * Second) demo_broken (Some demo_topology)
    {| dm_LocatorPrefix := prefix_zero; dm_LinkPrefix := prefix_zero; dm_EdgePrefix := prefix_zero |}
    demo_inventory demo_registry demo_repo demo_later demo_later demo_broken_observed demo_repo_ok demo_loads_modest) as [_ Hp].
  - intros g [= <-]. split; [apply demo_topology_ok|apply demo_edges_plain].
  - exact Hp.
Defined.
