(* ===== verification/Lifecycle.v ===== *)
(** The versions of intents over the life of the control plane: transactions
    whose snapshots reach the database and the bucket in any interleaving
    (service_registry_tx.go, service_registry_cpe.go), the table of generations
    (libs/store/control.sql.go), and restarts (service_registry.go), against
    the check by which a node refuses stale intents. *)

From S2P Require Import Prelude Float64 Netip Topology CostGraph PceGraph Cspf Bandwidth Tenants Demand Inventory Sid Registry Controller Resource Reconcile Demo.

(** ** The table of generations *)

Definition NodeType_string (t : NodeType) : string :=
  match t with NodeTypeCPE => "cpe" | NodeTypePE => "pe" | NodeTypeOther s => s end.

Definition NodeType_of (s : string) : NodeType :=
  if decide (s = "cpe"%string) then NodeTypeCPE else if decide (s = "pe"%string) then NodeTypePE else NodeTypeOther s.

Record GenerationRow := { gr_Version : Z; gr_Generation : Z }.

Notation generation_table := (gmap (string * string) GenerationRow).

Definition UpsertNodeGeneration (rows : generation_table) (snapshot : NodeIntent) : generation_table :=
  <[(NodeType_string (ni_NodeType snapshot), ni_ID snapshot) :=
      {| gr_Version := ni_Version snapshot; gr_Generation := ni_Generation snapshot |}]> rows.

(** ORDER BY node_type, node_id. *)
Definition generation_row_le (a b : (string * string) * GenerationRow) : Prop :=
  if decide (a.1.1 = b.1.1) then str_le a.1.2 b.1.2 else str_le a.1.1 b.1.1.
#[export] Instance generation_row_le_dec : RelDecision generation_row_le.
Proof. intros a b. unfold generation_row_le. case_decide; apply _. Defined.

Definition ListNodeGenerations (rows : generation_table) : list NodeGeneration :=
  (λ kr, {| ng_NodeType := NodeType_of kr.1.1; ng_NodeID := kr.1.2; ng_Version := gr_Version kr.2 |}) <$>
    merge_sort generation_row_le (map_to_list rows).

(** ** The control plane *)

(** The registry, the table, the snapshots of running calls that wait for their
    row ([ct_waiting]) or have it and wait to be published ([ct_stored]), and
    all that was published, oldest first. *)
Record control := {
  ct_registry : ServiceRegistry;
  ct_rows : generation_table;
  ct_waiting : list (string * NodeIntent);
  ct_stored : list (string * NodeIntent);
  ct_published : list (string * NodeIntent);
}.

Definition control_start (cursor : Z) : control :=
  {| ct_registry := {| sr_registry := ∅; sr_sids := restart [] cursor |}; ct_rows := ∅;
     ct_waiting := []; ct_stored := []; ct_published := [] |}.

(** What goroutines do, one critical section or one outside call at a time:
    [CommitLocked] is [Commit] up to its unlock, [UpsertCPELocked] the same part
    of [UpsertCPEIntentForSite], [StageSID] a SID the dispatcher asks for while
    it stages.  [StoreRow i ok] and [PublishSnapshot i ok] are the two calls on
    the [i]-th snapshot that waits for them.  [RestartControl] ends the process,
    with what it had under way, and starts it again. *)
Inductive control_op :=
  | CommitLocked (db_fails : string → bool) (tx : RegistryTx) (now : Time)
  | UpsertCPELocked (portalID : string) (cpe : CPEIntent) (now : Time)
  | PortalAuthenticates (inv : JSONNodeInventory) (repo : JSONTenantRepository) (portalID : string) (now : Time)
  | StageSID (db_fails : bool) (locator : Prefix) (tenantID : string)
  | StoreRow (i : nat) (ok : bool)
  | PublishSnapshot (i : nat) (ok : bool)
  | RestartControl (now : Time).

Section control.
Context `{RangeOrder}.

Definition commit_locked (db_fails : string → bool) (r : ServiceRegistry) (tx : RegistryTx) (now : Time) : commit_state :=
  foldl (commit_node db_fails now) {| cs_reg := r; cs_snapshots := ∅; cs_errors := [] |} (range_map tx).

Definition upsert_cpe_locked (r : ServiceRegistry) (portalID : string) (cpe : CPEIntent) (now : Time) : NodeIntent :=
  bump (getOrCreateRegistryEntryForCPE (sr_registry r) portalID now) (IntentCPE cpe) now.

Definition run_control_op (s : control) (op : control_op) : control :=
  let r := ct_registry s in
  match op with
  | CommitLocked db_fails tx now =>
      let st := commit_locked db_fails r tx now in
      {| ct_registry := cs_reg st; ct_rows := ct_rows s;
         ct_waiting := ct_waiting s ++ range_map (cs_snapshots st);
         ct_stored := ct_stored s; ct_published := ct_published s |}
  | UpsertCPELocked portalID cpe now =>
      let e := upsert_cpe_locked r portalID cpe now in
      {| ct_registry := {| sr_registry := <[portalID := e]> (sr_registry r); sr_sids := sr_sids r |}; ct_rows := ct_rows s;
         ct_waiting := ct_waiting s ++ [(Key PrefixCPE portalID LaneIntent, Clone e)];
         ct_stored := ct_stored s; ct_published := ct_published s |}
  | PortalAuthenticates inv repo portalID now =>
      {| ct_registry := portalAuth inv repo r portalID now; ct_rows := ct_rows s; ct_waiting := ct_waiting s;
         ct_stored := ct_stored s; ct_published := ct_published s |}
  | StageSID db_fails locator tenantID =>
      {| ct_registry := {| sr_registry := sr_registry r;
                           sr_sids := (getOrGenerateSID db_fails locator tenantID EncapTypeDT46 (sr_sids r)).1 |};
         ct_rows := ct_rows s; ct_waiting := ct_waiting s; ct_stored := ct_stored s; ct_published := ct_published s |}
  | StoreRow i ok =>
      match ct_waiting s !! i with
      | None => s
      | Some ks =>
          {| ct_registry := r; ct_rows := if ok then UpsertNodeGeneration (ct_rows s) ks.2 else ct_rows s;
             ct_waiting := delete i (ct_waiting s);
             ct_stored := if ok then ct_stored s ++ [ks] else ct_stored s; ct_published := ct_published s |}
      end
  | PublishSnapshot i ok =>
      match ct_stored s !! i with
      | None => s
      | Some ks =>
          {| ct_registry := r; ct_rows := ct_rows s; ct_waiting := ct_waiting s; ct_stored := delete i (ct_stored s);
             ct_published := if ok then ct_published s ++ [ks] else ct_published s |}
      end
  | RestartControl now =>
      {| ct_registry := LoadPreviousStateFromDB (ListNodeGenerations (ct_rows s)) (db_allocations (sr_sids r))
                          (db_cursor (sr_sids r)) now;
         ct_rows := ct_rows s; ct_waiting := []; ct_stored := []; ct_published := ct_published s |}
  end.

Definition run_control (cursor : Z) (ops : list control_op) : control := foldl run_control_op (control_start cursor) ops.

(** ** The histories considered *)

(** PEs and portals have different ids, which the registry, a map by id alone,
    relies on; [pe] tells them apart. *)
Context (pe : string → bool).

Definition kind (id : string) : NodeType := if pe id then NodeTypePE else NodeTypeCPE.

Definition op_ok (op : control_op) : Prop :=
  match op with
  | CommitLocked _ tx _ => tx_ok tx ∧ map_Forall (λ id _, pe id = true) tx
  | UpsertCPELocked portalID _ _ | PortalAuthenticates _ _ portalID _ => pe portalID = false
  | _ => True
  end.

(** ** The order of intents *)

Definition supersedes (x e : NodeIntent) : Prop :=
  ni_Version x < ni_Version e ∨ ni_Version x = ni_Version e ∧ ni_Generation x < ni_Generation e.

(** [x] is [e] or was superseded by it. *)
Definition newest (e x : NodeIntent) : Prop := x = e ∨ supersedes x e.

Definition intent_key (x : NodeIntent) : string :=
  Key (if pe (ni_ID x) then PrefixPE else PrefixCPE) (ni_ID x) LaneIntent.

Definition live (s : control) : list (string * NodeIntent) := ct_waiting s ++ ct_stored s ++ ct_published s.

Record entry_ok (n : Z) (id : string) (e : NodeIntent) : Prop := {
  eo_id : ni_ID e = id;
  eo_kind : ni_NodeType e = kind id;
  eo_version : 1 ≤ ni_Version e ≤ n + 1;
  eo_generation : 0 ≤ ni_Generation e ≤ n + 1;
}.

(** After [n] steps. *)
Record control_inv (n : Z) (s : control) : Prop := {
  ci_entry : map_Forall (entry_ok n) (sr_registry (ct_registry s));
  ci_rows : ∀ t id row, ct_rows s !! (t, id) = Some row →
    t = NodeType_string (kind id) ∧
    ∃ e, sr_registry (ct_registry s) !! id = Some e ∧ 1 ≤ gr_Version row ≤ ni_Version e;
  ci_live : ∀ k x, (k, x) ∈ live s →
    k = intent_key x ∧ ni_NodeType x = kind (ni_ID x) ∧
    ∃ e, sr_registry (ct_registry s) !! ni_ID x = Some e ∧ newest e x;
  ci_row : ∀ k x, (k, x) ∈ ct_stored s ++ ct_published s →
    ∃ row, ct_rows s !! (NodeType_string (kind (ni_ID x)), ni_ID x) = Some row ∧ ni_Version x ≤ gr_Version row;
  ci_epoch : ∀ k x e, (k, x) ∈ ct_waiting s ++ ct_stored s →
    sr_registry (ct_registry s) !! ni_ID x = Some e → ni_Version x = ni_Version e;
}.

Lemma entry_ok_mono n m id e : n ≤ m → entry_ok n id e → entry_ok m id e.
Proof. intros ? []. split; try done; lia. Qed.

Lemma newest_trans a b c : newest b a → newest c b → newest c a.
Proof. unfold newest, supersedes. intros [->|?] [->|?]; auto; right; lia. Qed.

(** A step that replaces entries of the registry by newer ones, leaves the rows
    alone, and takes the new entries as snapshots. *)
Lemma entries_advance n s reg' sids' waiting' :
  control_inv n s →
  (∀ id e, sr_registry (ct_registry s) !! id = Some e →
     ∃ e', reg' !! id = Some e' ∧ newest e' e ∧ ni_Version e' = ni_Version e) →
  map_Forall (entry_ok (n + 1)) reg' →
  (∀ k x, (k, x) ∈ waiting' → k = intent_key x ∧ reg' !! ni_ID x = Some x) →
  control_inv (n + 1)
    {| ct_registry := {| sr_registry := reg'; sr_sids := sids' |}; ct_rows := ct_rows s;
       ct_waiting := ct_waiting s ++ waiting'; ct_stored := ct_stored s; ct_published := ct_published s |}.
Proof.
  intros [He Hr Hl Hw Hep] Hadv Hok Hnew. split; simpl.
  - done.
  - intros t id row Hrow. destruct (Hr _ _ _ Hrow) as (-> & e & Hid & Hv). split; [done|].
    destruct (Hadv _ _ Hid) as (e' & ? & _ & Hve). exists e'. by rewrite Hve.
  - intros k x Hx. assert ((k, x) ∈ live s ∨ (k, x) ∈ waiting') as [Hx'|Hx'] by (unfold live in *; simpl in *; set_solver).
    + destruct (Hl _ _ Hx') as (-> & Hk & e & Hid & Hn). split_and!; [done..|]. destruct (Hadv _ _ Hid) as (e' & ? & ? & _).
      exists e'. split; [done|]. by eapply newest_trans.
    + destruct (Hnew _ _ Hx') as [-> Hx'']. split_and!; [done|exact (eo_kind _ _ _ (Hok _ _ Hx''))|]. exists x. split; [done|by left].
  - done.
  - intros k x e Hx Hid. assert ((k, x) ∈ ct_waiting s ++ ct_stored s ∨ (k, x) ∈ waiting') as [Hx'|Hx'] by set_solver.
    + assert ((k, x) ∈ live s) as Hlive by (unfold live; set_solver).
      destruct (Hl _ _ Hlive) as (_ & _ & e0 & Hid0 & _). destruct (Hadv _ _ Hid0) as (e' & He' & _ & Hv).
      rewrite (Hep _ _ _ Hx' Hid0), <-Hv. congruence.
    + destruct (Hnew _ _ Hx') as [_ Hx'']. congruence.
Qed.

(** ** Every step *)

Lemma bump_entry n id e i now :
  n < 2 ^ 32 - 2 → entry_ok n id e →
  entry_ok (n + 1) id (bump e i now) ∧ newest (bump e i now) e ∧ ni_Version (bump e i now) = ni_Version e.
Proof.
  intros Hn [Hid Hk Hv Hg]. unfold bump. cbn. rewrite u32_id by lia.
  split; [split; simpl; try done; lia|]. split; [|done]. right. right. simpl. lia.
Qed.

Lemma commit_locked_inv n s db_fails tx now :
  0 ≤ n < 2 ^ 32 - 2 → control_inv n s → op_ok (CommitLocked db_fails tx now) →
  control_inv (n + 1) (run_control_op s (CommitLocked db_fails tx now)).
Proof.
  intros Hn Hinv [Htx Hpe]. simpl. pose proof (commit_nodes db_fails now (ct_registry s) tx Htx) as [Hout Hin Hsnap].
  change (foldl _ _ (range_map tx)) with (commit_locked db_fails (ct_registry s) tx now) in *.
  destruct (commit_locked db_fails (ct_registry s) tx now) as [[reg' sids'] snaps errs]. simpl in *.
  assert (∀ id, id ∈ (range_map tx).*1 → pe id = true) as Hids.
  { intros id. rewrite list_elem_of_fmap. intros ([i ms] & -> & Hi%elem_of_range_map). exact (Hpe _ _ Hi). }
  pose proof (ci_entry _ _ Hinv) as Hent.
  assert (∀ id, id ∈ (range_map tx).*1 → ∃ e', reg' !! id = Some e' ∧ entry_ok (n + 1) id e' ∧
            ∀ e, sr_registry (ct_registry s) !! id = Some e → newest e' e ∧ ni_Version e' = ni_Version e) as Hnew.
  { intros id Hid. destruct (Hin _ Hid) as (e' & He' & (H1 & H2 & _ & H3 & H4)). exists e'. split; [done|].
    unfold entry_before, getOrCreateRegistryEntryForPE in *.
    destruct (sr_registry (ct_registry s) !! id) as [e|] eqn:He; simpl in *.
    - destruct (Hent _ _ He) as [Hi Hk Hv Hg]. rewrite u32_id in H3 by lia.
      split; [split; congruence || lia|]. intros ? [= <-]. split; [right; right; lia|done].
    - split; [|done]. rewrite u32_id in H3 by lia.
      split; [done| |lia|lia]. unfold kind. by rewrite (Hids _ Hid). }
  apply entries_advance; [done|..].
  - intros id e He. destruct (decide (id ∈ (range_map tx).*1)) as [Hid|Hid].
    + destruct (Hnew _ Hid) as (e' & ? & _ & Hx). destruct (Hx _ He). eauto.
    + exists e. rewrite (Hout _ Hid). split_and!; [done|by left|done].
  - intros id e' He'. destruct (decide (id ∈ (range_map tx).*1)) as [Hid|Hid].
    + destruct (Hnew _ Hid) as (e'' & ? & ? & _). congruence.
    + rewrite (Hout _ Hid) in He'. eapply entry_ok_mono; [|by apply Hent]. lia.
  - intros k x Hx%elem_of_range_map. apply Hsnap in Hx as (id & Hid & Hx & Hk).
    destruct (Hnew _ Hid) as (e' & He' & [Hi Ht _ _] & _). assert (e' = x) as -> by congruence. subst id. split; [|done].
    unfold publish_key in Hk. rewrite Ht in Hk. unfold kind, intent_key in *.
    destruct (pe (ni_ID x)); congruence.
Qed.

Lemma upsert_cpe_inv n s portalID cpe now :
  0 ≤ n < 2 ^ 32 - 2 → control_inv n s → pe portalID = false →
  control_inv (n + 1) (run_control_op s (UpsertCPELocked portalID cpe now)).
Proof.
  intros Hn Hinv Hpe. simpl. unfold upsert_cpe_locked, getOrCreateRegistryEntryForCPE. rewrite Clone_id.
  set (e0 := default _ (sr_registry (ct_registry s) !! portalID)).
  assert (entry_ok n portalID e0) as He0.
  { unfold e0. destruct (sr_registry (ct_registry s) !! portalID) as [e|] eqn:He; simpl; [by eapply ci_entry|].
    split; simpl; try lia; [done|]. unfold kind. by rewrite Hpe. }
  destruct (bump_entry n portalID e0 (IntentCPE cpe) now) as (Hok & Hnew & Hv); [lia|done|].
  apply entries_advance; [done|..].
  - intros id e He. destruct (decide (id = portalID)) as [->|Hne].
    + exists (bump e0 (IntentCPE cpe) now). rewrite lookup_insert_eq. unfold e0 in *. rewrite He in *. done.
    + exists e. rewrite lookup_insert_ne by done. split_and!; [done|by left|done].
  - apply map_Forall_insert_2; [done|]. intros id e He. eapply entry_ok_mono; [|by eapply ci_entry]. lia.
  - intros k x [= -> ->]%list_elem_of_singleton. destruct Hok as [Hid _ _ _]. unfold intent_key.
    rewrite Hid, Hpe, lookup_insert_eq. done.
Qed.

(** Steps that take no snapshot and add at most one entry. *)
Lemma quiet_step n s reg' sids' :
  control_inv n s →
  (∀ id e, sr_registry (ct_registry s) !! id = Some e → reg' !! id = Some e) →
  map_Forall (entry_ok (n + 1)) reg' →
  control_inv (n + 1)
    {| ct_registry := {| sr_registry := reg'; sr_sids := sids' |}; ct_rows := ct_rows s;
       ct_waiting := ct_waiting s; ct_stored := ct_stored s; ct_published := ct_published s |}.
Proof.
  intros Hinv Hreg Hok. rewrite <-(app_nil_r (ct_waiting s)). apply entries_advance; [done| |done|].
  - intros id e He. exists e. split_and!; [by apply Hreg|by left|done].
  - by intros k x ?%not_elem_of_nil.
Qed.

Lemma entries_mono n s : control_inv n s → map_Forall (entry_ok (n + 1)) (sr_registry (ct_registry s)).
Proof. intros Hinv id e He. eapply entry_ok_mono; [|by eapply ci_entry]. lia. Qed.

Lemma portal_auth_inv n s inv repo portalID now :
  0 ≤ n → control_inv n s → pe portalID = false →
  control_inv (n + 1) (run_control_op s (PortalAuthenticates inv repo portalID now)).
Proof.
  intros Hn Hinv Hpe. simpl. pose proof (entries_mono n s Hinv) as Hmono.
  assert (∃ reg, portalAuth inv repo (ct_registry s) portalID now =
            {| sr_registry := reg; sr_sids := sr_sids (ct_registry s) |} ∧
          (∀ id e, sr_registry (ct_registry s) !! id = Some e → reg !! id = Some e) ∧
          map_Forall (entry_ok (n + 1)) reg) as (reg & -> & H1 & H2); [|by apply quiet_step].
  unfold portalAuth. destruct (ct_registry s) as [reg sids]. simpl in *.
  repeat case_match; try (by exists reg). simplify_eq/=. eexists. split; [reflexivity|]. split.
  - intros id e He. by rewrite lookup_insert_ne by congruence.
  - apply map_Forall_insert_2; [|done]. split; simpl; try lia; [done|]. unfold kind. by rewrite Hpe.
Qed.

(** The two writes move a snapshot along. *)
Lemma store_row_inv n s i ok :
  control_inv n s → control_inv (n + 1) (run_control_op s (StoreRow i ok)).
Proof.
  intros Hinv. simpl. pose proof (entries_mono n s Hinv) as Hmono. destruct Hinv as [He Hr Hl Hw Hep].
  destruct (ct_waiting s !! i) as [[k x]|] eqn:Hi; [|by split].
  pose proof (list_elem_of_lookup_2 _ _ _ Hi) as Hx. pose proof (list_subseteq_delete i (ct_waiting s)) as Hdel.
  assert ((k, x) ∈ live s) as Hlive by (unfold live; set_solver).
  destruct (Hl _ _ Hlive) as (Hk & Hxk & e & Hid & Hnew). pose proof (Hep k x e ltac:(set_solver) Hid) as Hv.
  destruct (He _ _ Hid) as [_ Hkind Hver _]. simpl in *.
  split; simpl; [done|..].
  - intros t id row. destruct ok; [|by apply Hr]. unfold UpsertNodeGeneration. rewrite lookup_insert_Some.
    intros [[[= <- <-] <-]|[_ Hrow]]; [|by apply Hr]. rewrite Hxk. split; [done|]. exists e. simpl. split; [done|lia].
  - intros k' x' Hx'. apply Hl. unfold live in *. simpl in *. destruct ok; set_solver.
  - intros k' x' Hx'. destruct ok; [|by apply (Hw k')]. unfold UpsertNodeGeneration. rewrite Hxk.
    destruct (decide (ni_ID x' = ni_ID x)) as [Heq|Hne].
    + rewrite Heq, lookup_insert_eq. eexists. split; [reflexivity|]. simpl.
      assert ((k', x') ∈ live s) as Hl' by (unfold live; set_solver).
      destruct (Hl _ _ Hl') as (_ & _ & e' & Hid' & [->|Hs]); rewrite Heq, Hid in Hid'; simplify_eq; [lia|].
      unfold supersedes in Hs. lia.
    + rewrite lookup_insert_ne by congruence. apply (Hw k'). set_solver.
  - intros k' x' e' Hx'. apply (Hep k'). destruct ok; set_solver.
Qed.

Lemma publish_inv n s i ok :
  control_inv n s → control_inv (n + 1) (run_control_op s (PublishSnapshot i ok)).
Proof.
  intros Hinv. simpl. pose proof (entries_mono n s Hinv) as Hmono. destruct Hinv as [He Hr Hl Hw Hep].
  destruct (ct_stored s !! i) as [ks|] eqn:Hi; [|by split].
  pose proof (list_elem_of_lookup_2 _ _ _ Hi) as Hx. pose proof (list_subseteq_delete i (ct_stored s)) as Hdel.
  split; simpl; [done|done|..].
  - intros k x Hx'. apply Hl. unfold live in *. simpl in *. destruct ok; set_solver.
  - intros k x Hx'. apply (Hw k). destruct ok; set_solver.
  - intros k x e Hx'. apply (Hep k). set_solver.
Qed.

Lemma NodeType_of_kind id : NodeType_of (NodeType_string (kind id)) = kind id.
Proof. unfold kind. by destruct (pe id). Qed.

(** What the loop over the rows leaves in the registry. *)
Lemma load_generations now (l : list NodeGeneration) reg :
  Forall (λ g, ng_NodeType g = kind (ng_NodeID g)) l → NoDup (ng_NodeID <$> l) →
  ∀ id, foldl (load_generation now) reg l !! id =
    match list_find (λ g, ng_NodeID g = id) l with
    | Some (_, g) => Some {| ni_ID := id; ni_NodeType := kind id;
        ni_Intent := if pe id then IntentPE (empty_pe id) else IntentCPE (empty_cpe id);
        ni_Timestamp := now; ni_Generation := 0; ni_Version := u32 (ng_Version g + 1) |}
    | None => reg !! id
    end.
Proof.
  revert reg. induction l as [|g l IH]; intros reg HF Hnd id; [done|].
  apply list.Forall_cons in HF as [Hg HF]. apply list.NoDup_cons in Hnd as [Hng Hnd]. cbn [foldl].
  rewrite IH by done. cbn [list_find]. destruct (decide (ng_NodeID g = id)) as [<-|Hne].
  - assert (list_find (λ g', ng_NodeID g' = ng_NodeID g) l = None) as ->.
    { apply list_find_None, list.Forall_forall. intros x Hx Heq. apply Hng. rewrite <-Heq. by apply list_elem_of_fmap_2. }
    unfold load_generation. rewrite Hg. unfold kind. destruct (pe (ng_NodeID g)); by rewrite lookup_insert_eq.
  - destruct (list_find (λ g', ng_NodeID g' = id) l) as [[i g']|]; [done|]. simpl.
    unfold load_generation. destruct (ng_NodeType g); rewrite ?lookup_insert_ne; done.
Qed.

(** The entry a row comes back as. *)
Definition restarted (now : Time) (id : string) (row : GenerationRow) : NodeIntent :=
  {| ni_ID := id; ni_NodeType := kind id;
     ni_Intent := if pe id then IntentPE (empty_pe id) else IntentCPE (empty_cpe id);
     ni_Timestamp := now; ni_Generation := 0; ni_Version := u32 (gr_Version row + 1) |}.

Lemma restart_rows (rows : generation_table) now :
  (∀ t id row, rows !! (t, id) = Some row → t = NodeType_string (kind id)) →
  ∀ id, foldl (load_generation now) ∅ (ListNodeGenerations rows) !! id =
        restarted now id <$> rows !! (NodeType_string (kind id), id).
Proof.
  intros Hr id. unfold ListNodeGenerations. set (l := merge_sort generation_row_le (map_to_list rows)).
  assert (∀ t i row, ((t, i), row) ∈ l ↔ rows !! (t, i) = Some row) as Hmem.
  { intros t i row. unfold l. by rewrite merge_sort_Permutation, elem_of_map_to_list. }
  assert (NoDup l) as Hnd by (unfold l; rewrite merge_sort_Permutation; apply NoDup_map_to_list).
  rewrite load_generations.
  - destruct (rows !! (NodeType_string (kind id), id)) as [row|] eqn:Hrow; simpl.
    + destruct (list_find_elem_of (λ g, ng_NodeID g = id) ((λ kr, {| ng_NodeType := NodeType_of kr.1.1; ng_NodeID := kr.1.2;
        ng_Version := gr_Version kr.2 |}) <$> l) {| ng_NodeType := NodeType_of (NodeType_string (kind id)); ng_NodeID := id;
        ng_Version := gr_Version row |}) as [[i g] Hg]; [|done|].
      { apply list_elem_of_fmap. exists ((NodeType_string (kind id), id), row). by rewrite Hmem. }
      rewrite Hg. apply list_find_Some in Hg as (Hg%list_elem_of_lookup_2 & Hid & _).
      apply list_elem_of_fmap in Hg as ([[t i'] row'] & -> & Hx%Hmem). simpl in Hid. subst i'.
      pose proof (Hr _ _ _ Hx) as ->. rewrite Hx in Hrow. by simplify_eq.
    + destruct (list_find _ _) as [[i g]|] eqn:Hg; [|by rewrite lookup_empty].
      apply list_find_Some in Hg as (Hg%list_elem_of_lookup_2 & Hid & _).
      apply list_elem_of_fmap in Hg as ([[t i'] row'] & -> & Hx%Hmem). simpl in Hid. subst i'.
      pose proof (Hr _ _ _ Hx) as ->. congruence.
  - apply list.Forall_forall. intros g ([[t i] row] & -> & Hx%Hmem)%list_elem_of_fmap. simpl.
    rewrite (Hr _ _ _ Hx). apply NodeType_of_kind.
  - rewrite <-list_fmap_compose. apply NoDup_fmap_2_strong; [|done].
    intros [[t i] row] [[t' i'] row'] Hx%Hmem Hy%Hmem. simpl. intros <-.
    pose proof (Hr _ _ _ Hx) as ->. pose proof (Hr _ _ _ Hy) as ->. congruence.
Qed.

Lemma restart_control_inv n s now :
  0 ≤ n < 2 ^ 32 - 2 → control_inv n s → control_inv (n + 1) (run_control_op s (RestartControl now)).
Proof.
  intros Hn [He Hr Hl Hw Hep]. cbn [run_control_op LoadPreviousStateFromDB].
  pose proof (restart_rows (ct_rows s) now (λ t id row Hrow, proj1 (Hr t id row Hrow))) as Hload.
  assert (∀ t id row, ct_rows s !! (t, id) = Some row → 1 ≤ gr_Version row ≤ n + 1) as Hbound.
  { intros t id row Hrow. destruct (Hr _ _ _ Hrow) as (_ & e & Hid & Hv). destruct (He _ _ Hid). lia. }
  assert (∀ id row, ct_rows s !! (NodeType_string (kind id), id) = Some row → ∃ e,
    foldl (load_generation now) ∅ (ListNodeGenerations (ct_rows s)) !! id = Some e ∧ ni_Version e = gr_Version row + 1) as Hfind.
  { intros id row Hrow. rewrite Hload, Hrow. eexists. split; [reflexivity|]. simpl. apply u32_id.
    pose proof (Hbound _ _ _ Hrow). lia. }
  split; simpl.
  - intros id e. rewrite Hload. intros (row & Hrow & ->)%fmap_Some. pose proof (Hbound _ _ _ Hrow).
    split; simpl; [done|done|rewrite u32_id by lia; lia|lia].
  - intros t id row Hrow. destruct (Hr _ _ _ Hrow) as (-> & e & Hid & Hv). split; [done|].
    destruct (Hfind _ _ Hrow) as (e' & ? & ?). exists e'. split; [done|lia].
  - intros k x Hx. assert ((k, x) ∈ ct_published s) as Hx' by done.
    destruct (Hl k x) as (-> & Hk & _); [unfold live; set_solver|]. split_and!; [done..|].
    destruct (Hw (intent_key x) x) as (row & Hrow & Hv); [set_solver|]. destruct (Hfind _ _ Hrow) as (e & ? & ?).
    exists e. split; [done|]. right. left. lia.
  - intros k x Hx. apply (Hw k). set_solver.
  - by intros k x e ?%not_elem_of_nil.
Qed.

Lemma run_control_op_inv n s op :
  0 ≤ n < 2 ^ 32 - 2 → control_inv n s → op_ok op → control_inv (n + 1) (run_control_op s op).
Proof.
  intros Hn Hinv Hop. destruct op.
  - by apply commit_locked_inv.
  - by apply upsert_cpe_inv.
  - apply portal_auth_inv; [lia|done|done].
  - simpl. apply quiet_step; [done|done|]. by apply entries_mono.
  - by apply store_row_inv.
  - by apply publish_inv.
  - by apply restart_control_inv.
Qed.

Lemma control_start_inv cursor : control_inv 0 (control_start cursor).
Proof.
  split; simpl.
  - by intros id e ?%lookup_empty_Some.
  - by intros t id row ?%lookup_empty_Some.
  - by intros k x ?%not_elem_of_nil.
  - by intros k x ?%not_elem_of_nil.
  - by intros k x e ?%not_elem_of_nil.
Qed.

Lemma run_control_inv cursor ops :
  Forall op_ok ops → Z.of_nat (length ops) < 2 ^ 32 - 1 →
  control_inv (Z.of_nat (length ops)) (run_control cursor ops).
Proof.
  unfold run_control. induction ops as [|op ops IH] using rev_ind; intros HF Hn; [apply control_start_inv|].
  rewrite length_app in *. simpl in *. apply list.Forall_app in HF as [HF Hop].
  rewrite foldl_snoc. replace (Z.of_nat (length ops + 1)) with (Z.of_nat (length ops) + 1) by lia.
  apply run_control_op_inv; [lia|apply IH; [done|lia]|by inversion Hop].
Qed.

(** ** Publications only grow *)

Lemma run_control_op_published s op :
  ∃ later, ct_published (run_control_op s op) = ct_published s ++ later ∧ ∀ ks, ks ∈ later → ks ∈ ct_stored s.
Proof.
  destruct op; simpl; try (exists []; rewrite app_nil_r; split; [done|by intros ? ?%not_elem_of_nil]).
  - destruct (ct_waiting s !! i); exists []; rewrite app_nil_r; (split; [done|by intros ? ?%not_elem_of_nil]).
  - destruct (ct_stored s !! i) as [ks|] eqn:Hi; simpl.
    + destruct ok; [|exists []; rewrite app_nil_r; split; [done|by intros ? ?%not_elem_of_nil]].
      exists [ks]. split; [done|]. intros ? ->%list_elem_of_singleton. by eapply list_elem_of_lookup_2.
    + exists []. rewrite app_nil_r. split; [done|by intros ? ?%not_elem_of_nil].
Qed.

(** ** Versions change only with a restart *)

Lemma op_versions s op id e :
  op_ok op → (∀ now, op ≠ RestartControl now) → sr_registry (ct_registry s) !! id = Some e →
  ∃ e', sr_registry (ct_registry (run_control_op s op)) !! id = Some e' ∧ ni_Version e' = ni_Version e.
Proof.
  intros Hop Hne He. destruct op as [db tx now|portalID cpe now|inv repo portalID now| |i ok|i ok|now]; simpl.
  - destruct Hop as [Htx _]. pose proof (commit_nodes db now (ct_registry s) tx Htx) as [Hout Hin _].
    fold (commit_locked db (ct_registry s) tx now) in *.
    destruct (decide (id ∈ (range_map tx).*1)) as [Hid|Hid]; [|exists e; by rewrite (Hout _ Hid)].
    destruct (Hin _ Hid) as (e' & He' & (_ & _ & _ & _ & Hv)). exists e'. split; [done|]. rewrite Hv.
    unfold entry_before, getOrCreateRegistryEntryForPE. by rewrite He.
  - unfold upsert_cpe_locked, getOrCreateRegistryEntryForCPE. destruct (decide (id = portalID)) as [->|?].
    + rewrite lookup_insert_eq, He. by eexists.
    + rewrite lookup_insert_ne by done. eauto.
  - exists e. split; [|done]. unfold portalAuth. repeat case_match; try done. simpl. by rewrite lookup_insert_ne by congruence.
  - eauto.
  - destruct (ct_waiting s !! i); simpl; eauto.
  - destruct (ct_stored s !! i); simpl; eauto.
  - by destruct (Hne now).
Qed.

(** [P] was published before a restart: the entries are beyond it, and so is
    what is published from then on. *)
Record beyond (P : list (string * NodeIntent)) (s : control) : Prop := {
  by_entry : ∀ k x, (k, x) ∈ P → ∃ e, sr_registry (ct_registry s) !! ni_ID x = Some e ∧ ni_Version x < ni_Version e;
  by_later : ∃ later, ct_published s = P ++ later ∧
    ∀ k x k' y, (k, x) ∈ P → (k', y) ∈ later → ni_ID x = ni_ID y → ni_Version x < ni_Version y;
}.

Lemma beyond_restart n s now :
  0 ≤ n < 2 ^ 32 - 2 → control_inv n s → beyond (ct_published s) (run_control_op s (RestartControl now)).
Proof.
  intros Hn Hinv. split.
  - intros k x Hx. destruct (ci_row _ _ Hinv k x ltac:(set_solver)) as (row & Hrow & Hv).
    destruct (ci_rows _ _ Hinv _ _ _ Hrow) as (_ & e0 & He0 & Hv0). destruct (ci_entry _ _ Hinv _ _ He0).
    cbn [run_control_op LoadPreviousStateFromDB ct_registry sr_registry].
    rewrite (restart_rows _ _ (λ t id row Hr, proj1 (ci_rows _ _ Hinv t id row Hr))), Hrow.
    eexists. split; [reflexivity|]. simpl. rewrite u32_id by lia. lia.
  - exists []. rewrite app_nil_r. split; [done|]. by intros ? ? ? ? _ ?%not_elem_of_nil.
Qed.

Lemma beyond_step n s op P :
  0 ≤ n < 2 ^ 32 - 2 → control_inv n s → op_ok op → beyond P s → beyond P (run_control_op s op).
Proof.
  intros Hn Hinv Hop [He (later & Hpub & Hlater)]. split.
  - intros k x Hx. assert ((∃ now, op = RestartControl now) ∨ ∀ now, op ≠ RestartControl now) as [[now ->]|Hno] by (destruct op; naive_solver).
    { apply (by_entry _ _ (beyond_restart n s now Hn Hinv) k). rewrite Hpub. set_solver. }
    destruct (He _ _ Hx) as (e & Hid & Hv).
    destruct (op_versions s op _ e Hop Hno Hid) as (e' & ? & ?). exists e'. split; [done|lia].
  - destruct (run_control_op_published s op) as (new & Hnew & Hst). exists (later ++ new).
    rewrite Hnew, Hpub, app_assoc. split; [done|]. intros k x k' y Hx [Hy|Hy]%elem_of_app Hid; [by eapply Hlater|].
    apply Hst in Hy. destruct (He _ _ Hx) as (e & Hide & Hv). rewrite Hid in Hide.
    rewrite (ci_epoch _ _ Hinv k' y e ltac:(set_solver) Hide). done.
Qed.

Lemma beyond_steps n s ops P :
  0 ≤ n → n + Z.of_nat (length ops) < 2 ^ 32 - 1 → control_inv n s → Forall op_ok ops → beyond P s →
  beyond P (foldl run_control_op s ops).
Proof.
  intros Hn Hlen Hinv HF. revert n s Hn Hlen Hinv. induction HF as [|op ops Hop _ IH]; intros n s Hn Hlen Hinv Hb; [done|].
  simpl in *. apply (IH (n + 1)); [lia|lia|by apply run_control_op_inv; [lia|..]|]. by apply (beyond_step n); [lia|..].
Qed.

(** ** What a node makes of them *)

Lemma newest_not_stale e x r :
  newest e x → (rc_current r = Some x → stale r e = false) ∧ (rc_current r = Some e → x = e ∨ stale r x = true).
Proof.
  unfold newest, supersedes, stale. intros Hn. split; intros ->.
  - apply orb_false_iff. rewrite andb_false_iff, !Z.ltb_ge, Z.eqb_neq. destruct Hn as [->|?]; lia.
  - destruct Hn as [->|Hs]; [by left|right]. apply orb_true_iff. rewrite andb_true_iff, !Z.ltb_lt, Z.eqb_eq. lia.
Qed.

Lemma intent_key_inj x y : intent_key x = intent_key y → ni_ID x = ni_ID y.
Proof. unfold intent_key. destruct (pe (ni_ID x)), (pe (ni_ID y)); intros Hk; first [by apply Key_inj in Hk|discriminate Hk]. Qed.
End control.

(** ** Whole calls *)

(** The writes of a call that runs on its own. *)
Definition write_ops (upsert_ok publish_ok : string → bool) (l : list (string * NodeIntent)) : list control_op :=
  l ≫= λ ks, StoreRow 0 (upsert_ok ks.1) :: if upsert_ok ks.1 then [PublishSnapshot 0 (publish_ok ks.1)] else [].

Lemma write_ops_run `{RangeOrder} upsert_ok publish_ok l s errs :
  ct_waiting s = l → ct_stored s = [] →
  let s' := foldl run_control_op s (write_ops upsert_ok publish_ok l) in
  ct_registry s' = ct_registry s ∧ ct_waiting s' = [] ∧ ct_stored s' = [] ∧
  ct_published s' = (foldl (publish_step upsert_ok publish_ok) (ct_published s, errs) l).1.
Proof.
  revert s errs. induction l as [|ks l IH]; intros s errs Hw Hs; [done|]. cbn [write_ops mbind list_bind].
  change (list_bind _ _ _ l) with (write_ops upsert_ok publish_ok l). rewrite foldl_app. cbn [foldl run_control_op].
  rewrite Hw. cbn [lookup list_lookup]. unfold publish_step at 2. destruct (upsert_ok ks.1).
  - cbn. rewrite Hs. cbn. set (s1 := {| ct_registry := _ |}).
    destruct (publish_ok ks.1).
    + exact (IH s1 errs eq_refl eq_refl).
    + exact (IH s1 (errs ++ [PublishFailed ks.1]) eq_refl eq_refl).
  - cbn. set (s1 := {| ct_registry := _ |}). exact (IH s1 errs eq_refl Hs).
Qed.

Lemma publish_acc upsert_ok publish_ok l pub errs :
  (foldl (publish_step upsert_ok publish_ok) (pub, errs) l).1 =
  pub ++ (foldl (publish_step upsert_ok publish_ok) ([], errs) l).1.
Proof.
  revert pub errs. assert (∀ acc l, (foldl (publish_step upsert_ok publish_ok) acc l).1 =
    acc.1 ++ (ks ← l; if upsert_ok ks.1 && publish_ok ks.1 then [ks] else [])) as Hall.
  { intros acc l'. revert acc. induction l' as [|ks l' IH]; intros acc; simpl; [by rewrite app_nil_r|].
    rewrite IH. unfold publish_step. destruct (upsert_ok ks.1), (publish_ok ks.1); simpl; rewrite <-?app_assoc; done. }
  intros pub errs. by rewrite !Hall.
Qed.

(** [Commit] is its locked part followed by its writes. *)
Lemma Commit_steps `{RangeOrder} db_fails upsert_ok publish_ok s tx now :
  ct_waiting s = [] → ct_stored s = [] →
  let '(r', pub, _) := Commit db_fails upsert_ok publish_ok (ct_registry s) tx now in
  let l := range_map (cs_snapshots (commit_locked db_fails (ct_registry s) tx now)) in
  let s' := foldl run_control_op s (CommitLocked db_fails tx now :: write_ops upsert_ok publish_ok l) in
  ct_registry s' = r' ∧ ct_published s' = ct_published s ++ pub ∧ ct_waiting s' = [] ∧ ct_stored s' = [].
Proof.
  intros Hw Hs. unfold Commit. fold (commit_locked db_fails (ct_registry s) tx now).
  set (st := commit_locked db_fails (ct_registry s) tx now).
  destruct (foldl (publish_step upsert_ok publish_ok) ([], cs_errors st) _) as [pub errs] eqn:Hpub. cbn [foldl].
  destruct (write_ops_run upsert_ok publish_ok (range_map (cs_snapshots st)) (run_control_op s (CommitLocked db_fails tx now))
    (cs_errors st)) as (Hr & Hw' & Hs' & Hp); [by simpl; rewrite Hw|done|].
  rewrite Hr, Hw', Hs', Hp, publish_acc, Hpub. done.
Qed.

(** [UpsertCPEIntentForSite] likewise. *)
Lemma UpsertCPE_steps `{RangeOrder} upsert_ok publish_ok s portalID cpe now :
  ct_waiting s = [] → ct_stored s = [] →
  let '(r', pub, _) := UpsertCPEIntentForSite upsert_ok publish_ok (ct_registry s) portalID cpe now in
  let s' := foldl run_control_op s [UpsertCPELocked portalID cpe now; StoreRow 0 upsert_ok; PublishSnapshot 0 publish_ok] in
  ct_registry s' = r' ∧ ct_published s' = ct_published s ++ pub ∧ ct_waiting s' = [] ∧ ct_stored s' = [].
Proof.
  intros Hw Hs. unfold UpsertCPEIntentForSite. cbn. rewrite Hw. cbn. rewrite Hs.
  destruct upsert_ok, publish_ok; cbn; rewrite ?app_nil_r; done.
Qed.

(** ** Results *)



(** ** Witnesses *)

Definition demo_pe (id : string) : bool := bool_decide (id = "ams"%string).

(** Two transactions whose snapshots are published in the other order, then a
    restart and a third one. *)
Definition demo_commit_op (now : Time) : control_op := CommitLocked (λ _, false) demo_tx now.
Definition demo_race : list control_op :=
  [demo_commit_op 1; demo_commit_op 2; StoreRow 0 true; StoreRow 0 true; PublishSnapshot 1 true; PublishSnapshot 0 true].
Definition demo_life : list control_op :=
  demo_race ++ RestartControl 3 :: [demo_commit_op 4; StoreRow 0 true; PublishSnapshot 0 true].

Lemma demo_commit_ok now : op_ok demo_pe (demo_commit_op now).
Proof.
  split; [apply demo_tx_ok|]. unfold demo_tx, MutatePE, BeginTx. apply map_Forall_insert_2; [done|].
  apply map_Forall_insert_2; [done|apply map_Forall_empty].
Qed.

Lemma demo_race_ok : Forall (op_ok demo_pe) demo_race.
Proof. repeat (apply List.Forall_cons; [first [apply demo_commit_ok|exact I]|]). apply List.Forall_nil. Qed.

Lemma demo_life_ok : Forall (op_ok demo_pe) demo_life.
Proof. repeat (apply List.Forall_cons; [first [apply demo_commit_ok|exact I]|]). apply List.Forall_nil. Qed.

Definition order_of (x : NodeIntent) : Z * Z := (ni_Version x, ni_Generation x).

(** The last intent in the bucket is then not the registry's: a node that
    watches throughout keeps the newer one, but one that starts afterwards reads
    the older. *)
Example bucket_left_behind :
  let s := run_control (H := canonical_order) 0 demo_race in
  (λ ks, order_of ks.2) <$> ct_published s = [(1, 3); (1, 2)] ∧
  order_of <$> sr_registry (ct_registry s) !! "ams"%string = Some (1, 3).
Proof. vm_compute. done. Qed.

(** [Restore] publishes entries whose versions were never stored, so that what
    a restart publishes next may be refused. *)
Example restore_regresses :
  let s := run_control (H := canonical_order) 0 [demo_commit_op 1; demo_commit_op 2] in
  let restored := (Restore (H := canonical_order) true (λ _, true) (ct_registry s)).1 in
  let s' := foldl (run_control_op (H := canonical_order)) s [RestartControl 3; demo_commit_op 4; StoreRow 0 true; PublishSnapshot 0 true] in
  (λ ks, order_of ks.2) <$> restored = [(1, 3)] ∧ (λ ks, order_of ks.2) <$> ct_published s' = [(1, 2)].
Proof. vm_compute. done. Qed.

Definition demo_newest : NodeIntent :=
  Eval vm_compute in default (getOrCreateRegistryEntryForPE ∅ "ams" 0)
    (sr_registry (ct_registry (run_control (H := canonical_order) 0 demo_race)) !! "ams"%string).
Definition demo_older : string * NodeIntent :=
  Eval vm_compute in default ("", demo_newest)%string (ct_published (run_control (H := canonical_order) 0 demo_race) !! 1%nat).


