(* ===== verification/Startup.v ===== *)
(** Start-up of the control plane (controller.go, controller_telemetry.go): the
    construction of a controller from the files and the database, its first
    transaction and its readiness; and that it starts in a state which
    satisfies what the other theorems assume. *)

From Stdlib Require Import SpecFloat.
From S2P Require Import Prelude Float64 Netip Topology CostGraph PceGraph Cspf Bandwidth Tenants Demand Pce PceCorrect Inventory Sid Registry Controller Resource Stamp Probe Telemetry Reports Store TenantStore TenantStoreCorrect Lifecycle Snapshot SnapshotCorrect Demo.

(** ** Construction *)

Record Controller := {
  ctl_topology : ClabTopologyManager;
  ctl_inventory : JSONNodeInventory;
  ctl_tenants : JSONTenantRepository;
  ctl_registry : ServiceRegistry;
  ctl_telemetryCollectors : gmap NodeID TelemetryCollector;
  ctl_topologyReports : TopologyReportCollector;
  ctl_pce : PCE;
  ctl_ready : bool;
  ctl_bootMode : BootMode;
}.

(** What the construction meets: the files as they decode ([None]: they do
    not), the generations table, whether the bucket can be made, the clock. *)
Record start_world := {
  sw_topology : option RawTopologyData;
  sw_inventory : option (list RawInventoryPop);
  sw_fingerprint : option string;
  sw_tenants : rawTenantDB;
  sw_generations : generation_table;
  sw_bucket_ok : bool;
  sw_now : Time;
}.

Inductive new_controller_error :=
  | TopologyNotLoaded (e : load_topology_error)
  | InventoryNotLoaded (e : option inventory_error)
  | StoreNotPrepared (e : boot_error)
  | NoControlState (e : store_error)
  | NoCostGraph (e : cost_graph_error)
  | NoPublisher
  | NoPreviousState (e : store_error)
  | NoGraph.

(** ORDER BY sid. *)
Definition addr_rank (a : Addr) : Z := match a with AddrZero => -1 | Addr4 v => v | Addr6 v => 2 ^ 32 + v end.
Definition allocation_le (a b : SIDAllocation) : Prop := addr_rank (sa_Sid a) ≤ addr_rank (sa_Sid b).
#[export] Instance allocation_le_dec : RelDecision allocation_le.
Proof. unfold RelDecision, allocation_le. apply _. Defined.

Definition ListSIDAllocations : Store → result store_error (list SIDAllocation * Store) :=
  select (λ s, merge_sort allocation_le (q_allocations s)).

Definition holdDownDuration : Duration := 30 * Second.

Definition empty_inventory : JSONNodeInventory := {| inv_byID := ∅; inv_byName := ∅ |}.

Section start.
Context `{RangeOrder}.

Definition telemetry_collectors (inv : JSONNodeInventory) : gmap NodeID TelemetryCollector :=
  foldl (λ m n, <[in_ID n := NewTelemetryCollector (in_ID n) (cat [ProbeResultSubjectPrefix; "."; in_ID n])]> m) ∅ (Nodes inv).

(** The queries of [LoadPreviousStateFromDB] and the registry it leaves. *)
Definition load_registry (w : start_world) (cursor : Z) (s : Store) : result store_error (ServiceRegistry * Store) :=
  '(generations, s) ← select (λ _, ListNodeGenerations (sw_generations w)) s;
  '(allocations, s) ← ListSIDAllocations s;
  mret (LoadPreviousStateFromDB generations allocations cursor (sw_now w), s).

(** From the cost graph on: what [NewController] does once topology [t],
    inventory and tenants are loaded.  A topology that loaded has a graph. *)
Definition assemble (w : start_world) (t : ClabTopologyManager) (inv : JSONNodeInventory) (repo : JSONTenantRepository)
    (mode : BootMode) (state : ControlState) (s : Store) : result new_controller_error Controller * Store :=
  match TopologyGraph t with
  | None => (Err NoGraph, s)
  | Some g =>
  match NewCostGraph g (sw_now w) with
  | Err e => (Err (NoCostGraph e), s)
  | Ok costGraph =>
  if negb (sw_bucket_ok w) then (Err NoPublisher, s) else
  match load_registry w (u16 (cs_SidCursor state)) s with
  | Err e => (Err (NoPreviousState e), s)
  | Ok (r, s) =>
      (Ok {| ctl_topology := t; ctl_inventory := inv; ctl_tenants := repo; ctl_registry := r;
             ctl_telemetryCollectors := telemetry_collectors inv;
             ctl_topologyReports := NewTopologyReportCollector g;
             ctl_pce := NewPCE costGraph holdDownDuration; ctl_ready := false; ctl_bootMode := mode |}, s)
  end end end.

Definition NewController (w : start_world) (s : Store) : result new_controller_error Controller * Store :=
  match LoadTopology NewClabTopologyManager (sw_topology w) with
  | (_, Some e) => (Err (TopologyNotLoaded e), s)
  | (t, None) =>
  match sw_inventory w with
  | None => (Err (InventoryNotLoaded None), s)
  | Some pops =>
  match LoadInventory empty_inventory pops with
  | (_, Some e) => (Err (InventoryNotLoaded (Some e)), s)
  | (inv, None) =>
  match bootStore (sw_fingerprint w) (sw_tenants w) (sw_now w) NewJSONTenantRepository s with
  | (Err e, s) => (Err (StoreNotPrepared e), s)
  | (Ok (mode, repo), s) =>
  match GetControlState s with
  | Err e => (Err (NoControlState e), s)
  | Ok (state, s) => assemble w t inv repo mode state s
  end end end end end.

(** ** Start *)

(** The subscriptions of the four endpoints. *)
Record endpoints := { ep_health : bool; ep_auth : bool; ep_pe_update : bool; ep_cpe_update : bool }.

(** The transaction of [Start]: peers and traffic classes of every node. *)
Definition start_tx (g : Graph) (repo : JSONTenantRepository) : RegistryTx :=
  stageTrafficClassMapping g repo (stagePeerIntents g BeginTx).

(** [Start], with what its transaction publishes; an endpoint that cannot be
    subscribed ends it before the controller is ready.  The outcome of the
    resync request is only logged; the goroutines it starts are the steps of
    the other components. *)
Definition StartController (db_fails upsert_ok publish_ok : string → bool) (ok : endpoints) (now : Time) (c : Controller)
    : Controller * list (string * NodeIntent) :=
  match TopologyGraph (ctl_topology c) with
  | None => (c, [])
  | Some g =>
      let '(r, pub, _) := Commit db_fails upsert_ok publish_ok (ctl_registry c) (start_tx g (ctl_tenants c)) now in
      let ready := ep_health ok && ep_auth ok && ep_pe_update ok && ep_cpe_update ok in
      ({| ctl_topology := ctl_topology c; ctl_inventory := ctl_inventory c; ctl_tenants := ctl_tenants c; ctl_registry := r;
          ctl_telemetryCollectors := ctl_telemetryCollectors c; ctl_topologyReports := ctl_topologyReports c;
          ctl_pce := ctl_pce c; ctl_ready := ready || ctl_ready c; ctl_bootMode := ctl_bootMode c |}, pub)
  end.
End start.

(** ** Telemetry collection *)

(** The connection to NATS has one reconnect handler; a collector has its
    consumer ([cn_cons]) and a running consumption of it ([cn_cc]). *)
Inductive reconnect_handler := RestoreIntents | EnsureConsumer (node : NodeID).
Record consumer := { cn_cons : bool; cn_cc : bool }.

(** What the calls of one collector meet: the answers to its attempts to make
    the consumer, and whether it can be consumed. *)
Record collector_world := { cw_create : list bool; cw_consume : bool }.

Section telemetry.
Context `{RangeOrder} (retryDo : nat → list bool → bool).

Definition ensureWithRetry (w : collector_world) (c : consumer) : consumer * bool :=
  if retryDo 3 (cw_create w) then ({| cn_cons := true; cn_cc := cn_cc c |}, true) else (c, false).

Definition collector_Start (node : NodeID) (w : collector_world) (c : consumer) : reconnect_handler * consumer * bool :=
  let '(c, ok) := ensureWithRetry w c in
  if negb ok then (EnsureConsumer node, c, false)
  else if cw_consume w then (EnsureConsumer node, {| cn_cons := cn_cons c; cn_cc := true |}, true)
  else (EnsureConsumer node, c, false).

Definition collector_Stop (c : consumer) : consumer := {| cn_cons := cn_cons c; cn_cc := false |}.

(** One turn of the loop; a collector that does not start is only logged. *)
Definition start_collector (world : NodeID → collector_world) (st : option reconnect_handler * gmap NodeID consumer)
    (node : NodeID) : option reconnect_handler * gmap NodeID consumer :=
  let '(h, c, _) := collector_Start node (world node) (map_get {| cn_cons := false; cn_cc := false |} st.2 node) in
  (Some h, <[node := c]> st.2).

Definition startTelemetryCollection (stream_ok : bool) (world : NodeID → collector_world) (handler : option reconnect_handler)
    (collectors : gmap NodeID TelemetryCollector) : option reconnect_handler * gmap NodeID consumer :=
  if stream_ok then foldl (start_collector world) (handler, ∅) (range_map collectors).*1 else (handler, ∅).

(** Every collector whose consumer could be made and consumed runs. *)
Lemma collectors_run world handler collectors node :
  is_Some (collectors !! node) → retryDo 3 (cw_create (world node)) = true → cw_consume (world node) = true →
  (startTelemetryCollection true world handler collectors).2 !! node = Some {| cn_cons := true; cn_cc := true |}.
Proof.
  intros [tc Htc] Hr Hc. unfold startTelemetryCollection.
  assert (node ∈ (range_map collectors).*1) as Hin.
  { apply list_elem_of_fmap. exists (node, tc). by rewrite elem_of_range_map. }
  revert Hin. apply (foldl_ind (start_collector world) (λ l st, node ∈ l → st.2 !! node = Some {| cn_cons := true; cn_cc := true |})).
  - by intros ?%not_elem_of_nil.
  - intros l n [h m] IH _ Hin. unfold start_collector. destruct (collector_Start n _ _) as [[h' c'] ok] eqn:Hs. simpl.
    destruct (decide (n = node)) as [->|Hne].
    + rewrite lookup_insert_eq. unfold collector_Start, ensureWithRetry in Hs. rewrite Hr, Hc in Hs. by simplify_eq/=.
    + rewrite lookup_insert_ne by done. apply IH. apply elem_of_app in Hin as [?|?%list_elem_of_singleton]; [done|congruence].
Qed.

(** Starting any collector replaces the handler by which the controller would
    restore the intents after a reconnect. *)
Lemma restore_handler_lost world collectors :
  collectors ≠ ∅ → (startTelemetryCollection true world (Some RestoreIntents) collectors).1 ≠ Some RestoreIntents.
Proof.
  intros Hne. unfold startTelemetryCollection.
  assert ((range_map collectors).*1 ≠ []) as Hl.
  { intros Hnil%fmap_nil_inv. apply Hne, map_to_list_empty_iff, Permutation_nil_r. by rewrite <-range_map_perm, Hnil. }
  destruct (range_map collectors).*1 as [|n l] using rev_ind; [done|]. rewrite foldl_snoc. unfold start_collector, collector_Start.
  destruct (ensureWithRetry _ _) as [c []]; simpl; [|done]. by destruct (cw_consume _).
Qed.
End telemetry.

(** ** Numbers of the files *)

(** What a JSON number decodes to. *)
Definition json_number (x : f64) : Prop :=
  match x with
  | S754_zero _ => True
  | S754_finite _ m e => bounded prec emax m e = true
  | _ => False
  end.

#[export] Instance json_number_dec x : Decision (json_number x).
Proof. destruct x; simpl; apply _. Defined.

Lemma json_positive x : json_number x → f_leb x f_zero = false → nn x ∧ is_inf x = false.
Proof. destruct x as [s|s| |[] m e]; try done; simpl; intros ? Hl; by try discriminate Hl. Qed.

(** Rounding keeps a sign, and no negative number exceeds the tolerance. *)
Definition negative_or_zero (x : f64) : Prop :=
  match x with S754_zero _ | S754_nan => True | S754_infinity s | S754_finite s _ _ => s = true end.

Lemma binary_round_negative m e : negative_or_zero (binary_round prec emax true m e).
Proof. unfold binary_round, binary_round_aux. repeat case_match; done. Qed.

Lemma tolerance_negative x : negative_or_zero x → f_ltb classMbpsTolerance x = false.
Proof. destruct x as [s|s| |s m e]; simpl; try done; intros ->; vm_compute; done. Qed.

(** What is left of a reservation is non-negative when it is kept. *)
Lemma remainder_nn r c :
  json_number r → nn c → f_ltb classMbpsTolerance (r - c)%f64 = true → nn (r - c)%f64.
Proof.
  intros Hr Hc Hlt. assert (nn (r - c)%f64 ∨ negative_or_zero (r - c)%f64) as [|Hneg]; [|done|by rewrite tolerance_negative in Hlt].
  destruct r as [sr|sr| |sr mr er], c as [sc|sc| |sc mc ec]; simpl in Hr, Hc; try (by exfalso).
  - right. by destruct sr, sc.
  - subst sc. by right.
  - destruct Hc as [-> _]. by right.
  - destruct sr; [by right|by left].
  - subst sc. by right.
  - destruct Hc as [-> Hc]. apply bounded_spec in Hr, Hc. unfold f_sub. cbn [SFsub].
    match goal with |- context [binary_normalize _ _ ?z _ _] => destruct z as [|d|d] end;
      cbn [binary_normalize]; [right; exact I| |right; apply binary_round_negative].
    left. apply binary_round_spec. lia.
Qed.

Record raw_numbers (raw : rawTenantDB) : Prop := {
  rn_weight : ∀ rc dim w, rc ∈ db_Classes raw → rc_Objective rc !! dim = Some w → json_number w;
  rn_site : ∀ rt rs, rt ∈ db_Tenants raw → rs ∈ rt_Sites rt → json_number (rs_ReservationMbps rs);
  rn_class : ∀ rt rs n x, rt ∈ db_Tenants raw → rs ∈ rt_Sites rt → rs_Classes rs !! n = Some x → json_number x;
}.

Section tenants.
Context `{RangeOrder}.

Lemma resolveSiteClasses_nn raw reservation classes m :
  (∀ n x, raw !! n = Some x → json_number x) → json_number reservation →
  resolveSiteClasses raw reservation classes = Ok m → ∀ l x, m !! l = Some x → nn x.
Proof.
  intros Hraw Hres ([out carved] & Hf & Hm)%result_bind_Ok.
  assert (nn carved ∧ ∀ l x, out !! l = Some x → nn x) as [Hc Hout].
  { apply (foldM_ind (site_class_step classes) (λ _ p, nn p.2 ∧ ∀ l x, p.1 !! l = Some x → nn x)) in Hf; [done| |].
    - split; [done|]. simpl. by intros l x ?%lookup_empty_Some.
    - intros _ [n x] [o c] t' [Hc Ho] Hin%elem_of_range_map. unfold site_class_step. simpl in *.
      destruct (classes !! n) as [class|]; [|done]. destruct (_ =? _); [done|]. destruct (f_leb x f_zero) eqn:Hpos; [done|].
      intros [= <-]. assert (nn x) as Hx by (apply json_positive; [by eapply Hraw|done]).
      split; simpl; [by apply f_add_nn|]. intros l y. rewrite lookup_insert_Some. naive_solver. }
  cbn zeta in Hm. destruct (f_ltb _ (f_opp _)); [done|]. destruct (f_ltb classMbpsTolerance _) eqn:Hr; simplify_eq; [|done].
  intros l x. rewrite lookup_insert_Some. intros [[_ <-]|[_ ?]]; [|by eapply Hout]. by apply remainder_nn.
Qed.

Lemma parsed_weights raw byLabel byName :
  (∀ rc dim w, rc ∈ raw → rc_Objective rc !! dim = Some w → json_number w) →
  parseTrafficClasses raw = Ok (byLabel, byName) →
  ∀ l c d w, byLabel !! l = Some c → tc_Objective c !! d = Some w → nn w ∧ is_inf w = false.
Proof.
  intros Hraw (m & Hf & [= <- _])%result_bind_Ok.
  revert Hf. apply (foldM_ind class_step (λ _ m, ∀ l c d w, cl_byLabel m !! l = Some c → tc_Objective c !! d = Some w →
    nn w ∧ is_inf w = false)).
  - simpl. intros l c d w [<- <-]%lookup_singleton_Some. simpl. by intros ?%lookup_empty_Some.
  - intros _ rc t t' Ht Hrc. unfold class_step. repeat (case_match || case_decide); try done.
    intros (obj & Ho & Hm)%result_bind_Ok. apply result_bind_Ok in Hm as ([dscp cm] & _ & [= <-]). simpl.
    apply objective_inv in Ho as [_ Ho]; [|done].
    intros l c d w. rewrite lookup_insert_Some. intros [[_ <-]|[_ Hl]]; [|by eapply Ht].
    simpl. intros (_ & Hpos & dim & Hdim)%Ho. apply json_positive; [by eapply Hraw|done].
Qed.

(** Tenants of a file of numbers are as the path computation expects them. *)
Lemma load_db_repo_ok raw r : raw_numbers raw → load_db raw = Ok r → repo_ok r.
Proof.
  intros [Hw Hs Hc] Hload. pose proof (load_db_wf _ _ Hload) as Hwf. unfold load_db in Hload.
  apply result_bind_Ok in Hload as ([classes byName] & Hcl & Hload).
  apply result_bind_Ok in Hload as (tiers & _ & Hload). apply result_bind_Ok in Hload as (st & Hst & [= <-]).
  split; simpl; [done| |by apply (parsed_weights _ _ _ Hw Hcl)].
  revert Hst. apply (foldM_ind (load_tenant byName tiers) (λ _ st, ∀ t tenant s l x, ld_byID st !! t = Some tenant →
    s ∈ t_Sites tenant → s_ClassMbps s !! l = Some x → nn x)).
  { simpl. by intros t te s l x ?%lookup_empty_Some. }
  intros _ rt st0 st1 IH Hrt. unfold load_tenant. destruct (ld_byID st0 !! rt_ID rt); [done|].
  destruct (ParsePrefix (rt_Allocation rt)) as [alloc|]; [|done]. intros ([st2 sites] & Hf & [= <-])%result_bind_Ok.
  assert (ld_byID st2 = ld_byID st0 ∧ ∀ s l x, s ∈ sites → s_ClassMbps s !! l = Some x → nn x) as [Hby Hsites].
  { apply (foldM_ind (load_site byName rt alloc) (λ _ p, ld_byID p.1 = ld_byID st0 ∧
      ∀ s l x, s ∈ p.2 → s_ClassMbps s !! l = Some x → nn x)) in Hf; [done| |].
    - simpl. split; [done|]. by intros s l x ?%not_elem_of_nil.
    - intros _ rs [t ss] [t' ss'] [H1 H2] Hrs Hstep. simpl in *. unfold load_site in Hstep. repeat case_match; try done.
      apply result_bind_Ok in Hstep as (mbps & Hm & [= <- <-]). split; [done|].
      intros s l x [Hin| ->%list_elem_of_singleton]%elem_of_app; [by eapply H2|].
      eapply resolveSiteClasses_nn; [|by eapply Hs|exact Hm]. intros n y. by eapply Hc. }
  intros t te s l x. simpl. rewrite Hby, lookup_insert_Some. intros [[_ <-]|[_ Ht]]; [by apply Hsites|by apply (IH _ _ _ _ _ Ht)].
Qed.
End tenants.

(** ** The topology file *)

Record topology_file_ok (raw : RawTopologyData) : Prop := {
  tf_names : Forall (λ l, link_ok l = true) (rtd_Links raw);
  tf_bandwidth : Forall (λ l, fin (rl_BandwidthMbps l) ∧
    let capacity := (rl_BandwidthMbps l * one_minus_headroom)%f64 in nn capacity ∧ is_inf capacity = false) (rtd_Links raw);
}.

(** The edges of a graph made from a file. *)
Lemma generated_edges pops links g :
  Forall (λ l, link_ok l = true) links → generateGraphFromRawTopology pops links = Ok g → links_inv links g.
Proof.
  intros Hok (g0 & Hp & [= <-])%result_bind_Ok. apply foldM_add_pop_edges in Hp as [He Ha]. simpl in He, Ha.
  apply (foldl_ind add_link (λ _ t, links_inv links t)); [|intros _ l t Ht Hl; by apply add_link_inv].
  split; [rewrite He; by intros id e ?%lookup_empty_Some| |rewrite He; by intros id e ?%lookup_empty_Some].
  intros n id. rewrite Ha. unfold map_get. rewrite lookup_empty. by intros ?%not_elem_of_nil.
Qed.

Lemma loaded_topology_ok raw g :
  topology_file_ok raw → generateGraphFromRawTopology (rtd_Pops raw) (rtd_Links raw) = Ok g →
  topology_ok g ∧ ∀ id e, g_edges g !! id = Some e → edge_plain e ∧ Edge_Delay e = 0.
Proof.
  intros [Hok Hbw] Hg. pose proof (generated_edges _ _ _ Hok Hg) as [He _ _]. rewrite list.Forall_forall in Hbw.
  split; [split; [by eapply generateGraph_wf|]|]; intros id e (_ & l & a & b & Hl & _ & ->)%He; destruct (Hbw _ Hl) as [Hf Hc].
  - exact Hc.
  - split; [|done]. split; [exact Hf|]. simpl. unfold max_duration. lia.
Qed.

(** ** The cost graph *)

(** Every link starts with the same costs. *)
Lemma new_costs `{RangeOrder} g now cg :
  (∀ id e, g_edges g !! id = Some e → Edge_Delay e = 0) → NewCostGraph g now = Ok cg →
  ∀ key c, CostsSnapshot cg !! key = Some c → ∃ e, Edge_Delay e = 0 ∧ c = initial_cost e.
Proof.
  intros Hd. unfold NewCostGraph, CostsSnapshot.
  apply (foldM_ind _ (λ _ cg, ∀ key c, cg_graph cg !! key = Some c → ∃ e, Edge_Delay e = 0 ∧ c = initial_cost e)).
  { simpl. by intros key c ?%lookup_empty_Some. }
  intros _ [n nd] t t' Ht _. apply (foldM_ind _ (λ _ cg, ∀ key c, cg_graph cg !! key = Some c → ∃ e, Edge_Delay e = 0 ∧ c = initial_cost e)); [done|].
  intros _ id u u' Hu _. unfold add_cost_edge. destruct (g_edges g !! id) as [e|] eqn:He; [|done].
  destruct (cg_graph u !! CostKey e); intros [= <-]; [done|]. simpl. intros key c. rewrite lookup_insert_Some.
  intros [[_ <-]|[_ ?]]; [|by eapply Hu]. exists e. split; [by eapply Hd|done].
Qed.

Lemma initial_cost_ok e : Edge_Delay e = 0 → (∀ d x, Costs (initial_cost e) !! d = Some x → nn x) ∧ fin (latency_of (initial_cost e)).
Proof.
  intros Hd. unfold initial_cost. rewrite Hd. split; [|by apply (bool_decide_unpack _)].
  assert (map_Forall (λ _ x, nn x) (Costs (initial_cost {| Edge_ID := ""; Edge_Local := ""; Edge_Remote := ""; Edge_Role := "";
    Edge_LocalIface := ""; Edge_RemoteIface := ""; Edge_LocalAddr := ""; Edge_RemoteAddr := ""; Edge_Subnet := "";
    Edge_Metric := 0; Edge_TEMetric := 0; Edge_Bandwidth := f_zero; Edge_Delay := 0; Edge_Up := true; Edge_EndX := AddrZero |})))
    as HF by (apply (bool_decide_unpack _); vm_compute; exact I).
  exact HF.
Qed.

(** ** A controller that has been built *)

(** The rows a control plane leaves ([ci_rows] of the runs of Lifecycle). *)
Definition rows_ok (pe : string → bool) (rows : generation_table) : Prop :=
  ∀ t id row, rows !! (t, id) = Some row → t = NodeType_string (kind pe id) ∧ 0 ≤ gr_Version row < 2 ^ 32 - 1.

Lemma assemble_Ok `{RangeOrder} w t inv repo mode state s c s' :
  assemble w t inv repo mode state s = (Ok c, s') →
  ∃ g cg alloc cursor, TopologyGraph t = Some g ∧ NewCostGraph g (sw_now w) = Ok cg ∧
    ctl_topology c = t ∧ ctl_tenants c = repo ∧ ctl_bootMode c = mode ∧ ctl_ready c = false ∧
    ctl_pce c = NewPCE cg holdDownDuration ∧
    ctl_registry c = LoadPreviousStateFromDB (ListNodeGenerations (sw_generations w)) alloc cursor (sw_now w).
Proof.
  unfold assemble. destruct (TopologyGraph t) as [g|]; [|done]. destruct (NewCostGraph g (sw_now w)) as [cg|] eqn:Hcg; [|done].
  destruct (sw_bucket_ok w); [|done]. cbn [negb]. destruct (load_registry w _ s) as [[r s1]|] eqn:Hr; [|done].
  intros [= <- <-]. unfold load_registry in Hr. apply result_bind_Ok in Hr as ([gens s2] & Hg & Hr).
  apply result_bind_Ok in Hr as ([alloc s3] & _ & [= <- <-]).
  assert (gens = ListNodeGenerations (sw_generations w)) as -> by (unfold select in Hg; repeat case_match; by simplify_eq).
  by eexists g, cg, alloc, _.
Qed.

Lemma NewController_Ok `{RangeOrder} w s c s' :
  NewController w s = (Ok c, s') →
  ∃ t inv repo mode state s1, LoadTopology NewClabTopologyManager (sw_topology w) = (t, None) ∧
    assemble w t inv repo mode state s1 = (Ok c, s') ∧
    (mode ≠ BootWarm → load_db (sw_tenants w) = Ok repo).
Proof.
  unfold NewController. destruct (LoadTopology _ _) as [t [e|]]; [done|]. destruct (sw_inventory w) as [pops|]; [|done].
  destruct (LoadInventory _ _) as [inv [e|]]; [done|].
  destruct (bootStore _ _ _ _ _) as [[[mode repo]|] s1] eqn:Hb; [|done].
  destruct (GetControlState s1) as [[state s2]|]; [|done]. intros Hc. eexists t, inv, repo, mode, state, s2.
  split_and!; [done|done|]. intros Hm. unfold bootStore in Hb. destruct (sw_fingerprint w) as [fp|]; [|done].
  destruct (GetControlState s) as [[state0 s0]|]; [|done]. destruct (negb _); [done|]. unfold boot_tenants, Load in Hb.
  destruct (boot_mode state0 fp), (load_db (sw_tenants w)) as [r|]; repeat case_match; by simplify_eq.
Qed.

Lemma LoadTopology_Ok c file t :
  LoadTopology c file = (t, None) →
  ∃ raw g, file = Some raw ∧ generateGraphFromRawTopology (rtd_Pops raw) (rtd_Links raw) = Ok g ∧ TopologyGraph t = Some g.
Proof. unfold LoadTopology. repeat case_match; try done. intros [= <-]. eauto. Qed.

(** C39: the control plane starts in a good state.  From files with well-formed
    link names, usable bandwidths and numbers as JSON carries them, and the
    generations an earlier run left: a controller that could be built has a
    well-formed topology, an engine that satisfies the assumptions of the
    results on path computation and snapshots, tenants that do (unless they come
    from the database), for every node and portal of an earlier run an entry
    with the next version, and is not ready yet. *)
Theorem boot_establishes `{RangeOrder} pe w s c s' raw :
  sw_topology w = Some raw → topology_file_ok raw → raw_numbers (sw_tenants w) → rows_ok pe (sw_generations w) →
  NewController w s = (Ok c, s') →
  (∃ g, TopologyGraph (ctl_topology c) = Some g ∧ topology_ok g ∧ ∀ id e, g_edges g !! id = Some e → edge_plain e) ∧
  observed holdDownDuration (ctl_pce c) ∧
  (ctl_bootMode c ≠ BootWarm → repo_ok (ctl_tenants c)) ∧
  (∀ t id row, sw_generations w !! (t, id) = Some row →
     ∃ e, sr_registry (ctl_registry c) !! id = Some e ∧ ni_Version e = gr_Version row + 1 ∧ ni_Generation e = 0) ∧
  ctl_ready c = false.
Proof.
  intros Hraw Hfile Hnum Hrows (t & inv & repo & mode & state & s1 & Ht & Ha & Hrepo)%NewController_Ok.
  apply assemble_Ok in Ha as (g & cg & alloc & cursor & Hg & Hcg & -> & -> & -> & -> & -> & ->).
  apply LoadTopology_Ok in Ht as (raw' & g' & Hraw' & Hgen & Hg').
  rewrite Hraw in Hraw'. injection Hraw' as <-. rewrite Hg in Hg'. injection Hg' as <-.
  destruct (loaded_topology_ok raw g Hfile Hgen) as [Htop Hedges].
  split_and!; [| |intros Hm; by apply (load_db_repo_ok (sw_tenants w)); [|apply Hrepo]| |done].
  - exists g. split_and!; [done|done|]. by intros id e [? _]%Hedges.
  - pose proof (new_costs g (sw_now w) cg (λ id e He, proj2 (Hedges id e He)) Hcg) as Hc.
    apply obs_new; [intros k x d y (e & He & ->)%Hc|intros k x (e & He & ->)%Hc]; by apply initial_cost_ok.
  - intros t' id row Hrow. destruct (Hrows _ _ _ Hrow) as [-> Hv]. cbn [LoadPreviousStateFromDB sr_registry].
    rewrite (restart_rows pe _ _ (λ t id row Hr, proj1 (Hrows t id row Hr))), Hrow.
    eexists. split; [reflexivity|]. simpl. rewrite u32_id by lia. done.
Qed.

(** ** A warm boot *)

(** Tenants read back from the database are as good as those that were saved. *)
Lemma same_repository_ok r r' : repo_ok r → same_repository r r' → repo_wf r' → repo_ok r'.
Proof.
  intros [_ Hm Hw] (Hc & Hby & _) Hwf. split; [done| |].
  - intros t tenant x l y Ht Hx. rewrite Hby in Ht. apply lookup_fmap_Some in Ht as (t0 & <- & Ht0).
    eapply Hm; [exact Ht0|]. revert Hx. unfold sorted_tenant. simpl. by rewrite merge_sort_Permutation.
  - rewrite Hc. exact Hw.
Qed.

(** ** Witness *)

Definition demo_world : start_world :=
  {| sw_topology := Some {| rtd_LocatorPrefix := "fd00::/16"; rtd_LinkPrefix := "fd01::/16"; rtd_EdgePrefix := "fd02::/16";
                            rtd_Pops := demo_pops; rtd_Links := demo_links |};
     sw_inventory := Some [demo_pop_entry "ams"; demo_pop_entry "lon"]; sw_fingerprint := Some "f1"%string;
     sw_tenants := demo_db; sw_generations := {[ ("pe", "ams")%string := {| gr_Version := 4; gr_Generation := 9 |} ]};
     sw_bucket_ok := true; sw_now := 5 |}.

Lemma demo_rows_ok : rows_ok demo_pe (sw_generations demo_world).
Proof. intros t id row. simpl. by intros [[= <- <-] <-]%lookup_singleton_Some. Qed.

Definition demo_new : result new_controller_error Controller * Store := NewController (H := canonical_order) demo_world demo_store.

Lemma demo_bandwidths : Forall (λ l, fin (rl_BandwidthMbps l) ∧
  nn (rl_BandwidthMbps l * one_minus_headroom)%f64 ∧ is_inf (rl_BandwidthMbps l * one_minus_headroom)%f64 = false) demo_links.
Proof.
  assert (Forall (λ l, (nn (rl_BandwidthMbps l) ∧ val (rl_BandwidthMbps l) < INF) ∧ nn (rl_BandwidthMbps l * one_minus_headroom)%f64 ∧
    is_inf (rl_BandwidthMbps l * one_minus_headroom)%f64 = false) demo_links) as HF by (apply (bool_decide_unpack _); vm_compute; exact I).
  exact HF.
Qed.

Lemma demo_numbers : raw_numbers demo_db.
Proof.
  assert (Forall (λ rc, map_Forall (λ _ w, json_number w) (rc_Objective rc)) (db_Classes demo_db)) as H1
    by (apply (bool_decide_unpack _); vm_compute; exact I).
  assert (Forall (λ rt, Forall (λ rs, json_number (rs_ReservationMbps rs) ∧ map_Forall (λ _ x, json_number x) (rs_Classes rs))
    (rt_Sites rt)) (db_Tenants demo_db)) as H2 by (apply (bool_decide_unpack _); vm_compute; exact I).
  rewrite list.Forall_forall in H1. rewrite list.Forall_forall in H2. split.
  - intros rc dim w Hrc. apply (H1 _ Hrc).
  - intros rt rs Hrt Hrs. specialize (H2 _ Hrt). rewrite list.Forall_forall in H2. by apply H2.
  - intros rt rs n x Hrt Hrs. specialize (H2 _ Hrt). rewrite list.Forall_forall in H2. by apply (H2 _ Hrs).
Qed.

(** C39, instantiated: a restart after four versions. *)
Lemma boot_establishes_witness :
  ∃ c s', demo_new = (Ok c, s') ∧ repo_ok (ctl_tenants c) ∧ observed holdDownDuration (ctl_pce c) ∧
  ∃ e, sr_registry (ctl_registry c) !! "ams"%string = Some e ∧ ni_Version e = 5.
Proof.
  assert (match demo_new with (Ok c, _) => match ctl_bootMode c with BootWarm => false | _ => true end | _ => false end = true) as Hb
    by (vm_compute; reflexivity).
  destruct demo_new as [[c|e] s'] eqn:Hn; [|discriminate Hb].
  exists c, s'. split; [reflexivity|].
  destruct (@boot_establishes canonical_order demo_pe demo_world demo_store c s' _ eq_refl) as (_ & Ho & Hr & He & _).
  - split; [repeat constructor|exact demo_bandwidths].
  - exact demo_numbers.
  - exact demo_rows_ok.
  - exact Hn.
  - split; [apply Hr; intros Hw; rewrite Hw in Hb; discriminate Hb|]. split; [exact Ho|].
    destruct (He "pe"%string "ams"%string _ (lookup_singleton_eq _ _)) as (e & He' & Hv & _). exists e. split; [exact He'|exact Hv].
Defined.
