(* ===== verification/NetipCorrect.v ===== *)
(** Printed addresses and prefixes tell them apart: [addr_string] and
    [prefix_string] are injective on the values a [netip.Addr] can hold, with
    the zero compression of IPv6, the dotted tail of mapped addresses and IPv4. *)

From S2P Require Import Prelude Netip Topology.

(** What a [netip.Addr] can hold, and a prefix whose length fits its address. *)
Definition addr_fits (a : Addr) : Prop :=
  match a with AddrZero => True | Addr4 v => 0 ≤ v < 2 ^ 32 | Addr6 v => 0 ≤ v < 2 ^ 128 end.
Definition prefix_fits (p : Prefix) : Prop := addr_fits (pfx_addr p) ∧ pfx_addr p ≠ AddrZero ∧ 0 ≤ pfx_bits p ≤ addr_bit_len (pfx_addr p).

#[export] Instance addr_fits_dec a : Decision (addr_fits a).
Proof. destruct a; simpl; apply _. Defined.
#[export] Instance prefix_fits_dec p : Decision (prefix_fits p).
Proof. unfold prefix_fits. apply _. Defined.

(** ** Strings *)

Lemma append_cons_str c a b : String.append (String c a) b = String c (String.append a b).
Proof. done. Qed.

Lemma append_assoc_str a b c : String.append (String.append a b) c = String.append a (String.append b c).
Proof. induction a as [|x a IH]; [done|]. exact (f_equal (String x) IH). Qed.

Lemma str_free_append c a b : str_free c (String.append a b) = str_free c a && str_free c b.
Proof. induction a as [|d a IH]; [done|]. simpl. by rewrite IH, andb_assoc. Qed.

Lemma digits_free c s : digit c = false → forallb digit (String.list_ascii_of_string s) = true → str_free c s = true.
Proof.
  intros Hc. induction s as [|d s IH]; [done|]. simpl. intros [Hd Hs]%andb_true_iff. rewrite IH, andb_true_r by done.
  apply negb_true_iff, Ascii.eqb_neq. intros ->. congruence.
Qed.

Lemma dec_free c n : 0 ≤ n → digit c = false → str_free c (dec n) = true.
Proof. intros Hn Hc. apply digits_free; [done|]. by apply dec_digits. Qed.

(** Two strings that are free of [c] up to where they end or [c] follows. *)
Definition starts_with (c : ascii) (s : string) : Prop := s = ""%string ∨ ∃ s', s = String c s'.

Lemma split_unique_end c a a' x x' :
  str_free c a = true → str_free c a' = true → starts_with c x → starts_with c x' →
  String.append a x = String.append a' x' → a = a' ∧ x = x'.
Proof.
  intros Ha Ha' Hx Hx'. revert a' Ha'. induction a as [|d a IH]; intros [|d' a'] Ha'; cbn [str_free] in *.
  - done.
  - change (String.append "" x) with x. intros ->. destruct Hx as [|[s [= <- _]]]; [done|]. by rewrite Ascii.eqb_refl in Ha'.
  - change (String.append "" x') with x'. intros <-. destruct Hx' as [|[s [= <- _]]]; [done|]. by rewrite Ascii.eqb_refl in Ha.
  - apply andb_true_iff in Ha as [_ Ha], Ha' as [_ Ha']. intros [= -> He]. destruct (IH Ha a' Ha' He) as [-> ->]. done.
Qed.

(** ** Tokens, each after a colon *)

Definition colons (toks : list string) : string := foldr (λ t acc, String ":" (String.append t acc)) ""%string toks.

Lemma colons_starts toks : starts_with ":" (colons toks).
Proof. destruct toks; [by left|right; by eexists]. Qed.

Lemma colons_app l1 l2 : colons (l1 ++ l2) = String.append (colons l1) (colons l2).
Proof. induction l1 as [|t l1 IH]; [done|]. cbn [colons foldr app]. fold (colons (l1 ++ l2)) (colons l1). by rewrite IH, append_cons_str, append_assoc_str. Qed.

Lemma colons_inj l l' :
  Forall (λ t, str_free ":" t = true) l → Forall (λ t, str_free ":" t = true) l' → colons l = colons l' → l = l'.
Proof.
  intros Hl. revert l'. induction Hl as [|t l Ht Hl IH]; intros l' Hl'; destruct Hl' as [|t' l' Ht' Hl']; [done..|].
  cbn [colons foldr]. intros [= He]. apply (split_unique_end ":") in He as [-> He]; [|done|done|apply colons_starts..].
  by rewrite (IH l').
Qed.

(** ** Groups *)

Definition group_ok (g : Z) : Prop := 0 ≤ g < 2 ^ 16.
Definition hex_digit_value (c : ascii) : Z := let n := Z.of_N (N_of_ascii c) in if n <? 58 then n - 48 else n - 87.
Definition hex_value (s : string) : Z := foldl (λ v c, 16 * v + hex_digit_value c) 0 (String.list_ascii_of_string s).

Lemma hex_digit_good d : 0 ≤ d < 16 →
  hex_digit_value (hex_digit d) = d ∧ Ascii.eqb (hex_digit d) ":" = false ∧ Ascii.eqb (hex_digit d) "." = false ∧ Ascii.eqb (hex_digit d) "/" = false.
Proof.
  intros Hd. assert (∃ n, (n < 16)%nat ∧ d = Z.of_nat n) as (n & Hn & ->) by (exists (Z.to_nat d); lia).
  do 16 (destruct n as [|n]; [by vm_compute|]). lia.
Qed.

Lemma hex16_good g : group_ok g →
  hex_value (hex16 g) = g ∧ str_free ":" (hex16 g) = true ∧ str_free "." (hex16 g) = true ∧ hex16 g ≠ ""%string ∧ str_free "/" (hex16 g) = true.
Proof.
  unfold group_ok. intros Hg.
  destruct (hex_digit_good (g mod 16)) as (V0 & C0 & D0 & E0); [apply Z.mod_pos_bound; lia|].
  destruct (hex_digit_good (g / 16 mod 16)) as (V1 & C1 & D1 & E1); [apply Z.mod_pos_bound; lia|].
  destruct (hex_digit_good (g / 256 mod 16)) as (V2 & C2 & D2 & E2); [apply Z.mod_pos_bound; lia|].
  destruct (hex_digit_good (g / 4096 mod 16)) as (V3 & C3 & D3 & E3); [apply Z.mod_pos_bound; lia|].
  unfold hex16, hex_value.
  destruct (Z.ltb_spec g 16), (Z.ltb_spec g 256), (Z.ltb_spec g 4096); try lia;
    cbn [String.list_ascii_of_string foldl str_free]; rewrite ?V0, ?V1, ?V2, ?V3, ?C0, ?C1, ?C2, ?C3, ?D0, ?D1, ?D2, ?D3, ?E0, ?E1, ?E2, ?E3;
    (split_and!; [Z.to_euclidean_division_equations; lia|done..]).
Qed.

Lemma hex16_inj g g' : group_ok g → group_ok g' → hex16 g = hex16 g' → g = g'.
Proof. intros Hg Hg' He. destruct (hex16_good g Hg) as [<- _], (hex16_good g' Hg') as [<- _]. by rewrite He. Qed.

Lemma hex16s_inj gs gs' : Forall group_ok gs → Forall group_ok gs' → hex16 <$> gs = hex16 <$> gs' → gs = gs'.
Proof.
  intros Hg. revert gs'. induction Hg as [|g gs Hg Hgs IH]; intros gs' Hg'; destruct Hg' as [|g' gs' Hg' Hgs']; [done..|].
  cbn [fmap list_fmap]. intros [= H1 H2]. f_equal; [by apply hex16_inj|by apply IH].
Qed.

Lemma groups6_ok v : Forall group_ok (groups6 v).
Proof. unfold groups6. apply list.Forall_fmap, list.Forall_forall. intros i _. unfold group_ok. simpl. apply Z.mod_pos_bound. lia. Qed.

Lemma groups6_inj v v' : 0 ≤ v < 2 ^ 128 → 0 ≤ v' < 2 ^ 128 → groups6 v = groups6 v' → v = v'.
Proof.
  intros Hv Hv' He. unfold groups6 in He. cbn [fmap list_fmap] in He. injection He as H7 H6 H5 H4 H3 H2 H1 H0.
  assert (∀ x, 0 ≤ x < 2 ^ 128 → x = Z.shiftr x (16 * 7) mod 2 ^ 16 * 2 ^ 112 + Z.shiftr x (16 * 6) mod 2 ^ 16 * 2 ^ 96 +
    Z.shiftr x (16 * 5) mod 2 ^ 16 * 2 ^ 80 + Z.shiftr x (16 * 4) mod 2 ^ 16 * 2 ^ 64 + Z.shiftr x (16 * 3) mod 2 ^ 16 * 2 ^ 48 +
    Z.shiftr x (16 * 2) mod 2 ^ 16 * 2 ^ 32 + Z.shiftr x (16 * 1) mod 2 ^ 16 * 2 ^ 16 + Z.shiftr x (16 * 0) mod 2 ^ 16) as Hsum.
  { intros x Hx. rewrite !Z.shiftr_div_pow2 by lia. cbn [Z.mul Pos.mul]. change (16 * 0) with 0. rewrite Z.pow_0_r, Z.div_1_r.
    Z.to_euclidean_division_equations. lia. }
  rewrite (Hsum v Hv), (Hsum v' Hv'). congruence.
Qed.

(** ** IPv6 *)

Lemma print_groups_tail gs : print_groups gs false = colons (hex16 <$> gs).
Proof. induction gs as [|g gs IH]; [done|]. cbn [print_groups fmap list_fmap colons foldr]. by rewrite IH. Qed.

(** The tokens of a printed run of groups: an empty run is one empty token. *)
Definition toks (gs : list Z) : list string := match gs with [] => [""%string] | _ => hex16 <$> gs end.

Lemma print_groups_toks gs : String ":" (print_groups gs true) = colons (toks gs).
Proof.
  destruct gs as [|g gs]; [done|]. cbn [print_groups toks fmap list_fmap colons foldr]. by rewrite print_groups_tail.
Qed.

Lemma toks_inj gs gs' : Forall group_ok gs → Forall group_ok gs' → toks gs = toks gs' → gs = gs'.
Proof.
  intros Hg Hg'. destruct gs as [|g gs], gs' as [|g' gs']; cbn [toks]; [done| | |by apply hex16s_inj]; cbn [fmap list_fmap]; intros [= He _].
  - apply list.Forall_cons in Hg' as [Hg' _]. by destruct (hex16_good g' Hg') as (_ & _ & _ & [] & _).
  - apply list.Forall_cons in Hg as [Hg _]. by destruct (hex16_good g Hg) as (_ & _ & _ & [] & _).
Qed.

Lemma toks_free gs : Forall group_ok gs → Forall (λ t, str_free ":" t = true) (toks gs).
Proof.
  intros Hg. destruct Hg as [|g gs Hg Hgs]; [by repeat constructor|]. cbn [toks].
  apply list.Forall_fmap. assert (Forall group_ok (g :: gs)) as Hall by by constructor.
  eapply list.Forall_impl; [exact Hall|]. intros x Hx. simpl. by destruct (hex16_good x Hx) as (_ & ? & _).
Qed.

(** The first empty token ends the groups before the compression. *)
Lemma toks_split A A' X X' : Forall group_ok A → Forall group_ok A' →
  toks A ++ ""%string :: X = toks A' ++ ""%string :: X' → A = A' ∧ X = X'.
Proof.
  intros HA HA'. destruct A as [|a A], A' as [|a' A'].
  - by intros [= ->].
  - intros [= He _]. apply list.Forall_cons in HA' as [Ha _]. by destruct (hex16_good a' Ha) as (_ & _ & _ & [] & _).
  - intros [= He _]. apply list.Forall_cons in HA as [Ha _]. by destruct (hex16_good a Ha) as (_ & _ & _ & [] & _).
  - cbn [toks]. revert HA HA'. generalize (a :: A), (a' :: A'). clear. intros l l' Hl. revert l'.
    induction Hl as [|g l Hg Hl IH]; intros l' Hl'; destruct Hl' as [|g' l' Hg' Hl']; cbn [fmap list_fmap app].
    + by intros [= ->].
    + intros [= He _]. by destruct (hex16_good g' Hg') as (_ & _ & _ & [] & _).
    + intros [= He _]. by destruct (hex16_good g Hg) as (_ & _ & _ & [] & _).
    + intros [= He Hr]. apply hex16_inj in He as ->; [|done..]. destruct (IH l' Hl' Hr) as [-> ->]. done.
Qed.

(** What the compression leaves out is zero. *)
Lemma zero_run_zeros gs : firstn (zero_run gs) gs = replicate (zero_run gs) 0 ∧ (zero_run gs ≤ length gs)%nat.
Proof.
  induction gs as [|g gs [IH IHl]]; [done|]. cbn [zero_run]. destruct (Z.eqb_spec g 0) as [->|]; [|split; [done|simpl; lia]].
  cbn [firstn replicate]. rewrite IH. split; [done|simpl; lia].
Qed.

Definition run_of (gs : list Z) (se : nat * nat) : Prop :=
  ∃ n A B, gs = A ++ replicate n 0 ++ B ∧ se = (length A, length A + n)%nat.

Lemma longest_run_of all pre gs best se :
  all = pre ++ gs → (∀ se, best = Some se → run_of all se) →
  longest_run (length pre) gs best = Some se → run_of all se.
Proof.
  revert pre best. induction gs as [|g gs IH]; intros pre best Hall Hb; cbn [longest_run]; [by apply Hb|].
  intros Hr. eapply (IH (pre ++ [g])); [by rewrite <-app_assoc| |rewrite length_app, Nat.add_comm; exact Hr].
  intros se'. destruct (_ && _); [|apply Hb]. intros [= <-]. destruct (zero_run_zeros (g :: gs)) as [Hz Hl].
  exists (zero_run (g :: gs)), pre, (skipn (zero_run (g :: gs)) (g :: gs)). by rewrite <-Hz, firstn_skipn.
Qed.

(** The tokens of a printed address, and the groups they stand for. *)
Lemma print6_tokens v :
  (String ":" (print6 v) = colons (hex16 <$> groups6 v)) ∨
  ∃ n A B, groups6 v = A ++ replicate n 0 ++ B ∧ String ":" (print6 v) = colons (toks A ++ ""%string :: toks B).
Proof.
  unfold print6. destruct (longest_run 0 (groups6 v) None) as [[s e]|] eqn:Hl.
  - right. apply (longest_run_of (groups6 v) []) in Hl as (n & A & B & Hg & [= -> ->]); [|done|done].
    exists n, A, B. split; [done|]. rewrite Hg, firstn_app, firstn_all, Nat.sub_diag, app_nil_r, app_assoc.
    rewrite (drop_app_length' _ B) by (rewrite length_app, length_replicate; done).
    rewrite colons_app. cbn [colons foldr]. fold (colons (toks B)). rewrite <-!print_groups_toks. by rewrite append_cons_str.
  - left. rewrite print_groups_toks. done.
Qed.

Lemma groups6_tokens_free v : Forall (λ t, str_free ":" t = true) (hex16 <$> groups6 v).
Proof. exact (toks_free (groups6 v) (groups6_ok v)). Qed.

Lemma print6_inj v v' : 0 ≤ v < 2 ^ 128 → 0 ≤ v' < 2 ^ 128 → print6 v = print6 v' → v = v'.
Proof.
  intros Hv Hv' He. apply (f_equal (String ":")) in He. apply groups6_inj; [done..|].
  pose proof (groups6_ok v) as Hg. pose proof (groups6_ok v') as Hg'.
  assert (∀ x A B, Forall group_ok (groups6 x) → Forall group_ok A → Forall group_ok B →
            colons (hex16 <$> groups6 x) = colons (toks A ++ ""%string :: toks B) → False) as Hno.
  { intros x A B Hx HA HB Hc. apply colons_inj in Hc; [|exact (toks_free _ Hx)|apply list.Forall_app; split; [by apply toks_free|constructor; [done|by apply toks_free]]].
    assert (""%string ∈ hex16 <$> groups6 x) as Hin by (rewrite Hc; set_solver).
    apply list_elem_of_fmap in Hin as (g & Hg0 & Hin). rewrite list.Forall_forall in Hx. destruct (hex16_good g (Hx g Hin)) as (_ & _ & _ & Hne & _). congruence. }
  destruct (print6_tokens v) as [E|(n & A & B & E1 & E)], (print6_tokens v') as [E'|(n' & A' & B' & E1' & E')]; rewrite E, E' in He.
  - apply colons_inj in He; [by apply hex16s_inj|apply groups6_tokens_free..].
  - rewrite E1', !list.Forall_app in Hg'. exfalso. destruct Hg' as (? & _ & ?). by apply (Hno v A' B').
  - rewrite E1, !list.Forall_app in Hg. exfalso. destruct Hg as (? & _ & ?). by apply (Hno v' A B).
  - pose proof (eq_refl (length (groups6 v))) as Hn. rewrite E1 in Hn at 1.
    pose proof (eq_refl (length (groups6 v'))) as Hn'. rewrite E1' in Hn' at 1.
    rewrite !length_app, length_replicate in Hn, Hn'. change (length (groups6 _)) with 8%nat in Hn, Hn'.
    rewrite E1, !list.Forall_app in Hg. rewrite E1', !list.Forall_app in Hg'. destruct Hg as (HA & _ & HB), Hg' as (HA' & _ & HB').
    apply colons_inj in He; [|apply list.Forall_app; split; [by apply toks_free|constructor; [done|by apply toks_free]]..].
    apply toks_split in He as [-> ->%toks_inj]; [|done..]. rewrite E1, E1'. by replace n with n' by lia.
Qed.

(** ** IPv4 and the whole *)

Lemma dec_octet_inj x y : dec (x mod 256) = dec (y mod 256) → x mod 256 = y mod 256.
Proof. apply dec_inj; (split; [apply Z.mod_pos_bound; lia|eapply Z.lt_le_trans; [apply Z.mod_pos_bound; lia|lia]]). Qed.

Lemma octet_free x c : digit c = false → str_free c (dec (x mod 256)) = true.
Proof. intros. apply dec_free; [apply Z.mod_pos_bound; lia|done]. Qed.

Lemma print4_inj v v' : 0 ≤ v < 2 ^ 32 → 0 ≤ v' < 2 ^ 32 → print4 v = print4 v' → v = v'.
Proof.
  intros Hv Hv'. unfold print4. intros He.
  do 3 (apply split_unique in He as [?%dec_octet_inj He]; [|by apply octet_free..]). apply dec_octet_inj in He.
  rewrite !Z.shiftr_div_pow2 in * by lia. Z.to_euclidean_division_equations. lia.
Qed.

Lemma print4_free c v : digit c = false → Ascii.eqb "." c = false → str_free c (print4 v) = true.
Proof.
  intros Hc Hd. unfold print4. rewrite !str_free_append, !octet_free by done. cbn [str_free]. by rewrite Hd.
Qed.

Lemma print4_dotted v : str_free "." (print4 v) = false.
Proof. unfold print4. rewrite !str_free_append. cbn [str_free]. by rewrite Ascii.eqb_refl, !andb_false_r. Qed.

Lemma colons_free c l : Ascii.eqb ":" c = false → Forall (λ t, str_free c t = true) l → str_free c (colons l) = true.
Proof.
  intros Hc Hl. induction Hl as [|t l Ht Hl IH]; [done|]. change (colons (t :: l)) with (String ":" (String.append t (colons l))). cbn [str_free]. by rewrite Hc, str_free_append, Ht, IH.
Qed.

Lemma print6_free c v :
  Ascii.eqb ":" c = false → (∀ g, group_ok g → str_free c (hex16 g) = true) → str_free c (print6 v) = true.
Proof.
  intros Hc Hhex. assert (∀ gs, Forall group_ok gs → Forall (λ t, str_free c t = true) (toks gs)) as Hfree.
  { intros gs Hg. destruct Hg as [|g gs Hg Hgs]; [by repeat constructor|]. cbn [toks]. apply list.Forall_fmap.
    assert (Forall group_ok (g :: gs)) as Hall by by constructor.
    eapply list.Forall_impl; [exact Hall|]. intros x Hx. by apply Hhex. }
  assert (str_free c (String ":" (print6 v)) = true) as Hv; [|cbn [str_free] in Hv; by rewrite Hc in Hv].
  pose proof (groups6_ok v) as Hg. destruct (print6_tokens v) as [->|(n & A & B & E & ->)].
  - apply colons_free; [done|]. exact (Hfree _ Hg).
  - rewrite E, !list.Forall_app in Hg. destruct Hg as (HA & _ & HB). apply colons_free; [done|].
    apply list.Forall_app. split; [by apply Hfree|]. constructor; [done|by apply Hfree].
Qed.

Lemma print6_undotted v : str_free "." (print6 v) = true.
Proof. apply print6_free; [done|]. intros g Hg. by destruct (hex16_good g Hg) as (_ & _ & ? & _). Qed.

Lemma print6_coloned v : str_free ":" (print6 v) = false.
Proof.
  destruct (str_free ":" (print6 v)) eqn:Hf; [|done]. exfalso.
  assert (∀ l, String ":" (print6 v) = colons l → (length l ≤ 1)%nat) as Hl.
  { intros [|a [|b l]]; [simpl; lia..|]. cbn [colons foldr]. intros [= He]. rewrite He, str_free_append in Hf.
    cbn [str_free] in Hf. by rewrite andb_false_r in Hf. }
  destruct (print6_tokens v) as [E|(n & A & B & _ & E)]; apply Hl in E; revert E.
  - simpl. lia.
  - rewrite length_app. destruct B; simpl; destruct A; simpl; rewrite ?length_fmap; lia.
Qed.

(** Addresses print injectively. *)
Lemma addr_string_inj a b : addr_fits a → addr_fits b → addr_is_valid a = true → addr_is_valid b = true →
  addr_string a = addr_string b → a = b.
Proof.
  assert (∀ v s, Z.shiftr v 32 =? 65535 = true → str_free "." (String.append s (print4 (v mod 2 ^ 32))) = false) as Hm.
  { intros v s _. by rewrite str_free_append, print4_dotted, andb_false_r. }
  assert (∀ v, str_free ":" (String.append "::ffff:" (print4 v)) = false) as Hcol by done.
  assert (∀ v, str_free ":" (print4 v) = true) as H4 by (intros v; by apply print4_free).
  destruct a as [|v|v], b as [|v'|v']; try done; cbn [addr_fits addr_string]; intros Ha Hb _ _.
  - intros He. f_equal. by apply print4_inj.
  - intros He. exfalso. specialize (H4 v). rewrite He in H4. destruct (_ =? _); [by rewrite Hcol in H4|by rewrite print6_coloned in H4].
  - intros He. exfalso. specialize (H4 v'). rewrite <-He in H4. destruct (_ =? _); [by rewrite Hcol in H4|by rewrite print6_coloned in H4].
  - destruct (Z.eqb_spec (Z.shiftr v 32) 65535) as [E|E], (Z.eqb_spec (Z.shiftr v' 32) 65535) as [E'|E']; intros He.
    + f_equal. apply append_inj_r in He. apply print4_inj in He; [|apply Z.mod_pos_bound; lia..].
      rewrite Z.shiftr_div_pow2 in E, E' by lia. rewrite (Z.div_mod v (2 ^ 32)), (Z.div_mod v' (2 ^ 32)) by lia. congruence.
    + exfalso. pose proof (print6_undotted v') as Hu. rewrite <-He in Hu. by rewrite str_free_append, print4_dotted, andb_false_r in Hu.
    + exfalso. pose proof (print6_undotted v) as Hu. rewrite He in Hu. by rewrite str_free_append, print4_dotted, andb_false_r in Hu.
    + f_equal. by apply print6_inj.
Qed.

Lemma addr_string_slashless a : str_free "/" (addr_string a) = true.
Proof.
  assert (∀ v, str_free "/" (print6 v) = true) as H6.
  { intros v. apply print6_free; [done|]. intros g Hg. by destruct (hex16_good g Hg) as (_ & _ & _ & _ & ?). }
  destruct a as [|v|v]; [done|by apply print4_free|]. cbn [addr_string]. destruct (_ =? _); [|apply H6].
  rewrite str_free_append, print4_free by done. done.
Qed.

(** A printed prefix in front of a dot: its address and length are told apart
    from what follows. *)
Lemma prefix_string_inj p q x y : prefix_fits p → prefix_fits q →
  String.append (prefix_string p) (String "." x) = String.append (prefix_string q) (String "." y) → p = q ∧ x = y.
Proof.
  destruct p as [a n], q as [b m]. intros (Ha & Hav & Hn) (Hb & Hbv & Hm). simpl in *.
  unfold prefix_string, prefix_is_valid. cbn [pfx_addr pfx_bits].
  assert (addr_bit_len a ≤ 128 ∧ addr_bit_len b ≤ 128) as [] by (split; [destruct a|destruct b]; simpl; lia).
  destruct (Z.leb_spec 0 n), (Z.leb_spec 0 m); [|lia..]. rewrite !append_assoc_str, !append_cons_str. intros He.
  apply split_unique in He as [He Hr]; [|apply addr_string_slashless..].
  apply split_unique in Hr as [Hr Hx]; [|by apply dec_free..].
  apply addr_string_inj in He as ->; [|by destruct a, b..]. apply dec_inj in Hr as ->; [done|lia..].
Qed.
