(* ===== verification/NodeCorrect.v ===== *)
(** A node over its lifetime: resource keys identify kernel objects across
    intents, so that a PE that is handed intents one after the other ends with
    exactly what the last one asks for, whatever was installed before. *)

From S2P Require Import Prelude Netip Topology Sid Registry Resource Reconcile Contract MemDataplane ReconcileCorrect RenderCorrect NetipCorrect Feed.

#[local] Opaque StringToID ColorTableID u32 u64 i64.

(** ** Intents one after the other *)

(** The addresses and prefixes of an intent are ones [netip] can hold. *)
Record pe_fits (pe : PEIntent) : Prop := {
  pf_sid : ∀ tid t, pei_Tenants pe !! tid = Some t → addr_fits (ti_DT46SID t);
  pf_site : ∀ tid t id p, pei_Tenants pe !! tid = Some t → ti_PortalIntents t !! id = Some p → prefix_fits (po_SitePrefix p);
  pf_path : ∀ tid t path x, pei_Tenants pe !! tid = Some t → path ∈ ti_InstallPaths t → x ∈ ii_PrefixRoutes path → prefix_fits x;
}.

(** An intent a kernel can hold. *)
Record pe_good (pe : PEIntent) : Prop := {
  pg_consistent : pe_consistent pe;
  pg_fits : pe_fits pe;
  pg_dscp : ∀ c dscp, c ∈ pei_TrafficClassIntent pe → dscp ∈ tci_DSCP c → dscp < 255;
}.

(** Two intents do not give one table number to different tenants. *)
Definition tables_agree (pe pe' : PEIntent) : Prop :=
  ∀ tid t tid' t', pei_Tenants pe !! tid = Some t → pei_Tenants pe' !! tid' = Some t' → StringToID tid = StringToID tid' → tid = tid'.

(** ** Keys *)

Lemma rkey_cat r : rkey r = String.append (kind_string (rkind r)) (String ":" (match r with
  | RVRF v => vrf_Name v
  | RXFRM x => String.append (xfrm_Name x) (String "." (dec (xfrm_IfID x)))
  | RRoute r => String.append (dec (rt_Table r)) (String "." (String.append (prefix_string (rt_Dst r)) (String "." (rt_Dev r))))
  | RRule r => String.append (dec (ru_Priority r)) (String "." (String.append
      (match ru_Src r with Some p => prefix_string p | None => ""%string end)
      (String "." (String.append (dec (ru_Table r)) (String "." (dec (ru_Mark r)))))))
  | RSID s => String.append (sid_SIDType s) (String "." (String.append (addr_string (sid_SID s)) (String "." (dec (sid_VrfTableID s)))))
  | RSRRoute s => String.append (dec (sr_Table s)) (String "." (String.append (prefix_string (sr_Prefix s))
      (String "." (cat (addr_string <$> sr_Segments s)))))
  | RClassification c => String.append (dec (cl_Classifier c)) (String "." (dec (cl_Mark c)))
  end)).
Proof.
  unfold rkey, rkind. destruct r; cbn [resource_ID VRF_ID XFRM_ID Route_ID Rule_ID SID_ID SRRoute_ID Classification_ID id_Key id_Kind];
    unfold cat at 1; cbn [foldr]; by rewrite ?append_empty.
Qed.

Lemma kind_string_free k : str_free ":" (kind_string k) = true.
Proof. by destruct k. Qed.

Lemma kind_string_inj k k' : kind_string k = kind_string k' → k = k'.
Proof. by destruct k, k'. Qed.

(** The key starts with the kind. *)
Lemma rkey_kind r r' : rkey r = rkey r' → rkind r = rkind r'.
Proof.
  rewrite !rkey_cat. intros [He _]%(split_unique ":"); [|apply kind_string_free..]. by apply kind_string_inj.
Qed.

Lemma rkey_body r r' : rkey r = rkey r' → ∀ a b, rkey r = String.append (kind_string (rkind r)) (String ":" a) →
  rkey r' = String.append (kind_string (rkind r')) (String ":" b) → a = b.
Proof.
  intros He a b Ha Hb. rewrite Ha, Hb in He. apply (split_unique ":") in He as [_ ?]; [done|apply kind_string_free..].
Qed.

Lemma dec_small_inj x y : 0 ≤ x < 2 ^ 64 → 0 ≤ y < 2 ^ 64 → dec x = dec y → x = y.
Proof. intros. apply dec_inj; [lia..|done]. Qed.

Lemma dec_dot_inj x y a b : 0 ≤ x < 2 ^ 64 → 0 ≤ y < 2 ^ 64 →
  String.append (dec x) (String "." a) = String.append (dec y) (String "." b) → x = y ∧ a = b.
Proof.
  intros Hx Hy [He Hr]%split_unique; [|apply dec_free; [lia|done]..]. split; [by apply dec_small_inj|done].
Qed.

Lemma table_range tid : 0 ≤ StringToID tid < 2 ^ 64.
Proof. pose proof (StringToID_range tid). unfold vrfTableBits in *. lia. Qed.

Lemma color_table_range tid c : 0 ≤ c < 2 ^ colorBits → 0 ≤ ColorTableID (StringToID tid) c < 2 ^ 64.
Proof.
  intros Hc. pose proof (StringToID_range tid). unfold colorBits in Hc. rewrite ColorTableID_sum by lia. unfold vrfTableBits in *. lia.
Qed.

Lemma u32_range64 v : 0 ≤ u32 v < 2 ^ 64.
Proof. pose proof (u32_range v). lia. Qed.

Section keys.
Context (pe pe' : PEIntent) (Hg : pe_good pe) (Hg' : pe_good pe') (Hagree : tables_agree pe pe').

Lemma color_tables_agree tid t p tid' t' p' :
  pei_Tenants pe !! tid = Some t → p ∈ ti_InstallPaths t → pei_Tenants pe' !! tid' = Some t' → p' ∈ ti_InstallPaths t' →
  ColorTableID (StringToID tid) (ii_Color p) = ColorTableID (StringToID tid') (ii_Color p') → tid = tid' ∧ ii_Color p = ii_Color p'.
Proof.
  intros Ht Hp Ht' Hp'. destruct (pc_path _ (pg_consistent _ Hg) _ _ _ Ht Hp) as (_ & Hc & _).
  destruct (pc_path _ (pg_consistent _ Hg') _ _ _ Ht' Hp') as (_ & Hc' & _).
  pose proof (StringToID_range tid). pose proof (StringToID_range tid'). unfold colorBits in *.
  rewrite !ColorTableID_sum by lia. unfold vrfTableBits in *. intros He. split; [|lia]. eapply Hagree; eauto. lia.
Qed.

(** Keys identify: what one intent asks for under a key is, for the kernel,
    what any other asks for under it. *)
Lemma keys_identify r r' : asked pe r → asked pe' r' → rkey r = rkey r' → shows r' r.
Proof.
  intros H1 H2 Hk. pose proof (rkey_kind r r' Hk) as Hkind. pose proof (rkey_body r r' Hk _ _ (rkey_cat r) (rkey_cat r')) as Hb.
  destruct H1 as [c dscp Hc Hd|tid t Ht|tid t Ht Hv|tid t id p Ht Hp|tid t id p Ht Hp|tid t path x Ht Hp Hx|tid t path x Ht Hp Hx],
    H2 as [c' dscp' Hc' Hd'|tid' t' Ht'|tid' t' Ht' Hv'|tid' t' id' p' Ht' Hp'|tid' t' id' p' Ht' Hp'|tid' t' path' x' Ht' Hp' Hx'|tid' t' path' x' Ht' Hp' Hx'];
    try discriminate Hkind; clear Hkind; (split; [exact Hk|clear Hk]).
  - cbn [class_of cl_Classifier cl_Mark] in Hb. apply dec_dot_inj in Hb as [E1 E2%dec_small_inj]; [|apply u32_range64..].
    unfold class_of. by rewrite E1, E2.
  - apply vrf_name_inj in Hb as ->. done.
  - cbn [sid_of sid_SIDType sid_SID] in Hb. apply append_inj_r in Hb. injection Hb as Hb. apply append_inj_l in Hb.
    apply addr_string_inj in Hb; [|eauto using pf_sid, pg_fits..]. cbn [rkid sid_of sid_SID]. by rewrite Hb.
  - destruct (pc_portal _ (pg_consistent _ Hg) _ _ _ _ Ht Hp) as [Hi _], (pc_portal _ (pg_consistent _ Hg') _ _ _ _ Ht' Hp') as [Hi' _].
    cbn [xfrm_of xfrm_Name xfrm_IfID] in Hb. apply split_at_digits in Hb as [Hb _]; [|done|apply dec_digits; lia..].
    apply tun_name_inj in Hb as [-> E]; [|done..]. cbn [rkid xfrm_of xfrm_Name xfrm_MasterVRF]. by rewrite E.
  - cbn [route_of rt_Table rt_Dst rt_Dev] in Hb. apply dec_dot_inj in Hb as [E1 E2]; [|apply table_range..].
    apply prefix_string_inj in E2 as [E2 _]; [|eauto using pf_site, pg_fits..]. cbn [rkid route_of rt_Table rt_Dst]. by rewrite E1, E2.
  - destruct (pc_path _ (pg_consistent _ Hg) _ _ _ Ht Hp) as (_ & Hc & _), (pc_path _ (pg_consistent _ Hg') _ _ _ Ht' Hp') as (_ & Hc' & _).
    cbn [sr_of sr_Table sr_Prefix] in Hb. apply dec_dot_inj in Hb as [E1 E2]; [|by apply color_table_range..].
    apply prefix_string_inj in E2 as [E2 _]; [|eauto using pf_path, pg_fits..]. cbn [rkid sr_of sr_Table sr_Prefix]. by rewrite E1, E2.
  - destruct (pc_path _ (pg_consistent _ Hg) _ _ _ Ht Hp) as (_ & Hc & _), (pc_path _ (pg_consistent _ Hg') _ _ _ Ht' Hp') as (_ & Hc' & _).
    unfold color_rule in *. cbn [ru_Priority ru_Src ru_Table ru_Mark] in Hb. apply dec_dot_inj in Hb as [_ Hb]; [|lia..].
    injection Hb as Hb. apply dec_dot_inj in Hb as [E _]; [|by apply color_table_range..].
    destruct (color_tables_agree _ _ _ _ _ _ Ht Hp Ht' Hp' E) as [-> ->]. done.
Qed.
End keys.

Lemma shows_trans r1 r2 r3 : shows r1 r2 → shows r2 r3 → shows r1 r3.
Proof.
  intros (K1 & I1 & S1) (K2 & I2 & S2). split_and!; [congruence..|].
  destruct r1, r2; try discriminate I1; destruct r3; try discriminate I2; congruence.
Qed.

(** What is shown of a link or a route. *)
Lemma shows_xfrm x r : shows (RXFRM x) r →
  ∃ x', r = RXFRM x' ∧ dec (xfrm_IfID x') = dec (xfrm_IfID x) ∧ xfrm_MasterVRF x' = xfrm_MasterVRF x.
Proof.
  intros (Hk & Hi & Hm). destruct r as [|x'| | | | |]; try discriminate Hi. exists x'. split_and!; [done| |done]. injection Hi as Hn.
  pose proof (rkey_body _ _ Hk _ _ (rkey_cat _) (rkey_cat _)) as Hb. cbn in Hb. rewrite Hn in Hb.
  apply append_inj_r in Hb. by injection Hb.
Qed.

Lemma shows_route rt r : shows (RRoute rt) r → ∃ rt', r = RRoute rt' ∧ rt_Dev rt' = rt_Dev rt.
Proof.
  intros (Hk & Hi & _). destruct r as [| |rt'| | | |]; try discriminate Hi. exists rt'. split; [done|]. injection Hi as Htab Hdst.
  pose proof (rkey_body _ _ Hk _ _ (rkey_cat _) (rkey_cat _)) as Hb. cbn in Hb. rewrite Htab, Hdst in Hb.
  apply append_inj_r in Hb. injection Hb as Hb. apply append_inj_r in Hb. by injection Hb.
Qed.

(** ** A node at rest *)

(** The dataplane shows exactly what the intent asks for. *)
Record realizes {D : Type} `{DataplaneContract D} (pe : PEIntent) (d : D) : Prop := {
  rz_ok : dp_ok d;
  rz_settled : settled d;
  rz_only : ∀ k r, dp_view d k = Some r → ∃ w, asked pe w ∧ shows w r;
  rz_all : ∀ w, asked pe w → ∃ r, dp_view d (rkid w) = Some r ∧ shows w r;
}.

Lemma good_tables pe : pe_good pe → tables_agree pe pe.
Proof. intros Hg tid t tid' t' Ht Ht'. by eapply (pc_tables _ (pg_consistent _ Hg)). Qed.

Lemma empty_asks n r : ¬ asked (empty_pe n) r.
Proof. destruct 1; simpl in *; simplify_map_eq; by eapply not_elem_of_nil. Qed.

Lemma empty_good n : pe_good (empty_pe n).
Proof. split; [split|split|]; simpl; intros *; rewrite ?lookup_empty; try done; by intros ?%not_elem_of_nil. Qed.

Lemma empty_agrees n pe : tables_agree (empty_pe n) pe.
Proof. intros tid t tid' t'. simpl. by rewrite lookup_empty. Qed.

(** A dataplane with nothing of maeto's realizes the empty intent. *)
Lemma fresh_realizes {D : Type} `{DataplaneContract D} n (d : D) :
  dp_ok d → dp_queue d = [] → (∀ k, dp_view d k = None) → realizes (empty_pe n) d.
Proof.
  intros Hok Hq Hv. split; [done| | |].
  - intros k. by rewrite Hq.
  - intros k r. by rewrite Hv.
  - intros w []%empty_asks.
Qed.

(** What one intent left does not contradict what the next one renders to. *)
Lemma realizes_compatible {D : Type} `{DataplaneContract D} pe pe' rs (d : D) :
  pe_good pe → pe_good pe' → tables_agree pe pe' → realizes pe d → only (asked pe') rs → compatible rs (dp_view d).
Proof.
  intros Hg Hg' Hagree Hrz Honly. split.
  - intros k r0 w Hk Hw. destruct (rz_only _ _ Hrz _ _ Hk) as (w0 & Ha & Hsh). destruct (Honly _ _ Hw) as [Hkey Ha'].
    eapply shows_trans; [|exact Hsh]. apply (keys_identify pe pe'); [done..|]. by rewrite Hkey, (proj1 Hsh).
  - intros k1 k2 r1 r2 V1 V2 He. destruct (rz_only _ _ Hrz _ _ V1) as (w1 & A1 & S1), (rz_only _ _ Hrz _ _ V2) as (w2 & A2 & S2).
    rewrite <-(dp_view_kid _ _ _ (rz_ok _ _ Hrz) V1), <-(dp_view_kid _ _ _ (rz_ok _ _ Hrz) V2).
    destruct (keys_identify pe pe Hg Hg (good_tables _ Hg) w1 w2 A1 A2) as (_ & Hkid & _).
    { destruct S1 as [<- _], S2 as [<- _]. done. }
    destruct S1 as (_ & -> & _), S2 as (_ & -> & _). done.
Qed.

(** One run, from whatever another intent left. *)
Lemma reconcile_good `{RangeOrder} {D : Type} `{DataplaneContract D} pe pe' r (d : D) ni rep now :
  pe_good pe → pe_good pe' → tables_agree pe pe' → realizes pe d →
  ni_Intent ni = IntentPE pe' → ni_NodeType ni = rc_nodeType r → stale r ni = false →
  let '(r', d', oc, _) := Reconcile r d ni rep now in
  oc_converged oc = true ∧ (oc_passes oc ≤ maxPasses)%nat ∧ rc_current r' = Some ni ∧ rc_nodeType r' = rc_nodeType r ∧ realizes pe' d'.
Proof.
  intros Hg Hg' Hagree Hrz Hi Ht Hs. pose proof (pg_consistent _ Hg') as Hpe.
  destruct (RenderPEIntent pe') as [rs|e] eqn:Hr.
  2: { exfalso. unfold RenderPEIntent in Hr. destruct (foldM classes_render ∅ _) as [|e'] eqn:Hc; [done|].
       apply classes_err_spec in Hc as (c & dscp & Hc & Hd & Hbig & _). pose proof (pg_dscp _ Hg' c dscp Hc Hd). lia. }
  destruct (RenderPE_ok pe' rs Hr) as (Honly & _ & Hall). specialize (Hall (consistent_apart pe' Hpe)).
  pose proof (realizes_compatible pe pe' rs d Hg Hg' Hagree Hrz Honly) as Hcomp.
  unfold Reconcile, maxPasses.
  destruct (loop_converges rs (rendered_desired_ok pe' Hpe rs Honly Hall) r ni Ht Hs ltac:(by rewrite Hi) d outcome_start
    (rz_ok _ _ Hrz) (rz_settled _ _ Hrz) Hcomp) as (d' & oc & p & -> & (Hconv & Herr & Hp) & Hp3 & Hok' & Hm & Hset').
  rewrite Hconv. destruct (report _ rep ni oc now) as [r' st] eqn:Hrep.
  split_and!; [done|lia| | |].
  - by rewrite <-(f_equal fst Hrep : _ = r'), report_current.
  - rewrite <-(f_equal fst Hrep : _ = r'). unfold report. destruct rep; [|done]. cbn [negb]. by destruct (oc_current oc).
  - split; [done|done| |].
    + intros k r0 Hk. destruct (mt_only _ _ Hm _ _ Hk) as (w & Hw & _ & Hsh). exists w. split; [|done]. by apply (Honly _ _ Hw).
    + intros w Ha. destruct (Hall w Ha) as [w' Hw']. destruct (Honly _ _ Hw') as [Hkey Ha'].
      assert (wanted rs w') as Hwt by (unfold wanted; by rewrite Hkey).
      destruct (mt_all _ _ Hm w' Hwt) as (r0 & Hr0 & Hsh).
      pose proof (keys_identify pe' pe' Hg' Hg' (good_tables _ Hg') w' w Ha' Ha Hkey) as Hid.
      exists r0. split; [|by eapply shows_trans]. by rewrite <-(proj1 (proj2 Hid)).
Qed.

(** ** A feed of intents *)

(** What a PE is handed: intents for PEs a kernel can hold, none older than the
    one before, and no table number that moves between tenants. *)
Definition pe_of (ni : NodeIntent) : PEIntent := match ni_Intent ni with IntentPE pe => pe | IntentCPE _ => empty_pe "" end.
Definition pe_intent_ok (ni : NodeIntent) : Prop :=
  ni_NodeType ni = NodeTypePE ∧ (∃ pe, ni_Intent ni = IntentPE pe) ∧ pe_good (pe_of ni).

Record pe_feed_ok (feed : list NodeIntent) : Prop := {
  fo_good : Forall pe_intent_ok feed;
  fo_order : StronglySorted not_before feed;
  fo_tables : ∀ ni ni', ni ∈ feed → ni' ∈ feed → tables_agree (pe_of ni) (pe_of ni');
}.

Lemma in_order_elem sent got ni : in_order sent got → ni ∈ got → ni ∈ sent.
Proof.
  intros (ks & _ & HF) (i & Hi)%list_elem_of_lookup. destruct (Forall2_lookup_r _ _ _ _ _ HF Hi) as (k & _ & Hk).
  by eapply list_elem_of_lookup_2.
Qed.

Lemma sorted_lookup sent i j a b :
  StronglySorted not_before sent → (i ≤ j)%nat → sent !! i = Some a → sent !! j = Some b → not_before a b.
Proof.
  intros Hs Hij Ha Hb. destruct (decide (i = j)) as [->|]; [simplify_eq; right; lia|].
  revert i j Hij Ha Hb n. induction Hs as [|x l Hs IH Hx]; intros [|i] [|j] Hij Ha Hb Hne; try done; try lia; simpl in *.
  - simplify_eq. rewrite list.Forall_forall in Hx. apply Hx. by eapply list_elem_of_lookup_2.
  - apply (IH i j); [lia|done|done|lia].
Qed.

Lemma in_order_feed sent got : pe_feed_ok sent → in_order sent got → pe_feed_ok got.
Proof.
  intros [Hg Hs Ht] Ho. pose proof (λ ni, in_order_elem sent got ni Ho) as Hin. split.
  - rewrite list.Forall_forall in *. auto.
  - destruct Ho as (ks & Hk & HF). clear Hin. revert Hk. induction HF as [|k i ks got Hki HF IH]; intros Hk; [constructor|].
    apply StronglySorted_inv in Hk as [Hk Hle]. constructor; [auto|]. apply list.Forall_forall. intros x (j & Hj)%list_elem_of_lookup.
    destruct (Forall2_lookup_r _ _ _ _ _ HF Hj) as (k' & Hk' & Hx). rewrite list.Forall_forall in Hle.
    eapply sorted_lookup; [done|apply Hle; by eapply list_elem_of_lookup_2|done..].
  - auto.
Qed.

Lemma pe_feed_snoc feed ni : pe_feed_ok (feed ++ [ni]) → pe_feed_ok feed ∧ pe_intent_ok ni ∧
  ∀ c, list.last feed = Some c → pe_intent_ok c ∧ not_before c ni ∧ tables_agree (pe_of c) (pe_of ni).
Proof.
  intros [Hg Hs Ht]. apply list.Forall_app in Hg as [Hg Hni]. apply list.Forall_cons in Hni as [Hni _]. split_and!; [|done|].
  - split; [done|by apply StronglySorted_app_1_l in Hs|set_solver].
  - intros c Hc. assert (c ∈ feed) as Hin by (apply last_Some in Hc as [l ->]; set_solver).
    split_and!; [by rewrite list.Forall_forall in Hg; apply Hg| |apply Ht; set_solver].
    destruct (list_elem_of_lookup_1 _ _ Hin) as [i Hi]. pose proof (lookup_lt_Some _ _ _ Hi).
    eapply (sorted_lookup _ i (length feed)); [exact Hs|lia|by apply lookup_app_l_Some|].
    by apply list_lookup_middle.
Qed.

Section feed.
Context `{RangeOrder} {D : Type} `{DataplaneContract D}.

(** A PE after the intents of [feed]. *)
Record follows (feed : list NodeIntent) (s : Reconciler * D) : Prop := {
  fw_type : rc_nodeType s.1 = NodeTypePE;
  fw_current : rc_current s.1 = list.last feed;
  fw_dataplane : realizes (default (empty_pe "") (pe_of <$> list.last feed)) s.2;
}.

Lemma start_step_follows rep now feed s ni :
  pe_feed_ok (feed ++ [ni]) → follows feed s → follows (feed ++ [ni]) (start_step rep now s ni).
Proof.
  intros (Hfeed & (Hty & [pe Hpe] & Hgood) & Hlast)%pe_feed_snoc [Ht Hc Hd].
  assert (pe_of ni = pe) as Hpo by (unfold pe_of; by rewrite Hpe).
  assert (stale s.1 ni = false) as Hs.
  { unfold stale. rewrite Hc. destruct (list.last feed) as [c|]; [|done]. destruct (Hlast c eq_refl) as (_ & Hb & _).
    unfold not_before in Hb. destruct (Z.ltb_spec (ni_Version ni) (ni_Version c)), (Z.eqb_spec (ni_Version ni) (ni_Version c)),
      (Z.ltb_spec (ni_Generation ni) (ni_Generation c)); try done; lia. }
  unfold start_step.
  assert (pe_good (default (empty_pe "") (pe_of <$> list.last feed)) ∧ tables_agree (default (empty_pe "") (pe_of <$> list.last feed)) pe) as [Hg0 Ha0].
  { destruct (list.last feed) as [c|]; [|split; [apply empty_good|apply empty_agrees]].
    destruct (Hlast c eq_refl) as ((_ & _ & ?) & _ & Hag). rewrite Hpo in Hag. done. }
  pose proof (reconcile_good _ pe s.1 s.2 ni rep now Hg0 ltac:(by rewrite <-Hpo) Ha0 Hd Hpe ltac:(congruence) Hs) as Hr.
  destruct (Reconcile s.1 s.2 ni rep now) as [[[r' d'] oc] st]. destruct Hr as (_ & _ & Hcur & Hty' & Hrz).
  split; simpl; rewrite ?last_snoc; simpl; [congruence|done|by rewrite Hpo].
Qed.

Lemma start_follows rep now feed s0 : pe_feed_ok feed → follows [] s0 → follows feed (foldl (start_step rep now) s0 feed).
Proof.
  intros Hok Hs0. induction feed as [|ni feed IH] using rev_ind; [done|]. rewrite foldl_app. simpl.
  apply start_step_follows; [done|]. apply IH. by destruct (pe_feed_snoc _ _ Hok).
Qed.

(** [Start] on a dataplane with nothing of maeto's. *)
Lemma Start_follows rep now feed (d : D) :
  pe_feed_ok feed → dp_ok d → dp_queue d = [] → (∀ k, dp_view d k = None) →
  ∃ s, Start (NewReconciler NodeTypePE) d rep now feed = Ok s ∧ follows feed s.
Proof.
  intros Hok Hd Hq Hv. unfold Start. destruct (dp_ensure d Hd) as (d' & -> & Hd' & Hq' & Hv').
  eexists. split; [done|]. apply start_follows; [done|]. split; [done|done|].
  apply fresh_realizes; [done..|]. intros k. rewrite Hv', Hq. apply Hv.
Qed.
End feed.

(** ** Results *)


Lemma demo_pe_good : pe_good demo_pe.
Proof.
  split; [exact demo_pe_consistent|split|]; unfold demo_pe; cbn [pei_Tenants pei_TrafficClassIntent].
  - intros tid t. rewrite lookup_singleton_Some. intros [_ <-]. apply (bool_decide_unpack _). vm_compute. exact I.
  - intros tid t id p. rewrite lookup_singleton_Some. intros [_ <-]. cbn [ti_PortalIntents]. rewrite lookup_singleton_Some.
    intros [_ <-]. apply (bool_decide_unpack _). vm_compute. exact I.
  - intros tid t path x. rewrite lookup_singleton_Some. intros [_ <-]. cbn [ti_InstallPaths]. rewrite list_elem_of_singleton.
    intros ->. cbn [ii_PrefixRoutes]. rewrite list_elem_of_In. intros Hx.
    repeat (destruct Hx as [<-|Hx]; [apply (bool_decide_unpack _); vm_compute; exact I|]). destruct Hx.
  - intros c dscp Hc Hd. apply list_elem_of_singleton in Hc as ->.
    cbn in Hd. apply elem_of_cons in Hd as [->|Hd%list_elem_of_singleton]; lia.
Qed.

Definition demo_pe_intent (generation : Z) (pe : PEIntent) : NodeIntent :=
  {| ni_ID := "pe-1"; ni_NodeType := NodeTypePE; ni_Intent := IntentPE pe; ni_Timestamp := 0;
     ni_Generation := generation; ni_Version := 1 |}.
Definition demo_feed : list NodeIntent := [demo_pe_intent 1 demo_pe; demo_pe_intent 2 (empty_pe "pe-1"); demo_pe_intent 3 demo_pe].

Lemma demo_feed_ok : pe_feed_ok demo_feed.
Proof.
  split.
  - assert (∀ n pe, pe_good pe → pe_intent_ok (demo_pe_intent n pe)) as Hi by (intros n pe Hpe; split_and!; simpl; eauto).
    unfold demo_feed. rewrite !list.Forall_cons. split_and!; [apply Hi; auto using demo_pe_good, empty_good..|constructor].
  - unfold demo_feed. repeat apply SSorted_cons; [apply SSorted_nil|..]; rewrite ?list.Forall_cons; split_and?;
      try (right; simpl; lia); constructor.
  - assert (∀ ni, ni ∈ demo_feed → pe_of ni = demo_pe ∨ pe_of ni = empty_pe "pe-1") as Hp.
    { intros ni. unfold demo_feed. rewrite !elem_of_cons. intros [->|[->|[->|[]%not_elem_of_nil]]]; auto. }
    intros ni ni' Hi Hi'. destruct (Hp ni Hi) as [-> | ->], (Hp ni' Hi') as [-> | ->]; try apply empty_agrees.
    + apply good_tables, demo_pe_good.
    + intros tid t tid' t' _. cbn. by rewrite lookup_empty.
Qed.

Lemma mem_empty_ok : dp_ok mem_empty.
Proof. split; [constructor|]. intros r Hr. destruct (not_elem_of_nil r Hr). Qed.

