(* ===== verification/EndToEnd.v ===== *)
(** The whole way of a tunnel: strongSwan on a PE reports it to the agent, the
    agent to the control plane, which publishes the node's next intent; the
    agent's watch, feeds and reconciler take that to the kernel. *)

From S2P Require Import Prelude Netip Topology Demo Tenants Demand Sid Registry Inventory Controller Resource Reconcile Contract MemDataplane ReconcileCorrect RenderCorrect NetipCorrect Feed NodeCorrect Swan Tunnel TunnelCorrect.

#[local] Opaque StringToID ColorTableID u32 u64 i64.

(** ** A tunnel comes up *)

(** strongSwan on a PE reports a child SA as installed, for a portal the control
    plane knows; the request and its reply arrive, and the database and the
    bucket accept the writes. *)
Record tunnel_up (g : Graph) (inv : JSONNodeInventory) (repo : JSONTenantRepository) (env : tunnel_env) (r : ServiceRegistry)
    (ev : UpDownEvent) (portal : string) (site : Site) (ifID : Z) : Prop := {
  tu_repo : repo_wf repo;
  tu_inventory : inventory_wf inv;
  tu_site : SiteByPortalID repo portal = Some site;
  tu_tenant : is_Some (Tenant_ repo (s_TenantID site));
  tu_node : is_Some (InvNode inv (s_Attach site));
  tu_portal : portal ≠ ""%string ∧ str_free "." portal = true;
  tu_event : ev_Event ev = "child-updown"%string;
  tu_ike : ike_State (ev_IKE ev) = "ESTABLISHED"%string ∧ ike_RemoteID (ev_IKE ev) = String.append portal portal_suffix;
  tu_child : ∃ key c, ike_ChildSAs (ev_IKE ev) = {[ key := c ]} ∧ ch_State c = "INSTALLED"%string ∧ IfID c = Ok ifID;
  tu_delivered : tn_request env = true ∧ tn_reply env = true;
  tu_registry : pe_or_none r (s_Attach site);
  tu_sid : ∃ tn sid, g_nodes g !! s_Attach site = Some tn ∧
    (getOrGenerateSID (tn_db_fails env (tenantMapKey (Node_Locator tn) (dec (s_TenantID site)) EncapTypeDT46))
       (Node_Locator tn) (dec (s_TenantID site)) EncapTypeDT46 (sr_sids r)).2 = Ok sid;
  tu_stored : tn_upsert_ok env (Key PrefixPE (s_Attach site) LaneIntent) = true;
  tu_published : tn_publish_ok env (Key PrefixPE (s_Attach site) LaneIntent) = true;
}.

(** A tunnel is asked for with the VRF it is in. *)
Lemma xfrm_asks_vrf pe tid p : asked pe (RXFRM (xfrm_of tid p)) → asked pe (RVRF (vrf_of tid)).
Proof.
  enough (∀ r, asked pe r → ∀ x, r = RXFRM x → ∃ tid', xfrm_MasterVRF x = vrf_name tid' ∧ asked pe (RVRF (vrf_of tid'))) as Hx.
  { intros Ha. destruct (Hx _ Ha _ eq_refl) as (tid' & He & ?). cbn [xfrm_of xfrm_MasterVRF] in He. by apply vrf_name_inj in He as ->. }
  intros r [| | |tid' t id p' Ht Hp| | |]; try done. intros x [= <-]. exists tid'. split; [done|]. by eapply asked_vrf.
Qed.

(** ** Results *)


(** ** Witness *)

Definition demo_site : Site := Eval vm_compute in match SiteByPortalID demo_repo "cpe1" with Some s => s
  | None => {| s_PortalID := ""; s_TenantID := 0; s_CPE := ""; s_Node := ""; s_Prefix := prefix_zero; s_Attach := ""; s_AttachNode := "";
               s_IfID := 0; s_Identity := ""; s_ReservationMbps := Float64.f_zero; s_ClassMbps := ∅ |} end.

Lemma demo_tunnel_up : tunnel_up demo_topology demo_inventory demo_repo demo_works demo_registry demo_up "cpe1" demo_site 42.
Proof.
  split; [exact demo_repo_wf|exact demo_inventory_wf|..].
  - vm_compute. reflexivity.
  - apply (bool_decide_unpack _). vm_compute. exact I.
  - apply (bool_decide_unpack _). vm_compute. exact I.
  - split; [discriminate|reflexivity].
  - reflexivity.
  - split; reflexivity.
  - exists "cpe-1"%string, demo_child. split_and!; reflexivity.
  - split; reflexivity.
  - intros e. cbn. rewrite lookup_empty. discriminate.
  - exists demo_ams, demo_ams_sid. split; vm_compute; reflexivity.
  - reflexivity.
  - reflexivity.
Qed.

(** What is published, evaluated. *)
Definition demo_published : NodeIntent := Eval vm_compute in
  match (agent_event (H := canonical_order) demo_topology demo_inventory demo_repo "ams" demo_works demo_registry demo_up).2 with
  | [(_, e)] => e | _ => demo_pe_intent 0 (empty_pe "") end.
Definition demo_published_portal : PE_PortalIntent := Eval vm_compute in
  default {| po_HostFacingInterface := ""; po_TunnelInterfaceID := 0; po_SitePrefix := prefix_zero; po_TenantPrefix := prefix_zero |}
    (t ← pei_Tenants (pe_of demo_published) !! "7"%string; ti_PortalIntents t !! "cpe1"%string).

Lemma demo_published_tenants :
  pei_Tenants (pe_of demo_published) =
    {[ "7"%string := {| ti_PortalIntents := {[ "cpe1"%string := demo_published_portal ]}; ti_DT46SID := demo_ams_sid; ti_InstallPaths := [] |} ]} ∧
  pei_TrafficClassIntent (pe_of demo_published) = [].
Proof. split; vm_compute; reflexivity. Qed.

Lemma demo_published_good : pe_good (pe_of demo_published).
Proof.
  destruct demo_published_tenants as [Ht Hc].
  split; [split|split|]; rewrite ?Ht, ?Hc;
    try (intros *; intros Hx%not_elem_of_nil; done); intros *; rewrite ?lookup_singleton_Some;
    repeat match goal with |- _ ∧ _ → _ => intros [<- <-]; cbn [ti_PortalIntents ti_DT46SID ti_InstallPaths]; rewrite ?lookup_singleton_Some end;
    try done; try (intros Hx%not_elem_of_nil; done).
  all: try (apply (bool_decide_unpack _); vm_compute; exact I).
Qed.

Lemma demo_published_feed : pe_feed_ok [demo_published].
Proof.
  split.
  - constructor; [|constructor]. split_and!; [reflexivity|by eexists|exact demo_published_good].
  - apply SSorted_cons; constructor.
  - intros ni ni' ->%list_elem_of_singleton ->%list_elem_of_singleton. apply good_tables, demo_published_good.
Qed.

