(* ===== verification/Queries.v ===== *)
(** The rest of the database's statements (libs/store): updates and deletions
    of tenants, sites and traffic classes with their cascades, the queries for
    one row, SID allocations and generations by key; and that the schema's
    constraints hold whatever statements run. *)

From S2P Require Import Prelude Float64 Netip Tenants Sid Registry Lifecycle Store.

(** ** Rows that go *)

(** A deletion takes the rows that refer to what is deleted with it
    (ON DELETE CASCADE). *)
Definition DeleteSite (portalID : string) : Store → result store_error Store := stmt (λ s,
  Ok (with_tenants s (q_tenants s) (delete portalID (q_sites s)) (filter (λ p, p.1.1 ≠ portalID) (q_reservations s)))).

Definition DeleteSiteClassReservations (portalID : string) : Store → result store_error Store := stmt (λ s,
  Ok (with_tenants s (q_tenants s) (q_sites s) (filter (λ p, p.1.1 ≠ portalID) (q_reservations s)))).

Definition DeleteTenant (id : Z) : Store → result store_error Store := stmt (λ s,
  let sites := filter (λ p, si_TenantID p.2 ≠ id) (q_sites s) in
  Ok (with_tenants s (delete id (q_tenants s)) sites (filter (λ p, is_Some (sites !! p.1.1)) (q_reservations s)))).

Definition DeleteTrafficClass (label : Z) : Store → result store_error Store := stmt (λ s,
  Ok (with_classes s (delete label (q_classes s)) (filter (λ p, p.1 ≠ label) (q_dscp s))
        (filter (λ p, p.1.1 ≠ label) (q_objectives s)) (filter (λ p, p.1.2 ≠ label) (q_reservations s)))).

Definition DeleteTrafficClassDSCP (label : Z) : Store → result store_error Store := stmt (λ s,
  Ok (with_classes s (q_classes s) (filter (λ p, p.1 ≠ label) (q_dscp s)) (q_objectives s) (q_reservations s))).

Definition DeleteTrafficClassObjectives (label : Z) : Store → result store_error Store := stmt (λ s,
  Ok (with_classes s (q_classes s) (q_dscp s) (filter (λ p, p.1.1 ≠ label) (q_objectives s)) (q_reservations s))).

(** ** Rows that change *)

(** An update that matches no row changes nothing; the constraints are checked
    on the row it changes, the types on the arguments. *)
Definition UpdateSite (row : SiteRow) : Store → result store_error Store := stmt (λ s,
  s ← require (cidr_ok (si_Prefix row) &&
               forallb text_ok [si_PortalID row; si_Cpe row; si_Node row; si_Attach row; si_AttachNode row; si_Identity row]) "types" s;
  match q_sites s !! si_PortalID row with
  | None => mret s
  | Some _ =>
      s ← require (bool_decide (is_Some (q_tenants s !! si_TenantID row))) "sites_tenant_id_fkey" s;
      s ← require (bool_decide (map_Forall (λ id r, id ≠ si_PortalID row → si_Identity r ≠ si_Identity row) (q_sites s))) "sites_identity_key" s;
      mret (with_tenants s (q_tenants s) (<[si_PortalID row := row]> (q_sites s)) (q_reservations s))
  end).

Definition UpdateTenant (row : TenantRow) : Store → result store_error Store := stmt (λ s,
  s ← require (cidr_ok (tn_Allocation row) && text_ok (tn_Tier row)) "types" s;
  match q_tenants s !! tn_ID row with
  | None => mret s
  | Some _ => mret (with_tenants s (<[tn_ID row := row]> (q_tenants s)) (q_sites s) (q_reservations s))
  end).

Definition UpdateTrafficClass (row : ClassRow) : Store → result store_error Store := stmt (λ s,
  s ← require (text_ok (cr_Name row)) "text" s;
  match q_classes s !! cr_Label row with
  | None => mret s
  | Some _ =>
      s ← require (bool_decide (map_Forall (λ l r, l ≠ cr_Label row → cr_Name r ≠ cr_Name row) (q_classes s))) "traffic_classes_name_key" s;
      mret (with_classes s (<[cr_Label row := row]> (q_classes s)) (q_dscp s) (q_objectives s) (q_reservations s))
  end).

(** ** SID allocations *)

Definition allocation_key (a : SIDAllocation) : Prefix * string * string := (sa_Locator a, sa_TenantID a, sa_SidType a).

Definition CreateSIDAllocation (a : SIDAllocation) : Store → result store_error Store := stmt (λ s,
  s ← require (addr_is_valid (sa_Sid a) && cidr_ok (sa_Locator a) && text_ok (sa_TenantID a) && text_ok (sa_SidType a)) "types" s;
  s ← require (bool_decide (sa_Sid a ∉ sa_Sid <$> q_allocations s)) "sid_allocations_pkey" s;
  s ← require (bool_decide (allocation_key a ∉ allocation_key <$> q_allocations s)) "sid_allocations_locator_tenant_id_sid_type_key" s;
  mret (with_control s (q_control s) (q_allocations s ++ [a]))).

Definition DeleteSIDAllocation (sid : Addr) : Store → result store_error Store := stmt (λ s,
  Ok (with_control s (q_control s) (filter (λ a, sa_Sid a ≠ sid) (q_allocations s)))).

(** ** Queries for one row, and for some *)

(** A query for one row fails when there is none. *)
Definition select_one {A} (f : Store → option A) (s : Store) : result store_error (A * Store) :=
  '(row, s) ← select f s;
  match row with Some row => mret (row, s) | None => Err NoRows end.

Definition GetTenant (id : Z) : Store → result store_error (TenantRow * Store) := select_one (λ s, q_tenants s !! id).
Definition GetSite (portalID : string) : Store → result store_error (SiteRow * Store) := select_one (λ s, q_sites s !! portalID).
Definition GetTrafficClass (label : Z) : Store → result store_error (ClassRow * Store) := select_one (λ s, q_classes s !! label).
Definition GetSIDAllocation (locator : Prefix) (tenantID sidType : string) : Store → result store_error (SIDAllocation * Store) :=
  select_one (λ s, head (filter (λ a, allocation_key a = (locator, tenantID, sidType)) (q_allocations s))).

Definition site_if_le (a b : SiteRow) : Prop := si_IfID a ≤ si_IfID b.
#[export] Instance site_if_le_dec : RelDecision site_if_le.
Proof. unfold RelDecision, site_if_le. apply _. Defined.

Section some.
Context `{RangeOrder}.
Definition GetSiteByIdentity (identity : string) : Store → result store_error (SiteRow * Store) :=
  select_one (λ s, head (filter (λ r, si_Identity r = identity) (range_map (q_sites s)).*2)).
Definition ListSitesByAttach (attach : string) : Store → result store_error (list SiteRow * Store) :=
  select (λ s, merge_sort site_if_le (filter (λ r, si_Attach r = attach) (range_map (q_sites s)).*2)).
Definition ListSitesByTenant (tenantID : Z) : Store → result store_error (list SiteRow * Store) :=
  select (λ s, merge_sort site_if_le (filter (λ r, si_TenantID r = tenantID) (range_map (q_sites s)).*2)).
End some.

(** ** Generations *)

Definition DeleteNodeGeneration (rows : generation_table) (nodeType nodeID : string) : generation_table := delete (nodeType, nodeID) rows.
Definition GetNodeGeneration (rows : generation_table) (nodeType nodeID : string) : result store_error GenerationRow :=
  match rows !! (nodeType, nodeID) with Some row => Ok row | None => Err NoRows end.

(** ** Integrity *)

(** The constraints of the schema: rows under their primary keys, foreign keys
    that lead somewhere, unique columns, checked ranges. *)
Record store_ok (s : Store) : Prop := {
  so_tenant : ∀ id r, q_tenants s !! id = Some r → tn_ID r = id;
  so_site : ∀ id r, q_sites s !! id = Some r → si_PortalID r = id ∧ is_Some (q_tenants s !! si_TenantID r);
  so_identity : ∀ id1 r1 id2 r2, q_sites s !! id1 = Some r1 → q_sites s !! id2 = Some r2 → si_Identity r1 = si_Identity r2 → id1 = id2;
  so_class : ∀ l r, q_classes s !! l = Some r → cr_Label r = l;
  so_name : ∀ l1 r1 l2 r2, q_classes s !! l1 = Some r1 → q_classes s !! l2 = Some r2 → cr_Name r1 = cr_Name r2 → l1 = l2;
  so_dscp : ∀ l d, (l, d) ∈ q_dscp s → is_Some (q_classes s !! l) ∧ 0 ≤ d ≤ 63;
  so_objective : ∀ l dim w, q_objectives s !! (l, dim) = Some w → is_Some (q_classes s !! l);
  so_reservation : ∀ id l m, q_reservations s !! (id, l) = Some m → is_Some (q_sites s !! id) ∧ is_Some (q_classes s !! l);
  so_sids : NoDup (sa_Sid <$> q_allocations s);
  so_keys : NoDup (allocation_key <$> q_allocations s);
}.

Inductive statement :=
  | StDeleteAllTenants | StDeleteAllTrafficClasses | StDeleteAllSIDAllocations
  | StCreateTrafficClass (row : ClassRow) | StAddTrafficClassDSCP (label dscp : Z)
  | StSetTrafficClassObjective (label : Z) (dimension : string) (weight : f64)
  | StCreateTenant (row : TenantRow) | StCreateSite (row : SiteRow)
  | StSetSiteClassReservation (portalID : string) (label : Z) (mbps : f64)
  | StDeleteSite (portalID : string) | StDeleteSiteClassReservations (portalID : string) | StDeleteTenant (id : Z)
  | StDeleteTrafficClass (label : Z) | StDeleteTrafficClassDSCP (label : Z) | StDeleteTrafficClassObjectives (label : Z)
  | StUpdateSite (row : SiteRow) | StUpdateTenant (row : TenantRow) | StUpdateTrafficClass (row : ClassRow)
  | StCreateSIDAllocation (a : SIDAllocation) | StDeleteSIDAllocation (sid : Addr)
  | StSetFingerprint (fingerprint : string) | StSetSIDCursor (cursor : Z) | StSetBootedAt (now : Time).

Definition exec (st : statement) : Store → result store_error Store :=
  match st with
  | StDeleteAllTenants => DeleteAllTenants
  | StDeleteAllTrafficClasses => DeleteAllTrafficClasses
  | StDeleteAllSIDAllocations => DeleteAllSIDAllocations
  | StCreateTrafficClass row => CreateTrafficClass row
  | StAddTrafficClassDSCP label dscp => AddTrafficClassDSCP label dscp
  | StSetTrafficClassObjective label dimension weight => SetTrafficClassObjective label dimension weight
  | StCreateTenant row => CreateTenant row
  | StCreateSite row => CreateSite row
  | StSetSiteClassReservation portalID label mbps => SetSiteClassReservation portalID label mbps
  | StDeleteSite portalID => DeleteSite portalID
  | StDeleteSiteClassReservations portalID => DeleteSiteClassReservations portalID
  | StDeleteTenant id => DeleteTenant id
  | StDeleteTrafficClass label => DeleteTrafficClass label
  | StDeleteTrafficClassDSCP label => DeleteTrafficClassDSCP label
  | StDeleteTrafficClassObjectives label => DeleteTrafficClassObjectives label
  | StUpdateSite row => UpdateSite row
  | StUpdateTenant row => UpdateTenant row
  | StUpdateTrafficClass row => UpdateTrafficClass row
  | StCreateSIDAllocation a => CreateSIDAllocation a
  | StDeleteSIDAllocation sid => DeleteSIDAllocation sid
  | StSetFingerprint fingerprint => SetFingerprint fingerprint
  | StSetSIDCursor cursor => SetSIDCursor cursor
  | StSetBootedAt now => SetBootedAt now
  end.

(** A transaction of the control plane: a statement that fails ends it and
    leaves the tables as they were; its turn is spent. *)
Definition spend (s : Store) : Store := with_faults s (tail (q_faults s)).
Definition transact (s : Store) (sts : list statement) : Store :=
  match InTx (λ s, foldM (λ s st, exec st s) s sts) s with Ok s' => s' | Err _ => spend s end.

Lemma stmt_ok f s s' :
  (∀ s0 s1, store_ok s0 → f s0 = Ok s1 → store_ok s1) → store_ok s → stmt f s = Ok s' → store_ok s'.
Proof.
  intros Hf Hs. unfold stmt. intros He.
  assert (f (with_faults s (tail (q_faults s))) = Ok s') as He' by (destruct (q_faults s) as [|[] fs]; done).
  eapply Hf; [|exact He']. by destruct Hs.
Qed.

Lemma require_ok b what s s' : require b what s = Ok s' → b = true ∧ s' = s.
Proof. unfold require. destruct b; [|done]. by intros [= <-]. Qed.

(** What a statement on one group of tables has to show. *)
Lemma with_tenants_ok s t si re : store_ok s →
  (∀ id r, t !! id = Some r → tn_ID r = id) →
  (∀ id r, si !! id = Some r → si_PortalID r = id ∧ is_Some (t !! si_TenantID r)) →
  (∀ id1 r1 id2 r2, si !! id1 = Some r1 → si !! id2 = Some r2 → si_Identity r1 = si_Identity r2 → id1 = id2) →
  (∀ id l m, re !! (id, l) = Some m → is_Some (si !! id) ∧ is_Some (q_classes s !! l)) →
  store_ok (with_tenants s t si re).
Proof. intros [] ? ? ? ?. split; simpl; eauto. Qed.

Lemma with_classes_ok s c d o re : store_ok s →
  (∀ l r, c !! l = Some r → cr_Label r = l) →
  (∀ l1 r1 l2 r2, c !! l1 = Some r1 → c !! l2 = Some r2 → cr_Name r1 = cr_Name r2 → l1 = l2) →
  (∀ l n, (l, n) ∈ d → is_Some (c !! l) ∧ 0 ≤ n ≤ 63) →
  (∀ l dim w, o !! (l, dim) = Some w → is_Some (c !! l)) →
  (∀ id l m, re !! (id, l) = Some m → is_Some (q_sites s !! id) ∧ is_Some (c !! l)) →
  store_ok (with_classes s c d o re).
Proof. intros [] ? ? ? ? ?. split; simpl; eauto. Qed.

Lemma with_control_ok s c a : store_ok s → NoDup (sa_Sid <$> a) → NoDup (allocation_key <$> a) → store_ok (with_control s c a).
Proof. intros [] ? ?. split; simpl; eauto. Qed.

Ltac invert_requires :=
  repeat match goal with
  | H : (require _ _ _ ≫= _) = Ok _ |- _ => apply result_bind_Ok in H as (? & [? ->]%require_ok & H)
  | H : Ok _ = Ok _ |- _ => injection H as <-
  | H : mret _ = Ok _ |- _ => injection H as <-
  end.

Lemma insert_is_Some {K A} `{Countable K} (m : gmap K A) k k' v : is_Some (m !! k) → is_Some (<[k' := v]> m !! k).
Proof. intros Hk. destruct (decide (k = k')) as [->|]; [rewrite lookup_insert_eq|rewrite lookup_insert_ne by done]; eauto. Qed.
Lemma insert_self_Some {K A} `{Countable K} (m : gmap K A) k v : is_Some (<[k := v]> m !! k).
Proof. rewrite lookup_insert_eq. eauto. Qed.
Lemma delete_is_Some {K A} `{Countable K} (m : gmap K A) k k' : is_Some (m !! k) → k ≠ k' → is_Some (delete k' m !! k).
Proof. intros Hk Hne. by rewrite lookup_delete_ne. Qed.
Lemma filter_is_Some {K A} `{Countable K} (P : K * A → Prop) `{!∀ x, Decision (P x)} (m : gmap K A) k :
  is_Some (m !! k) → (∀ v, m !! k = Some v → P (k, v)) → is_Some (filter P m !! k).
Proof. intros [v Hv] HP. exists v. apply map_lookup_filter_Some. auto. Qed.
#[local] Hint Resolve insert_is_Some insert_self_Some delete_is_Some filter_is_Some : maeto.

(** A row put under its key. *)
Lemma put_tenant_ok s row : store_ok s → store_ok (with_tenants s (<[tn_ID row := row]> (q_tenants s)) (q_sites s) (q_reservations s)).
Proof.
  intros Hs. apply with_tenants_ok; [done|..|apply Hs|apply Hs].
  - intros id r. rewrite lookup_insert_Some. intros [[<- <-]|[_ Hr]]; [done|by eapply so_tenant].
  - intros id r Hr. destruct (so_site _ Hs _ _ Hr). auto with maeto.
Qed.

Lemma put_site_ok s row : store_ok s → is_Some (q_tenants s !! si_TenantID row) →
  map_Forall (λ id r, id ≠ si_PortalID row → si_Identity r ≠ si_Identity row) (q_sites s) →
  store_ok (with_tenants s (q_tenants s) (<[si_PortalID row := row]> (q_sites s)) (q_reservations s)).
Proof.
  intros Hs Ht Hu. apply with_tenants_ok; [done|apply Hs|..].
  - intros id r. rewrite lookup_insert_Some. intros [[<- <-]|[_ Hr]]; [done|by eapply so_site].
  - intros id1 r1 id2 r2. rewrite !lookup_insert_Some. intros [[<- <-]|[Hn1 H1]] [[<- <-]|[Hn2 H2]] He; [done| | |by eapply so_identity].
    + destruct (Hu _ _ H2); congruence.
    + destruct (Hu _ _ H1); congruence.
  - intros id l m Hr. destruct (so_reservation _ Hs _ _ _ Hr). auto with maeto.
Qed.

Lemma put_class_ok s row : store_ok s →
  map_Forall (λ l r, l ≠ cr_Label row → cr_Name r ≠ cr_Name row) (q_classes s) →
  store_ok (with_classes s (<[cr_Label row := row]> (q_classes s)) (q_dscp s) (q_objectives s) (q_reservations s)).
Proof.
  intros Hs Hu. apply with_classes_ok; [done|..].
  - intros l r. rewrite lookup_insert_Some. intros [[<- <-]|[_ Hr]]; [done|by eapply so_class].
  - intros l1 r1 l2 r2. rewrite !lookup_insert_Some. intros [[<- <-]|[Hn1 H1]] [[<- <-]|[Hn2 H2]] He; [done| | |by eapply so_name].
    + destruct (Hu _ _ H2); congruence.
    + destruct (Hu _ _ H1); congruence.
  - intros l n Hd. destruct (so_dscp _ Hs _ _ Hd). auto with maeto.
  - intros l dim w Ho. pose proof (so_objective _ Hs _ _ _ Ho). auto with maeto.
  - intros id l m Hr. destruct (so_reservation _ Hs _ _ _ Hr). auto with maeto.
Qed.

(** A row taken away with what refers to it. *)
Lemma drop_site_ok s portalID : store_ok s →
  store_ok (with_tenants s (q_tenants s) (delete portalID (q_sites s)) (filter (λ p, p.1.1 ≠ portalID) (q_reservations s))).
Proof.
  intros Hs. apply with_tenants_ok; [done|apply Hs|..].
  - intros id r [_ Hr]%lookup_delete_Some. by eapply so_site.
  - intros id1 r1 id2 r2 [_ H1]%lookup_delete_Some [_ H2]%lookup_delete_Some. by eapply so_identity.
  - intros id l m [Hr Hne]%map_lookup_filter_Some. destruct (so_reservation _ Hs _ _ _ Hr). auto with maeto.
Qed.

Lemma drop_tenant_ok s id : store_ok s →
  let sites := filter (λ p, si_TenantID p.2 ≠ id) (q_sites s) in
  store_ok (with_tenants s (delete id (q_tenants s)) sites (filter (λ p, is_Some (sites !! p.1.1)) (q_reservations s))).
Proof.
  intros Hs sites. apply with_tenants_ok; [done|..].
  - intros id' r [_ Hr]%lookup_delete_Some. by eapply so_tenant.
  - intros id' r [Hr Hne]%map_lookup_filter_Some. destruct (so_site _ Hs _ _ Hr). auto with maeto.
  - intros id1 r1 id2 r2 [H1 _]%map_lookup_filter_Some [H2 _]%map_lookup_filter_Some. by eapply so_identity.
  - intros id' l m [Hr Hin]%map_lookup_filter_Some. by destruct (so_reservation _ Hs _ _ _ Hr).
Qed.

Lemma drop_class_ok s label : store_ok s →
  store_ok (with_classes s (delete label (q_classes s)) (filter (λ p, p.1 ≠ label) (q_dscp s))
    (filter (λ p, p.1.1 ≠ label) (q_objectives s)) (filter (λ p, p.1.2 ≠ label) (q_reservations s))).
Proof.
  intros Hs. apply with_classes_ok; [done|..].
  - intros l r [_ Hr]%lookup_delete_Some. by eapply so_class.
  - intros l1 r1 l2 r2 [_ H1]%lookup_delete_Some [_ H2]%lookup_delete_Some. by eapply so_name.
  - intros l n [Hne Hd]%elem_of_filter. destruct (so_dscp _ Hs _ _ Hd). auto with maeto.
  - intros l dim w [Ho Hne]%map_lookup_filter_Some. pose proof (so_objective _ Hs _ _ _ Ho). auto with maeto.
  - intros id l m [Hr Hne]%map_lookup_filter_Some. destruct (so_reservation _ Hs _ _ _ Hr). auto with maeto.
Qed.

(** Rows of the tables that nothing refers to. *)
Lemma other_rows_ok s d o re : store_ok s →
  (∀ l n, (l, n) ∈ d → is_Some (q_classes s !! l) ∧ 0 ≤ n ≤ 63) →
  (∀ l dim w, o !! (l, dim) = Some w → is_Some (q_classes s !! l)) →
  (∀ id l m, re !! (id, l) = Some m → is_Some (q_sites s !! id) ∧ is_Some (q_classes s !! l)) →
  store_ok (with_classes s (q_classes s) d o re).
Proof. intros Hs ? ? ?. apply with_classes_ok; [done|apply Hs|apply Hs|done..]. Qed.

Lemma reservations_ok s re : store_ok s →
  (∀ id l m, re !! (id, l) = Some m → is_Some (q_sites s !! id) ∧ is_Some (q_classes s !! l)) →
  store_ok (with_tenants s (q_tenants s) (q_sites s) re).
Proof. intros Hs ?. apply with_tenants_ok; [done|apply Hs|apply Hs|apply Hs|done]. Qed.

Lemma NoDup_fmap_filter {A B} (f : A → B) (P : A → Prop) `{!∀ x, Decision (P x)} l : NoDup (f <$> l) → NoDup (f <$> filter P l).
Proof. intros Hn. eapply sublist_NoDup; [exact Hn|]. apply fmap_sublist, sublist_filter. Qed.

Lemma exec_ok st s s' : store_ok s → exec st s = Ok s' → store_ok s'.
Proof.
  destruct st; cbn [exec]; apply stmt_ok; clear s s'; intros s s' Hs He; cbn beta iota zeta in He; invert_requires.
  all: try (case_match; invert_requires; [|done]).
  all: repeat match goal with H : bool_decide _ = true |- _ => apply bool_decide_eq_true in H end.
  all: auto using put_tenant_ok, put_site_ok, put_class_ok, drop_site_ok, drop_tenant_ok, drop_class_ok.
  all: try (apply with_control_ok; [done|try apply Hs; try apply NoDup_nil_2..]; fail).
  - apply with_tenants_ok; [done|by intros *; rewrite !lookup_empty..].
  - apply with_classes_ok; [done|intros *; rewrite ?lookup_empty; try done..].
  - apply put_class_ok; [done|]. intros l r Hr _. match goal with H : map_Forall _ _ |- _ => by eapply H end.
  - apply other_rows_ok; [done|..|apply Hs|apply Hs]. intros l n [[= -> ->]%elem_of_singleton|Hd]%elem_of_union; [|by eapply so_dscp].
    split; [done|lia].
  - apply other_rows_ok; [done|apply Hs|..|apply Hs]. intros l dim w [[[= <- <-] _]|[_ Ho]]%lookup_insert_Some; [done|by eapply so_objective].
  - apply put_site_ok; [done|done|]. intros l r Hr _. match goal with H : map_Forall _ _ |- _ => by eapply H end.
  - apply reservations_ok; [done|]. intros id l m [[[= <- <-] _]|[_ Hr]]%lookup_insert_Some; [done|by eapply so_reservation].
  - apply reservations_ok; [done|]. intros id l m [Hr _]%map_lookup_filter_Some. by eapply so_reservation.
  - apply other_rows_ok; [done|..|apply Hs|apply Hs]. intros l n [_ Hd]%elem_of_filter. by eapply so_dscp.
  - apply other_rows_ok; [done|apply Hs|..|apply Hs]. intros l dim w [Ho _]%map_lookup_filter_Some. by eapply so_objective.
  - apply with_control_ok; [done|apply NoDup_fmap_snoc; [apply Hs|done]..].
  - apply with_control_ok; [done|apply NoDup_fmap_filter, Hs..].
Qed.

Lemma transact_ok s sts : store_ok s → store_ok (transact s sts).
Proof.
  intros Hs. unfold transact, InTx. destruct (_ ≫= _) as [s'|e] eqn:He; [|by destruct Hs].
  apply result_bind_Ok in He as (s1 & H1 & (s2 & H2 & H3)%result_bind_Ok).
  apply (stmt_ok Ok s) in H1; [|by intros s0 s0' ? [= <-]|done].
  assert (store_ok s2) as Hs2; [|apply (stmt_ok Ok s2) in H3; [done|by intros s0 s0' ? [= <-]|done]].
  revert H2. apply (foldM_ind (λ s st, exec st s) (λ _ s, store_ok s)); [done|]. intros _ st s0 s0' Hs0 _. by apply exec_ok.
Qed.

Lemma select_quiet {A} (f : Store → A) s : q_faults s = [] → select f s = Ok (f s, s).
Proof. intros Hf. unfold select. rewrite Hf. simpl. f_equal. f_equal. destruct s. simpl in *. by rewrite Hf. Qed.

Lemma head_unique {A B} (f : A → B) l a `{!∀ x, Decision (f x = f a)} :
  a ∈ l → (∀ x, x ∈ l → f x = f a → x = a) → head (filter (λ x, f x = f a) l) = Some a.
Proof.
  intros Ha Hu. destruct (filter (λ x, f x = f a) l) as [|x xs] eqn:He.
  - exfalso. assert (a ∈ filter (λ x, f x = f a) l) as Hin by (by apply list_elem_of_filter). rewrite He in Hin. by apply not_elem_of_nil in Hin.
  - assert (x ∈ filter (λ x, f x = f a) l) as [Hx Hin]%list_elem_of_filter by (rewrite He; left). simpl. f_equal. auto.
Qed.

Lemma NoDup_fmap_unique {A B} (f : A → B) l x y : NoDup (f <$> l) → x ∈ l → y ∈ l → f x = f y → x = y.
Proof.
  intros Hn (i & Hi)%list_elem_of_lookup (j & Hj)%list_elem_of_lookup He.
  assert (i = j) as ->; [|congruence]. eapply (NoDup_lookup _ i j (f x) Hn); rewrite list_lookup_fmap; [by rewrite Hi|by rewrite Hj, He].
Qed.

(** ** Results *)


(** A tenant with a site and a reservation, then the class and the tenant go. *)
Definition demo_empty_store : Store :=
  {| q_tenants := ∅; q_sites := ∅; q_classes := ∅; q_dscp := ∅; q_objectives := ∅; q_reservations := ∅;
     q_control := {| cs_SchemaVersion := 1; cs_Fingerprint := ""; cs_SidCursor := 0; cs_BootedAt := 0 |};
     q_allocations := []; q_faults := [] |}.
Definition demo_prefix : Prefix := MkPrefix (Addr6 (Z.shiftl 64768 112)) 48.
Definition demo_transactions : list (list statement) :=
  [[StCreateTrafficClass {| cr_Label := 5; cr_Name := "gold"; cr_ClassIndex := 0 |};
    StCreateTenant {| tn_ID := 7; tn_Allocation := demo_prefix; tn_Tier := "gold"; tn_TierIndex := 0; tn_VrfTable := 300 |};
    StCreateSite {| si_PortalID := "cpe1"; si_TenantID := 7; si_Cpe := "cpe1"; si_Node := "n"; si_Prefix := demo_prefix; si_Attach := "ams";
                    si_AttachNode := "ams"; si_IfID := 42; si_Identity := "cpe1.maeto"; si_ReservationMbps := f_zero |};
    StSetSiteClassReservation "cpe1" 5 f_one];
   [StCreateSIDAllocation {| sa_Sid := Addr6 1; sa_Locator := demo_prefix; sa_TenantID := "7"; sa_SidType := "dt46" |}];
   [StDeleteTrafficClass 5; StSetSiteClassReservation "cpe1" 5 f_one];
   [StDeleteTrafficClass 5]].

Lemma demo_empty_store_ok : store_ok demo_empty_store.
Proof. split; simpl; intros *; rewrite ?lookup_empty; try done; constructor. Qed.

