(* ===== verification/History.v ===== *)
(** What the control plane keeps of the past (libs/store telemetry.sql.go,
    node_reports.sql.go): link samples, interface counters and node reports,
    the statements and queries on them, and the collector's messages with the
    rows they leave. *)

From S2P Require Import Prelude Float64 FloatBounds Netip Topology CostGraph Stamp Sid Registry Resource Reconcile Probe Telemetry Reports Store Feed.

(** ** Tables *)

(** TIMESTAMPTZ keeps whole microseconds. *)
Definition pg_time (t : Time) : Z := t / 1000.

Record LinkSample := { lr_Time : Z; lr_TelemetryKey : string; lr_Sequence : Z; lr_LatencyMs : option f64 }.
Record IfaceCounter := {
  ir_Time : Z;
  ir_NodeID : string;
  ir_Iface : string;
  ir_RxBytes : Z; ir_TxBytes : Z; ir_RxPackets : Z; ir_TxPackets : Z; ir_RxDropped : Z; ir_TxDropped : Z;
}.
Record NodeReport := {
  nr_Time : Z;
  nr_NodeID : string;
  nr_NodeType : NodeType;
  nr_Generation : Z;
  nr_Observed : bool;
  nr_Converged : bool;
  nr_Passes : Z;
  nr_Error : option rec_error;
}.

(** The tables by primary key, and which of the statements to come fail. *)
Record History := {
  hs_link : gmap (string * Z) LinkSample;
  hs_iface : gmap (string * string * Z) IfaceCounter;
  hs_reports : gmap (string * Z) NodeReport;
  hs_faults : list bool;
}.

Definition h_spend (h : History) : History :=
  {| hs_link := hs_link h; hs_iface := hs_iface h; hs_reports := hs_reports h; hs_faults := tail (hs_faults h) |}.

(** A statement fails when its turn says so, or when an argument does not fit
    its column. *)
Definition hstmt (f : History → result store_error History) (h : History) : result store_error History :=
  match hs_faults h with
  | true :: _ => Err StatementFailed
  | _ => f (h_spend h)
  end.
Definition hselect {A} (f : History → A) (h : History) : result store_error (A * History) :=
  match hs_faults h with
  | true :: _ => Err StatementFailed
  | _ => Ok (f h, h_spend h)
  end.

(** ** Insertions *)

(** ON CONFLICT DO NOTHING *)
Definition insert_new {K V} `{Countable K} (k : K) (v : V) (m : gmap K V) : gmap K V :=
  match m !! k with Some _ => m | None => <[k := v]> m end.

Definition link_row (arg : InsertLinkSampleParams) : LinkSample :=
  {| lr_Time := pg_time (ls_Time arg); lr_TelemetryKey := ls_TelemetryKey arg; lr_Sequence := ls_Sequence arg;
     lr_LatencyMs := Some (ls_LatencyMs arg) |}.
Definition iface_row_of (arg : InsertIfaceCountersParams) : IfaceCounter :=
  {| ir_Time := pg_time (ic_Time arg); ir_NodeID := ic_NodeID arg; ir_Iface := ic_Iface arg;
     ir_RxBytes := ic_RxBytes arg; ir_TxBytes := ic_TxBytes arg; ir_RxPackets := ic_RxPackets arg;
     ir_TxPackets := ic_TxPackets arg; ir_RxDropped := ic_RxDropped arg; ir_TxDropped := ic_TxDropped arg |}.
Definition report_row (arg : InsertNodeReportParams) : NodeReport :=
  {| nr_Time := pg_time (inr_Time arg); nr_NodeID := inr_NodeID arg; nr_NodeType := inr_NodeType arg;
     nr_Generation := inr_Generation arg; nr_Observed := inr_Observed arg; nr_Converged := inr_Converged arg;
     nr_Passes := inr_Passes arg; nr_Error := inr_Error arg |}.

Definition link_key (r : LinkSample) : string * Z := (lr_TelemetryKey r, lr_Time r).
Definition iface_key (r : IfaceCounter) : string * string * Z := (ir_NodeID r, ir_Iface r, ir_Time r).
Definition report_key (r : NodeReport) : string * Z := (nr_NodeID r, nr_Time r).

Definition InsertLinkSample (arg : InsertLinkSampleParams) : History → result store_error History := hstmt (λ h,
  if text_ok (ls_TelemetryKey arg) then
    Ok {| hs_link := insert_new (link_key (link_row arg)) (link_row arg) (hs_link h); hs_iface := hs_iface h;
          hs_reports := hs_reports h; hs_faults := hs_faults h |}
  else Err (ConstraintViolated "text")).

Definition InsertIfaceCounters (arg : InsertIfaceCountersParams) : History → result store_error History := hstmt (λ h,
  if text_ok (ic_NodeID arg) && text_ok (ic_Iface arg) then
    Ok {| hs_link := hs_link h; hs_iface := insert_new (iface_key (iface_row_of arg)) (iface_row_of arg) (hs_iface h);
          hs_reports := hs_reports h; hs_faults := hs_faults h |}
  else Err (ConstraintViolated "text")).

Definition InsertNodeReport (arg : InsertNodeReportParams) : History → result store_error History := hstmt (λ h,
  if text_ok (inr_NodeID arg) then
    Ok {| hs_link := hs_link h; hs_iface := hs_iface h;
          hs_reports := insert_new (report_key (report_row arg)) (report_row arg) (hs_reports h); hs_faults := hs_faults h |}
  else Err (ConstraintViolated "text")).

(** ** Queries *)

Definition link_before (a b : LinkSample) : Prop := lr_Time a ≤ lr_Time b.
Definition link_after (a b : LinkSample) : Prop := lr_Time b ≤ lr_Time a.
Definition iface_before (a b : IfaceCounter) : Prop := ir_Time a ≤ ir_Time b.
Definition report_after (a b : NodeReport) : Prop := nr_Time b ≤ nr_Time a.
#[export] Instance link_before_dec : RelDecision link_before.
Proof. unfold RelDecision, link_before. apply _. Defined.
#[export] Instance link_after_dec : RelDecision link_after.
Proof. unfold RelDecision, link_after. apply _. Defined.
#[export] Instance iface_before_dec : RelDecision iface_before.
Proof. unfold RelDecision, iface_before. apply _. Defined.
#[export] Instance report_after_dec : RelDecision report_after.
Proof. unfold RelDecision, report_after. apply _. Defined.

(** The rows of a table that satisfy a condition. *)
Definition rows_of {K V} `{Countable K} (P : V → Prop) `{!∀ v, Decision (P v)} (m : gmap K V) : list V :=
  filter P (map_to_list m).*2.

(** LIMIT refuses a negative number. *)
Definition limited {A} (limit : Z) (f : History → list A) (h : History) : result store_error (list A * History) :=
  if limit <? 0 then Err (ConstraintViolated "limit") else hselect (λ h, firstn (Z.to_nat limit) (f h)) h.

Definition ListLinkSamples (telemetryKey : string) (time : Time) : History → result store_error (list LinkSample * History) :=
  hselect (λ h, merge_sort link_before (rows_of (λ r, lr_TelemetryKey r = telemetryKey ∧ pg_time time ≤ lr_Time r) (hs_link h))).
Definition ListLatestLinkSamples (telemetryKey : string) (limit : Z) : History → result store_error (list LinkSample * History) :=
  limited limit (λ h, merge_sort link_after (rows_of (λ r, lr_TelemetryKey r = telemetryKey) (hs_link h))).
Definition ListIfaceCounters (nodeID iface : string) (time : Time) : History → result store_error (list IfaceCounter * History) :=
  hselect (λ h, merge_sort iface_before
    (rows_of (λ r, ir_NodeID r = nodeID ∧ ir_Iface r = iface ∧ pg_time time ≤ ir_Time r) (hs_iface h))).
Definition ListNodeReports (nodeID : string) (time : Time) : History → result store_error (list NodeReport * History) :=
  hselect (λ h, merge_sort report_after (rows_of (λ r, nr_NodeID r = nodeID ∧ pg_time time ≤ nr_Time r) (hs_reports h))).
Definition ListLatestNodeReports (nodeID : string) (limit : Z) : History → result store_error (list NodeReport * History) :=
  limited limit (λ h, merge_sort report_after (rows_of (λ r, nr_NodeID r = nodeID) (hs_reports h))).

(** Text is ordered by the collation of the database. *)
Section collation.
Context (text_le : string → string → Prop) `{!RelDecision text_le}.
Definition node_iface_le (a b : IfaceCounter) : Prop :=
  if decide (ir_Iface a = ir_Iface b) then ir_Time a ≤ ir_Time b else text_le (ir_Iface a) (ir_Iface b).
#[export] Instance node_iface_le_dec : RelDecision node_iface_le.
Proof. intros a b. unfold node_iface_le. case_decide; apply _. Defined.
Definition ListNodeIfaceCounters (nodeID : string) (time : Time) : History → result store_error (list IfaceCounter * History) :=
  hselect (λ h, merge_sort node_iface_le (rows_of (λ r, ir_NodeID r = nodeID ∧ pg_time time ≤ ir_Time r) (hs_iface h))).
End collation.

(** ** The collector and its rows *)

(** [InTx]: begin, the insertions, commit; an error of any of them leaves the
    tables as they were. *)
Definition h_InTx (fn : History → result store_error History) (h : History) : result store_error History :=
  h ← hstmt Ok h;
  h ← fn h;
  hstmt Ok h.

Definition persist (out : collector_out) : History → result store_error History := h_InTx (λ h,
  h ← foldM (λ h row, InsertLinkSample row h) h (co_link out);
  foldM (λ h row, InsertIfaceCounters row h) h (co_iface out)).

Definition collector_state : Type := TelemetryCollector * CostGraph * History.

Section recorded.
Context `{RangeOrder} (Log1p : f64 → f64).

(** A message handled against the database: its transaction, if it comes to
    one, decides between the two ends the handler has.  A handler without an
    error acknowledges the message; one with an error has it delivered again. *)
Definition handle_recorded (s : collector_state) (m : Time * Time * Msg) : collector_state * option telemetry_error :=
  let '(t, cg, h) := s in
  let '(observationTime, now, msg) := m in
  let '(t1, cg1, out1) := handleTelemetryConsume Log1p t cg true observationTime now msg in
  let '(t0, cg0, out0) := handleTelemetryConsume Log1p t cg false observationTime now msg in
  match co_err out0 with
  | Some StoreFailed =>
      match persist out1 h with
      | Ok h' => ((t1, cg1, h'), co_err out1)
      | Err _ => ((t0, cg0, h_spend h), co_err out0)
      end
  | _ => ((t1, cg1, h), co_err out1)
  end.

Definition record_message (s : collector_state) (m : Time * Time * Msg) : collector_state := (handle_recorded s m).1.

(** The rows of interface counters a message carries. *)
Definition iface_rows (s : collector_state) (m : Time * Time * Msg) : list IfaceCounter :=
  let '(observationTime, now, msg) := m in
  iface_row_of <$> co_iface (handleTelemetryConsume Log1p s.1.1 s.1.2 true observationTime now msg).2.
End recorded.

(** ** Results on the tables *)

Lemma insert_new_subseteq {K V} `{Countable K} k (v : V) (m : gmap K V) : m ⊆ insert_new k v m.
Proof. unfold insert_new. destruct (m !! k) eqn:Hk; [done|]. by apply insert_subseteq. Qed.
Lemma insert_new_present {K V} `{Countable K} k (v : V) (m : gmap K V) : is_Some (insert_new k v m !! k).
Proof. unfold insert_new. destruct (m !! k) eqn:Hk; [by rewrite Hk|]. rewrite lookup_insert_eq. eauto. Qed.
Lemma insert_new_known {K V} `{Countable K} k (v : V) (m : gmap K V) : is_Some (m !! k) → insert_new k v m = m.
Proof. unfold insert_new. by intros [x ->]. Qed.

Lemma hstmt_inv f h h' : hstmt f h = Ok h' → f (h_spend h) = Ok h'.
Proof. unfold hstmt. destruct (hs_faults h) as [|[] fs]; done. Qed.

(** What a list of insertions does to a table. *)
Definition insert_all {K V} `{Countable K} (key : V → K) (m : gmap K V) (rows : list V) : gmap K V :=
  foldl (λ m r, insert_new (key r) r m) m rows.

Section insert_all.
Context {K V : Type} `{Countable K} (key : V → K).
Implicit Types m : gmap K V.

Lemma insert_all_subseteq m rows : m ⊆ insert_all key m rows.
Proof.
  revert m. induction rows as [|r rows IH]; intros m; [done|]. simpl. etrans; [apply insert_new_subseteq|apply IH].
Qed.

Lemma insert_all_present m rows r : r ∈ rows → is_Some (insert_all key m rows !! key r).
Proof.
  revert m. induction rows as [|r' rows IH]; intros m; [by intros ?%not_elem_of_nil|]. intros [->|Hr]%elem_of_cons; [|by apply IH].
  destruct (insert_new_present (key r') r' m) as [x Hx]. exists x. simpl.
  eapply lookup_weaken; [exact Hx|apply insert_all_subseteq].
Qed.

Lemma insert_all_known m rows : (∀ r, r ∈ rows → is_Some (m !! key r)) → insert_all key m rows = m.
Proof.
  induction rows as [|r rows IH]; intros Hr; [done|]. simpl. rewrite insert_new_known by (apply Hr; set_solver).
  apply IH. set_solver.
Qed.
End insert_all.

Lemma insert_links rows h h' :
  foldM (λ h row, InsertLinkSample row h) h rows = Ok h' →
  hs_link h' = insert_all link_key (hs_link h) (link_row <$> rows) ∧ hs_iface h' = hs_iface h ∧ hs_reports h' = hs_reports h.
Proof.
  revert h. induction rows as [|r rows IH]; intros h; cbn [foldM]; [by intros [= <-]|].
  intros (h1 & H1 & (-> & -> & ->)%IH)%result_bind_Ok. apply hstmt_inv in H1. destruct (text_ok _); [|done]. by injection H1 as <-.
Qed.

Lemma insert_ifaces rows h h' :
  foldM (λ h row, InsertIfaceCounters row h) h rows = Ok h' →
  hs_iface h' = insert_all iface_key (hs_iface h) (iface_row_of <$> rows) ∧ hs_link h' = hs_link h ∧ hs_reports h' = hs_reports h.
Proof.
  revert h. induction rows as [|r rows IH]; intros h; cbn [foldM]; [by intros [= <-]|].
  intros (h1 & H1 & (-> & -> & ->)%IH)%result_bind_Ok. apply hstmt_inv in H1. destruct (_ && _); [|done]. by injection H1 as <-.
Qed.

Lemma persist_spec out h h' : persist out h = Ok h' →
  hs_link h' = insert_all link_key (hs_link h) (link_row <$> co_link out) ∧
  hs_iface h' = insert_all iface_key (hs_iface h) (iface_row_of <$> co_iface out) ∧ hs_reports h' = hs_reports h.
Proof.
  unfold persist, h_InTx. intros (h1 & H1 & (h2 & (h3 & H3 & H2)%result_bind_Ok & H4)%result_bind_Ok)%result_bind_Ok.
  apply hstmt_inv in H1 as [= <-]. apply hstmt_inv in H4 as [= <-].
  apply insert_links in H3 as (L3 & I3 & R3). apply insert_ifaces in H2 as (I2 & L2 & R2).
  simpl. rewrite I2, L2, R2, L3, I3, R3. done.
Qed.

(** ** Results on the messages *)

Section messages.
Context `{RangeOrder} (Log1p : f64 → f64).

Lemma handleSTAMP_prefix t cg ok ot now data key :
  tc_SubjectPrefix (handleSTAMP Log1p t cg ok ot now data key).1.1.1 = tc_SubjectPrefix t.
Proof.
  unfold handleSTAMP. destruct (rd_stamp data) as [p|]; [|done]. destruct (sr_IsSender p); [done|].
  destruct (sr_SenderSequence p) as [seq|]; [|done]. destruct (sr_SenderTimestamp p) as [sent|]; [|done].
  destruct (sr_ReceiveTimestamp p) as [received|]; [|done]. destruct (_ <? 0); [done|]. unfold observe_stamp.
  destruct (loss_step _ _ _) as [last loss]. by destruct ok.
Qed.

Lemma consume_prefix t cg ok ot now msg : tc_SubjectPrefix (handleTelemetryConsume Log1p t cg ok ot now msg).1.1 = tc_SubjectPrefix t.
Proof.
  unfold handleTelemetryConsume. destruct (msg_Data msg) as [payload|]; [|done]. destruct (parse_subject _ _) as [[node key]|]; [|done].
  destruct (negb _); [done|]. destruct (_ =? _)%string.
  - pose proof (handleSTAMP_prefix t cg ok ot now (rp_Data payload) key) as Hp. destruct (handleSTAMP _ _ _ _ _ _ _ _) as [[[t' cg'] rows] err]. done.
  - destruct (_ =? _)%string; [|done]. by destruct (handleNetStat _ _ _).
Qed.

(** The interface rows of a message are its own: neither the state nor the time
    of delivery shows in them; and a message has some only if it comes to a
    transaction. *)
Lemma consume_iface t cg t' cg' ok ot now ot' now' msg :
  tc_SubjectPrefix t = tc_SubjectPrefix t' →
  co_iface (handleTelemetryConsume Log1p t cg ok ot now msg).2 = co_iface (handleTelemetryConsume Log1p t' cg' ok ot' now' msg).2.
Proof.
  intros Hp. unfold handleTelemetryConsume. rewrite <-Hp. destruct (msg_Data msg) as [payload|]; [|done].
  destruct (parse_subject _ _) as [[node key]|]; [|done]. destruct (negb _); [done|]. destruct (_ =? _)%string.
  - destruct (handleSTAMP Log1p t _ _ _ _ _ _) as [[[? ?] ?] ?], (handleSTAMP Log1p t' _ _ _ _ _ _) as [[[? ?] ?] ?]. done.
  - destruct (_ =? _)%string; [|done]. by destruct (handleNetStat _ _ _).
Qed.

Lemma consume_iface_tx t cg ot now msg row :
  row ∈ co_iface (handleTelemetryConsume Log1p t cg true ot now msg).2 →
  co_err (handleTelemetryConsume Log1p t cg false ot now msg).2 = Some StoreFailed.
Proof.
  unfold handleTelemetryConsume. destruct (msg_Data msg) as [payload|]; [|by intros ?%not_elem_of_nil].
  destruct (parse_subject _ _) as [[node key]|]; [|by intros ?%not_elem_of_nil]. destruct (negb _); [by intros ?%not_elem_of_nil|].
  destruct (_ =? _)%string.
  { destruct (handleSTAMP Log1p t cg true _ _ _ _) as [[[? ?] ?] ?]. by intros ?%not_elem_of_nil. }
  destruct (_ =? _)%string; [|by intros ?%not_elem_of_nil]. unfold handleNetStat. destruct (rd_netstat _); [done|]. by intros ?%not_elem_of_nil.
Qed.

(** One message: the counters' table keeps its rows, and if the message is
    acknowledged has one for each of its own. *)
Lemma record_message_spec s m :
  let '(s', err) := handle_recorded Log1p s m in
  tc_SubjectPrefix s'.1.1 = tc_SubjectPrefix s.1.1 ∧
  hs_link s.2 ⊆ hs_link s'.2 ∧ hs_reports s'.2 = hs_reports s.2 ∧
  (hs_iface s'.2 = hs_iface s.2 ∨ hs_iface s'.2 = insert_all iface_key (hs_iface s.2) (iface_rows Log1p s m)) ∧
  (err = None → ∀ r, r ∈ iface_rows Log1p s m → is_Some (hs_iface s'.2 !! iface_key r)).
Proof.
  destruct s as [[t cg] h], m as [[ot now] msg]. unfold handle_recorded, iface_rows. cbn [fst snd].
  pose proof (consume_prefix t cg true ot now msg) as Hp1. pose proof (consume_prefix t cg false ot now msg) as Hp0.
  pose proof (consume_iface_tx t cg ot now msg) as Htx.
  destruct (handleTelemetryConsume Log1p t cg true ot now msg) as [[t1 cg1] out1].
  destruct (handleTelemetryConsume Log1p t cg false ot now msg) as [[t0 cg0] out0]. cbn [fst snd] in *.
  assert (co_err out0 ≠ Some StoreFailed → iface_row_of <$> co_iface out1 = []) as Hno.
  { intros Hne. destruct (co_iface out1) as [|row rows]; [done|]. exfalso. apply Hne, (Htx row). left. }
  assert (co_err out0 = Some StoreFailed ∨ co_err out0 ≠ Some StoreFailed) as [He|He] by (destruct (co_err out0) as [[]|]; auto).
  - rewrite He. destruct (persist out1 h) as [h'|e] eqn:Hpe; cbn [fst snd].
    + apply persist_spec in Hpe as (HL & HI & HR). rewrite HL, HI, HR. split_and!; [done|apply insert_all_subseteq|done|by right|].
      intros _ r Hr. by apply insert_all_present.
    + split_and!; [done|done|done|by left|done].
  - rewrite (Hno He). assert (∀ A (a b : A), match co_err out0 with Some StoreFailed => a | _ => b end = b) as Hm.
    { intros A a b. destruct (co_err out0) as [[]|]; done. }
    rewrite Hm. cbn [fst snd]. split_and!; [done|done|done|by left|]. intros _ r Hr. by apply not_elem_of_nil in Hr.
Qed.

Lemma iface_rows_same s s' m m' : tc_SubjectPrefix s.1.1 = tc_SubjectPrefix s'.1.1 → m.2 = m'.2 → iface_rows Log1p s m = iface_rows Log1p s' m'.
Proof.
  destruct m as [[ot now] msg], m' as [[ot' now'] msg']. cbn [fst snd iface_rows]. intros Hp <-. f_equal. by apply consume_iface.
Qed.

Lemma record_messages_grow s ms :
  let s' := foldl (record_message Log1p) s ms in
  tc_SubjectPrefix s'.1.1 = tc_SubjectPrefix s.1.1 ∧ hs_iface s.2 ⊆ hs_iface s'.2 ∧ hs_link s.2 ⊆ hs_link s'.2.
Proof.
  revert s. induction ms as [|m ms IH]; intros s; [done|]. cbn [foldl].
  destruct (IH (record_message Log1p s m)) as (Hp & HI & HL). unfold record_message in *. pose proof (record_message_spec s m) as Hs.
  destruct (handle_recorded Log1p s m) as [s' err]. cbn [fst] in *. destruct Hs as (Hp' & HL' & _ & HI' & _).
  split_and!; [congruence| |by etrans]. etrans; [|exact HI]. destruct HI' as [-> | ->]; [done|apply insert_all_subseteq].
Qed.

End messages.

(** ** The newest rows *)

Lemma merge_sort_link_after l : StronglySorted link_after (merge_sort link_after l) ∧ merge_sort link_after l ≡ₚ l.
Proof.
  assert (Transitive link_after) by (intros a b c; unfold link_after; lia).
  assert (Total link_after) by (intros a b; unfold link_after; lia).
  split; [apply Sorted_StronglySorted; [done|by apply Sorted_merge_sort]|apply merge_sort_Permutation].
Qed.

Lemma StronglySorted_split {A} (R : A → A → Prop) l1 l2 x y : StronglySorted R (l1 ++ l2) → x ∈ l1 → y ∈ l2 → R x y.
Proof.
  induction l1 as [|a l1 IH]; simpl; [by intros _ ?%not_elem_of_nil|]. intros [Hs Ha]%StronglySorted_inv [->|Hx]%elem_of_cons Hy; [|by apply IH].
  rewrite list.Forall_forall in Ha. apply Ha. set_solver.
Qed.

(** The latest samples of a link are its newest rows, the newest first. *)
Lemma latest_samples h key limit l h' :
  ListLatestLinkSamples key limit h = Ok (l, h') →
  StronglySorted link_after l ∧ (length l ≤ Z.to_nat limit)%nat ∧
  (∀ r, r ∈ l → lr_TelemetryKey r = key ∧ ∃ k, hs_link h !! k = Some r) ∧
  (∀ k r, hs_link h !! k = Some r → lr_TelemetryKey r = key → r ∈ l ∨ (length l = Z.to_nat limit ∧ ∀ x, x ∈ l → lr_Time r ≤ lr_Time x)).
Proof.
  unfold ListLatestLinkSamples, limited. destruct (limit <? 0); [done|]. unfold hselect. intros He.
  set (rows := rows_of _ _) in He. assert (l = firstn (Z.to_nat limit) (merge_sort link_after rows)) as ->
    by (destruct (hs_faults h) as [|[] fs]; by simplify_eq). clear He.
  destruct (merge_sort_link_after rows) as [Hs Hp]. set (n := Z.to_nat limit). set (sorted := merge_sort link_after rows) in *.
  assert (∀ r, r ∈ rows ↔ lr_TelemetryKey r = key ∧ ∃ k, hs_link h !! k = Some r) as Hrows.
  { intros r. unfold rows, rows_of. rewrite list_elem_of_filter, list_elem_of_fmap. f_equiv. split.
    - intros ([k r'] & -> & Hk%elem_of_map_to_list). eauto.
    - intros [k Hk]. exists (k, r). split; [done|]. by apply elem_of_map_to_list. }
  pose proof (firstn_skipn n sorted) as Hfs. split_and!.
  - rewrite <-Hfs in Hs. by apply StronglySorted_app_1_l in Hs.
  - rewrite length_firstn. lia.
  - intros r Hr. apply Hrows. rewrite <-Hp, <-Hfs. set_solver.
  - intros k r Hk Hkey. assert (r ∈ sorted) as Hr by (rewrite Hp; apply Hrows; eauto). rewrite <-Hfs in Hr.
    apply elem_of_app in Hr as [Hr|Hr]; [by left|]. right. split.
    + rewrite length_firstn. destruct (decide (length sorted ≤ n)%nat) as [Hle|]; [|lia]. rewrite skipn_all2 in Hr by done. by apply not_elem_of_nil in Hr.
    + intros x Hx. rewrite <-Hfs in Hs. exact (StronglySorted_split _ _ _ _ _ Hs Hx Hr).
Qed.

(** A sample whose insertion fails is delivered again, and its delay has been
    taken into the average before: it counts twice, with one row. *)
Lemma redelivered_sample_counts_twice `{RangeOrder} Log1p t cg ot now ot' now' data key p seq sent received :
  rd_stamp data = Some p → sr_IsSender p = false → sr_SenderSequence p = Some seq → sr_SenderTimestamp p = Some sent →
  sr_ReceiveTimestamp p = Some received → 0 ≤ time_sub received sent →
  let n (t : TelemetryCollector) := ew_n (le_latency (default new_link_ewmas (tc_ewmas t !! key))) in
  0 ≤ n t < 2 ^ 62 →
  let '(t1, _, rows1, err1) := handleSTAMP Log1p t cg false ot now data key in
  let '(t2, _, rows2, err2) := handleSTAMP Log1p t1 cg true ot' now' data key in
  err1 = Some StoreFailed ∧ rows1 = [] ∧ err2 = None ∧ length rows2 = 1%nat ∧ n t2 = n t + 2.
Proof.
  intros Hd Hs Hq Hst Hr Hpos n Hn. assert (∀ e ts v, 0 ≤ ew_n e < 2 ^ 62 + 1 → ew_n (Observe e ts v) = ew_n e + 1) as Hobs.
  { intros e ts v He. unfold Observe. destruct (Z.eqb_spec (ew_n e) 0) as [->|]; [done|]. simpl. rewrite i64_id; lia. }
  unfold handleSTAMP. rewrite Hd, Hs, Hq, Hst, Hr. destruct (Z.ltb_spec (time_sub received sent) 0); [lia|]. unfold observe_stamp.
  destruct (loss_step ot _ _) as [last loss]. cbn [negb fst snd]. cbn [tc_ewmas]. rewrite lookup_insert_eq. cbn [from_option id le_latency].
  destruct (loss_step ot' _ _) as [last' loss']. cbn [negb]. split_and!; [done..|].
  unfold n. cbn [tc_ewmas]. rewrite lookup_insert_eq. cbn [from_option id le_latency]. unfold n in Hn. rewrite !Hobs by (rewrite ?Hobs; lia). lia.
Qed.

(** ** Recording node reports *)

(** [record]: a failed insertion is logged. *)
Definition record_node_report (h : History) (report : NodeState) : History :=
  match record_report report with
  | None => h
  | Some row => match InsertNodeReport row h with Ok h' => h' | Err _ => h_spend h end
  end.

(** A watch that ends is started again after a delay, until the context ends:
    per round whether it had ended before, what the watch met, and whether it
    ends during the delay. *)
Record watch_round (T : Type) := {
  wr_done : bool;
  wr_answers : list bool;
  wr_watch_ok : bool;
  wr_turns : list (watch_turn T);
  wr_done_waiting : bool;
}.
Arguments wr_done {T} _.
Arguments wr_answers {T} _.
Arguments wr_watch_ok {T} _.
Arguments wr_turns {T} _.
Arguments wr_done_waiting {T} _.

Definition nodeReportRewatchDelay : Duration := 2 * Second.
Definition topologyReportRewatchDelay : Duration := 2 * Second.

Fixpoint rewatch {T} (retryDo : nat → list bool → bool) (rounds : list (watch_round T)) : list T :=
  match rounds with
  | [] => []
  | r :: rounds =>
      if wr_done r then []
      else (Watch retryDo (wr_answers r) (wr_watch_ok r) (wr_turns r)).1 ++
           (if wr_done_waiting r then [] else rewatch retryDo rounds)
  end.

(** [Run]: every report of the watch, in order, is recorded. *)
Definition recorder_Run (retryDo : nat → list bool → bool) (h : History) (rounds : list (watch_round NodeState)) : History :=
  foldl record_node_report h (rewatch retryDo rounds).

(** A report stays in the table it was put in, and one with an identity and a
    time that comes while the database works is there afterwards: the report
    itself, or one of that node from the same microsecond. *)
Lemma record_node_report_grows h report : hs_reports h ⊆ hs_reports (record_node_report h report).
Proof.
  unfold record_node_report. destruct (record_report report) as [row|]; [|done].
  destruct (InsertNodeReport row h) as [h'|e] eqn:He; [|done]. apply hstmt_inv in He. destruct (text_ok _); [|done].
  injection He as <-. apply insert_new_subseteq.
Qed.

Lemma reports_recorded retryDo h rounds l report l' :
  rewatch retryDo rounds = l ++ report :: l' →
  let h1 := foldl record_node_report h l in
  hs_faults h1 = [] → text_ok (ns_NodeID report) = true → ns_NodeID report ≠ ""%string → ns_ReportedAt report ≠ zero_time →
  ∃ r, hs_reports (recorder_Run retryDo h rounds) !! (ns_NodeID report, pg_time (ns_ReportedAt report)) = Some r ∧
    (hs_reports h1 !! (ns_NodeID report, pg_time (ns_ReportedAt report)) = None → nr_Converged r = ns_Converged report).
Proof.
  intros Hw h1 Hf Ht Hid Hat. unfold recorder_Run. rewrite Hw, foldl_app. fold h1. cbn [foldl].
  assert (∀ rs h, hs_reports h ⊆ hs_reports (foldl record_node_report h rs)) as Hgrow.
  { induction rs as [|r rs IH]; intros h0; [done|]. cbn [foldl]. etrans; [apply record_node_report_grows|apply IH]. }
  assert (∃ row, record_report report = Some row ∧ inr_NodeID row = ns_NodeID report ∧ inr_Time row = ns_ReportedAt report ∧
            inr_Converged row = ns_Converged report) as (row & Hrow & Hn & Htm & Hc).
  { unfold record_report. destruct (String.eqb_spec (ns_NodeID report) ""), (Z.eqb_spec (ns_ReportedAt report) zero_time); try done. by eexists. }
  set (key := (ns_NodeID report, pg_time (ns_ReportedAt report))).
  assert (hs_reports (record_node_report h1 report) = insert_new key (report_row row) (hs_reports h1)) as Hins.
  { unfold record_node_report, InsertNodeReport, hstmt. rewrite Hrow, Hf, Hn, Ht. simpl. unfold report_key, report_row. simpl.
    by rewrite Hn, Htm. }
  destruct (insert_new_present key (report_row row) (hs_reports h1)) as [r Hr]. exists r. rewrite <-Hins in Hr. split.
  - eapply lookup_weaken; [exact Hr|apply Hgrow].
  - intros Hnone. rewrite Hins in Hr. unfold insert_new in Hr. rewrite Hnone, lookup_insert_eq in Hr. injection Hr as <-. exact Hc.
Qed.

(** ** Witness *)

Definition demo_history : History := {| hs_link := ∅; hs_iface := ∅; hs_reports := ∅; hs_faults := [] |}.
Definition demo_counters : ResultPacket :=
  {| rp_ProbeType := ProbeTypeNetStat; rp_TelemetryKey := "ams.eth1"; rp_SentAt := 5000;
     rp_Data := netstat_json {| nr_Stats := {[ "eth1"%string := {[ "rx_bytes"%string := 17 ]} ]} |} |}.
Definition demo_counters_msg : Msg :=
  {| msg_Subject := cat [ProbeResultSubjectPrefix; ".ams."; ProbeTypeNetStat; "."; "ams.eth1"]; msg_Data := Some demo_counters |}.
Definition demo_collector : collector_state :=
  (NewTelemetryCollector "ams" (cat [ProbeResultSubjectPrefix; "."; "ams"]), {| cg_graph := ∅; cg_byID := ∅; cg_lastSeen := ∅; cg_convergedEdges := ∅; cg_startedAt := 0 |}, demo_history).

