(* ===== verification/Devtools.v ===== *)
(** The development tools' override of the cost graph (debug_devtools.go): the
    request handler behind the debug subject, with what it changes and what it
    lists. *)

From S2P Require Import Prelude Float64 Netip Topology CostGraph PceGraph.

(** ** Requests and responses *)

Notation CostGraphOverrideOperation := string (only parsing).
Definition CostGraphOverrideUpsert : CostGraphOverrideOperation := "COST_GRAPH_OVERRIDE_UPSERT".
Definition CostGraphOverrideList : CostGraphOverrideOperation := "COST_GRAPH_OVERRIDE_LIST".

Record CostGraphOverridePayload := {
  op_Operation : CostGraphOverrideOperation;
  op_EdgeID : option string;
  op_CostDimension : option string;
  op_Cost : option f64;
  op_ListFilterEdgeIDs : list string;
  op_ListFilterCostDimensions : list CostDimension;
}.

Record CostGraphOverrideEntry := {
  oe_EdgeID : string;
  oe_CostDimension : string;
  oe_Cost : f64;
  oe_PreviousCost : option f64;
}.

Inductive override_error := MalformedPayload | UpsertNeedsArguments | EdgeNotInCostGraph (id : string) | InvalidOperation (op : string).

Record CostGraphOverrideResponse := {
  or_Operation : CostGraphOverrideOperation;
  or_Error : option override_error;
  or_Entries : list CostGraphOverrideEntry;
}.

(** ** The handler *)

Definition costs_of (cg : CostGraph) (key : CostGraphEdge) : gmap CostDimension f64 :=
  match cg_graph cg !! key with Some c => Costs c | None => ∅ end.

(** The upsert writes through the pointer in the graph's map. *)
Definition override_upsert (cg : CostGraph) (edgeID dim : string) (cost : f64) : CostGraph * (option override_error * list CostGraphOverrideEntry) :=
  match cg_byID cg !! edgeID with
  | None => (cg, (Some (EdgeNotInCostGraph edgeID), []))
  | Some key =>
      ({| cg_graph := alter (λ k, {| Costs := <[dim := cost]> (Costs k) |}) key (cg_graph cg);
          cg_byID := cg_byID cg; cg_lastSeen := cg_lastSeen cg;
          cg_convergedEdges := cg_convergedEdges cg; cg_startedAt := cg_startedAt cg |},
       (None, [{| oe_EdgeID := edgeID; oe_CostDimension := dim; oe_Cost := cost; oe_PreviousCost := costs_of cg key !! dim |}]))
  end.

(** An empty filter lets everything through. *)
Definition passes (filters : list string) (x : string) : bool :=
  match filters with [] => true | _ => bool_decide (x ∈ filters) end.

Definition list_edge (cg : CostGraph) (dims : list CostDimension) (edgeID : EdgeID) : list CostGraphOverrideEntry :=
  let costs := match cg_byID cg !! edgeID with Some key => costs_of cg key | None => ∅ end in
  (λ dim, {| oe_EdgeID := edgeID; oe_CostDimension := dim; oe_Cost := map_get f_zero costs dim; oe_PreviousCost := None |}) <$>
    filter (λ dim, passes dims dim = true) (sorted_keys costs).

Definition override_list (cg : CostGraph) (edges : list string) (dims : list CostDimension) : list CostGraphOverrideEntry :=
  filter (λ id, passes edges id = true) (sorted_keys (cg_byID cg)) ≫= list_edge cg dims.

(** [data] is what decoding the request gives. *)
Definition costGraphOverride (cg : CostGraph) (data : option CostGraphOverridePayload) : CostGraph * CostGraphOverrideResponse :=
  match data with
  | None => (cg, {| or_Operation := ""; or_Error := Some MalformedPayload; or_Entries := [] |})
  | Some payload =>
      let resp err entries := {| or_Operation := op_Operation payload; or_Error := err; or_Entries := entries |} in
      if (op_Operation payload =? CostGraphOverrideUpsert)%string then
        match op_EdgeID payload, op_CostDimension payload, op_Cost payload with
        | Some edgeID, Some dim, Some cost =>
            let '(cg, (err, entries)) := override_upsert cg edgeID dim cost in (cg, resp err entries)
        | _, _, _ => (cg, resp (Some UpsertNeedsArguments) [])
        end
      else if (op_Operation payload =? CostGraphOverrideList)%string then
        (cg, resp None (override_list cg (op_ListFilterEdgeIDs payload) (op_ListFilterCostDimensions payload)))
      else (cg, resp (Some (InvalidOperation (op_Operation payload))) [])
  end.

(** ** Results *)

(** The upsert is [UpdateCost]. *)
Lemma override_upsert_is_update cg edgeID dim cost : (override_upsert cg edgeID dim cost).1 = UpdateCost cg edgeID dim cost.
Proof. unfold override_upsert, UpdateCost. by destruct (cg_byID cg !! edgeID). Qed.

Lemma passes_spec filters x : passes filters x = true ↔ filters = [] ∨ x ∈ filters.
Proof. unfold passes. destruct filters as [|f fs]; [naive_solver|]. rewrite bool_decide_eq_true. split; [by right|by intros [?|?]]. Qed.

(** The costs behind an edge's id. *)
Definition cost_at (cg : CostGraph) (edgeID : EdgeID) (dim : CostDimension) : option f64 :=
  key ← cg_byID cg !! edgeID; costs_of cg key !! dim.

Lemma elem_of_list_edge cg dims edgeID e :
  e ∈ list_edge cg dims edgeID ↔
  oe_EdgeID e = edgeID ∧ oe_PreviousCost e = None ∧ (dims = [] ∨ oe_CostDimension e ∈ dims) ∧
  cost_at cg edgeID (oe_CostDimension e) = Some (oe_Cost e).
Proof.
  unfold list_edge, cost_at. rewrite list_elem_of_fmap. split.
  - intros (dim & -> & [Hp Hd]%list_elem_of_filter). apply elem_of_sorted_keys in Hd as [x Hx]. simpl. rewrite <-passes_spec. split_and!; [done..|].
    destruct (cg_byID cg !! edgeID) as [key|]; [|by rewrite lookup_empty in Hx]. simpl. unfold map_get. by rewrite Hx.
  - intros (<- & Hn & Hp & Hc). exists (oe_CostDimension e). apply bind_Some in Hc as (key & -> & Hx). split.
    + destruct e. simpl in *. unfold map_get. rewrite Hx. by subst.
    + apply list_elem_of_filter. split; [by apply passes_spec|]. apply elem_of_sorted_keys. eauto.
Qed.

(** The list has exactly the costs that pass the filters, each once. *)
Lemma elem_of_override_list cg edges dims e :
  e ∈ override_list cg edges dims ↔
  oe_PreviousCost e = None ∧ (edges = [] ∨ oe_EdgeID e ∈ edges) ∧ (dims = [] ∨ oe_CostDimension e ∈ dims) ∧
  cost_at cg (oe_EdgeID e) (oe_CostDimension e) = Some (oe_Cost e).
Proof.
  unfold override_list. rewrite list_elem_of_bind. split.
  - intros (id & (<- & ? & ? & ?)%elem_of_list_edge & [Hp _]%list_elem_of_filter). rewrite passes_spec in Hp. done.
  - intros (? & Hp & ? & Hc). exists (oe_EdgeID e). rewrite elem_of_list_edge, list_elem_of_filter, passes_spec, elem_of_sorted_keys.
    split_and!; try done. apply bind_Some in Hc as (key & -> & _). eauto.
Qed.

Lemma NoDup_list_edge cg dims edgeID : NoDup (list_edge cg dims edgeID).
Proof.
  unfold list_edge. apply NoDup_fmap_2_strong; [|apply list.NoDup_filter, NoDup_sorted_keys].
  intros d1 d2 _ _ He. exact (f_equal oe_CostDimension He).
Qed.

Lemma NoDup_override_list cg edges dims : NoDup (override_list cg edges dims).
Proof.
  unfold override_list. apply NoDup_bind; [|intros id _; apply NoDup_list_edge|apply list.NoDup_filter, NoDup_sorted_keys].
  intros id1 id2 e _ _ (<- & _)%elem_of_list_edge (<- & _)%elem_of_list_edge. done.
Qed.

(** What an override writes is what the list shows, and a request that is
    refused changes nothing. *)
Theorem override_then_list cg edgeID dim cost :
  cost_graph_wf cg →
  let upsert := {| op_Operation := CostGraphOverrideUpsert; op_EdgeID := Some edgeID; op_CostDimension := Some dim; op_Cost := Some cost;
                   op_ListFilterEdgeIDs := []; op_ListFilterCostDimensions := [] |} in
  let list := {| op_Operation := CostGraphOverrideList; op_EdgeID := None; op_CostDimension := None; op_Cost := None;
                 op_ListFilterEdgeIDs := [edgeID]; op_ListFilterCostDimensions := [dim] |} in
  let '(cg', resp) := costGraphOverride cg (Some upsert) in
  let entries := or_Entries (costGraphOverride cg' (Some list)).2 in
  match cg_byID cg !! edgeID with
  | None => cg' = cg ∧ or_Error resp = Some (EdgeNotInCostGraph edgeID) ∧ entries = []
  | Some _ => or_Error resp = None ∧ oe_PreviousCost <$> or_Entries resp = [cost_at cg edgeID dim] ∧
      entries = [{| oe_EdgeID := edgeID; oe_CostDimension := dim; oe_Cost := cost; oe_PreviousCost := None |}]
  end.
Proof.
  intros Hwf upsert list. unfold costGraphOverride. simpl. pose proof (override_upsert_is_update cg edgeID dim cost) as Hu.
  unfold override_upsert in *. destruct (cg_byID cg !! edgeID) as [key|] eqn:Hid; simpl in *.
  - split_and!; [done|by unfold cost_at; rewrite Hid|]. set (cg' := {| cg_graph := _ |}) in *.
    assert (cost_at cg' edgeID dim = Some cost) as Hc.
    { unfold cost_at, cg'. simpl. rewrite Hid. simpl. unfold costs_of. simpl. destruct (cgw_present _ Hwf _ _ Hid) as [co Hco].
      rewrite lookup_alter_eq, Hco. simpl. by rewrite lookup_insert_eq. }
    pose proof (NoDup_override_list cg' [edgeID] [dim]) as Hn.
    assert (∀ e, e ∈ override_list cg' [edgeID] [dim] ↔ e = {| oe_EdgeID := edgeID; oe_CostDimension := dim; oe_Cost := cost; oe_PreviousCost := None |}) as Hin.
    { intros e. rewrite elem_of_override_list, !list_elem_of_singleton. split.
      - intros (? & [?|?] & [?|?] & He); try done. destruct e. simpl in *. subst. by rewrite Hc in He; injection He as <-.
      - intros ->. simpl. rewrite Hc. auto. }
    apply Permutation_singleton_r, NoDup_Permutation; [done|apply NoDup_singleton|]. intros e. by rewrite Hin, list_elem_of_singleton.
  - split_and!; [done..|]. apply elem_of_nil_inv. intros e (_ & [?|?%list_elem_of_singleton] & _ & He)%elem_of_override_list; [done|].
    subst. unfold cost_at in He. by rewrite Hid in He.
Qed.

(** Costs stay what the path computation asks for as long as the overrides are;
    the handler itself takes any number, a negative one too. *)
Lemma override_keeps_costs cg data :
  costs_nn (CostsSnapshot cg) → (∀ p x, data = Some p → op_Cost p = Some x → nn x) → costs_nn (CostsSnapshot (costGraphOverride cg data).1).
Proof.
  intros Hnn Hx. destruct data as [p|]; [|done]. unfold costGraphOverride. destruct (_ =? _)%string; [|by destruct (_ =? _)%string].
  destruct (op_EdgeID p) as [id|]; [|done]. destruct (op_CostDimension p) as [dim|]; [|done]. destruct (op_Cost p) as [x|] eqn:Hp; [|done].
  unfold override_upsert. destruct (cg_byID cg !! id) as [key|]; [|done]. simpl.
  intros k c d y. unfold CostsSnapshot. simpl. rewrite lookup_alter_Some. intros [(<- & c0 & Hc0 & ->)|[_ Hc]] Hy; [|by eapply Hnn].
  simpl in Hy. apply lookup_insert_Some in Hy as [[_ <-]|[_ Hy]]; [by eapply Hx|by eapply Hnn].
Qed.
