(* ===== verification/Srh.v ===== *)
(** The segment routing header of a self-originated packet
    (libs/probe/srv6/srh.go): a fixed part of eight octets and the segment list
    in reverse order, with a free slot for the destination in front. *)

From S2P Require Import Prelude Netip.

Inductive srh_error := NoSegments | SegmentNotIPv6.

Definition Is6 (a : Addr) : bool := match a with Addr6 _ => true | _ => false end.

(** [AsSlice] of an IPv6 address: sixteen octets, the highest first. *)
Definition octets16 (v : Z) : list Z := (λ i, Z.shiftr v (8 * i) mod 256) <$> [15; 14; 13; 12; 11; 10; 9; 8; 7; 6; 5; 4; 3; 2; 1; 0].
Definition AsSlice (a : Addr) : list Z := match a with Addr6 v => octets16 v | _ => [] end.

Definition u8 (z : Z) : Z := z mod 256.

Definition srh_header (n : Z) (buf : list Z) : list Z :=
  <[4%nat := u8 (n - 1)]> (<[3%nat := u8 (n - 1)]> (<[2%nat := 4]> (<[1%nat := u8 (2 * n)]> buf))).

(** The loop, from segment number [i] on. *)
Fixpoint encode_segments (n : nat) (i : nat) (segments : list Addr) (buf : list Z) : result srh_error (list Z) :=
  match segments with
  | [] => Ok buf
  | s :: segments =>
      if negb (Is6 s) then Err SegmentNotIPv6
      else encode_segments n (S i) segments (list_inserts (8 + 16 * (n - 1 - i))%nat (AsSlice s) buf)
  end.

Definition EncodeSRH (segments : list Addr) : result srh_error (list Z) :=
  match segments with
  | [] => Err NoSegments
  | _ =>
      let n := S (length segments) in
      let buf := replicate (8 + 16 * n) 0 in
      encode_segments n 0 segments (srh_header (Z.of_nat n) buf)
  end.

(** [SRHControl]: the error of the encoding, or the option the socket is given
    and the error of that call. *)
Definition SRHControl (segments : list Addr) : result srh_error (∀ E : Type, (list Z → option E) → option E) :=
  srh ← EncodeSRH segments;
  mret (λ E setsockopt, setsockopt srh).

(** ** Results *)

Lemma length_encode n i segments buf buf' : encode_segments n i segments buf = Ok buf' → length buf' = length buf.
Proof.
  revert i buf. induction segments as [|s segments IH]; intros i buf; cbn [encode_segments]; [by intros [= <-]|].
  destruct (Is6 s); [|done]. intros ->%IH. apply length_inserts.
Qed.

(** What lies below the slot of the last segment, or above that of the first,
    is left as it was. *)
Lemma encode_outside n i segments buf buf' k :
  (i + length segments ≤ n)%nat → encode_segments n i segments buf = Ok buf' →
  (k < 8 + 16 * (n - i - length segments) ∨ 8 + 16 * (n - i) ≤ k)%nat → buf' !! k = buf !! k.
Proof.
  revert i buf. induction segments as [|s segments IH]; intros i buf Hn; cbn [encode_segments]; [by intros [= <-]|].
  destruct s as [|v|v]; try done. cbn [length] in *. intros He Hk. rewrite (IH (S i) _ ltac:(lia) He) by lia.
  cbn [AsSlice]. destruct (decide (k < 8 + 16 * (n - 1 - i))%nat); [apply list_lookup_inserts_lt; lia|apply list_lookup_inserts_ge].
  change (length (octets16 v)) with 16%nat. lia.
Qed.

Definition slot (j : nat) (buf : list Z) : list Z := firstn 16 (skipn (8 + 16 * j) buf).

Lemma slot_lookup j k buf : slot j buf !! k = if decide (k < 16)%nat then buf !! (8 + 16 * j + k)%nat else None.
Proof. unfold slot. case_decide; [rewrite lookup_take_lt, lookup_drop by done; done|rewrite lookup_take_ge by lia; done]. Qed.

Lemma encode_slots n i segments buf buf' j s :
  (i + length segments ≤ n)%nat → (8 + 16 * n ≤ length buf)%nat → encode_segments n i segments buf = Ok buf' →
  segments !! j = Some s → slot (n - 1 - i - j) buf' = AsSlice s ∧ ∃ v, s = Addr6 v.
Proof.
  revert i j buf. induction segments as [|s0 segments IH]; intros i j buf Hn Hl; [done|]. cbn [encode_segments length] in *.
  destruct s0 as [|v|v]; try done. cbn [Is6 negb]. intros He. destruct j as [|j]; cbn [lookup list_lookup].
  - intros [= <-]. split; [|eauto]. apply list_eq. intros k. rewrite slot_lookup, Nat.sub_0_r. cbn [AsSlice].
    destruct (decide (k < 16)%nat) as [Hk|Hk].
    + rewrite (encode_outside n (S i) segments _ buf') by (done || lia).
      change (AsSlice (Addr6 v)) with (octets16 v). assert (length (octets16 v) = 16%nat) as Ho by done.
      rewrite list_lookup_inserts by lia. f_equal. lia.
    + symmetry. apply lookup_ge_None_2. assert (length (octets16 v) = 16%nat) as Ho by done. rewrite Ho. lia.
  - intros Hj. destruct (IH (S i) j (list_inserts (8 + 16 * (n - 1 - i))%nat (AsSlice (Addr6 v)) buf)) as [Hs Hv];
      [lia|rewrite length_inserts; lia|done..|]. split; [|done].
    by replace (n - 1 - i - S j)%nat with (n - 1 - S i - j)%nat by lia.
Qed.

Lemma header_lookup n buf k : (8 ≤ length buf)%nat →
  srh_header n buf !! k = match k with
    | 1%nat => Some (u8 (2 * n)) | 2%nat => Some 4 | 3%nat | 4%nat => Some (u8 (n - 1)) | _ => buf !! k end.
Proof.
  intros Hl. unfold srh_header. do 8 (destruct buf; [simpl in Hl; lia|]). by do 5 (destruct k as [|k]; [done|]).
Qed.

(** The header says what it holds, up to 126 segments: its length, routing type
    4, the index of the first segment; the segments follow in reverse order,
    behind a slot of zeros. *)
Theorem EncodeSRH_layout segments buf :
  EncodeSRH segments = Ok buf →
  let n := S (length segments) in
  length buf = (8 + 16 * n)%nat ∧ buf !! 2%nat = Some 4 ∧
  ((length segments ≤ 126)%nat →
     (∃ len, buf !! 1%nat = Some len ∧ Z.of_nat (length buf) = 8 + 8 * len) ∧
     buf !! 3%nat = Some (Z.of_nat n - 1) ∧ buf !! 4%nat = Some (Z.of_nat n - 1)) ∧
  slot 0 buf = replicate 16 0 ∧
  ∀ j s, segments !! j = Some s → slot (n - 1 - j) buf = AsSlice s ∧ ∃ v, s = Addr6 v.
Proof.
  unfold EncodeSRH. destruct segments as [|s0 rest]; [done|]. set (segments := s0 :: rest). set (n := S (length segments)).
  intros He. pose proof (length_encode _ _ _ _ _ He) as Hlen. unfold srh_header in Hlen. rewrite !length_insert, length_replicate in Hlen.
  assert (∀ k, (k < 24)%nat → buf !! k = srh_header (Z.of_nat n) (replicate (8 + 16 * n) 0) !! k) as Hlow.
  { intros k Hk. apply (encode_outside n 0 segments _ _ k ltac:(unfold n; lia) He). unfold n. lia. }
  assert (∀ k, srh_header (Z.of_nat n) (replicate (8 + 16 * n) 0) !! k = match k with
    | 1%nat => Some (u8 (2 * Z.of_nat n)) | 2%nat => Some 4 | 3%nat | 4%nat => Some (u8 (Z.of_nat n - 1)) | _ => replicate (8 + 16 * n) 0 !! k end) as Hh
    by (intros k; apply header_lookup; rewrite length_replicate; lia).
  split_and!; [done|rewrite Hlow, Hh by lia; done| | |].
  - intros Hs. rewrite !Hlow, !Hh by lia. unfold u8. rewrite !Z.mod_small by (unfold n; lia).
    split_and!; [|done..]. exists (2 * Z.of_nat n). split; [done|]. lia.
  - apply list_eq. intros k. rewrite slot_lookup. case_decide as Hk.
    + rewrite Hlow, Hh by lia. replace (8 + 16 * 0 + k)%nat with (S (S (S (S (S (S (S (S k)))))))) by lia.
      rewrite !lookup_replicate_2 by (unfold n; lia). done.
    + symmetry. apply lookup_ge_None_2. rewrite length_replicate. lia.
  - intros j s Hj. assert (8 + 16 * n ≤ length (srh_header (Z.of_nat n) (replicate (8 + 16 * n) 0%Z)))%nat as Hb.
    { unfold srh_header. rewrite !length_insert, length_replicate. lia. }
    pose proof (encode_slots n 0 segments _ buf j s ltac:(unfold n; lia) Hb He Hj) as Hs. by rewrite Nat.sub_0_r in Hs.
Qed.

(** From 127 segments on the length octet wraps: the header claims to be empty. *)
Example srh_length_wraps :
  match EncodeSRH (replicate 127 (Addr6 1)) with Ok buf => buf !! 1%nat = Some 0 ∧ length buf = 2056%nat | Err _ => False end.
Proof. vm_compute. done. Qed.
