(* ===== verification/Kv.v ===== *)
(** The buckets intents and states travel through (libs/nodesync/kv.go,
    intent.go): publishing a value, reading it back, and the decoding of a node
    intent by its type.  The key-value store and the encoding are interfaces
    with their laws. *)

From S2P Require Import Prelude Netip Topology Sid Registry Lifecycle.

(** ** Interfaces *)

(** [json.Marshal] and [json.Unmarshal] at a type; what is encoded decodes to
    itself. *)
Class JsonCodec (Data A : Type) := {
  Marshal : A → option Data;
  Unmarshal : Data → option A;
  Unmarshal_Marshal : ∀ a d, Marshal a = Some d → Unmarshal d = Some a;
}.

Record BucketConfig := { bc_Name : string; bc_Description : string; bc_TTL : Duration }.

(** A JetStream server as the publisher uses it: ensuring a bucket, putting and
    getting an entry with its revision.  Any call may fail.  A put that succeeds
    is what a get finds, the other entries stay as they were; ensuring a bucket
    leaves the others alone. *)
Class KeyValueServer (S Data : Type) := {
  CreateOrUpdateKeyValue : S → BucketConfig → S * bool;
  kv_Put : S → string → string → Data → S * option Z;
  kv_Get : S → string → string → option (Data * Z);
  kv_Put_Get : ∀ s bucket key d s' rev, kv_Put s bucket key d = (s', Some rev) → kv_Get s' bucket key = Some (d, rev);
  kv_Put_other : ∀ s bucket key d bucket' key', (bucket', key') ≠ (bucket, key) →
    kv_Get (kv_Put s bucket key d).1 bucket' key' = kv_Get s bucket' key';
  kv_Create_other : ∀ s cfg bucket key, bucket ≠ bc_Name cfg → kv_Get (CreateOrUpdateKeyValue s cfg).1 bucket key = kv_Get s bucket key;
}.

Definition TTL : Duration := 90 * Second.
Definition IntentBucket : BucketConfig :=
  {| bc_Name := "maeto-intents"; bc_Description := "desired dataplane state per node"; bc_TTL := 0 |}.
Definition NodeStateBucket : BucketConfig :=
  {| bc_Name := "maeto-node-state"; bc_Description := "what each node reports about itself, one key per lane"; bc_TTL := TTL |}.
Definition PaneControlBucket : BucketConfig :=
  {| bc_Name := "maeto-pane-control"; bc_Description := "control plane snapshot for the pane"; bc_TTL := TTL |}.
Definition KeyControlSnapshot : string := "snapshot".
Definition LaneDataplane : string := "dataplane".
Definition LaneTopology : string := "topology".

(** ** The publisher *)

(** The publisher, with whether it holds the handle of its bucket. *)
Record Publisher := { pb_cfg : BucketConfig; pb_kv : bool }.

Inductive publisher_error := BucketFailed (bucket : string) | MarshalFailed (bucket key : string) | PutFailed (bucket key : string)
  | GetFailed (bucket key : string) | ParseFailed (bucket key : string).

Section publisher.
Context {S Data : Type} `{KeyValueServer S Data}.

(** A bucket that cannot be ensured leaves the publisher with the handle it had. *)
Definition Ensure (s : S) (p : Publisher) : S * Publisher * option publisher_error :=
  let '(s, ok) := CreateOrUpdateKeyValue s (pb_cfg p) in
  if ok then (s, {| pb_cfg := pb_cfg p; pb_kv := true |}, None) else (s, p, Some (BucketFailed (bc_Name (pb_cfg p)))).

Definition NewPublisher (s : S) (cfg : BucketConfig) : S * result publisher_error Publisher :=
  let '(s, p, err) := Ensure s {| pb_cfg := cfg; pb_kv := false |} in
  (s, match err with None => Ok p | Some e => Err e end).

Context {A : Type} `{JsonCodec Data A}.

Definition Publish (s : S) (p : Publisher) (key : string) (value : A) : S * result publisher_error Z :=
  let bucket := bc_Name (pb_cfg p) in
  match Marshal value with
  | None => (s, Err (MarshalFailed bucket key))
  | Some data =>
      let '(s, rev) := kv_Put s bucket key data in
      (s, match rev with Some rev => Ok rev | None => Err (PutFailed bucket key) end)
  end.

Definition Current (s : S) (p : Publisher) (key : string) : result publisher_error (A * Z) :=
  let bucket := bc_Name (pb_cfg p) in
  match kv_Get s bucket key with
  | None => Err (GetFailed bucket key)
  | Some (data, rev) => match Unmarshal data with Some v => Ok (v, rev) | None => Err (ParseFailed bucket key) end
  end.

(** What is published is what is current, until something else is published
    under that key or the entry expires. *)
Lemma Publish_Current s p key v s' rev : Publish s p key v = (s', Ok rev) → Current s' p key = Ok (v, rev).
Proof.
  unfold Publish, Current. destruct (Marshal v) as [d|] eqn:Hm; [|done]. destruct (kv_Put s _ key d) as [s1 [r|]] eqn:Hp; intros [= <- <-].
  by rewrite (kv_Put_Get _ _ _ _ _ _ Hp), (Unmarshal_Marshal _ _ Hm).
Qed.

Lemma Publish_other s p key v p' key' :
  (bc_Name (pb_cfg p'), key') ≠ (bc_Name (pb_cfg p), key) → Current (Publish s p key v).1 p' key' = Current s p' key'.
Proof.
  intros Hne. unfold Publish, Current. destruct (Marshal v) as [d|]; [|done].
  pose proof (kv_Put_other s _ key d _ key' Hne) as Ho. destruct (kv_Put s _ key d) as [s1 rev]. simpl in *. by rewrite Ho.
Qed.
End publisher.

(** ** Node intents *)

(** The wire form, with the intent as raw bytes. *)
Record nodeIntentWire (Raw : Type) := {
  wi_ID : string;
  wi_NodeType : string;
  wi_Intent : Raw;
  wi_Timestamp : Time;
  wi_Generation : Z;
  wi_Version : Z;
}.
Arguments wi_ID {Raw} _.
Arguments wi_NodeType {Raw} _.
Arguments wi_Intent {Raw} _.
Arguments wi_Timestamp {Raw} _.
Arguments wi_Generation {Raw} _.
Arguments wi_Version {Raw} _.

Inductive intent_error := WireFailed | DecodeCPEFailed | DecodePEFailed | UnknownNodeType (t : string).

Section intents.
Context {Data Raw : Type} `{!JsonCodec Data (nodeIntentWire Raw)} `{!JsonCodec Raw CPEIntent} `{!JsonCodec Raw PEIntent}.

Definition UnmarshalJSON (b : Data) : result intent_error NodeIntent :=
  match Unmarshal (A := nodeIntentWire Raw) b with
  | None => Err WireFailed
  | Some w =>
      let node t i := {| ni_ID := wi_ID w; ni_NodeType := t; ni_Intent := i; ni_Timestamp := wi_Timestamp w;
                         ni_Generation := wi_Generation w; ni_Version := wi_Version w |} in
      match NodeType_of (wi_NodeType w) with
      | NodeTypeCPE => match Unmarshal (A := CPEIntent) (wi_Intent w) with Some i => Ok (node NodeTypeCPE (IntentCPE i)) | None => Err DecodeCPEFailed end
      | NodeTypePE => match Unmarshal (A := PEIntent) (wi_Intent w) with Some i => Ok (node NodeTypePE (IntentPE i)) | None => Err DecodePEFailed end
      | NodeTypeOther t => Err (UnknownNodeType t)
      end
  end.

(** The encoding of a node intent: the intent by its concrete type, inside the
    struct of the wire form. *)
Definition MarshalIntent (ni : NodeIntent) : option Data :=
  raw ← match ni_Intent ni with IntentCPE i => Marshal i | IntentPE i => Marshal i end;
  Marshal {| wi_ID := ni_ID ni; wi_NodeType := NodeType_string (ni_NodeType ni); wi_Intent := raw; wi_Timestamp := ni_Timestamp ni;
             wi_Generation := ni_Generation ni; wi_Version := ni_Version ni |}.

Definition typed (ni : NodeIntent) : Prop :=
  match ni_NodeType ni, ni_Intent ni with NodeTypeCPE, IntentCPE _ | NodeTypePE, IntentPE _ => True | _, _ => False end.

(** A node intent whose type names what it holds comes back as it was; what
    comes back is always typed that way. *)
Lemma intent_roundtrip ni b : typed ni → MarshalIntent ni = Some b → UnmarshalJSON b = Ok ni.
Proof.
  destruct ni as [id t i ts gen ver]. unfold typed, MarshalIntent, UnmarshalJSON. simpl. intros Ht (raw & Hi & Hw)%bind_Some.
  apply Unmarshal_Marshal in Hw. rewrite Hw. simpl. destruct t, i; try done; simpl; by apply Unmarshal_Marshal in Hi as ->.
Qed.

Lemma UnmarshalJSON_typed b ni : UnmarshalJSON b = Ok ni → typed ni.
Proof. unfold UnmarshalJSON. intros. repeat case_match; by simplify_eq. Qed.
End intents.

(** ** In memory *)

(** A server in memory, and values as their own encoding. *)
Definition mem_server (Data : Type) : Type := gmap (string * string) (Data * Z) * Z.

#[export] Instance mem_KeyValueServer Data : KeyValueServer (mem_server Data) Data.
Proof.
  refine {|
    CreateOrUpdateKeyValue s cfg := (s, true);
    kv_Put s bucket key d := ((<[(bucket, key) := (d, s.2 + 1)]> s.1, s.2 + 1), Some (s.2 + 1));
    kv_Get s bucket key := s.1 !! (bucket, key) |}.
  - intros s bucket key d s' rev [= <- <-]. simpl. by rewrite lookup_insert_eq.
  - intros s bucket key d bucket' key' Hne. simpl. by rewrite lookup_insert_ne by congruence.
  - done.
Defined.

Definition plain_codec A : JsonCodec A A.
Proof. refine {| Marshal := Some; Unmarshal := Some |}. by intros a d [= <-]. Defined.

Example publish_then_current :
  let p := {| pb_cfg := IntentBucket; pb_kv := true |} in
  let '(s, rev) := Publish (H0 := plain_codec Z) (∅, 0) p (Key PrefixPE "ams" LaneIntent) 7 in
  Current (H0 := plain_codec Z) s p (Key PrefixPE "ams" LaneIntent) = Ok (7, 1) ∧
  Current (H0 := plain_codec Z) s p (Key PrefixCPE "ams" LaneIntent) = Err (GetFailed "maeto-intents" "cpe.ams.intent").
Proof. vm_compute. done. Qed.
