(* ===== verification/Config.v ===== *)
(** Configuration from the environment: the control plane's (config.go), the
    agent's and the portal's (config.go of each, libs/common/env.go), with what
    they use of Go's strings, strconv and time. *)

From Stdlib Require Import SpecFloat.
From S2P Require Import Prelude Float64 FloatBounds.

Notation bytes := (list ascii) (only parsing).
Definition bytes_of : string → bytes := String.list_ascii_of_string.

(** ** strings.TrimSpace *)

(** The UTF-8 encodings of the characters [unicode.IsSpace] accepts. *)
Definition octets (l : list N) : bytes := ascii_of_N <$> l.
Definition spaces : list bytes :=
  (octets <$> [[9]; [10]; [11]; [12]; [13]; [32]; [194; 133]; [194; 160]; [225; 154; 128]; [226; 128; 168]; [226; 128; 169];
               [226; 128; 175]; [226; 129; 159]; [227; 128; 128]]%N) ++
  ((λ k, octets [226; 128; 128 + N.of_nat k]%N) <$> seq 0 11).

Fixpoint strip_prefix (p s : bytes) : option bytes :=
  match p, s with
  | [], _ => Some s
  | c :: p, d :: s => if Ascii.eqb c d then strip_prefix p s else None
  | _ :: _, [] => None
  end.

Fixpoint strip_one (ps : list bytes) (s : bytes) : option bytes :=
  match ps with
  | [] => None
  | p :: ps => match strip_prefix p s with Some s' => Some s' | None => strip_one ps s end
  end.

(** Every round takes at least one octet. *)
Fixpoint trim_with (ps : list bytes) (fuel : nat) (s : bytes) : bytes :=
  match fuel with
  | O => s
  | S fuel => match strip_one ps s with Some s' => trim_with ps fuel s' | None => s end
  end.

Definition TrimSpace (s : bytes) : bytes :=
  let s := trim_with spaces (length s) s in
  reverse (trim_with (reverse <$> spaces) (length s) (reverse s)).

(** ** strconv.Atoi *)

Definition digit_value (c : ascii) : Z := Z.of_N (N_of_ascii c) - 48.

Definition Atoi (s : bytes) : option Z :=
  let '(neg, ds) := match s with
    | c :: ds => if Ascii.eqb c "-" then (true, ds) else if Ascii.eqb c "+" then (false, ds) else (false, s)
    | [] => (false, s)
    end in
  match ds with
  | [] => None
  | _ =>
      if forallb digit ds then
        let v := foldl (λ v c, 10 * v + digit_value c) 0 ds in
        let v := if neg : bool then - v else v in
        if (- 2 ^ 63 <=? v) && (v <? 2 ^ 63) then Some v else None
      else None
  end.

(** ** time.ParseDuration *)

(** The digits in front, as a number of at most [2 ^ 63]. *)
Fixpoint leadingInt (s : bytes) (x : Z) : option (Z * bytes) :=
  match s with
  | c :: s' =>
      if digit c then
        if 2 ^ 63 / 10 <? x then None
        else let x := 10 * x + digit_value c in if 2 ^ 63 <? x then None else leadingInt s' x
      else Some (x, s)
  | [] => Some (x, [])
  end.

(** The digits of a fraction: number and scale; digits past the precision are
    skipped. *)
Fixpoint leadingFraction (s : bytes) (x : Z) (scale : f64) (overflow : bool) : Z * f64 * bytes :=
  match s with
  | c :: s' =>
      if digit c then
        if overflow then leadingFraction s' x scale true
        else if (2 ^ 63 - 1) / 10 <? x then leadingFraction s' x scale true
        else let y := 10 * x + digit_value c in
             if 2 ^ 63 <? y then leadingFraction s' x scale true else leadingFraction s' y (scale * f_of_Z 10)%f64 false
      else (x, scale, s)
  | [] => (x, scale, [])
  end.

Definition dot : ascii := ascii_of_N 46.

(** The characters up to the next digit or dot. *)
Fixpoint unit_name (s : bytes) : bytes * bytes :=
  match s with
  | c :: s' => if Ascii.eqb c dot || digit c then ([], s) else let '(u, rest) := unit_name s' in (c :: u, rest)
  | [] => ([], [])
  end.

Definition unitMap (u : bytes) : option Z :=
  if bool_decide (u = bytes_of "ns") then Some 1
  else if bool_decide (u = bytes_of "us") || bool_decide (u = octets [194; 181; 115]%N) || bool_decide (u = octets [206; 188; 115]%N) then Some 1000
  else if bool_decide (u = bytes_of "ms") then Some Millisecond
  else if bool_decide (u = bytes_of "s") then Some Second
  else if bool_decide (u = bytes_of "m") then Some (60 * Second)
  else if bool_decide (u = bytes_of "h") then Some (3600 * Second)
  else None.

(** [uint64] of a float that is not negative and below [2 ^ 64]: truncation. *)
Definition f_trunc (x : f64) : Z :=
  match x with
  | S754_finite false m e => if 0 <=? e then Z.pos m * 2 ^ e else Z.pos m / 2 ^ (- e)
  | _ => 0
  end.

Definition fraction_of (f : Z) (unit : Z) (scale : f64) : Z := f_trunc (f_of_Z f * (f_of_Z unit / scale))%f64.

(** The number and unit in front: how much it adds, and the rest. *)
Definition one_part (s : bytes) : option (Z * bytes) :=
  match s with
  | [] => None
  | c :: _ =>
      if negb (Ascii.eqb c dot || digit c) then None
      else
        '(v, s1) ← leadingInt s 0;
        let pre := negb (length s =? length s1)%nat in
        let '(f, scale, s2, post) := match s1 with
          | c :: s1' => if Ascii.eqb c dot then let '(f, scale, s2) := leadingFraction s1' 0 f_one false in
                          (f, scale, s2, negb (length s1' =? length s2)%nat)
                        else (0, f_one, s1, false)
          | [] => (0, f_one, s1, false)
          end in
        if negb pre && negb post then None
        else
          let '(u, s3) := unit_name s2 in
          if bool_decide (u = []) then None
          else
            unit ← unitMap u;
            if 2 ^ 63 / unit <? v then None
            else
              let v := v * unit in
              if 0 <? f then let v := u64 (v + fraction_of f unit scale) in if 2 ^ 63 <? v then None else Some (v, s3)
              else Some (v, s3)
  end.

Fixpoint parts (fuel : nat) (s : bytes) (d : Z) : option Z :=
  match s with
  | [] => Some d
  | _ =>
      match fuel with
      | O => None
      | S fuel =>
          '(v, s) ← one_part s;
          let d := u64 (d + v) in
          if 2 ^ 63 <? d then None else parts fuel s d
      end
  end.

Definition ParseDuration (s : bytes) : option Duration :=
  let '(neg, s) := match s with
    | c :: s' => if Ascii.eqb c "-" then (true, s') else if Ascii.eqb c "+" then (false, s') else (false, s)
    | [] => (false, s)
    end in
  if bool_decide (s = bytes_of "0") then Some 0
  else match s with
       | [] => None
       | _ =>
           d ← parts (length s) s 0;
           if neg : bool then Some (i64 (- d)) else if 2 ^ 63 - 1 <? d then None else Some d
       end.

Example parse_durations :
  ParseDuration <$> (bytes_of <$> ["15s"; "1h30m"; "1.5h"; "0.000000001s"; "-2ms"; "0"; "30"; "s"; "1x"; "9223372036854775807ns"; "9223372036854775808ns"])%string =
  [Some (15 * Second); Some (5400 * Second); Some (5400 * Second); Some 1; Some (-2 * Millisecond); Some 0; None; None; None;
   Some (2 ^ 63 - 1); None].
Proof. vm_compute. reflexivity. Qed.

(** ** The control plane *)

(** [os.Getenv]: an unset variable is the empty string. *)
Notation environment := (string → string) (only parsing).

Record ControlPlaneConfig := {
  cf_OtelSink : string;
  cf_OtelEndpoint : string;
  cf_ListenAddress : string;
  cf_NatsConnectURL : string;
  cf_DatabaseURL : string;
  cf_StatePath : string;
  cf_DataDir : string;
  cf_AgentHeartbeatInterval : Duration;
  cf_SnapshotInterval : Duration;
  cf_DefaultedKeys : list string;
}.

Definition DefaultOtelSink : string := "stdout".
Definition DefaultOtelEndpoint : string := "otel-collector:4318".
Definition DefaultListenAddress : string := ":8080".
Definition DefaultNatsConnectURL : string := "nats://nats:4222".
Definition DefaultDatabaseURL : string := "postgres://postgres:admin@db:5432/postgres?sslmode=disable".
Definition DefaultStatePath : string := "/app/state/latest.json".
Definition DefaultDataDir : string := "/app/data".
Definition DefaultAgentHeartbeatInterval : Duration := 30 * Second.
Definition DefaultSnapshotInterval : Duration := 15 * Second.

Record resolver := { rs_defaulted : list string; rs_failed : bool }.

Definition warnDefault (r : resolver) (k : string) : resolver := {| rs_defaulted := rs_defaulted r ++ [k]; rs_failed := rs_failed r |}.
Definition fail (r : resolver) : resolver := {| rs_defaulted := rs_defaulted r; rs_failed := true |}.

Definition env_value (env : environment) (k : string) : bytes := TrimSpace (bytes_of (env k)).

Definition str (env : environment) (r : resolver) (k def : string) : resolver * string :=
  match env_value env k with
  | [] => (warnDefault r k, def)
  | val => (r, String.string_of_list_ascii val)
  end.

(** A duration, or a number of seconds; both in 64 bits. *)
Definition duration_of (val : bytes) : option Duration :=
  match ParseDuration val with
  | Some d => Some d
  | None => secs ← Atoi val; Some (i64 (secs * Second))
  end.

Definition duration (env : environment) (r : resolver) (k : string) (def : Duration) : resolver * Duration :=
  match env_value env k with
  | [] => (warnDefault r k, def)
  | val =>
      match duration_of val with
      | None => (fail r, def)
      | Some d => if d <=? 0 then (fail r, def) else (r, d)
      end
  end.

(** The configuration, or [None]: the process exits. *)
Definition GetConfig (env : environment) : option ControlPlaneConfig :=
  let r := {| rs_defaulted := []; rs_failed := false |} in
  let '(r, otelSink) := str env r "OTEL_SINK" DefaultOtelSink in
  let '(r, otelEndpoint) := str env r "OTEL_ENDPOINT" DefaultOtelEndpoint in
  let '(r, listenAddress) := str env r "CONTROL_PLANE_LISTEN_ADDRESS" DefaultListenAddress in
  let '(r, natsConnectURL) := str env r "NATS_CONNECT_URL" DefaultNatsConnectURL in
  let '(r, databaseURL) := str env r "MAETO_DB_URL" DefaultDatabaseURL in
  let '(r, statePath) := str env r "CONTROL_PLANE_STATE_DIR" DefaultStatePath in
  let '(r, dataDir) := str env r "CONTROL_PLANE_DATA_DIR" DefaultDataDir in
  let '(r, heartbeat) := duration env r "AGENT_HEARTBEAT_INTERVAL" DefaultAgentHeartbeatInterval in
  let '(r, snapshot) := duration env r "CONTROL_PLANE_SNAPSHOT_INTERVAL" DefaultSnapshotInterval in
  if rs_failed r then None
  else Some {| cf_OtelSink := otelSink; cf_OtelEndpoint := otelEndpoint; cf_ListenAddress := listenAddress;
               cf_NatsConnectURL := natsConnectURL; cf_DatabaseURL := databaseURL; cf_StatePath := statePath; cf_DataDir := dataDir;
               cf_AgentHeartbeatInterval := heartbeat; cf_SnapshotInterval := snapshot; cf_DefaultedKeys := rs_defaulted r |}.

(** ** Agent and portal *)

Definition getFromEnvOr (env : environment) (key fallback : string) : string :=
  if bool_decide (env key = ""%string) then fallback else env key.

Definition TryGetFromEnv (env : environment) (k : string) : option string :=
  if bool_decide (env k = ""%string) then None else Some (env k).

Record AgentConfig := { ac_OtelSink : string; ac_OtelEndpoint : string; ac_NatsConnectURL : string; ac_NodePath : string }.

Definition DefaultNodePath : string := "/etc/maeto/node.json".
Definition DefaultAgentNatsConnectURL : string := "nats://clab-eight-pop-nats:4222".

Definition agent_GetConfig (env : environment) : AgentConfig :=
  {| ac_OtelSink := getFromEnvOr env "OTEL_SINK" DefaultOtelSink;
     ac_OtelEndpoint := getFromEnvOr env "OTEL_ENDPOINT" DefaultOtelEndpoint;
     ac_NatsConnectURL := getFromEnvOr env "NATS_CONNECT_URL" DefaultAgentNatsConnectURL;
     ac_NodePath := getFromEnvOr env "MAETO_NODE_FILE" DefaultNodePath |}.

Record PortalConfig := {
  pc_OtelSink : string;
  pc_OtelEndpoint : string;
  pc_NatsConnectURL : string;
  pc_PortalID : string;
  pc_ShutdownGracePeriod : Duration;
}.

(** [None]: the process exits. *)
Definition portal_GetConfig (env : environment) : option PortalConfig :=
  otelSink ← TryGetFromEnv env "OTEL_SINK";
  let otelEndpoint := getFromEnvOr env "OTEL_ENDPOINT" "" in
  natsConnectUrl ← TryGetFromEnv env "NATS_CONNECT_URL";
  portalId ← TryGetFromEnv env "PORTAL_ID";
  gracePeriod ← ParseDuration (bytes_of (getFromEnvOr env "PORTAL_SHUTDOWN_GRACE_PERIOD" "15s"));
  Some {| pc_OtelSink := otelSink; pc_OtelEndpoint := otelEndpoint; pc_NatsConnectURL := natsConnectUrl;
          pc_PortalID := portalId; pc_ShutdownGracePeriod := gracePeriod |}.

(** ** The loops end *)

Lemma leadingInt_length s x v s' : leadingInt s x = Some (v, s') → (length s' ≤ length s)%nat.
Proof.
  revert x. induction s as [|c s IH]; intros x; cbn [leadingInt]; [by intros [= <- <-]|]. destruct (digit c); [|by intros [= <- <-]].
  destruct (_ <? x); [done|]. destruct (_ <? _); [done|]. intros Hl%IH. simpl. lia.
Qed.

Lemma leadingFraction_length s x scale o f sc s' : leadingFraction s x scale o = (f, sc, s') → (length s' ≤ length s)%nat.
Proof.
  revert x scale o. induction s as [|c s IH]; intros x scale o; cbn [leadingFraction]; [by intros [= <- <- <-]|].
  destruct (digit c); [|by intros [= <- <- <-]].
  destruct o; [intros Hl%IH; simpl; lia|]. destruct (_ <? x); [intros Hl%IH; simpl; lia|].
  destruct (_ <? _); intros Hl%IH; simpl; lia.
Qed.

Lemma unit_name_length s u s' : unit_name s = (u, s') → (length s' + length u = length s)%nat.
Proof.
  revert u. induction s as [|c s IH]; intros u; cbn [unit_name]; [by intros [= <- <-]|].
  destruct (_ || _); [by intros [= <- <-]|]. destruct (unit_name s) as [u' r]. intros [= <- ->]. simpl. pose proof (IH u' eq_refl). lia.
Qed.

(** A part takes at least its unit. *)
Lemma one_part_length s v s' : one_part s = Some (v, s') → (length s' < length s)%nat.
Proof.
  unfold one_part. destruct s as [|c0 s0]; [done|]. set (s := c0 :: s0). destruct (negb _); [done|].
  intros ([n s1] & Hi%leadingInt_length & Hr)%bind_Some.
  set (frac := match s1 with c :: s1' => _ | [] => _ end) in Hr.
  assert (∃ f scale s2 post, frac = (f, scale, s2, post) ∧ (length s2 ≤ length s1)%nat) as (f & scale & s2 & post & Hfr & Hl2).
  { unfold frac. destruct s1 as [|c s1']; [by exists 0, f_one, [], false|]. destruct (Ascii.eqb c dot); [|by exists 0, f_one, (c :: s1'), false].
    destruct (leadingFraction s1' 0 f_one false) as [[f sc] s2] eqn:Hf. apply leadingFraction_length in Hf.
    exists f, sc, s2, (negb (length s1' =? length s2)%nat). split; [done|]. simpl. lia. }
  rewrite Hfr in Hr. destruct (_ && _) in Hr; [done|]. destruct (unit_name s2) as [u s3] eqn:Hu. apply unit_name_length in Hu.
  case_bool_decide as Hne; [done|]. apply bind_Some in Hr as (unit & _ & Hr). destruct (_ <? n); [done|].
  assert (s3 = s') as <- by (destruct (0 <? f); [destruct (_ <? _)|]; by simplify_eq).
  destruct u; [done|]. simpl in *. lia.
Qed.

(** As many rounds as there are octets are enough. *)
Lemma parts_fuel fuel s d : (length s ≤ fuel)%nat → parts fuel s d = parts (length s) s d.
Proof.
  revert s d. enough (∀ n f1 f2 s d, (length s ≤ n → n ≤ f1 → n ≤ f2 → parts f1 s d = parts f2 s d)%nat) as Hx
    by (intros s d Hl; by apply (Hx (length s))).
  induction n as [|n IH]; intros f1 f2 s d Hs H1 H2.
  - destruct s; [|simpl in Hs; lia]. by destruct f1, f2.
  - destruct f1 as [|f1], f2 as [|f2]; try lia. destruct s as [|c s0]; [done|]. cbn [parts].
    destruct (one_part (c :: s0)) as [[v s']|] eqn:Hp; [|done]. apply one_part_length in Hp. simpl. destruct (_ <? _); [done|].
    apply IH; simpl in *; lia.
Qed.

Lemma strip_prefix_length p s s' : strip_prefix p s = Some s' → (length s' + length p = length s)%nat.
Proof.
  revert s. induction p as [|c p IH]; intros [|d s]; cbn [strip_prefix]; try done; try (intros [= <-]; simpl; lia).
  destruct (Ascii.eqb c d); [|done]. intros Hl%IH. simpl. lia.
Qed.

(** Trimming goes on until nothing is left to trim. *)
Lemma trim_with_done ps fuel s :
  Forall (λ p, p ≠ []) ps → (length s ≤ fuel)%nat → strip_one ps (trim_with ps fuel s) = None.
Proof.
  intros Hps. assert (∀ s s', strip_one ps s = Some s' → (length s' < length s)%nat) as Hlt.
  { induction Hps as [|p ps Hp Hps IH]; intros s0 s1; cbn [strip_one]; [done|].
    destruct (strip_prefix p s0) as [x|] eqn:Hx; [|by apply IH]. intros [= <-]. apply strip_prefix_length in Hx. destruct p; [done|]. simpl in Hx. lia. }
  revert s. induction fuel as [|fuel IH]; intros s Hl; cbn [trim_with].
  - destruct s; [|simpl in Hl; lia]. destruct (strip_one ps []) as [x|] eqn:Hx; [|done]. apply Hlt in Hx. simpl in Hx. lia.
  - destruct (strip_one ps s) as [s'|] eqn:Hs; [|done]. apply IH. apply Hlt in Hs. lia.
Qed.

Lemma spaces_nonempty : Forall (λ p, p ≠ []) spaces ∧ Forall (λ p, p ≠ []) (reverse <$> spaces).
Proof. split; apply (bool_decide_unpack _); vm_compute; exact I. Qed.

(** What is left neither starts nor ends with a space. *)
Lemma TrimSpace_trimmed s :
  strip_one (reverse <$> spaces) (reverse (TrimSpace s)) = None.
Proof.
  unfold TrimSpace. rewrite reverse_involutive. apply trim_with_done; [apply spaces_nonempty|]. by rewrite length_reverse.
Qed.

(** A number of seconds past the range of a duration wraps, and may come out
    positive. *)
Example seconds_wrap : duration_of (bytes_of "18446744074") = Some 290448384.
Proof. vm_compute. reflexivity. Qed.

(** ** Results *)

Definition unset (env : environment) (k : string) : Prop := env_value env k = [].
#[export] Instance unset_dec env k : Decision (unset env k).
Proof. unfold unset. apply _. Defined.

(** A duration variable is in order: unset, or a positive duration. *)
Definition duration_good (env : environment) (k : string) : Prop :=
  unset env k ∨ ∃ d, duration_of (env_value env k) = Some d ∧ 0 < d.

Lemma filter_unset env k l : filter (unset env) (k :: l) = (if decide (unset env k) then [k] else []) ++ filter (unset env) l.
Proof. rewrite filter_cons. by case_decide. Qed.

Lemma str_spec env r k def :
  let '(r', v) := str env r k def in
  rs_failed r' = rs_failed r ∧ rs_defaulted r' = rs_defaulted r ++ (if decide (unset env k) then [k] else []) ∧
  (unset env k → v = def) ∧ (¬ unset env k → bytes_of v = env_value env k).
Proof.
  unfold str. case_decide as Hu; unfold unset in *; destruct (env_value env k) as [|c val] eqn:Hv; try done.
  simpl. rewrite app_nil_r. split_and!; [done..|]. intros _. exact (String.list_ascii_of_string_of_list_ascii (c :: val)).
Qed.

Lemma duration_spec env r k def : 0 < def →
  let '(r', d) := duration env r k def in
  rs_defaulted r' = rs_defaulted r ++ (if decide (unset env k) then [k] else []) ∧ 0 < d ∧
  (rs_failed r' = false ↔ rs_failed r = false ∧ duration_good env k) ∧
  (unset env k → d = def) ∧ (rs_failed r' = false → ¬ unset env k → duration_of (env_value env k) = Some d).
Proof.
  intros Hdef. unfold duration, duration_good. case_decide as Hu; unfold unset in *; destruct (env_value env k) as [|c val] eqn:Hv; try done.
  - simpl. split_and!; try done. split; [by auto|by intros [? _]].
  - destruct (duration_of (c :: val)) as [d|] eqn:Hd; [destruct (Z.leb_spec d 0)|]; simpl; rewrite app_nil_r; split_and!; try done.
    + split; [done|]. intros [_ [?|(d' & [= <-] & ?)]]; [done|lia].
    + split; [eauto|]. by intros [? _].
    + split; [done|]. by intros [_ [?|(d' & ? & _)]].
Qed.

Definition config_strings : list string :=
  ["OTEL_SINK"; "OTEL_ENDPOINT"; "CONTROL_PLANE_LISTEN_ADDRESS"; "NATS_CONNECT_URL"; "MAETO_DB_URL"; "CONTROL_PLANE_STATE_DIR"; "CONTROL_PLANE_DATA_DIR"].
Definition config_durations : list string := ["AGENT_HEARTBEAT_INTERVAL"; "CONTROL_PLANE_SNAPSHOT_INTERVAL"].

(** The configuration is usable or the process stops.  The control plane
    starts exactly when each of the two interval variables is unset, blank or a
    positive duration or number of seconds; it then reports exactly the
    variables that fell back to a default, in order, and both intervals are
    positive, which the tickers made from them require. *)
Theorem GetConfig_usable env :
  (is_Some (GetConfig env) ↔ Forall (duration_good env) config_durations) ∧
  ∀ cfg, GetConfig env = Some cfg →
    cf_DefaultedKeys cfg = filter (unset env) (config_strings ++ config_durations) ∧
    0 < cf_AgentHeartbeatInterval cfg ∧ 0 < cf_SnapshotInterval cfg ∧
    (¬ unset env "CONTROL_PLANE_SNAPSHOT_INTERVAL" →
       duration_of (env_value env "CONTROL_PLANE_SNAPSHOT_INTERVAL") = Some (cf_SnapshotInterval cfg)) ∧
    (unset env "CONTROL_PLANE_SNAPSHOT_INTERVAL" → cf_SnapshotInterval cfg = DefaultSnapshotInterval) ∧
    (unset env "MAETO_DB_URL" → cf_DatabaseURL cfg = DefaultDatabaseURL).
Proof.
  unfold GetConfig. set (r0 := {| rs_defaulted := [] |}).
  pose proof (str_spec env r0 "OTEL_SINK" DefaultOtelSink) as S1. destruct (str env r0 _ _) as [r1 v1].
  pose proof (str_spec env r1 "OTEL_ENDPOINT" DefaultOtelEndpoint) as S2. destruct (str env r1 _ _) as [r2 v2].
  pose proof (str_spec env r2 "CONTROL_PLANE_LISTEN_ADDRESS" DefaultListenAddress) as S3. destruct (str env r2 _ _) as [r3 v3].
  pose proof (str_spec env r3 "NATS_CONNECT_URL" DefaultNatsConnectURL) as S4. destruct (str env r3 _ _) as [r4 v4].
  pose proof (str_spec env r4 "MAETO_DB_URL" DefaultDatabaseURL) as S5. destruct (str env r4 _ _) as [r5 v5].
  pose proof (str_spec env r5 "CONTROL_PLANE_STATE_DIR" DefaultStatePath) as S6. destruct (str env r5 _ _) as [r6 v6].
  pose proof (str_spec env r6 "CONTROL_PLANE_DATA_DIR" DefaultDataDir) as S7. destruct (str env r6 _ _) as [r7 v7].
  pose proof (duration_spec env r7 "AGENT_HEARTBEAT_INTERVAL" DefaultAgentHeartbeatInterval eq_refl) as S8. destruct (duration env r7 _ _) as [r8 v8].
  pose proof (duration_spec env r8 "CONTROL_PLANE_SNAPSHOT_INTERVAL" DefaultSnapshotInterval eq_refl) as S9. destruct (duration env r8 _ _) as [r9 v9].
  destruct S1 as (F1 & D1 & _), S2 as (F2 & D2 & _), S3 as (F3 & D3 & _), S4 as (F4 & D4 & _), S5 as (F5 & D5 & DB & _),
    S6 as (F6 & D6 & _), S7 as (F7 & D7 & _), S8 as (D8 & P8 & F8 & _), S9 as (D9 & P9 & F9 & U9 & V9).
  rewrite F7, F6, F5, F4, F3, F2, F1 in F8. cbn [rs_failed] in F8. split.
  - unfold config_durations. rewrite !list.Forall_cons. destruct (rs_failed r9) eqn:Hf.
    + split; [by intros [? ?]|]. intros (G1 & G2 & _). destruct F9 as [_ F9]. exfalso. discriminate F9. split; [by apply F8|done].
    + destruct F9 as [F9 _]. destruct (F9 eq_refl) as [H8%F8 H9]. destruct H8 as [_ H8]. split; [|eauto]. intros _. split_and!; [done..|constructor].
  - intros cfg. destruct (rs_failed r9) eqn:Hf; [done|]. intros [= <-].
    cbn [cf_DefaultedKeys cf_AgentHeartbeatInterval cf_SnapshotInterval cf_DatabaseURL]. split_and!; [|exact P8|exact P9|by apply V9|exact U9|exact DB].
    rewrite D9, D8, D7, D6, D5, D4, D3, D2, D1. cbn [rs_defaulted r0 app].
    unfold config_strings, config_durations. cbn [app]. rewrite !filter_unset, filter_nil, app_nil_r. by rewrite <-!app_assoc.
Qed.
