(* ===== verification/Runner.v ===== *)
(** The life of a probe in the supervisor (libs/probe/supervisor.go): which
    loop its goroutine runs, how it starts and ends, and how long [stop] waits
    for the probes it cancelled. *)
From S2P Require Import Prelude Netip Registry Resource Probe ProbeCorrect.

(** ** The runner *)

(** The loops of stamp.go and net_stat.go. *)
Inductive probe_loop :=
  | RunSTAMPSender (cfg : ProbeConfigSTAMP)
  | RunSTAMPReflector (cfg : ProbeConfigSTAMP)
  | RunNetStat (cfg : ProbeConfigNetStat).

(** An invalid configuration is an error before anything runs. *)
Definition NewDefaultRunner (cfg : ProbeConfig) : result probe_error probe_loop :=
  match cfg with
  | ConfigSTAMP cfg =>
      match Validate cfg with
      | Some err => Err err
      | None => Ok (if ps_IsSender cfg then RunSTAMPSender cfg else RunSTAMPReflector cfg)
      end
  | ConfigNetStat cfg => Ok (RunNetStat cfg)
  end.

(** ** A probe *)

Definition startProbe (cfg : ProbeConfig) (generation : Z) : ProbeRun :=
  {| pb_Config := cfg; pb_Generation := generation; pb_exited := None |}.

(** What the goroutine leaves when the runner returns: the end of the context
    is not an error. *)
Inductive runner_end := RunnerOk | RunnerCanceled | RunnerFailed (err : probe_error).

Definition probe_done (e : runner_end) (p : ProbeRun) : ProbeRun :=
  {| pb_Config := pb_Config p; pb_Generation := pb_Generation p;
     pb_exited := Some (match e with RunnerFailed err => Some err | _ => None end) |}.

Definition Exited (p : ProbeRun) : bool := match pb_exited p with Some _ => true | None => false end.
Definition ProbeErr (p : ProbeRun) : option probe_error := match pb_exited p with Some err => err | None => None end.

Definition hasStarted (s : Supervisor) : bool := sv_started s.

(** ** Stopping *)

Definition defaultStopTimeout : Duration := 10 * Second.

Definition stopTimeout (configured : Duration) : Duration := if configured <=? 0 then defaultStopTimeout else configured.

(** Waiting for the cancelled probes one after the other: [exit id] is when
    after the cancellation a probe's goroutine is done, if it ends, and
    [first id] is the choice of [select] when that and the deadline are both
    there. The result is how long the wait takes and the probe it gave up on. *)
Section stopping.
Context (timeout : Duration) (exit : string → option Duration) (first : string → bool).

Fixpoint await (now : Duration) (stopped : list (string * ProbeRun)) : Duration * option string :=
  match stopped with
  | [] => (now, None)
  | (id, _) :: stopped =>
      match exit id with
      | None => (timeout, Some id)
      | Some d =>
          let t := Z.max now d in
          if (t <? timeout) || ((t =? timeout) && first id) then await t stopped else (timeout, Some id)
      end
  end.

Definition stop (stopped : list (string * ProbeRun)) : list probe_event * (Duration * option string) :=
  match stopped with
  | [] => ([], (0, None))
  | _ => (cancel_events stopped, await 0 stopped)
  end.

Lemma await_bounds now stopped :
  0 ≤ now ≤ timeout → now ≤ (await now stopped).1 ≤ timeout.
Proof.
  revert now. induction stopped as [|[id p] stopped IH]; intros now Hn; simpl; [lia|].
  destruct (exit id) as [d|]; [|simpl; lia]. case_match eqn:Hc; [|simpl; lia].
  assert (Z.max now d ≤ timeout) as Hd.
  { apply orb_prop in Hc as [Hc%Z.ltb_lt|[Hc%Z.eqb_eq _]%andb_prop]; lia. }
  specialize (IH (Z.max now d)). lia.
Qed.

Lemma await_done now stopped :
  0 ≤ now < timeout → (∀ id p, (id, p) ∈ stopped → ∃ d, exit id = Some d ∧ d < timeout) →
  (await now stopped).2 = None ∧
  (∀ id p d, (id, p) ∈ stopped → exit id = Some d → d ≤ (await now stopped).1) ∧
  ((await now stopped).1 = now ∨ ∃ id p, (id, p) ∈ stopped ∧ exit id = Some (await now stopped).1).
Proof.
  revert now. induction stopped as [|[id p] stopped IH]; intros now Hn He; simpl.
  { split; [done|]. split; [by intros ??? ?%not_elem_of_nil|by left]. }
  destruct (He id p) as (d & Hd & Hlt); [by left|]. rewrite Hd. rewrite (proj2 (Z.ltb_lt _ _)) by lia. simpl.
  destruct (IH (Z.max now d)) as (Hnone & Hall & Hcase); [lia|intros id' p' Hp; apply (He id' p'); by right|].
  assert (Z.max now d ≤ (await (Z.max now d) stopped).1) as Hge. by (apply await_bounds; lia).
  split; [done|]. split.
  - intros id' p' d' [[= -> ->]|Hin]%elem_of_cons Hx; [|by apply (Hall id' p')]. rewrite Hd in Hx. injection Hx as ->. lia.
  - destruct Hcase as [Heq|(id' & p' & Hin & Hx)].
    + rewrite Heq. destruct (Z.max_spec now d) as [[? ->]|[? ->]]; [right|by left]. exists id, p. split; [by left|done].
    + right. exists id', p'. split; [by right|done].
Qed.
End stopping.

(** [stop] cancels every probe it is given, and is back by the deadline: at
    once when there is none, when the last of them is done when all end in
    time, and at the deadline when one does not. *)
Theorem stop_returns timeout exit first stopped :
  0 < timeout → (∀ id d, exit id = Some d → 0 ≤ d) →
  let '(events, (t, late)) := stop timeout exit first stopped in
  events = cancel_events stopped ∧ 0 ≤ t ≤ timeout ∧
  ((∀ id p, (id, p) ∈ stopped → ∃ d, exit id = Some d ∧ d < timeout) → late = None ∧
     ∀ t', 0 ≤ t' → (∀ id p d, (id, p) ∈ stopped → exit id = Some d → d ≤ t') → t ≤ t').
Proof.
  intros Ht Hx. unfold stop. destruct stopped as [|kp stopped]; [split_and!; [done|lia|lia|done]|].
  set (l := kp :: stopped). pose proof (await_bounds timeout exit first 0 l) as Hb. specialize (Hb ltac:(lia)).
  destruct (await timeout exit first 0 l) as [t late] eqn:Ha. simpl in Hb. split_and!; [done|lia|lia|].
  intros He. destruct (await_done timeout exit first 0 l) as (Hn & _ & Hcase); [lia|done|]. rewrite Ha in Hn, Hcase. simpl in *.
  split; [done|]. intros t' Ht' Hall. destruct Hcase as [->|(id & p & Hin & Hd)]; [done|]. by apply (Hall id p).
Qed.

(** ** What the supervisor starts runs *)

Lemma runs_insert (m : gmap string (option ProbeConfig)) k cfg :
  (∃ loop, NewDefaultRunner cfg = Ok loop) →
  map_Forall (λ _ c, ∃ cfg loop, c = Some cfg ∧ NewDefaultRunner cfg = Ok loop) m →
  map_Forall (λ _ c, ∃ cfg loop, c = Some cfg ∧ NewDefaultRunner cfg = Ok loop) (<[k := Some cfg]> m).
Proof. intros [loop Hl] Hm. apply map_Forall_insert_2; [|done]. by exists cfg, loop. Qed.

Lemma peer_config_runs p :
  addr_is_valid (pi_PeerAddress p) = true → NewDefaultRunner (ConfigSTAMP (peer_config p)) = Ok (RunSTAMPSender (peer_config p)).
Proof. intros Hv. cbn. rewrite Hv. reflexivity. Qed.

(** Every probe of the target the supervisor computes from an intent has a
    configuration the runner accepts: no probe it starts fails validation. *)
Theorem probe_target_runs `{RangeOrder} sha256_8 intent :
  map_Forall (λ _ c, ∃ cfg loop, c = Some cfg ∧ NewDefaultRunner cfg = Ok loop) (probe_target sha256_8 intent).
Proof.
  unfold probe_target. cbv zeta. apply runs_insert; [by eexists|]. apply runs_insert; [by eexists|].
  generalize (map_Forall_empty (λ (_ : string) (c : option ProbeConfig), ∃ cfg loop, c = Some cfg ∧ NewDefaultRunner cfg = Ok loop)).
  generalize (∅ : gmap string (option ProbeConfig)). induction ((range_map (pei_Peers intent)).*2) as [|p l IH]; intros m Hm; [done|].
  simpl. apply IH. unfold add_peer_probe. destruct (addr_is_valid (pi_PeerAddress p)) eqn:Hv; simpl; [|done].
  apply runs_insert; [|done]. eexists. by apply peer_config_runs.
Qed.

(** A probe [reconcileWithTarget] starts is the one [startProbe] makes; once
    its goroutine is done it is replaced at the next reconciliation. *)
Lemma start_probe_new generation probes log errs id cfg :
  probes !! id = None →
  start_probe generation (probes, log, errs) (id, Some cfg) =
  (<[id := startProbe cfg generation]> probes, log ++ [ProbeStarted id generation], errs).
Proof. intros Hn. cbn. by rewrite Hn. Qed.

Lemma done_replaced sha256_8 target id e p : keep_probe sha256_8 target id (probe_done e p) = false.
Proof. unfold keep_probe. simpl. by destruct (target !! id) as [[?|]|]. Qed.
