(* ===== verification/Process.v ===== *)
(** The three processes: the control plane's main with its two concurrent
    connections (services/control-plane/cmd/main.go), and the construction and
    start of the agent (maeto-agent/agent.go, cmd/main.go) and of the portal
    (maeto-portal/portal.go, cmd/main.go). *)
From S2P Require Import Prelude Netip Topology CostGraph Registry Inventory Resource Reconcile Probe Telemetry TelemetryCorrect Store Swan Tunnel Feed Lifecycle Startup Kv Config.

(** ** Connecting to the bus and the database *)

(** Attempts of [retry.Do], with their outcomes; retry-go is [retryDo]. *)
Definition connectAttempts : nat := 10.

(** One attempt at the bus: whether the connection and the JetStream context
    came. *)
Definition nats_attempt (a : bool * bool) : bool := a.1 && a.2.

Section connect.
Context (retryDo : nat → list bool → bool).

(** Whether it succeeds. An attempt that sets [js] is one that succeeds, so a
    failure leaves [js] unset. *)
Definition tryConnectToNATS (attempts : list (bool * bool)) : bool := retryDo connectAttempts (nats_attempt <$> attempts).

Definition tryConnectToDB (attempts : list bool) : bool := retryDo connectAttempts attempts.
End connect.

(** The goroutines of the group: each stores what its connection returned in
    variables of [main], the error in the one [err] both share, and then
    returns what [err] holds. The group keeps the first error returned. *)
Inductive connector := NATS | DB.

Inductive connect_error := NatsFailed | DbFailed.

Inductive goroutine := ToConnect | ToReturn | Returned.

Record connecting := {
  cn_nats : goroutine;
  cn_db : goroutine;
  cn_err : option connect_error;
  cn_js : bool;
  cn_store : bool;
  cn_group : option connect_error;
}.

Definition connect_start : connecting :=
  {| cn_nats := ToConnect; cn_db := ToConnect; cn_err := None; cn_js := false; cn_store := false; cn_group := None |}.

Definition first_error (a b : option connect_error) : option connect_error := match a with Some _ => a | None => b end.

(** A turn of a goroutine, given whether its connection succeeds. *)
Inductive connect_turn (nats_ok db_ok : bool) : connecting → connecting → Prop :=
  | NatsConnects s : cn_nats s = ToConnect →
      connect_turn nats_ok db_ok s
        {| cn_nats := ToReturn; cn_db := cn_db s; cn_err := if nats_ok then None else Some NatsFailed;
           cn_js := nats_ok; cn_store := cn_store s; cn_group := cn_group s |}
  | DbConnects s : cn_db s = ToConnect →
      connect_turn nats_ok db_ok s
        {| cn_nats := cn_nats s; cn_db := ToReturn; cn_err := if db_ok then None else Some DbFailed;
           cn_js := cn_js s; cn_store := db_ok; cn_group := cn_group s |}
  | NatsReturns s : cn_nats s = ToReturn →
      connect_turn nats_ok db_ok s
        {| cn_nats := Returned; cn_db := cn_db s; cn_err := cn_err s; cn_js := cn_js s; cn_store := cn_store s;
           cn_group := first_error (cn_group s) (cn_err s) |}
  | DbReturns s : cn_db s = ToReturn →
      connect_turn nats_ok db_ok s
        {| cn_nats := cn_nats s; cn_db := Returned; cn_err := cn_err s; cn_js := cn_js s; cn_store := cn_store s;
           cn_group := first_error (cn_group s) (cn_err s) |}.

(** [g.Wait] is back when both have returned. *)
Definition joined (s : connecting) : Prop := cn_nats s = Returned ∧ cn_db s = Returned.

(** Along every interleaving. *)
Record connect_inv (nats_ok db_ok : bool) (s : connecting) : Prop := {
  ci_js : cn_nats s ≠ ToConnect → cn_js s = nats_ok;
  ci_store : cn_db s ≠ ToConnect → cn_store s = db_ok;
  ci_good : nats_ok = true → db_ok = true → cn_err s = None ∧ cn_group s = None;
  ci_bad : nats_ok = false → db_ok = false →
    (cn_nats s ≠ ToConnect ∨ cn_db s ≠ ToConnect → cn_err s ≠ None) ∧
    (cn_nats s = Returned ∨ cn_db s = Returned → cn_group s ≠ None);
}.

Lemma connect_inv_start nats_ok db_ok : connect_inv nats_ok db_ok connect_start.
Proof. split; simpl; try done. intros _ _. split; by intros [|]. Qed.

Lemma first_error_None a b : first_error a b = None ↔ a = None ∧ b = None.
Proof. destruct a; naive_solver. Qed.

Lemma connect_inv_turn nats_ok db_ok s s' :
  connect_turn nats_ok db_ok s s' → connect_inv nats_ok db_ok s → connect_inv nats_ok db_ok s'.
Proof.
  intros Hturn [Hjs Hst Hg Hb]. destruct Hturn as [s Hc|s Hc|s Hc|s Hc]; split; simpl; intros.
  all: try (first [apply Hjs|apply Hst]; congruence).
  all: try done.
  - subst. split; [done|]. by apply Hg.
  - subst. destruct Hb as [Hb1 Hb2]; [done..|]. split; [done|]. intros [?|?]; [done|]. apply Hb2. by right.
  - subst. split; [done|]. by apply Hg.
  - subst. destruct Hb as [Hb1 Hb2]; [done..|]. split; [done|]. intros [?|?]; [|done]. apply Hb2. by left.
  - destruct Hg as [-> ->]; done.
  - destruct Hb as [Hb1 Hb2]; [done..|]. assert (cn_err s ≠ None) by (apply Hb1; left; congruence).
    rewrite first_error_None. naive_solver.
  - destruct Hg as [-> ->]; done.
  - destruct Hb as [Hb1 Hb2]; [done..|]. assert (cn_err s ≠ None) by (apply Hb1; right; congruence).
    rewrite first_error_None. naive_solver.
Qed.

(** When the group is back: with both connections up there is no error and both
    are set, and when both failed there is one. *)
Theorem connect_joined nats_ok db_ok s :
  rtc (connect_turn nats_ok db_ok) connect_start s → joined s →
  cn_js s = nats_ok ∧ cn_store s = db_ok ∧
  (nats_ok = true → db_ok = true → cn_group s = None) ∧ (nats_ok = false → db_ok = false → cn_group s ≠ None).
Proof.
  intros Hrun [Hn Hd].
  assert (connect_inv nats_ok db_ok s) as [Hjs Hst Hg Hb].
  { revert Hrun. apply (rtc_ind_r (connect_inv nats_ok db_ok)); eauto using connect_inv_start, connect_inv_turn. }
  split_and!; [apply Hjs; congruence|apply Hst; congruence|intros; by apply Hg|]. intros Hn' Hd'. apply Hb; auto.
Qed.

(** One failure can be lost: the database connection succeeds between the
    failure of the bus and its return, and clears the error that is returned.
    [main] goes on without a bus. *)
Theorem failure_overwritten : ∃ s, rtc (connect_turn false true) connect_start s ∧ joined s ∧ cn_group s = None ∧ cn_js s = false.
Proof.
  eexists. split; [|split_and!].
  - eapply rtc_l; [by apply NatsConnects|]. eapply rtc_l; [by apply DbConnects|].
    eapply rtc_l; [by apply NatsReturns|]. eapply rtc_l; [by apply DbReturns|]. apply rtc_refl.
  - done.
  - done.
  - done.
Qed.

(** [main] after the group: what it hands to [NewController]. *)
Inductive main_end := ExitFailure | MainRuns (js store : bool).

Definition after_connecting (s : connecting) : main_end :=
  match cn_group s with Some _ => ExitFailure | None => MainRuns (cn_js s) (cn_store s) end.

(** ** The agent *)

Record Agent := {
  ag_node : AgentNode;
  ag_reconciler : Reconciler;
  ag_reporter : option (string * string);
  ag_dispatcher : NATSDispatcherConfig;
  ag_supervisor : Supervisor;
  ag_feeds : agent_feeds;
}.

Definition NewAgent (node : AgentNode) : Agent :=
  {| ag_node := node; ag_reconciler := NewReconciler NodeTypePE; ag_reporter := None;
     ag_dispatcher := NewNATSDispatcher {| nd_SubjectPrefix := cat [ProbeResultSubjectPrefix; "."; an_ID node];
                                           nd_PublishTimeout := 5 * Second |};
     ag_supervisor := NewSupervisor; ag_feeds := no_feeds |}.

(** The reporter's key in the state bucket and the id it fills in. *)
Definition SetStateReporter (a : Agent) (key nodeID : string) : Agent :=
  {| ag_node := ag_node a; ag_reconciler := ag_reconciler a; ag_reporter := Some (key, nodeID);
     ag_dispatcher := ag_dispatcher a; ag_supervisor := ag_supervisor a; ag_feeds := ag_feeds a |}.

(** The goroutines of [Run], with the bucket keys they use. *)
Inductive activity :=
  | TopologyReports (key : string)
  | ReconcilerStart
  | SupervisorStart
  | IntentWatch (key : string)
  | TunnelUpdates
  | ResyncWatch.

Inductive run_end := NotReady | NoTunnelEvents | SetupFailed | ContextEnded.

Record process_run (P : Type) := {
  pr_process : P;
  pr_started : list activity;
  pr_requests : list vici_request;
  pr_end : run_end;
}.
Arguments pr_process {P} _.
Arguments pr_started {P} _.
Arguments pr_requests {P} _.
Arguments pr_end {P} _.

(** What the surroundings answer: the control plane's readiness, whether the
    events of strongSwan can be watched, the files and the daemon. *)
Record surroundings := {
  su_ready : list ready_attempt;
  su_events : bool;
  su_readFile : string → option string;
  su_call : vici_request → bool;
}.

Section agent.
Context {S Data : Type} `{KeyValueServer S Data}.

(** [Run], or [None] while it still waits for the control plane. A state
    bucket that cannot be opened costs only the reports. *)
Definition agent_Run (s : S) (w : surroundings) (a : Agent) : option (process_run Agent) :=
  ready ← agent_waitForReady (su_ready w);
  if negb ready then Some {| pr_process := a; pr_started := []; pr_requests := []; pr_end := NotReady |} else
  let id := an_ID (ag_node a) in
  let '(a, reports) :=
    match (NewPublisher s NodeStateBucket).2 with
    | Err _ => (a, [])
    | Ok _ => (SetStateReporter a (Key PrefixPE id LaneDataplane) id, [TopologyReports (Key PrefixPE id LaneTopology)])
    end in
  let started := reports ++ [ReconcilerStart; SupervisorStart; IntentWatch (Key PrefixPE id LaneIntent)] in
  if negb (su_events w) then Some {| pr_process := a; pr_started := started; pr_requests := []; pr_end := NoTunnelEvents |} else
  let '(ok, reqs) := agent_setup (su_readFile w) (su_call w) (ag_node a) in
  Some {| pr_process := a; pr_started := started ++ [TunnelUpdates; ResyncWatch]; pr_requests := reqs;
          pr_end := if ok then ContextEnded else SetupFailed |}.
End agent.

(** ** The portal *)

Record Portal := { pt_config : PortalConfig; pt_reconciler : Reconciler; pt_intentFeed : list NodeIntent }.

Definition NewPortal (config : PortalConfig) : Portal :=
  {| pt_config := config; pt_reconciler := NewReconciler NodeTypeCPE; pt_intentFeed := [] |}.

(** [Run]: the tunnel is up before the portal follows its intent. *)
Definition portal_Run (w : surroundings) (auth : option PortalAuthEndpointResponse) (attempts : list attempt) (p : Portal) :
    option (process_run Portal) :=
  ready ← portal_waitForReady (su_ready w);
  if negb ready then Some {| pr_process := p; pr_started := []; pr_requests := []; pr_end := NotReady |} else
  if negb (su_events w) then Some {| pr_process := p; pr_started := []; pr_requests := []; pr_end := NoTunnelEvents |} else
  let '(ok, reqs) := portal_setup (su_readFile w) (su_call w) auth attempts in
  if negb ok then Some {| pr_process := p; pr_started := [TunnelUpdates]; pr_requests := reqs; pr_end := SetupFailed |} else
  Some {| pr_process := p;
          pr_started := [TunnelUpdates; ResyncWatch; ReconcilerStart; IntentWatch (Key PrefixCPE (pc_PortalID (pt_config p)) LaneIntent)];
          pr_requests := reqs; pr_end := ContextEnded |}.

(** [Run] reports an error to [main] in two cases; a portal that never became
    ready, or whose context ended, leaves with none. *)
Definition portal_exit (e : run_end) : bool := match e with NoTunnelEvents | SetupFailed => false | _ => true end.

(** ** The mains of the nodes *)

Inductive start_failure := NoInstanceId | NoNodeFile | NoLogging | NoTracing | NoBus | NoJetStream | NoSwan.

(** The steps before the agent is made, in order: [None] goes on. The
    dataplane is whatever came of it, its failure is only logged. *)
Record main_world := {
  mw_random : bool; mw_logging : bool; mw_tracing : bool; mw_nats : bool; mw_jetstream : bool;
  mw_dataplane : bool; mw_swan : list bool;
}.

Definition swanAttempts : nat := 3.

Definition main_failure (retryDo : nat → list bool → bool) (w : main_world) (node_ok : bool) : option start_failure :=
  if negb (mw_random w) then Some NoInstanceId
  else if negb node_ok then Some NoNodeFile
  else if negb (mw_logging w) then Some NoLogging
  else if negb (mw_tracing w) then Some NoTracing
  else if negb (mw_nats w) then Some NoBus
  else if negb (mw_jetstream w) then Some NoJetStream
  else if negb (retryDo swanAttempts (mw_swan w)) then Some NoSwan
  else None.

(** The agent and whether it has a dataplane. *)
Definition agent_main (retryDo : nat → list bool → bool) (w : main_world) (file : option (option AgentNode)) :
    result start_failure (Agent * bool) :=
  match LoadNode file with
  | None => Err (default NoNodeFile (main_failure retryDo w false))
  | Some node =>
      match main_failure retryDo w true with
      | Some e => Err e
      | None => Ok (NewAgent node, mw_dataplane w)
      end
  end.

(** The portal's, whose configuration ends the process when it is incomplete. *)
Definition portal_main (retryDo : nat → list bool → bool) (w : main_world) (config : option PortalConfig) :
    option (result start_failure (Portal * bool)) :=
  if negb (mw_random w) then Some (Err NoInstanceId) else
  config ← config;
  Some (match main_failure retryDo w true with
        | Some e => Err e
        | None => Ok (NewPortal config, mw_dataplane w)
        end).

(** Both nodes run without a dataplane when it could not be opened. *)
Lemma agent_without_dataplane retryDo w file node :
  LoadNode file = Some node → main_failure retryDo w true = None → mw_dataplane w = false →
  agent_main retryDo w file = Ok (NewAgent node, false).
Proof. intros Hf Hm Hd. unfold agent_main. by rewrite Hf, Hm, Hd. Qed.

(** ** The parts meet *)

(** An agent that became ready runs its reconciler and watches the key under
    which the registry publishes the intents of its node. *)
Theorem agent_watches_its_intent {Bus Data : Type} `{KeyValueServer Bus Data} (s : Bus) w a r e :
  agent_Run s w a = Some r → pr_end r ≠ NotReady → ni_NodeType e = NodeTypePE →
  ReconcilerStart ∈ pr_started r ∧
  ∃ key, publish_key e (an_ID (ag_node a)) = Some key ∧ IntentWatch key ∈ pr_started r.
Proof.
  intros Hr Hend He. unfold publish_key. rewrite He. unfold agent_Run in Hr.
  destruct (agent_waitForReady (su_ready w)) as [ready|]; [|done]. cbn [mbind option_bind] in Hr.
  destruct ready; cbn [negb] in Hr; [|by injection Hr as <-].
  destruct (match (NewPublisher s NodeStateBucket).2 with Err _ => _ | Ok _ => _ end) as [a' reports].
  destruct (su_events w); cbn [negb] in Hr; [destruct (agent_setup _ _ _) as [ok reqs]|]; injection Hr as <-; simpl.
  all: split; [|eexists; split; [done|]]; set_solver.
Qed.

Lemma telemetry_collectors_lookup `{RangeOrder} inv n :
  n ∈ Nodes inv →
  telemetry_collectors inv !! in_ID n = Some (NewTelemetryCollector (in_ID n) (cat [ProbeResultSubjectPrefix; "."; in_ID n])).
Proof.
  unfold telemetry_collectors. generalize (∅ : gmap NodeID TelemetryCollector).
  induction (Nodes inv) as [|n' l IH] using rev_ind; intros m; [by intros ?%not_elem_of_nil|].
  rewrite foldl_app. cbn [foldl]. intros [Hn|Hn]%elem_of_app.
  - destruct (decide (in_ID n' = in_ID n)) as [->|Hne]; [by rewrite lookup_insert_eq|]. rewrite lookup_insert_ne by done. by apply IH.
  - apply list_elem_of_singleton in Hn as ->. by rewrite lookup_insert_eq.
Qed.

Lemma NewController_collectors `{RangeOrder} w s c s' :
  NewController w s = (Ok c, s') → ctl_telemetryCollectors c = telemetry_collectors (ctl_inventory c).
Proof.
  intros (t & inv & repo & mode & state & s1 & _ & Ha & _)%NewController_Ok. unfold assemble in Ha.
  destruct (TopologyGraph t); [|done]. destruct (NewCostGraph _ _); [|done]. destruct (sw_bucket_ok w); [|done].
  cbn [negb] in Ha. destruct (load_registry _ _ _) as [[r s2]|]; [|done]. by injection Ha as <- _.
Qed.

(** Probe results find their way: for every node of the inventory whose name
    has no dot, the collector of the controller that was started takes what
    the node's agent dispatches, and hands a STAMP result to the latency and
    loss accounting of its key and counters to the rows of that node. *)
Theorem agent_results_collected `{RangeOrder} Log1p w s c s' n node result cg db_ok ts now msg :
  NewController w s = (Ok c, s') → n ∈ Nodes (ctl_inventory c) → an_ID node = in_ID n → no_dot (in_ID n) →
  Dispatch (ag_dispatcher (NewAgent node)) result true = Some msg →
  ∃ t, ctl_telemetryCollectors c !! in_ID n = Some t ∧
  (rp_ProbeType result = ProbeTypeSTAMP →
   handleTelemetryConsume Log1p t cg db_ok ts now msg =
   let '(t, cg, rows, err) := handleSTAMP Log1p t cg db_ok ts now (rp_Data result) (rp_TelemetryKey result) in
   (t, cg, {| co_link := rows; co_iface := []; co_err := err |})) ∧
  (rp_ProbeType result = ProbeTypeNetStat →
   handleTelemetryConsume Log1p t cg db_ok ts now msg =
   let '(rows, err) := handleNetStat db_ok result (in_ID n) in
   (t, cg, {| co_link := []; co_iface := rows; co_err := err |})).
Proof.
  intros Hc%NewController_collectors Hn Hid Hdot Hmsg. eexists. split; [rewrite Hc; by apply telemetry_collectors_lookup|].
  eapply result_delivered; [done| |done|exact Hmsg]. cbn [ag_dispatcher NewAgent]. by rewrite Hid.
Qed.
